(* ===== verification/_CoqProject ===== *)
-Q . S2P
Prelude.v
Events.v
GrantSpec.v
Ticker.v
Locks.v
Leases.v
Membership.v
FSM.v
Bus.v
Watch.v
EventService.v
Node.v
Cluster.v
LockService.v
LeaseService.v
JoinService.v
Heartbeat.v
Presence.v
Config.v
Store.v
App.v
Units.v
Daemon.v
Sdk.v
SdkGrants.v
Timeline.v
SdkWatch.v
Examples.v
Server.v
Pki.v
JoinFlow.v
Startup.v
OperatorResources.v
Operator.v
OperatorSeed.v
OperatorToken.v
Init.v
SdkTls.v
OperatorKube.v
Controller.v
Rig.v
RigStart.v
Bench.v
Soak.v
Cli.v
Reports.v
