(* ===== verification/Prelude.v ===== *)
(** * Clusdr: a verification development

    Clusdr ([src/]) is a daemon that gives the processes of a host a view of their
    cluster: members and leader, locks with fencing tokens, leases, custom events
    and a watch stream.  State changes are commands of a Raft log
    ([hashicorp/raft]); each daemon applies them to a finite state machine over
    three in-memory structures and serves gRPC from them.  Requests that reach a
    follower are forwarded to the leader.  This library models the logic of the
    daemon, of its command line, of its Go client library and the sample programs
    that use it, of its Kubernetes operator and of the programs that measure and
    soak a cluster, component by component, and proves what makes it correct.

    ** How the parts interact

    Client or CLI -> gRPC services ([internal/grpcserver]) -> consensus node
    ([internal/consensus/node.go]) -> Raft -> FSM ([internal/consensus/fsm.go]) ->
    tables ([internal/locks], [internal/leases], [internal/membership]) -> events
    -> bus ([internal/eventbus]) -> watch streams and the presence watcher
    ([internal/presence]) -> back to the node as member commands.
    [internal/app] wires the parts and starts and stops them.  Applications use
    the services through the Go SDK ([sdk]), which retries, renews what it holds
    and reopens watch streams.  The operator ([internal/operator]) installs a
    cluster on Kubernetes: it runs [clusdr init] on a seed node, keeps the join
    token, starts the other daemons and joins them through their control API.

    ** Files

    - [Prelude] (this file): machine integers with their wrap-around, times and
      durations in nanoseconds, errors as format and arguments, gRPC status,
      UTF-8 decoding and Unicode classes, sorting by a key, tables whose entries
      carry their key, the tactics [go_cases] and [breflect], the hint base
      [clusdr].
    - [Events]: [internal/events] (event record, type names, topics).
    - [GrantSpec]: the abstract contract of locks and leases, a map from names to
      a holder and a token with a growing counter, as a labelled step relation
      [gstep]; exclusion, fencing and staleness are proved of its traces.
    - [Locks], [Leases]: [internal/locks] and [internal/leases] (table, snapshot,
      restore, expirer); each operation is proved to be a [gstep], a well-formed
      table stays well-formed, and [FSM] makes both tables instances of the class
      [GrantLaws] that its theorems are proved against.
    - [Membership]: [internal/membership/engine.go], with reachability
      [mreachable] over its operations; its instance of [MemberLaws] is in [FSM].
    - [FSM]: [internal/consensus/command.go] and [fsm.go]: commands, [Apply],
      [Snapshot], [Restore], over the interfaces of the three structures.
    - [Bus]: [internal/eventbus/bus.go].  [Watch]: [grpcserver/watch.go].
      [EventService]: [grpcserver/events.go] and [internal/uid].
    - [Node]: [internal/consensus/node.go] over the interface [RaftLib].
      [Cluster]: all servers as one transition system over the committed log
      (start, apply, snapshot, restore), with an invariant by induction on its
      steps; a server of it is an instance of [RaftLib] ([cluster_node]), so the
      calls of [Node] run against it.
    - [LockService], [LeaseService], [JoinService]: [grpcserver/locks.go],
      [leases.go], [join.go].  [Heartbeat]: [internal/heartbeat/monitor.go] and
      the health, membership and heartbeat services.
    - [Presence]: [internal/presence] (names, keeper, holder, expiry).
    - [Ticker]: the goroutine that the monitor, the keeper, the expirers and the
      SDK's renewals share: [Start], [Stop] and a ticker, as operations on
      goroutines, and the times of its works.  [Daemon]: the background activities
      of one node (expirers, heartbeat, presence keeper and watcher) as turns on
      its FSM and its bus, wired as in [units.go].  [Timeline]: the lock table over
      time, with the expirer's ticks and the SDK's renewals.
    - [Config]: [internal/config/config.go].  [Store]: [internal/store/store.go]
      and [internal/app/joinsec.go].
    - [App]: [internal/app/app.go] and [lifecycle.go].  [Units]: the parts of
      [internal/app/units.go] that decide something, and the consensus node seen
      through the interfaces of the services.
    - [Sdk]: [sdk/retry.go], [options.go], [tls.go], [client.go] (retries, options,
      dialling, unary calls).  [SdkGrants]: [sdk/lock.go], [lease.go] (handles on a
      heap shared with their renewing goroutines, whose rounds are ticks), proved
      against the daemon's own [LockService].  [SdkWatch]: [sdk/watch.go] and
      [watchLoop] against a list of stream sessions.
    - [Examples]: [examples/*/go], programs over the interface of [sdk/clusdr.go]
      ([Examples.Cluster]), which [SdkGrants] implements.
    - [Server]: [grpcserver/server.go], [tls.go], [internal/mtls], [InitGRPC].
      [Pki]: [internal/pki] (CA, node certificates, join tokens).  [JoinFlow]: two
      daemons wired as [InitGRPC] wires them, from [clusdr join] to both stores.
    - [Startup]: [New] and the leader watchers of [consensus/node.go], and every unit
      of [DefaultUnits] with what it opens, run by [App.InitApp].
    - [Init]: [cmd/clusdr/init.go], the command as steps on a host, over [Config],
      [Store], [Pki] and [Server.WriteFiles].  [SdkTls]: [sdk/tls.go], the client's
      trust in the daemon of its host.
    - [OperatorResources]: [internal/operator/resources.go], [sidecar.go] (every
      Kubernetes object).  [Operator]: [reconcile.go], [seed.go] and the rest of
      the reconciler as a program over the calls of [Platform] and [Joiner].
      [OperatorSeed]: reconciles that interleave on one object.  [OperatorToken]:
      the summary of [clusdr init] and the operator's reading of it.
      [OperatorKube]: [kube.go], [parse.go], [runtime.go], the implementations
      behind those calls, and a round of the worker.  [Controller]: the rest of
      [controller.go] over a work queue, and [cmd/clusdr-operator].
    - [Rig], [RigStart]: [internal/bench/cluster.go], the cluster of Raft nodes in one
      process that benchmark and soak run build (links, waits, retries, start and
      close), over the classes [Clock], [Transports] and [Rigging].  [Bench]: the
      rest of [internal/bench] and [cmd/clusdr-bench].  [Soak]: [internal/soak].
    - [Cli]: [cmd/clusdr]: what each command loads, dials, asks and prints, over the
      handlers of [JoinService] and the configuration of [Config].
    - [Reports]: the text and JSON of the benchmark's and the soak's reports, and the
      commands that print them.

    Operations keep the names of the Go functions.  A method becomes a function
    from a state to the new state, its result, and the events and condition
    broadcasts it emits; a mutex-protected method is one step.  [time.Now()],
    random bytes, the file system, the environment and the network are arguments.
    A handler that talks to consensus or to other daemons runs over a world [W]
    with the interfaces the code declares ([LockRaft], [VoterAdder], ...) as
    records of functions, so that effects happen in the order of the calls.

    ** What the theorems show

    - Replicated state: two grants of one lock (or lease) to different holders are
      separated by an applied release or expiry and have growing tokens; an ended
      token is refused ever after; replicas that apply the same log agree on
      answers, tables and members (up to the clock readings taken while applying);
      what a snapshot and a restore preserve; what a table snapshot preserves.  All
      of it for a whole cluster through restarts, snapshots of other servers and
      changes of leader: every server refines [GrantSpec] at the entries it
      reflects, a grant after a failover is fenced off from the one before, and the
      members the log lists are listed everywhere; that a dropped member can come
      back with a snapshot is proved too.
    - Expiry: the scan of the leader proposes exactly what is due; an expiry
      command does not look at the deadline, so a renewal in between is lost.
    - Events and streams: every membership change is announced exactly once; a
      subscriber loses nothing without being told; a stream starts with the
      snapshot, the sync mark and the gap; it stays ordered and its gaps are true;
      where the code falls short (reordering by concurrent publishers, a gap
      forgotten under back pressure, prefixed topics) that is proved too.
    - Services: lifetimes are clamped, the granted lock is the committed one, a
      blocked waiter makes progress after a release but can miss a wakeup, an
      empty holder is filled in by the leader, joins need the token and commit in
      order, a rejoin adds no server.
    - Liveness: a peer is reported after consecutive misses only; the end of a
      presence lease marks a dead peer, on the leader, once; the keeper heals.  A
      crashed node is found dead when the watcher's queue has room, and is not when
      it is full; a dead member comes back by [add_member] alone.
    - Time: a background goroutine that is stopped stays stopped, and [Stop]
      returns; a lock the SDK renews outlives every tick of the expirer while the
      calls are quick enough for the lifetime, and an abandoned one is free an
      interval after its deadline.  Lifetimes of up to 50 ms, or of three times the
      granted maximum, lapse before the first renewal.
    - Joining end to end: only the token that [init] printed lets a node in; a node
      that is told it joined is in the Raft configuration and the member list, has a
      certificate under the CA and no CA key, and checks the same token.  A client
      on an initialised host finds the daemon's files and trusts it for the lifetime
      of its certificate.
    - Process: units unwind in reverse, [Wait] loses no serve error, the store
      commits all or nothing, a joined node has no CA key and checks the seed's
      token, the announcement after a restart is bounded and respects a leave.
    - Server: over TLS only [Join], [Health] and reflection answer a caller without
      a certificate, no panic leaves the server; a node without certificates dials
      an mTLS cluster in plaintext.  Nodes with certificates of one CA accept each
      other exactly during the lifetime of the certificate shown.
    - Start: the daemon starts with everything wired or releases what it opened,
      except what a failed [New] leaves; the member list follows the leader while
      the callback keeps up.  The token [clusdr init] prints is the one the operator
      reads and the seed checks, and a second run changes nothing; an interrupted
      run leaves a store without certificates that takes any token.
    - SDK: a retried [TryLock] over a lossy connection leaves the table and the
      answer of one call; retries end with their context; [Close] gives every grant
      back; topics filter as the server does; a reopened stream reports what it
      missed.  Two shortcomings are proved: a renewal that meets an election stops
      for good while the handle stays held, and a gap announced after the sync
      mark of a reopened stream is forgotten.  The fences of the sample scheduler
      increase from replica to replica; when an unlock fails it leaves its lock
      behind.
    - Command line: the commands of a host reach its daemon only when TLS is off or
      the daemon has certificates; [start] ignores the log flags; [certs show] prints
      six bytes of the token's hash and no key.
    - Benchmark and soak run: a rig comes up whole or leaves nothing open; a run
      ends, its counters add up, its verdict is the one of its samples (nearest-rank
      percentiles) and of its log (an audit equal to its specification); waits and
      retries end with their context; the error paths that leave a node running or
      report a released lock as a failure are proved too.
    - Operator: no key leaves its queue for good; whatever the platform answers,
      calls come in the order the installation needs; concurrent reconciles never build two seeds; the objects
      agree with each other; a status patch never clears the seed; the token of
      [init] survives printing, parsing and storing; one reconcile makes no more
      voters than the spec asks for, several can.  Against an mTLS cluster the
      operator, which has no certificate, is refused.

    ** Bounds and fuel

    The blocking [Lock] takes [fuel] rounds of its loop; the termination argument
    is the step system [LockService.LockWait] instead, which has no fuel.
    [InitAnnounce] needs 100 units of fuel: each attempt sleeps 100ms of a ten
    second budget ([announce_terminates]).  The SDK's [retry] takes [fuel] attempts;
    under a deadline it ends once the fuel exceeds the attempts that fit, at 50ms
    each or more ([sdk_retry_terminates]).  A watch runs over a finite list of
    sessions.  A reconcile is a finite tree and needs no fuel; its histories are
    all its branches.  The loops of [Rig], [Bench] and [Soak] take the number of
    polls or rounds their sleeps fit before the deadline of their context
    ([Rig.rounds]), which is proved to be enough ([rig_calls_end], [Run] of both
    ends); without a deadline they may wait forever, as the code does.  The loops of
    the sample programs and of the operator's worker never end by themselves: their
    theorems hold for any number of rounds.  The theorems
    about tokens and sequence numbers assume that the 64-bit counters have room for
    the operations at hand ([room], [has_room]); everything else is unbounded.

    ** Parameters

    Code that is not part of the repository is a parameter with the behaviour the
    daemon relies on as named laws: [RaftLib] (an [Apply] without an error was
    committed and applied), [Codec] (JSON decodes what it encoded), [Bolt] (an
    update commits or rolls back), [X509] and [TLSLib] (certificates say what their
    template says and verify under their CA; PEM and PKCS 8 decode what they
    encoded), [OS] and [BoltFiles] (files and databases keep what was written), the
    YAML decoder and [time.ParseDuration], and the Unicode tables above Latin-1; for
    the rig [Clock], [Transports] and the classes of [Bench] and [Soak] built on them
    (sleeping moves the clock, links are what was connected); [WorkQueue] (a key that
    was added waits until it is taken).  Each class has a concrete instance, used by
    the witnesses.  [Cluster] takes from [hashicorp/raft] that committed entries have
    one order in which every FSM is handed them; what it reports to a caller, its
    configuration and its elections are arguments.

    The Kubernetes API ([Api]) and the daemons as the operator reaches them
    ([Daemons]) are records of functions; [OperatorSeed] states what the API
    promises of resource versions.

    ** Not modelled

    Flag parsing by cobra, the column widths of tabwriter and [Printf], the version
    command, generated protobuf code, logging (apart from the capture of the soak run
    and the sample programs), the delivery of signals, and client-go's informer.  [Startup] takes the outcome of each call on
    the system and on hashicorp/raft as given, as [Rig] does for the in-memory
    transports.  Goroutine scheduling appears only as the order of steps, timers as
    the times they may fire. *)
From stdpp Require Export prelude gmap strings sorting list.
From Stdlib Require Import Lia.

(** ** Machine integers

    [uint64] and [int64] values are integers kept in range by an explicit
    wrap-around, as the Go operators do. *)

Declare Scope go_scope.
Delimit Scope go_scope with go.

Definition two64 : Z := 18446744073709551616.
Definition two63 : Z := 9223372036854775808.

Definition u64 (z : Z) : Z := (z `mod` two64)%Z.
Definition i64 (z : Z) : Z := ((z + two63) `mod` two64 - two63)%Z.

Abbreviation is_u64 z := (0 ≤ z < two64)%Z.
Abbreviation is_i64 z := (- two63 ≤ z < two63)%Z.

(** ** time.Duration and time.Time

    A [Duration] is an [int64] number of nanoseconds.  A [Time] is the number of
    nanoseconds since the Unix epoch; Go's zero [time.Time{}] is midnight of
    January 1 of year 1.  The monotonic reading a [time.Now] carries is dropped:
    every deadline of the code has gone through Unix milliseconds. *)

Abbreviation Duration := Z (only parsing).
Abbreviation Time := Z (only parsing).

Definition Nanosecond : Duration := 1%Z.
Definition Millisecond : Duration := 1000000%Z.
Definition Second : Duration := 1000000000%Z.
Definition Minute : Duration := 60000000000%Z.
Definition Hour : Duration := 3600000000000%Z.

Definition zeroTime : Time := (-62135596800 * 1000000000)%Z.
Definition IsZero (t : Time) : bool := (t =? zeroTime)%Z.
Definition After (t u : Time) : bool := (u <? t)%Z.
Definition Before (t u : Time) : bool := (t <? u)%Z.
Definition Add (t : Time) (d : Duration) : Time := (t + d)%Z.
(** [time.UnixMilli(ms)] and [t.UnixMilli()]. *)
Definition FromUnixMilli (ms : Z) : Time := (ms * Millisecond)%Z.
Definition UnixMilli (t : Time) : Z := i64 (t `div` Millisecond)%Z.
(** [d.Milliseconds()] truncates towards zero, [time.Duration(ms) * time.Millisecond] wraps. *)
Definition Milliseconds (d : Duration) : Z := (d `quot` Millisecond)%Z.
Definition DurationOfMs (ms : Z) : Duration := i64 (ms * Millisecond)%Z.

(** ** Errors

    An error is the format literal of its [fmt.Errorf] with the arguments of the
    call, so two errors are equal exactly when the code built them the same way.
    A result is a value or an error. *)

Inductive error : Type :=
  | Errorf (format : string) (args : list arg)
with arg : Type :=
  | AStr (s : string)
  | ANum (z : Z)
  | ARune (r : Z)
  | AErr (e : error).

Inductive result (E A : Type) : Type :=
  | Ok (a : A)
  | Fail (e : E).
Arguments Ok {E A} a.
Arguments Fail {E A} e.

#[export] Instance result_ret E : MRet (result E) := λ A a, Ok a.
#[export] Instance result_bind E : MBind (result E) := λ A B f m,
  match m with Ok a => f a | Fail e => Fail e end.
#[export] Instance result_fmap E : FMap (result E) := λ A B f m,
  match m with Ok a => Ok (f a) | Fail e => Fail e end.

Definition isOk {E A} (r : result E A) : bool :=
  match r with Ok _ => true | Fail _ => false end.

(** gRPC status codes the code uses, and the status error of a handler. *)
Inductive code : Type :=
  | OKCode | Canceled | InvalidArgument | DeadlineExceeded | NotFound
  | PermissionDenied | ResourceExhausted | FailedPrecondition | Aborted
  | Internal | Unavailable | Unauthenticated.
#[export] Instance code_eq_dec : EqDecision code.
Proof. solve_decision. Defined.

Record status := Status { st_code : code; st_msg : error }.

(** ** Strings, runes and Unicode classes

    A Go string is its bytes.  [range] over a string decodes UTF-8 and yields
    U+FFFD for one byte where the bytes are not valid UTF-8. *)

Definition bytes_of (s : string) : list Z :=
  (λ a, Z.of_N (Ascii.N_of_ascii a)) <$> String.list_ascii_of_string s.

Definition between (lo hi x : Z) : bool := ((lo <=? x) && (x <=? hi))%Z.
Definition cont (b : Z) : bool := between 128 191 b.
Definition RuneError : Z := 65533.

(** Width and value of the first rune, as [utf8.DecodeRuneInString]. *)
Definition decode_rune (l : list Z) : Z * nat :=
  match l with
  | [] => (RuneError, 1)
  | b0 :: l1 =>
    if (b0 <? 128)%Z then (b0, 1) else
    match l1 with
    | [] => (RuneError, 1)
    | b1 :: l2 =>
      if between 194 223 b0 && cont b1
      then (((b0 - 192) * 64 + (b1 - 128))%Z, 2) else
      match l2 with
      | [] => (RuneError, 1)
      | b2 :: l3 =>
        let ok1 := if (b0 =? 224)%Z then between 160 191 b1
                   else if (b0 =? 237)%Z then between 128 159 b1 else cont b1 in
        if between 224 239 b0 && ok1 && cont b2
        then (((b0 - 224) * 4096 + (b1 - 128) * 64 + (b2 - 128))%Z, 3) else
        match l3 with
        | [] => (RuneError, 1)
        | b3 :: _ =>
          let ok1 := if (b0 =? 240)%Z then between 144 191 b1
                     else if (b0 =? 244)%Z then between 128 143 b1 else cont b1 in
          if between 240 244 b0 && ok1 && cont b2 && cont b3
          then (((b0 - 240) * 262144 + (b1 - 128) * 4096 + (b2 - 128) * 64 + (b3 - 128))%Z, 4)
          else (RuneError, 1)
        end
      end
    end
  end.

(** The runes a [for _, r := range s] visits; [skip] counts the continuation
    bytes still to pass over. *)
Fixpoint runes_from (skip : nat) (l : list Z) : list Z :=
  match l with
  | [] => []
  | _ :: tl =>
    match skip with
    | S k => runes_from k tl
    | O => let d := decode_rune l in d.1 :: runes_from (d.2 - 1) tl
    end
  end.
Definition runes (s : string) : list Z := runes_from 0 (bytes_of s).

(** The Unicode range tables above Latin-1 are data of the Go distribution
    ([unicode.Letter], [unicode.Digit], [unicode.White_Space], the lower-case
    mapping); every result holds for any tables. *)
Class Unicode := {
  letter_table : Z → bool;
  digit_table : Z → bool;
  space_table : Z → bool;
  lower_table : Z → Z;
}.

Definition IsLetter `{Unicode} (r : Z) : bool :=
  if (r <=? 255)%Z then
    between 65 90 r || between 97 122 r || (r =? 170)%Z || (r =? 181)%Z ||
    (r =? 186)%Z || between 192 214 r || between 216 246 r || between 248 255 r
  else letter_table r.
Definition IsDigit `{Unicode} (r : Z) : bool :=
  if (r <=? 255)%Z then between 48 57 r else digit_table r.

Definition IsSpace `{Unicode} (r : Z) : bool :=
  if (r <=? 255)%Z then between 9 13 r || (r =? 32)%Z || (r =? 133)%Z || (r =? 160)%Z
  else space_table r.
(** [unicode.ToLower] on Latin-1: A-Z and the capitals U+00C0..U+00DE but the
    multiplication sign. *)
Definition ToLower `{Unicode} (r : Z) : Z :=
  if (r <=? 255)%Z then
    if between 65 90 r || (between 192 222 r && negb (r =? 215)%Z) then (r + 32)%Z else r
  else lower_table r.

(** The runes of [strings.ToLower(strings.TrimSpace(s))]. *)
Fixpoint drop_while {A} (f : A → bool) (l : list A) : list A :=
  match l with
  | [] => []
  | x :: l' => if f x then drop_while f l' else l
  end.
Definition TrimSpace `{Unicode} (l : list Z) : list Z :=
  reverse (drop_while IsSpace (reverse (drop_while IsSpace l))).
Definition lower_trim `{Unicode} (s : string) : list Z := ToLower <$> TrimSpace (runes s).

(** [string(b)] *)
Definition string_of (l : list Z) : string :=
  String.string_of_list_ascii ((λ z, Ascii.ascii_of_N (Z.to_N z)) <$> l).

(** The bytes of each rune of a string, in order; [fuel] at least the number of
    bytes is enough.  [strings.TrimSpace] drops the spaces at both ends. *)
Fixpoint chunks (fuel : nat) (l : list Z) : list (Z * list Z) :=
  match fuel, l with
  | S fuel, _ :: _ => let d := decode_rune l in (d.1, take d.2 l) :: chunks fuel (drop d.2 l)
  | _, _ => []
  end.
Definition trim_ends {A} (f : A → bool) (l : list A) : list A :=
  reverse (drop_while f (reverse (drop_while f l))).
Definition TrimSpaceS `{Unicode} (s : string) : string :=
  let l := bytes_of s in
  string_of (concat (snd <$> trim_ends (λ c, IsSpace c.1) (chunks (length l) l))).

(** Tables with nothing above Latin-1, for concrete evaluations. *)
Definition latin1 : Unicode := {|
  letter_table _ := false; digit_table _ := false; space_table _ := false; lower_table r := r;
|}.

Fixpoint HasPrefix (s pre : string) {struct pre} : bool :=
  match pre, s with
  | EmptyString, _ => true
  | String a pre', String b s' => Ascii.eqb a b && HasPrefix s' pre'
  | String _ _, EmptyString => false
  end.
Fixpoint drop_bytes (n : nat) (s : string) : string :=
  match n, s with
  | O, _ => s
  | S n', String _ s' => drop_bytes n' s'
  | S _, EmptyString => EmptyString
  end.
Definition TrimPrefix (s pre : string) : string :=
  if HasPrefix s pre then drop_bytes (String.length pre) s else s.
Definition str_empty (s : string) : bool := String.eqb s "".

(** [sort.Slice(out, key i < key j)]: Go compares strings bytewise. *)
Definition sort_by {A} (key : A → string) (l : list A) : list A :=
  merge_sort (λ a b, String.le (key a) (key b)) l.

(** The lookup [v, ok := m[k]] of a map of counters yields 0 when absent. *)
Definition lookup0 (m : gmap string Z) (k : string) : Z := default 0%Z (m !! k).

(** ** Automation *)

Create HintDb clusdr discriminated.

(** Split every [match] and [if] of the goal and hypotheses, then simplify. *)
Ltac go_cases := repeat (case_match || case_decide); simplify_eq/=.

(** Turn boolean tests of the code into the propositions they decide. *)
Ltac breflect :=
  repeat match goal with
  | H : (_ && _)%bool = true |- _ => apply andb_true_iff in H as [? ?]
  | H : (_ || _)%bool = false |- _ => apply orb_false_iff in H as [? ?]
  | H : negb _ = true |- _ => apply negb_true_iff in H
  | H : negb _ = false |- _ => apply negb_false_iff in H
  | H : (_ <=? _)%Z = true |- _ => apply Z.leb_le in H
  | H : (_ <=? _)%Z = false |- _ => apply Z.leb_gt in H
  | H : (_ <? _)%Z = true |- _ => apply Z.ltb_lt in H
  | H : (_ <? _)%Z = false |- _ => apply Z.ltb_ge in H
  | H : (_ =? _)%Z = true |- _ => apply Z.eqb_eq in H
  | H : (_ =? _)%Z = false |- _ => apply Z.eqb_neq in H
  | H : String.eqb _ _ = true |- _ => apply String.eqb_eq in H
  | H : String.eqb _ _ = false |- _ => apply String.eqb_neq in H
  | H : bool_decide _ = true |- _ => apply bool_decide_eq_true in H
  | H : bool_decide _ = false |- _ => apply bool_decide_eq_false in H
  end.

(** ** Integers and time *)

Lemma u64_range z : is_u64 (u64 z).
Proof. unfold u64, two64. apply Z.mod_pos_bound. lia. Qed.
Lemma u64_small z : is_u64 z → u64 z = z.
Proof. intros H. unfold u64. by apply Z.mod_small. Qed.
Lemma i64_range z : is_i64 (i64 z).
Proof.
  unfold i64. pose proof (Z.mod_pos_bound (z + two63) two64 ltac:(done)).
  unfold two63, two64 in *. lia.
Qed.
Lemma i64_small z : is_i64 z → i64 z = z.
Proof. intros H. unfold i64. rewrite Z.mod_small; unfold two63, two64 in *; lia. Qed.
#[export] Hint Resolve u64_range i64_range : clusdr.

Lemma UnixMilli_FromUnixMilli ms : is_i64 ms → UnixMilli (FromUnixMilli ms) = ms.
Proof.
  intros H. unfold UnixMilli, FromUnixMilli, Millisecond.
  rewrite Z.div_mul by lia. by apply i64_small.
Qed.

(** ** Strings *)

Lemma HasPrefix_app p s : HasPrefix (p +:+ s) p = true.
Proof.
  induction p as [|a p IH]; [done|].
  change ((Ascii.eqb a a && HasPrefix (p +:+ s) p) = true). by rewrite Ascii.eqb_refl, IH.
Qed.
Lemma drop_bytes_app p s : drop_bytes (String.length p) (p +:+ s) = s.
Proof. induction p as [|a p IH]; [by destruct s|exact IH]. Qed.
Lemma TrimPrefix_app p s : TrimPrefix (p +:+ s) p = s.
Proof. unfold TrimPrefix. by rewrite HasPrefix_app, drop_bytes_app. Qed.
Lemma HasPrefix_split s p :
  HasPrefix s p = true → s = p +:+ drop_bytes (String.length p) s.
Proof.
  revert s; induction p as [|a p IH]; intros [|b s] H; simplify_eq/=; try done.
  breflect. apply Ascii.eqb_eq in H as ->.
  change (String b s = String b (p +:+ drop_bytes (String.length p) s)).
  f_equal. by apply IH.
Qed.
Lemma str_empty_true s : str_empty s = true ↔ s = "".
Proof. apply String.eqb_eq. Qed.
Lemma str_empty_false s : str_empty s = false ↔ s ≠ "".
Proof. apply String.eqb_neq. Qed.
Lemma bytes_of_app s1 s2 : bytes_of (s1 +:+ s2) = bytes_of s1 ++ bytes_of s2.
Proof.
  unfold bytes_of. induction s1 as [|a s1 IH]; [done|].
  simpl. f_equal. apply IH.
Qed.
Lemma length_str_app s1 s2 :
  String.length (s1 +:+ s2) = String.length s1 + String.length s2.
Proof. induction s1 as [|a s1 IH]; [done|]. simpl. f_equal. apply IH. Qed.

Lemma string_of_bytes_of s : string_of (bytes_of s) = s.
Proof.
  unfold string_of, bytes_of. induction s as [|a s IH]; [done|]. simpl.
  rewrite N2Z.id, Ascii.ascii_N_embedding. f_equal. exact IH.
Qed.

(** An ASCII prefix decodes to itself and leaves the rest of the string alone. *)
Lemma runes_ascii_app p s :
  Forall (λ b, b < 128)%Z (bytes_of p) → runes (p +:+ s) = bytes_of p ++ runes s.
Proof.
  unfold runes. rewrite bytes_of_app. generalize (bytes_of p) as l; intros l Hl.
  induction Hl as [|b l Hb Hl IH]; [done|].
  cbn [app runes_from decode_rune]. apply Z.ltb_lt in Hb. rewrite Hb; simpl.
  by rewrite IH.
Qed.

(** ** Sorting by a string key *)

Section sort_by.
Context {A : Type} (key : A → string).

Lemma sort_by_perm l : sort_by key l ≡ₚ l.
Proof. apply merge_sort_Permutation. Qed.

Lemma sort_by_sorted l :
  StronglySorted (λ a b, String.le (key a) (key b)) (sort_by key l).
Proof.
  apply StronglySorted_merge_sort.
  - intros a b c. apply (transitivity (R := String.le)).
  - intros a b. apply (total String.le).
Qed.

(** With distinct keys the order in which a map is iterated does not matter. *)
Lemma sort_by_canonical l1 l2 :
  NoDup (key <$> l1) → l1 ≡ₚ l2 → sort_by key l1 = sort_by key l2.
Proof.
  intros Hnd Hp.
  apply (StronglySorted_unique_strong (λ a b, String.le (key a) (key b))).
  - intros a b Ha Hb Hab Hba.
    assert (key a = key b) as Hk by by apply (anti_symm String.le).
    rewrite sort_by_perm in Ha. rewrite sort_by_perm, <-Hp in Hb.
    apply list_elem_of_lookup in Ha as [i Hi], Hb as [j Hj].
    assert (i = j) as ->; [|congruence].
    apply (NoDup_lookup (key <$> l1) i j (key b) Hnd);
      rewrite list_lookup_fmap; [rewrite Hi|rewrite Hj]; simpl; congruence.
  - apply sort_by_sorted.
  - apply sort_by_sorted.
  - by rewrite !sort_by_perm.
Qed.
End sort_by.

(** ** Maps and lists *)

Lemma map_values_elem {V} (m : gmap string V) (v : V) :
  v ∈ (map_to_list m).*2 ↔ ∃ k, m !! k = Some v.
Proof.
  rewrite list_elem_of_fmap. split.
  - intros [[k v'] [-> H]]. exists k. by apply elem_of_map_to_list.
  - intros [k H]. exists (k, v). split; [done|]. by apply elem_of_map_to_list.
Qed.
Lemma map_size_delete_le {V} (m : gmap string V) k : size (delete k m) ≤ size m.
Proof. rewrite map_size_delete. destruct (m !! k); simpl; lia. Qed.

(** ** Outcomes of an operation up to an equivalence of states

    An operation returns its new state, its result and its effects; two replicas
    agree on it when the states are equivalent and the rest is equal.  The local
    clock reading is not something replicas share. *)
Definition any_clock : relation Time := λ _ _, True.

Definition outcome_equiv {S R F} (eqS : relation S) : relation (S * R * F) :=
  prod_relation (prod_relation eqS (=)) (=).

Lemma outcome_equiv_intro {S R F} (eqS : relation S) s1 s2 (r : R) (es : F) :
  eqS s1 s2 → outcome_equiv eqS (s1, r, es) (s2, r, es).
Proof. done. Qed.
#[export] Hint Resolve outcome_equiv_intro : clusdr.

(** A concrete outcome is known once its answer and effects are computed. *)
Lemma outcome_eta {S R F} (x : S * R * F) r es : x.1.2 = r → x.2 = es → x = (x.1.1, r, es).
Proof. by destruct x as [[? ?] ?]; simpl; intros -> ->. Qed.

(** ** Tables whose entries carry their own key *)

Section keyed.
Context {V : Type} (key : V → string).
Implicit Types m : gmap string V.

Definition keyed m : Prop := ∀ n r, m !! n = Some r → key r = n.
Definition values m : list V := (map_to_list m).*2.
(** [for _, rec := range recs { m[rec.key] = rec }] *)
Definition put_all (m : gmap string V) (recs : list V) : gmap string V :=
  foldl (λ m r, <[key r := r]> m) m recs.
Definition drop_all (m : gmap string V) (names : list string) : gmap string V :=
  foldl (λ m n, delete n m) m names.

Lemma keyed_insert m r : keyed m → keyed (<[key r := r]> m).
Proof. intros Hk n r' [[<- <-]|[? ?]]%lookup_insert_Some; [done|by apply Hk]. Qed.
Lemma keyed_delete m n : keyed m → keyed (delete n m).
Proof. intros Hk n' r' [_ ?]%lookup_delete_Some. by apply Hk. Qed.

Lemma keyed_pairs m : keyed m → (λ r, (key r, r)) <$> values m = map_to_list m.
Proof.
  intros Hk. unfold values. rewrite <-list_fmap_compose.
  trans (id <$> map_to_list m); [|apply list_fmap_id].
  apply list_fmap_ext. intros i [n r] Hi. simpl.
  apply list_elem_of_lookup_2, elem_of_map_to_list, Hk in Hi. by rewrite Hi.
Qed.

Lemma keyed_names m : keyed m → key <$> values m = (map_to_list m).*1.
Proof. intros Hk. rewrite <-(keyed_pairs m Hk), <-list_fmap_compose. done. Qed.

Lemma keyed_NoDup m : keyed m → NoDup (key <$> values m).
Proof. intros Hk. rewrite keyed_names by done. apply NoDup_fst_map_to_list. Qed.

Lemma keyed_elem m r : keyed m → r ∈ values m ↔ m !! key r = Some r.
Proof.
  intros Hk. unfold values. rewrite map_values_elem. split; [|eauto].
  intros [n Hn]. by rewrite (Hk _ _ Hn).
Qed.

Lemma put_all_union m l :
  NoDup (key <$> l) → put_all m l = list_to_map ((λ r, (key r, r)) <$> l) ∪ m.
Proof.
  revert m; induction l as [|r l IH]; intros m Hnd; simpl; [by rewrite (left_id_L ∅ (∪))|].
  apply NoDup_cons in Hnd as [Hr Hnd].
  rewrite IH by done. rewrite <-insert_union_l, insert_union_r; [done|].
  apply not_elem_of_list_to_map_1. by rewrite <-list_fmap_compose.
Qed.

(** Writing back all entries in any order rebuilds the table. *)
Lemma put_all_rebuild m l : keyed m → l ≡ₚ values m → put_all ∅ l = m.
Proof.
  intros Hk Hp. rewrite put_all_union by (rewrite Hp; by apply keyed_NoDup).
  rewrite (right_id_L ∅ (∪)), <-(list_to_map_to_list m) at 1.
  apply list_to_map_proper.
  - rewrite <-list_fmap_compose. change (NoDup (key <$> l)). rewrite Hp. by apply keyed_NoDup.
  - by rewrite Hp, keyed_pairs.
Qed.

Lemma sort_by_values m l : keyed m → l ≡ₚ values m → sort_by key l = sort_by key (values m).
Proof.
  intros Hk Hp. apply sort_by_canonical; [|done]. rewrite Hp. by apply keyed_NoDup.
Qed.

Lemma drop_all_lookup m l n :
  drop_all m l !! n = if bool_decide (n ∈ l) then None else m !! n.
Proof.
  revert m; induction l as [|n' l IH]; intros m; simpl; [done|].
  rewrite IH, lookup_delete. repeat case_bool_decide; repeat case_decide; set_solver.
Qed.

Lemma NoDup_filter_names (f : V → bool) l :
  NoDup (key <$> l) → NoDup (key <$> List.filter f l).
Proof.
  induction l as [|r l IH]; simpl; [done|]. intros [Hr Hnd]%NoDup_cons.
  destruct (f r); [|by apply IH]. apply NoDup_cons. split; [|by apply IH].
  intros (r' & Hr' & Hin)%list_elem_of_fmap. apply Hr. rewrite Hr'. apply list_elem_of_fmap_2.
  apply list_elem_of_In, List.filter_In in Hin as [Hin _]. by apply list_elem_of_In.
Qed.
End keyed.
#[export] Hint Resolve keyed_insert keyed_delete : clusdr.

Lemma Forall2_impl_r {A B} (P Q : A → B → Prop) l k :
  Forall2 P l k → (∀ x y, y ∈ k → P x y → Q x y) → Forall2 Q l k.
Proof. induction 1; intros HQ; constructor; [apply HQ|apply IHForall2; intros; apply HQ]; set_solver. Qed.
