(* ===== verification/Events.v ===== *)
(** * Events: the cluster event type and custom topics

    Models [internal/events/events.go] (the [Event] struct and the built-in type
    names) and [internal/events/topic.go] (topic normalisation and validation).
    A payload is absent, the JSON object an engine marshals (its fields in the
    key order [encoding/json] writes a map), or the opaque bytes of a publisher. *)
From S2P Require Import Prelude.

Inductive jval : Type :=
  | JStr (s : string)
  | JNum (z : Z)
  | JBool (b : bool).

Inductive payload : Type :=
  | NoPayload
  | JsonObject (fields : list (string * jval))
  | RawBytes (b : list Z).

Record Event := MkEvent {
  ev_Type : string;
  ev_Source : string;
  ev_Payload : payload;
  ev_Timestamp : Time;
  ev_Seq : Z;
}.

(** Observable effects of a table operation, in order: waking the waiters of the
    condition variable, and calling the [Emit] hook. *)
Inductive effect : Type :=
  | Broadcast
  | Emitted (e : Event).

Definition events_of (es : list effect) : list Event :=
  omap (λ x, match x with Emitted e => Some e | Broadcast => None end) es.

Definition TypeMemberJoin : string := "member.join".
Definition TypeMemberDead : string := "member.dead".
Definition TypeMemberLeft : string := "member.left".
Definition TypeLeaderChanged : string := "leader.changed".
Definition TypeLockExpired : string := "lock.expired".
Definition TypeLeaseGranted : string := "lease.granted".
Definition TypeLeaseExpired : string := "lease.expired".
Definition TypeLeaseRevoked : string := "lease.revoked".
Definition TypeWatchSync : string := "watch.sync".
Definition TypeWatchGap : string := "watch.gap".
Definition TypeCustomPrefix : string := "custom.".

(** The literal [events.Event{Type: ..., Source: ..., Payload: ...}] of an engine:
    no timestamp and no sequence number yet. *)
Definition new_event (typ source : string) (p : payload) : Event :=
  MkEvent typ source p zeroTime 0.

Definition MaxTopicLen : nat := 128.
Definition MaxPayloadBytes : Z := 65536.

Definition CustomType (topic : string) : string := TypeCustomPrefix +:+ topic.

Definition NormalizeTopic (topic : string) : string := TrimPrefix topic TypeCustomPrefix.

Definition TopicFromType (eventType : string) : string * bool :=
  if negb (HasPrefix eventType TypeCustomPrefix) then ("", false) else
  let topic := drop_bytes (String.length TypeCustomPrefix) eventType in
  if str_empty topic then ("", false) else (topic, true).

Section topics.
Context `{Unicode}.

Definition isTopicChar (r : Z) : bool :=
  IsLetter r || IsDigit r || (r =? 46)%Z || (r =? 95)%Z || (r =? 45)%Z.

(** [nil] is [None]. *)
Definition ValidTopic (topic : string) : option error :=
  let topic := NormalizeTopic topic in
  if str_empty topic then Some (Errorf "topic is required" []) else
  if bool_decide (MaxTopicLen < String.length topic)
  then Some (Errorf "topic exceeds %d characters" [ANum (Z.of_nat MaxTopicLen)]) else
  match List.find (λ r, negb (isTopicChar r)) (runes topic) with
  | Some r => Some (Errorf "topic contains invalid character %q" [ARune r])
  | None => None
  end.

End topics.

(** ** Properties *)

Lemma drop_custom topic : drop_bytes (String.length TypeCustomPrefix) (CustomType topic) = topic.
Proof. apply drop_bytes_app. Qed.

Lemma HasPrefix_CustomType topic : HasPrefix (CustomType topic) TypeCustomPrefix = true.
Proof. apply HasPrefix_app. Qed.

(** The topic of a custom event type is read back, except for the empty topic. *)
Lemma TopicFromType_CustomType topic :
  TopicFromType (CustomType topic) = if str_empty topic then ("", false) else (topic, true).
Proof. unfold TopicFromType. by rewrite HasPrefix_CustomType, drop_custom. Qed.

Lemma TopicFromType_Some typ topic :
  TopicFromType typ = (topic, true) ↔ typ = CustomType topic ∧ topic ≠ "".
Proof.
  split.
  - unfold TopicFromType. intros Ht. go_cases.
    breflect. split; [by apply HasPrefix_split|by apply str_empty_false].
  - intros [-> Hne]. rewrite TopicFromType_CustomType.
    by apply str_empty_false in Hne as ->.
Qed.

Lemma NormalizeTopic_CustomType topic : NormalizeTopic (CustomType topic) = topic.
Proof. apply TrimPrefix_app. Qed.

Lemma NormalizeTopic_plain topic :
  HasPrefix topic TypeCustomPrefix = false → NormalizeTopic topic = topic.
Proof. unfold NormalizeTopic, TrimPrefix. by intros ->. Qed.

(** Normalising moves a topic exactly when it carries the [custom.] prefix. *)
Lemma NormalizeTopic_fixed topic :
  NormalizeTopic topic = topic ↔ HasPrefix topic TypeCustomPrefix = false.
Proof.
  split; [|apply NormalizeTopic_plain].
  intros Hn. destruct (HasPrefix topic TypeCustomPrefix) eqn:Hp; [|done].
  apply HasPrefix_split in Hp. unfold NormalizeTopic in Hn.
  rewrite Hp, TrimPrefix_app in Hn. apply (f_equal String.length) in Hn.
  rewrite length_str_app in Hn. simpl in Hn. lia.
Qed.

Lemma ValidTopic_nonempty `{Unicode} topic : ValidTopic topic = None → topic ≠ "".
Proof. by intros Hv ->. Qed.
