(* ===== verification/GrantSpec.v ===== *)
(** * GrantSpec: what a table of exclusive, fenced grants promises

    The abstract specification that the lock table ([internal/locks]) and the
    lease table ([internal/leases]) both implement.  The abstract state is the
    set of current grants, a name with its holder and fencing token, and the last
    token issued.  [gstep] says which answers a table may give to which request;
    the refinement theorems are in [Locks] and [Leases], and the consequences
    proved here, mutual exclusion and fencing, hold for every sequence of
    requests and answers of either table. *)
From S2P Require Import Prelude.

Record Grants := MkGrants {
  held : gmap string (string * Z);  (* name ↦ (holder, token) *)
  high : Z;                         (* last token issued, a uint64 *)
}.

Inductive gop : Type :=
  | GAcquire (name holder : string)
  | GRelease (name holder : string) (token : Z)
  | GRenew (name holder : string) (token : Z)
  | GExpire (name : string) (token : Z).

Inductive gresp : Type :=
  | RGranted (token : Z)
  | RDenied (token : Z)
  | RDone
  | RRejected.

Section spec.
(** [adm] are the requests whose name and holder the table accepts, [cap] bounds
    the number of grants. *)
Context (adm : string → string → Prop) (cap : nat).

Inductive gstep (g : Grants) : gop → gresp → Grants → Prop :=
  | step_acquire_fresh n h :
      held g !! n = None → adm n h → size (held g) < cap →
      gstep g (GAcquire n h) (RGranted (u64 (high g + 1)))
        (MkGrants (<[n := (h, u64 (high g + 1))]> (held g)) (u64 (high g + 1)))
  | step_acquire_again n h t :
      held g !! n = Some (h, t) → gstep g (GAcquire n h) (RGranted t) g
  | step_acquire_denied n h h' t :
      held g !! n = Some (h', t) → h ≠ h' → gstep g (GAcquire n h) (RDenied t) g
  | step_acquire_refused n h :
      ¬ adm n h ∨ (held g !! n = None ∧ cap ≤ size (held g)) →
      gstep g (GAcquire n h) RRejected g
  | step_release n h t :
      held g !! n = Some (h, t) →
      gstep g (GRelease n h t) RDone (MkGrants (delete n (held g)) (high g))
  | step_release_refused n h t :
      held g !! n ≠ Some (h, t) → gstep g (GRelease n h t) RRejected g
  | step_renew n h t :
      held g !! n = Some (h, t) → gstep g (GRenew n h t) RDone g
  | step_renew_refused n h t :
      held g !! n ≠ Some (h, t) → gstep g (GRenew n h t) RRejected g
  | step_expire n h t :
      held g !! n = Some (h, t) →
      gstep g (GExpire n t) RDone (MkGrants (delete n (held g)) (high g))
  | step_expire_refused n t :
      (∀ h, held g !! n ≠ Some (h, t)) → gstep g (GExpire n t) RRejected g.

(** Runs: the requests with their answers, oldest first. *)
Inductive grun (g : Grants) : list (gop * gresp) → Grants → Prop :=
  | grun_nil : grun g [] g
  | grun_cons o r g1 tr g2 :
      gstep g o r g1 → grun g1 tr g2 → grun g ((o, r) :: tr) g2.

End spec.

#[export] Instance gop_eq_dec : EqDecision gop.
Proof. solve_decision. Defined.
#[export] Instance gresp_eq_dec : EqDecision gresp.
Proof. solve_decision. Defined.

(** Well-formed states: tokens lie between 1 and the last one issued, and no two
    grants share a token. *)
Record grants_wf (g : Grants) : Prop := {
  wf_high : is_u64 (high g);
  wf_token : ∀ n h t, held g !! n = Some (h, t) → (1 ≤ t ≤ high g)%Z;
  wf_inj : ∀ n1 n2 h1 h2 t, held g !! n1 = Some (h1, t) → held g !! n2 = Some (h2, t) → n1 = n2;
}.

(** Steps that end the grant [(n, t)] of [h]. *)
Definition ends (n h : string) (t : Z) (e : gop * gresp) : Prop :=
  e = (GRelease n h t, RDone) ∨ e = (GExpire n t, RDone).

Section lemmas.
Context (adm : string → string → Prop) (cap : nat).
Local Abbreviation gstep := (gstep adm cap).
Local Abbreviation grun := (grun adm cap).

(** No overflow of the token counter: the hypothesis under which tokens order
    grants.  Each step issues at most one token. *)
Definition room (g : Grants) (k : nat) : Prop := (high g + Z.of_nat k < two64)%Z.

Lemma grun_app g tr1 tr2 g2 :
  grun g (tr1 ++ tr2) g2 ↔ ∃ g1, grun g tr1 g1 ∧ grun g1 tr2 g2.
Proof.
  revert g; induction tr1 as [|[o r] tr1 IH]; intros g; simpl.
  - split; [by eexists; split; [constructor|]|]. by intros (? & Hr & ?); inv Hr.
  - split.
    + inversion 1 as [|? ? gm ? ? Hs Hrest]; subst.
      apply IH in Hrest as (g1' & ? & ?). exists g1'. split; [by econstructor|done].
    + intros (g1' & Hr & ?). inv Hr. econstructor; [done|]. apply IH. eauto.
Qed.

Lemma step_high g o r g1 :
  is_u64 (high g) → room g 1 → gstep g o r g1 →
  (high g ≤ high g1 ≤ high g + 1)%Z.
Proof.
  unfold room. intros Hu Hr Hs. destruct Hs; simpl; try lia.
  rewrite u64_small; lia.
Qed.

Lemma step_wf g o r g1 : room g 1 → grants_wf g → gstep g o r g1 → grants_wf g1.
Proof.
  unfold room. intros Hr [Hh Ht Hi] Hs.
  destruct Hs as [n h Hn| | | |n h t Hn| | | |n h t Hn|]; try (by split);
    split; simpl; try done.
  - apply u64_range.
  - rewrite u64_small by lia. intros n' h' t' [[<- ?]|[? Hl]]%lookup_insert_Some;
      simplify_eq; [lia|]. apply Ht in Hl. lia.
  - rewrite u64_small by lia.
    intros n1 n2 h1 h2 t [[<- ?]|[? Hl1]]%lookup_insert_Some
      [[<- ?]|[? Hl2]]%lookup_insert_Some; simplify_eq; eauto.
    + apply Ht in Hl2. lia.
    + apply Ht in Hl1. lia.
  - intros n' h' t' [_ ?]%lookup_delete_Some. eauto.
  - intros n1 n2 h1 h2 t' [_ ?]%lookup_delete_Some [_ ?]%lookup_delete_Some. eauto.
  - intros n' h' t' [_ ?]%lookup_delete_Some. eauto.
  - intros n1 n2 h1 h2 t' [_ ?]%lookup_delete_Some [_ ?]%lookup_delete_Some. eauto.
Qed.

Lemma run_wf g tr g1 :
  room g (length tr) → grants_wf g → grun g tr g1 →
  grants_wf g1 ∧ (high g ≤ high g1 ≤ high g + Z.of_nat (length tr))%Z.
Proof.
  intros Hr Hwf Hrun; revert Hr Hwf; unfold room.
  induction Hrun as [|g o r g1 tr g2 Hs _ IH]; intros Hr Hwf; simpl in *; [split; [done|lia]|].
  assert (room g 1) by (unfold room; lia).
  pose proof (step_high _ _ _ _ (wf_high _ Hwf) ltac:(done) Hs).
  destruct IH; [lia|by eapply step_wf|]. split; [done|lia].
Qed.

(** A grant that a run does not end is still there at the end of the run. *)
Lemma run_keeps g tr g1 n h t :
  held g !! n = Some (h, t) → grun g tr g1 → Forall (λ e, ¬ ends n h t e) tr →
  held g1 !! n = Some (h, t).
Proof.
  intros Hn Hrun; revert Hn; induction Hrun as [|g o r g1 tr g2 Hs _ IH]; intros Hn Hne; [done|].
  apply Forall_cons in Hne as [He Hne]. apply IH; [|done].
  destruct Hs; simpl; try done; unfold ends in He;
    destruct (decide (n0 = n)) as [->|]; simplify_eq; rewrite ?lookup_insert_ne, ?lookup_delete_ne by done; naive_solver.
Qed.

(** A property of states that every step keeps is kept by every run; [room]
    shrinks by one at each step. *)
Lemma run_invariant (P : Grants → Prop) g tr g1 :
  (∀ g o r g', room g 1 → grants_wf g → P g → gstep g o r g' → P g') →
  room g (length tr) → grants_wf g → P g → grun g tr g1 → P g1.
Proof.
  intros HP Hr Hwf Hg Hrun; revert Hr Hwf Hg; unfold room.
  induction Hrun as [|g o r g1 tr g2 Hs _ IH]; intros Hr Hwf Hg; simpl in *; [done|].
  assert (room g 1) by (unfold room; lia).
  pose proof (step_high _ _ _ _ (wf_high _ Hwf) ltac:(done) Hs).
  apply IH; [lia|by eapply step_wf|by eapply HP].
Qed.

(** [newer n h t g]: since [h] got [t] on [n], no grant of [n] has an older token,
    and none of another holder has the same one. *)
Definition newer (n h : string) (t : Z) (g : Grants) : Prop :=
  (t ≤ high g)%Z ∧ ∀ h' t', held g !! n = Some (h', t') → (h' = h ∧ t' = t) ∨ (t < t')%Z.

Lemma newer_step n h t g o r g1 :
  room g 1 → grants_wf g → newer n h t g → gstep g o r g1 → newer n h t g1.
Proof.
  intros Hr Hwf [Hle Hn] Hs. pose proof (step_high _ _ _ _ (wf_high _ Hwf) Hr Hs).
  split; [lia|]. intros h' t' Hl. destruct Hs; simpl in *; eauto;
    try (apply lookup_delete_Some in Hl as [_ Hl]; by eauto).
  apply lookup_insert_Some in Hl as [[-> ?]|[? Hl]]; simplify_eq; eauto.
  right. unfold room in Hr. destruct Hwf as [Hu _ _]. rewrite u64_small; lia.
Qed.

(** [stale n t g]: the token [t] no longer opens [n] and never will. *)
Definition stale (n : string) (t : Z) (g : Grants) : Prop :=
  (t ≤ high g)%Z ∧ ∀ h, held g !! n ≠ Some (h, t).

Lemma stale_step n t g o r g1 :
  room g 1 → grants_wf g → stale n t g → gstep g o r g1 → stale n t g1.
Proof.
  intros Hr Hwf [Hle Hn] Hs. pose proof (step_high _ _ _ _ (wf_high _ Hwf) Hr Hs).
  split; [lia|]. intros h' Hl. destruct Hs; simpl in *; try (by eapply Hn);
    try (apply lookup_delete_Some in Hl as [_ Hl]; by eapply Hn).
  apply lookup_insert_Some in Hl as [[-> ?]|[? Hl]]; simplify_eq; [|by eapply Hn].
  unfold room in Hr. destruct Hwf as [Hu _ _]. rewrite u64_small in Hle; lia.
Qed.

Lemma granted_newer g n h t g1 :
  room g 1 → grants_wf g → gstep g (GAcquire n h) (RGranted t) g1 →
  newer n h t g1 ∧ held g1 !! n = Some (h, t).
Proof.
  intros Hr Hwf Hs. inversion Hs; subst.
  - simpl. rewrite lookup_insert_eq. split; [|done]. split; [done|].
    intros ? ?. simpl. rewrite lookup_insert_eq. naive_solver.
  - split; [|done]. split; [by eapply wf_token|]. naive_solver.
Qed.

(** Splitting a run at one step, with the facts about the state before it. *)
Lemma run_split g tr1 o r tr2 g' :
  room g (length (tr1 ++ (o, r) :: tr2)) → grants_wf g → grun g (tr1 ++ (o, r) :: tr2) g' →
  ∃ g1 g2, grants_wf g1 ∧ room g1 (S (length tr2)) ∧ gstep g1 o r g2 ∧
    grants_wf g2 ∧ room g2 (length tr2) ∧ grun g2 tr2 g'.
Proof.
  intros Hr Hwf (g1 & Hr1 & Hr2)%grun_app.
  inversion Hr2 as [|? ? g2 ? ? Hs Hrest]; subst.
  unfold room in *. rewrite length_app in Hr; simpl in Hr.
  destruct (run_wf g tr1 g1) as [Hwf1 Hh1]; [unfold room; lia|done..|].
  assert (room g1 1) by (unfold room; lia).
  pose proof (step_high _ _ _ _ (wf_high _ Hwf1) ltac:(done) Hs).
  exists g1, g2. repeat split_and; try done; [lia|by eapply step_wf|lia].
Qed.

(** Fencing: once [n] has been granted to [h1] with [t1], a grant of [n] to
    another holder carries a larger token. *)
Theorem spec_fencing g tr1 n h1 t1 tr2 h2 t2 tr3 g' :
  grants_wf g →
  let tr := tr1 ++ (GAcquire n h1, RGranted t1) :: tr2 ++ (GAcquire n h2, RGranted t2) :: tr3 in
  room g (length tr) → grun g tr g' → h1 ≠ h2 → (t1 < t2)%Z.
Proof.
  intros Hwf tr Hr Hrun Hne.
  apply run_split in Hrun as (ga & gb & Hwa & Hra & Hs & Hwb & Hrb & Hrun); [|done..].
  assert (room ga 1) as Hra1 by (unfold room in *; lia).
  apply granted_newer in Hs as [Hnew _]; [|done..].
  apply grun_app in Hrun as (gc & Hr2 & Hr3).
  rewrite length_app in Hrb. simpl in Hrb.
  assert (newer n h1 t1 gc) as [Hle Hn].
  { eapply (run_invariant (newer n h1 t1)); [apply newer_step| |done..]. unfold room in *; lia. }
  inversion Hr3 as [|? ? gd ? ? Hs3 _]; subst.
  destruct (run_wf gb tr2 gc) as [[Hu _ _] Hhc]; [unfold room in *; lia|done..|].
  unfold room in Hrb. inversion Hs3 as [| ? ? ? Hl| | | | | | | | ]; subst; [rewrite u64_small; lia|].
  by apply Hn in Hl as [[? ?]|].
Qed.

(** Mutual exclusion: between a grant of [n] to [h1] and a grant to another
    holder, the first grant was released or expired. *)
Theorem spec_exclusive g tr1 n h1 t1 tr2 h2 t2 tr3 g' :
  grants_wf g →
  let tr := tr1 ++ (GAcquire n h1, RGranted t1) :: tr2 ++ (GAcquire n h2, RGranted t2) :: tr3 in
  room g (length tr) → grun g tr g' → h1 ≠ h2 → Exists (ends n h1 t1) tr2.
Proof.
  intros Hwf tr Hr Hrun Hne.
  apply run_split in Hrun as (ga & gb & Hwa & Hra & Hs & Hwb & Hrb & Hrun); [|done..].
  assert (room ga 1) as Hra1 by (unfold room in *; lia).
  apply granted_newer in Hs as [_ Hheld]; [|done..].
  apply grun_app in Hrun as (gc & Hr2 & Hr3).
  assert (∀ e, Decision (ends n h1 t1 e)) as Hdec by (intros; unfold ends; apply _).
  destruct (decide (Exists (ends n h1 t1) tr2)) as [|Hno]; [done|].
  apply not_Exists_Forall in Hno; [|done].
  pose proof (run_keeps _ _ _ _ _ _ Hheld Hr2 Hno) as Hc.
  inversion Hr3 as [|? ? gd ? ? Hs3 _]; subst. inversion Hs3; subst; congruence.
Qed.

(** A token that was released or expired is refused from then on. *)
Theorem spec_stale g tr1 n h t e tr2 o r tr3 g' :
  grants_wf g → ends n h t e →
  (∃ h', o = GRelease n h' t ∨ o = GRenew n h' t ∨ o = GExpire n t) →
  let tr := tr1 ++ e :: tr2 ++ (o, r) :: tr3 in
  room g (length tr) → grun g tr g' → r = RRejected.
Proof.
  intros Hwf He [h' Ho] tr Hr Hrun. destruct e as [o1 r1].
  apply run_split in Hrun as (ga & gb & Hwa & Hra & Hs & Hwb & Hrb & Hrun); [|done..].
  assert (room ga 1) as Hra1 by (unfold room in *; lia).
  assert (stale n t gb) as Hst.
  { destruct He; simplify_eq; inversion Hs; subst; split; simpl;
      try (by eapply wf_token); intros; rewrite lookup_delete_eq; done. }
  apply grun_app in Hrun as (gc & Hr2 & Hr3).
  rewrite length_app in Hrb. simpl in Hrb.
  assert (stale n t gc) as [_ Hn].
  { eapply (run_invariant (stale n t)); [apply stale_step| |done..]. unfold room in *; lia. }
  inversion Hr3 as [|? ? gd ? ? Hs3 _]; subst.
  destruct Ho as [->|[->| ->]]; inversion Hs3; subst; naive_solver.
Qed.
End lemmas.
