(* ===== verification/Ticker.v ===== *)
(** * Ticker: the background goroutine of the heartbeat monitor and the presence keeper

    [internal/heartbeat/monitor.go] and [internal/presence/keeper.go] share one
    shape: [Start] makes a context and launches [run]; [run] does its work on
    every tick until the context is done, and closes [done] when it returns;
    [Stop] cancels the context of the last [Start] and receives from [done].  The
    keeper works once before its loop ([eager]).  A [select] whose context is done
    and whose ticker has fired takes either case, so a goroutine that was
    cancelled may still work. *)
From S2P Require Import Prelude.

Record goroutine := MkGoroutine {
  g_cancelled : bool;   (* its context is done *)
  g_exited : bool;
  g_works : nat;        (* how often it worked *)
}.

Record loop := MkLoop {
  l_cancel : option nat;          (* [m.cancel]: the goroutine it cancels *)
  l_runs : list goroutine;        (* one per [Start] *)
  l_done : bool;                  (* [m.done] is closed *)
  l_panicked : bool;              (* [done] was closed twice *)
}.

Definition new_loop : loop := MkLoop None [] false false.

Inductive lop : Type :=
  | LStart
  | LCancel          (* the first half of [Stop] *)
  | LStopped         (* [Stop] returns: its receive from [done] succeeds *)
  | LWork (i : nat)  (* [tick] or [ensure] of the goroutine of the [i]-th [Start] *)
  | LExit (i : nat). (* it takes the [ctx.Done()] case *)

Definition set_runs (l : loop) (rs : list goroutine) : loop := MkLoop (l_cancel l) rs (l_done l) (l_panicked l).

(** [None]: the step is not enabled.  A panic stops the process. *)
Definition lstep (eager : bool) (l : loop) (o : lop) : option loop :=
  if l_panicked l then None else
  match o with
  | LStart => Some (MkLoop (Some (length (l_runs l))) (l_runs l ++ [MkGoroutine false false 0]) (l_done l) false)
  | LCancel =>
    match l_cancel l with
    | None => Some l
    | Some i => Some (set_runs l (alter (λ g, MkGoroutine true (g_exited g) (g_works g)) i (l_runs l)))
    end
  | LStopped => if l_done l then Some l else None
  | LWork i =>
    match l_runs l !! i with
    | Some (MkGoroutine c false n) => Some (set_runs l (<[i := MkGoroutine c false (S n)]> (l_runs l)))
    | _ => None
    end
  | LExit i =>
    match l_runs l !! i with
    | Some (MkGoroutine true false n) =>
      if eager && bool_decide (n = 0) then None else
      let rs := <[i := MkGoroutine true true n]> (l_runs l) in
      Some (MkLoop (l_cancel l) rs true (l_done l))
    | _ => None
    end
  end.

Fixpoint lrun (eager : bool) (l : loop) (os : list lop) : option loop :=
  match os with
  | [] => Some l
  | o :: os => l ← lstep eager l o; lrun eager l os
  end.

(** The works of a trace, each with whether its context was already done. *)
Fixpoint lworks (eager : bool) (l : loop) (os : list lop) : list bool :=
  match os with
  | [] => []
  | o :: os =>
    match lstep eager l o with
    | None => []
    | Some l' =>
      match o with
      | LWork i => from_option g_cancelled false (l_runs l !! i) :: lworks eager l' os
      | _ => lworks eager l' os
      end
    end
  end.

(** ** One goroutine *)

Section props.
Context (eager : bool).

(** The states after one [Start]. *)
Inductive single : loop → Prop :=
  | single_running c n : single (MkLoop (Some 0) [MkGoroutine c false n] false false)
  | single_exited n : (eager = true → 0 < n) → single (MkLoop (Some 0) [MkGoroutine true true n] true false).

Lemma single_step l o l' : single l → o ≠ LStart → lstep eager l o = Some l' → single l'.
Proof.
  intros Hs Ho Hl. destruct Hs as [c n|n Hn]; destruct o as [| | |[|i]|[|i]]; unfold lstep in Hl;
    simplify_eq/=; try constructor; try done.
  destruct c; [|done]. destruct (eager && bool_decide (n = 0)) eqn:He; simplify_eq/=. constructor.
  intros ->. simpl in He. apply bool_decide_eq_false in He. lia.
Qed.

Lemma single_run l os l' : single l → LStart ∉ os → lrun eager l os = Some l' → single l'.
Proof.
  revert l; induction os as [|o os IH]; intros l Hs Hns Hl; simplify_eq/=; [done|].
  apply bind_Some in Hl as (l1 & Hst & Hl). apply (IH l1); [|set_solver|done].
  eapply single_step; [done| |done]. set_solver.
Qed.

Lemma before_start os l : LStart ∉ os → lrun eager new_loop os = Some l → l = new_loop.
Proof.
  induction os as [|o os IH]; intros Hns Hl; simplify_eq/=; [done|].
  apply bind_Some in Hl as (l1 & Hst & Hl). apply IH; [set_solver|].
  destruct o as [| | |i|i]; unfold lstep in Hst; simplify_eq/=; [set_solver|done].
Qed.

Lemma lrun_app l os1 os2 : lrun eager l (os1 ++ os2) = lrun eager l os1 ≫= λ l, lrun eager l os2.
Proof.
  revert l; induction os1 as [|o os1 IH]; intros l; simpl; [done|]. by destruct (lstep eager l o); simpl.
Qed.

Lemma exited_no_works n os :
  LStart ∉ os → lworks eager (MkLoop (Some 0) [MkGoroutine true true n] true false) os = [].
Proof.
  induction os as [|o os IH]; intros Hns; simpl; [done|].
  destruct o as [| | |[|i]|[|i]]; simpl; try done; try (by apply IH; set_solver). set_solver.
Qed.

(** C12: Stopping a background goroutine is final.  In every execution with one
    [Start], [done] is closed at most once; when [Stop] can return, the goroutine
    has exited and never works again; once [Stop] has cancelled it, it can always
    exit, at most after the work the keeper begins with, so that [Stop] returns.
    Without a [Start], [Stop] never returns. *)
Theorem loop_stop_final os1 os2 l :
  LStart ∉ os1 → LStart ∉ os2 →
  (lrun eager new_loop (os1 ++ LStart :: os2) = Some l →
   l_panicked l = false ∧
   (lstep eager l LStopped = Some l → ∀ os, LStart ∉ os → lworks eager l os = []) ∧
   (∃ os l', length os ≤ 2 ∧ lrun eager l (LCancel :: os) = Some l' ∧ lstep eager l' LStopped = Some l')) ∧
  (lrun eager new_loop os1 = Some l → lstep eager l LStopped = None).
Proof.
  intros H1 H2. split; [|by intros ->%before_start].
  rewrite lrun_app. intros (l1 & Hl1 & Hrun)%bind_Some. apply before_start in Hl1 as ->; [|done].
  assert (single l) as Hs by (eapply (single_run _ os2); [|done|exact Hrun]; constructor).
  destruct Hs as [c n|n Hn]; (split; [done|]); split.
  - done.
  - exists (if eager then [LWork 0; LExit 0] else [LExit 0]). destruct eager; eexists; simpl;
      (split; [lia|done]).
  - intros _ os. apply exited_no_works.
  - exists []. eexists. split; [simpl; lia|done].
Qed.
End props.

(** A second [Start] loses the cancel function of the first goroutine: both can
    go on, [Stop] returns when the second has exited while the first still works. *)
Theorem loop_double_start :
  ∃ l, lrun false new_loop [LStart; LStart; LCancel; LExit 1; LStopped] = Some l ∧ lworks false l [LWork 0] = [false].
Proof. by eexists. Qed.

Lemma loop_stop_final_witness :
  lworks true (default new_loop (lrun true new_loop [LStart; LWork 0; LCancel; LWork 0; LExit 0]))
    [LCancel; LWork 0; LStopped] = [].
Proof.
  refine (proj1 (proj2 (proj1 (loop_stop_final true [] [LWork 0; LCancel; LWork 0; LExit 0] _ _ _) eq_refl)) eq_refl
    [LCancel; LWork 0; LStopped] _); set_solver.
Defined.

(** ** When the goroutine works

    [time.NewTicker(interval)] at [t0] fires at [t0 + k * interval]; its channel
    holds one tick and drops further ones, so work that outlasts a tick is
    followed by the next work at once.  [c] is the tick taken last, [now] the end
    of the work before, [durs] how long each work takes; the works as intervals. *)
Fixpoint schedule (interval t0 c now : Z) (durs : list Duration) : list (Time * Time) :=
  match durs with
  | [] => []
  | d :: durs =>
    let start := Z.max now (t0 + (c + 1) * interval) in
    (start, (start + d)%Z) :: schedule interval t0 (Z.max (c + 1) ((now - t0) / interval)) (start + d) durs
  end.

(** [run] of the keeper: a work of its own ends at [t0], when the ticker is made. *)
Definition works_from (interval t0 : Z) (durs : list Duration) : list (Time * Time) := schedule interval t0 0 t0 durs.

(** Consecutive works, as a relation on neighbours of a list. *)
Fixpoint chain {A} (R : A → A → Prop) (x : A) (l : list A) : Prop :=
  match l with
  | [] => True
  | y :: l => R x y ∧ chain R y l
  end.
Lemma chain_impl {A} (R1 R2 : A → A → Prop) x l : (∀ x y, R1 x y → R2 x y) → chain R1 x l → chain R2 x l.
Proof. intros HR. revert x; induction l as [|y l IH]; intros x; simpl; [done|]. intros [? ?]. eauto. Qed.

(** From the begin of a work to the end of the next there are at most an interval
    and the duration of two works. *)
Lemma schedule_gap interval δ t0 c s e durs :
  (0 < interval)%Z → Forall (λ d, 0 ≤ d ≤ δ)%Z durs →
  (t0 + c * interval ≤ s < t0 + (c + 1) * interval)%Z → (s ≤ e ≤ s + δ)%Z →
  chain (λ x y, x.2 ≤ y.1 ∧ y.1 ≤ y.2 ∧ y.1 - x.1 ≤ Z.max δ interval ∧ y.2 - x.1 ≤ Z.max δ interval + δ)%Z (s, e) (schedule interval t0 c e durs).
Proof.
  intros Hiv. revert c s e; induction durs as [|d durs IH]; intros c s e Hd Hs He; simpl; [done|].
  apply Forall_cons in Hd as [Hd Hds].
  split; [simpl; lia|]. apply IH; [done| |lia].
  pose proof (Z.div_mod (e - t0) interval ltac:(lia)) as Hdm.
  pose proof (Z.mod_pos_bound (e - t0) interval Hiv) as Hm.
  destruct (Z.max_spec e (t0 + (c + 1) * interval)) as [[Hlt ->]|[Hle ->]].
  - assert ((e - t0) / interval ≤ c)%Z as Hc.
    { apply Z.lt_succ_r, Z.div_lt_upper_bound; [done|]. lia. }
    rewrite Z.max_l by lia. lia.
  - assert (c + 1 ≤ (e - t0) / interval)%Z as Hc by (apply Z.div_le_lower_bound; lia).
    rewrite Z.max_r by lia. lia.
Qed.

(** A goroutine that waits for its tick, and one that is late. *)
Lemma schedule_idle interval t0 c now d durs :
  (0 < interval)%Z → (now ≤ t0 + (c + 1) * interval)%Z →
  schedule interval t0 c now (d :: durs) =
  (t0 + (c + 1) * interval, t0 + (c + 1) * interval + d)%Z :: schedule interval t0 (c + 1) (t0 + (c + 1) * interval + d) durs.
Proof.
  intros Hiv Hle. simpl. rewrite Z.max_r by done.
  assert ((now - t0) / interval ≤ c + 1)%Z.
  { apply Z.div_le_upper_bound; lia. }
  by rewrite Z.max_l by done.
Qed.
Lemma schedule_busy interval t0 c now d durs :
  (t0 + (c + 1) * interval ≤ now)%Z →
  schedule interval t0 c now (d :: durs) =
  (now, (now + d)%Z) :: schedule interval t0 (Z.max (c + 1) ((now - t0) / interval)) (now + d) durs.
Proof. intros Hle. simpl. by rewrite Z.max_l by done. Qed.

(** No work begins before its tick. *)
Lemma schedule_late interval t0 c e durs :
  (0 ≤ interval)%Z → (0 ≤ c)%Z → Forall (λ w : Time * Time, t0 + interval ≤ w.1)%Z (schedule interval t0 c e durs).
Proof.
  intros Hiv. revert c e; induction durs as [|d durs IH]; intros c e Hc; simpl; constructor.
  - simpl. nia.
  - apply IH. lia.
Qed.

Lemma works_from_gap interval δ t0 durs :
  (0 < interval)%Z → (0 ≤ δ)%Z → Forall (λ d, 0 ≤ d ≤ δ)%Z durs →
  chain (λ x y, x.2 ≤ y.1 ∧ y.1 ≤ y.2 ∧ y.1 - x.1 ≤ Z.max δ interval ∧ y.2 - x.1 ≤ Z.max δ interval + δ)%Z (t0, t0) (works_from interval t0 durs).
Proof. intros. apply schedule_gap; [done..|lia|lia]. Qed.
