(* ===== verification/Locks.v ===== *)
(** * Locks: the lock table of [internal/locks]

    [Table] is the struct of [table.go] without its mutex: every exported method
    runs under it, so each is one function of the table.  [Emit] says whether the
    hook is set.  A method returns the new table, its results, and its effects
    ([Broadcast] on the condition variable, emitted events); [now] is the value
    its call of [time.Now] returns.  [RunExpirer] of [expirer.go] is one tick of
    its ticker.  The table refines [GrantSpec]. *)
From S2P Require Import Prelude Events GrantSpec.

Definition MaxNameLen : nat := 128.
Definition MaxLocks : nat := 4096.
Definition DefaultTTL : Duration := (15 * Second)%Z.
Definition MinTTL : Duration := Millisecond.
Definition MaxTTL : Duration := (24 * Hour)%Z.
Definition DefaultExpireInterval : Duration := (100 * Millisecond)%Z.

Definition ClampTTL (requested fallback : Duration) : Duration :=
  let requested := if (requested <=? 0)%Z then fallback else requested in
  let requested := if (requested <=? 0)%Z then DefaultTTL else requested in
  if (requested <? MinTTL)%Z then MinTTL else
  if (MaxTTL <? requested)%Z then MaxTTL else requested.

Record LockRecord := MkLock {
  lk_Name : string;
  lk_Holder : string;
  lk_Token : Z;
  lk_AcquiredAt : Time;
  lk_Deadline : Time;
  lk_TTL : Duration;
}.

Definition refresh (r : LockRecord) (deadline : Time) (ttl : Duration) : LockRecord :=
  MkLock (lk_Name r) (lk_Holder r) (lk_Token r) (lk_AcquiredAt r) deadline ttl.

Record Table := MkTable {
  locks : gmap string LockRecord;
  next : Z;
  Emit : bool;
}.

Definition New : Table := MkTable ∅ 0 false.

Definition set_locks (t : Table) (m : gmap string LockRecord) : Table :=
  MkTable m (next t) (Emit t).

Record Snapshot := MkSnapshot { sn_Locks : list LockRecord; sn_Next : Z }.

Section table.
Context `{Unicode}.

Definition nameChar (r : Z) : bool :=
  negb (negb (IsLetter r) && negb (IsDigit r) && negb (r =? 46)%Z &&
        negb (r =? 95)%Z && negb (r =? 45)%Z).

Definition ValidName (name : string) : option error :=
  if str_empty name then Some (Errorf "lock name is required" []) else
  if bool_decide (MaxNameLen < String.length name)
  then Some (Errorf "lock name exceeds %d characters" [ANum (Z.of_nat MaxNameLen)]) else
  match List.find (λ r, negb (nameChar r)) (runes name) with
  | Some r => Some (Errorf "lock name contains invalid character %q" [ARune r])
  | None => None
  end.

Definition Acquire (now : Time) (t : Table) (name holder : string)
    (deadline : Time) (ttl : Duration) : Table * result error (Z * bool) * list effect :=
  match ValidName name with
  | Some err => (t, Fail err, [])
  | None =>
    if str_empty holder then (t, Fail (Errorf "lock holder is required" []), []) else
    match locks t !! name with
    | Some rec =>
      if String.eqb (lk_Holder rec) holder
      then (set_locks t (<[name := refresh rec deadline ttl]> (locks t)),
            Ok (lk_Token rec, true), [Broadcast])
      else (t, Ok (lk_Token rec, false), [])
    | None =>
      if bool_decide (MaxLocks ≤ size (locks t))
      then (t, Fail (Errorf "too many locks (max %d)" [ANum (Z.of_nat MaxLocks)]), [])
      else
        let nx := u64 (next t + 1) in
        let rec := MkLock name holder nx now deadline ttl in
        (MkTable (<[name := rec]> (locks t)) nx (Emit t), Ok (nx, true), [Broadcast])
    end
  end.

Definition not_held (name : string) : error := Errorf "lock %q is not held" [AStr name].
Definition token_mismatch (name : string) : error :=
  Errorf "fencing token mismatch for lock %q" [AStr name].

Definition Release (t : Table) (name holder : string) (token : Z)
    : Table * option error * list effect :=
  match ValidName name with
  | Some err => (t, Some err, [])
  | None =>
    match locks t !! name with
    | None => (t, Some (not_held name), [])
    | Some rec =>
      if negb (String.eqb (lk_Holder rec) holder) || negb (lk_Token rec =? token)%Z
      then (t, Some (token_mismatch name), [])
      else (set_locks t (delete name (locks t)), None, [Broadcast])
    end
  end.

Definition Renew (t : Table) (name holder : string) (token : Z)
    (deadline : Time) (ttl : Duration) : Table * option error * list effect :=
  match ValidName name with
  | Some err => (t, Some err, [])
  | None =>
    match locks t !! name with
    | None => (t, Some (not_held name), [])
    | Some rec =>
      if negb (String.eqb (lk_Holder rec) holder) || negb (lk_Token rec =? token)%Z
      then (t, Some (token_mismatch name), [])
      else (set_locks t (<[name := refresh rec deadline ttl]> (locks t)), None, [])
    end
  end.

Definition Expire (t : Table) (name : string) (token : Z) : Table * bool * list effect :=
  match ValidName name with
  | Some _ => (t, false, [])
  | None =>
    match locks t !! name with
    | None => (t, false, [])
    | Some rec =>
      if negb (lk_Token rec =? token)%Z then (t, false, []) else
      (set_locks t (delete name (locks t)), true,
       Broadcast ::
       (if Emit t then
          [Emitted (new_event TypeLockExpired name
             (JsonObject [("holder", JStr (lk_Holder rec)); ("token", JNum (lk_Token rec))]))]
        else []))
    end
  end.

Definition due_at (now : Time) (r : LockRecord) : bool :=
  negb (IsZero (lk_Deadline r)) && negb (After (lk_Deadline r) now).

Definition records (t : Table) : list LockRecord := values (locks t).

Definition Due (t : Table) (now : Time) : list LockRecord :=
  sort_by lk_Name (List.filter (due_at now) (records t)).

Definition Get (t : Table) (name : string) : option LockRecord := locks t !! name.

Definition List_ (t : Table) : list LockRecord := sort_by lk_Name (records t).

Definition SnapshotCopy (t : Table) : Snapshot := MkSnapshot (records t) (next t).

Definition Restore (t : Table) (snap : Snapshot) : Table * list effect :=
  (MkTable (put_all lk_Name ∅ (sn_Locks snap)) (sn_Next snap) (Emit t),
   [Broadcast]).

(** One tick of [RunExpirer].  [isLeader] is [None] when no leadership test is
    given; [expire] is the commit of one expiry, whose error is only logged, on
    the state [S] it changes. *)
Definition RunExpirer_interval (interval : Duration) : Duration :=
  if (interval <=? 0)%Z then DefaultExpireInterval else interval.

Definition RunExpirer_tick {S} (t : Table) (isLeader : option bool)
    (expire : S → string → Z → S) (now : Time) (s : S) : S :=
  match isLeader with
  | Some false => s
  | _ => foldl (λ s rec, expire s (lk_Name rec) (lk_Token rec)) s (Due t now)
  end.

End table.

(** ** The abstract state and the table invariant *)

Definition lock_abs (t : Table) : Grants :=
  MkGrants ((λ r, (lk_Holder r, lk_Token r)) <$> locks t) (next t).

Definition acq_resp (r : result error (Z * bool)) : gresp :=
  match r with
  | Ok (tok, true) => RGranted tok
  | Ok (tok, false) => RDenied tok
  | Fail _ => RRejected
  end.
Definition err_resp (r : option error) : gresp :=
  match r with None => RDone | Some _ => RRejected end.
Definition bool_resp (b : bool) : gresp := if b then RDone else RRejected.

Section props.
Context `{Unicode}.

Definition lock_adm (n h : string) : Prop := ValidName n = None ∧ h ≠ "".

(** Every entry sits under its own valid name with a non-empty holder, and the
    table is not larger than [MaxLocks]. *)
Record lock_wf (t : Table) : Prop := {
  lwf_entry : ∀ n r, locks t !! n = Some r → lk_Name r = n ∧ lock_adm n (lk_Holder r);
  lwf_size : size (locks t) ≤ MaxLocks;
}.

(** Tables that differ only in the local clock reading [AcquiredAt]: what two
    replicas that applied the same commands share. *)
Definition lock_erase (r : LockRecord) : LockRecord :=
  MkLock (lk_Name r) (lk_Holder r) (lk_Token r) zeroTime (lk_Deadline r) (lk_TTL r).
Definition lock_equiv (t1 t2 : Table) : Prop :=
  lock_erase <$> locks t1 = lock_erase <$> locks t2 ∧ next t1 = next t2 ∧ Emit t1 = Emit t2.

(** ** Lemmas *)

Lemma lock_ClampTTL_bounds r f : (MinTTL ≤ ClampTTL r f ≤ MaxTTL)%Z.
Proof.
  unfold ClampTTL. set (r' := if (r <=? 0)%Z then f else r).
  assert (MinTTL ≤ MaxTTL)%Z by done.
  go_cases; breflect; unfold DefaultTTL, MinTTL, MaxTTL, Second, Hour, Millisecond in *; lia.
Qed.

Lemma lock_abs_lookup t n :
  held (lock_abs t) !! n = (λ r, (lk_Holder r, lk_Token r)) <$> locks t !! n.
Proof. apply lookup_fmap. Qed.

Lemma lock_abs_size t : size (held (lock_abs t)) = size (locks t).
Proof. apply map_size_fmap. Qed.

Lemma lock_abs_refresh t n rec d ttl :
  locks t !! n = Some rec →
  lock_abs (set_locks t (<[n := refresh rec d ttl]> (locks t))) = lock_abs t.
Proof.
  intros Hn. unfold lock_abs; simpl. f_equal. rewrite fmap_insert; simpl.
  apply insert_id. by rewrite lookup_fmap, Hn.
Qed.

Lemma lock_abs_delete t n :
  lock_abs (set_locks t (delete n (locks t))) = MkGrants (delete n (held (lock_abs t))) (high (lock_abs t)).
Proof. unfold lock_abs; simpl. by rewrite fmap_delete. Qed.

Lemma lock_abs_insert t n rec nx em :
  lock_abs (MkTable (<[n := rec]> (locks t)) nx em) =
  MkGrants (<[n := (lk_Holder rec, lk_Token rec)]> (held (lock_abs t))) nx.
Proof. unfold lock_abs; simpl. by rewrite fmap_insert. Qed.

Lemma lock_wf_New : lock_wf New.
Proof. split; simpl; [intros n r; by rewrite lookup_empty|]. rewrite map_size_empty. lia. Qed.

Lemma lock_wf_refresh t n rec d ttl :
  lock_wf t → locks t !! n = Some rec →
  lock_wf (set_locks t (<[n := refresh rec d ttl]> (locks t))).
Proof.
  intros [He Hs] Hn. split; simpl.
  - intros n' r [[<- <-]|[? Hl]]%lookup_insert_Some; [by apply He in Hn|by apply He].
  - by rewrite map_size_insert_Some.
Qed.

Lemma lock_wf_delete t n : lock_wf t → lock_wf (set_locks t (delete n (locks t))).
Proof.
  intros [He Hs]. split; simpl.
  - intros n' r [_ Hl]%lookup_delete_Some. by apply He.
  - etrans; [apply map_size_delete_le|done].
Qed.

(** Whether a request names the holder and token of the current record. *)
Lemma lock_match_iff rec h tok :
  negb (String.eqb (lk_Holder rec) h) || negb (lk_Token rec =? tok)%Z = false ↔
  (lk_Holder rec, lk_Token rec) = (h, tok).
Proof.
  rewrite orb_false_iff, !negb_false_iff, String.eqb_eq, Z.eqb_eq. split; [by intros [-> ->]|].
  by intros [= -> ->].
Qed.

(** ** Refinement of [GrantSpec], operation by operation *)

Lemma lock_Acquire_refines now t n h d ttl t' r es :
  Acquire now t n h d ttl = (t', r, es) →
  gstep lock_adm MaxLocks (lock_abs t) (GAcquire n h) (acq_resp r) (lock_abs t').
Proof.
  unfold Acquire. intros Ha.
  destruct (ValidName n) as [e|] eqn:Hv; [|destruct (str_empty h) eqn:Hh].
  - simplify_eq/=. apply step_acquire_refused. left. intros [? _]. congruence.
  - simplify_eq/=. apply str_empty_true in Hh. apply step_acquire_refused. left. by intros [_ ?].
  - apply str_empty_false in Hh.
    destruct (locks t !! n) as [rec|] eqn:Hn; [case_match; breflect|case_bool_decide];
      simplify_eq/=.
    + rewrite lock_abs_refresh by done. apply step_acquire_again. by rewrite lock_abs_lookup, Hn.
    + eapply step_acquire_denied; [by rewrite lock_abs_lookup, Hn|done].
    + apply step_acquire_refused. right. by rewrite lock_abs_size, lock_abs_lookup, Hn.
    + rewrite lock_abs_insert. apply (step_acquire_fresh _ _ (lock_abs t)); [by rewrite lock_abs_lookup, Hn|done|].
      rewrite lock_abs_size. lia.
Qed.

Lemma lock_Acquire_wf now t n h d ttl t' r es :
  Acquire now t n h d ttl = (t', r, es) → lock_wf t → lock_wf t'.
Proof.
  unfold Acquire. intros Ha Hwf.
  destruct (ValidName n) eqn:Hv; [by simplify_eq|].
  destruct (str_empty h) eqn:Hh; [by simplify_eq|apply str_empty_false in Hh].
  destruct (locks t !! n) as [rec|] eqn:Hn; [case_match|case_bool_decide]; simplify_eq; try done.
  - by apply lock_wf_refresh.
  - destruct Hwf as [He Hs]. split; simpl.
    + intros n' r' [[<- <-]|[? ?]]%lookup_insert_Some; [done|by apply He].
    + rewrite map_size_insert_None by done. lia.
Qed.

(** A granted request leaves the record it asked for. *)
Lemma lock_Acquire_granted now t n h d ttl tok :
  (Acquire now t n h d ttl).1.2 = Ok (tok, true) →
  ∃ r, locks (Acquire now t n h d ttl).1.1 !! n = Some r ∧ lk_Holder r = h ∧ lk_Token r = tok ∧
    lk_Deadline r = d ∧ lk_TTL r = ttl.
Proof.
  unfold Acquire. intros Ha. go_cases; breflect; rewrite lookup_insert_eq; eexists; split_and!; done.
Qed.

(** An entry of a well-formed table has a valid name, so a request under an
    invalid name matches no grant. *)
Lemma lock_invalid_absent t n e : lock_wf t → ValidName n = Some e → locks t !! n = None.
Proof.
  intros Hwf Hv. destruct (locks t !! n) as [rec|] eqn:Hn; [|done].
  apply Hwf in Hn as (_ & Hadm & _). congruence.
Qed.

Lemma lock_Release_refines t n h tok t' r es :
  lock_wf t → Release t n h tok = (t', r, es) →
  gstep lock_adm MaxLocks (lock_abs t) (GRelease n h tok) (err_resp r) (lock_abs t').
Proof.
  unfold Release. intros Hwf Hr.
  destruct (ValidName n) as [e|] eqn:Hv; [|destruct (locks t !! n) as [rec|] eqn:Hn; [case_match eqn:Hm|]];
    simplify_eq/=.
  - apply step_release_refused. by rewrite lock_abs_lookup, (lock_invalid_absent _ _ _ Hwf Hv).
  - apply step_release_refused. rewrite lock_abs_lookup, Hn; simpl. intros [= ? ?].
    apply not_false_iff_true in Hm. by rewrite lock_match_iff in Hm; simplify_eq.
  - apply lock_match_iff in Hm. simplify_eq. rewrite lock_abs_delete.
    apply step_release. by rewrite lock_abs_lookup, Hn.
  - apply step_release_refused. by rewrite lock_abs_lookup, Hn.
Qed.

Lemma lock_Renew_refines t n h tok d ttl t' r es :
  lock_wf t → Renew t n h tok d ttl = (t', r, es) →
  gstep lock_adm MaxLocks (lock_abs t) (GRenew n h tok) (err_resp r) (lock_abs t').
Proof.
  unfold Renew. intros Hwf Hr.
  destruct (ValidName n) as [e|] eqn:Hv; [|destruct (locks t !! n) as [rec|] eqn:Hn; [case_match eqn:Hm|]];
    simplify_eq/=.
  - apply step_renew_refused. by rewrite lock_abs_lookup, (lock_invalid_absent _ _ _ Hwf Hv).
  - apply step_renew_refused. rewrite lock_abs_lookup, Hn; simpl. intros [= ? ?].
    apply not_false_iff_true in Hm. by rewrite lock_match_iff in Hm; simplify_eq.
  - apply lock_match_iff in Hm. simplify_eq. rewrite lock_abs_refresh by done.
    apply step_renew. by rewrite lock_abs_lookup, Hn.
  - apply step_renew_refused. by rewrite lock_abs_lookup, Hn.
Qed.

Lemma lock_Expire_refines t n tok t' r es :
  lock_wf t → Expire t n tok = (t', r, es) →
  gstep lock_adm MaxLocks (lock_abs t) (GExpire n tok) (bool_resp r) (lock_abs t').
Proof.
  unfold Expire. intros Hwf Hr.
  destruct (ValidName n) as [e|] eqn:Hv; [|destruct (locks t !! n) as [rec|] eqn:Hn; [case_match eqn:Hm|]];
    breflect; simplify_eq/=.
  - apply step_expire_refused. intros h. by rewrite lock_abs_lookup, (lock_invalid_absent _ _ _ Hwf Hv).
  - apply step_expire_refused. intros h. rewrite lock_abs_lookup, Hn; simpl. congruence.
  - rewrite lock_abs_delete. eapply step_expire. by rewrite lock_abs_lookup, Hn.
  - apply step_expire_refused. intros h. by rewrite lock_abs_lookup, Hn.
Qed.

Lemma lock_Release_wf t n h tok t' r es :
  Release t n h tok = (t', r, es) → lock_wf t → lock_wf t'.
Proof. unfold Release. intros Hr Hwf. go_cases; auto using lock_wf_delete. Qed.
Lemma lock_Renew_wf t n h tok d ttl t' r es :
  Renew t n h tok d ttl = (t', r, es) → lock_wf t → lock_wf t'.
Proof. unfold Renew. intros Hr Hwf. go_cases; auto using lock_wf_refresh. Qed.
Lemma lock_Expire_wf t n tok t' r es :
  Expire t n tok = (t', r, es) → lock_wf t → lock_wf t'.
Proof. unfold Expire. intros Hr Hwf. go_cases; auto using lock_wf_delete. Qed.

(** ** Replicas: operations respect [lock_equiv] whatever the local clocks *)

#[export] Instance lock_equiv_equivalence : Equivalence lock_equiv.
Proof.
  split; unfold lock_equiv.
  - done.
  - by intros t1 t2 (-> & -> & ->).
  - by intros t1 t2 t3 (-> & -> & ->).
Qed.

Lemma lock_equiv_lookup t1 t2 n :
  lock_equiv t1 t2 → lock_erase <$> locks t1 !! n = lock_erase <$> locks t2 !! n.
Proof. intros (Hl & _ & _). by rewrite <-!lookup_fmap, Hl. Qed.

Lemma lock_equiv_size t1 t2 : lock_equiv t1 t2 → size (locks t1) = size (locks t2).
Proof.
  intros (Hl & _ & _).
  by rewrite <-(map_size_fmap lock_erase (locks t1)), Hl, map_size_fmap.
Qed.

Lemma lock_equiv_insert t1 t2 n r1 r2 nx :
  lock_equiv t1 t2 → lock_erase r1 = lock_erase r2 →
  lock_equiv (MkTable (<[n := r1]> (locks t1)) nx (Emit t1))
             (MkTable (<[n := r2]> (locks t2)) nx (Emit t2)).
Proof. intros (Hl & _ & He) Hr. split_and!; simpl; try done. by rewrite !fmap_insert, Hl, Hr. Qed.

Lemma lock_equiv_delete t1 t2 n :
  lock_equiv t1 t2 →
  lock_equiv (set_locks t1 (delete n (locks t1))) (set_locks t2 (delete n (locks t2))).
Proof. intros (Hl & Hn & He). split_and!; simpl; try done. by rewrite !fmap_delete, Hl. Qed.

(** Case analysis on the entry two equivalent tables have under a name. *)
Ltac lock_lookup_cases Heq n :=
  let Hl := fresh "Hl" in
  pose proof (lock_equiv_lookup _ _ n Heq) as Hl;
  let E1 := fresh "E1" in let E2 := fresh "E2" in
  match type of Hl with
  | lock_erase <$> ?a = lock_erase <$> ?b =>
    destruct a as [[]|] eqn:E1, b as [[]|] eqn:E2; simplify_eq/=; try done
  end.

#[export] Instance lock_Acquire_proper :
  Proper (any_clock ==> lock_equiv ==> (=) ==> (=) ==> (=) ==> (=) ==> outcome_equiv lock_equiv) Acquire.
Proof.
  intros now1 now2 _ t1 t2 Heq n ? <- h ? <- d ? <- ttl ? <-. unfold Acquire.
  destruct (ValidName n); [by apply outcome_equiv_intro|].
  destruct (str_empty h); [by apply outcome_equiv_intro|].
  pose proof Heq as (_ & Hnx & Hem).
  lock_lookup_cases Heq n.
  - case_match; [|by apply outcome_equiv_intro]. apply outcome_equiv_intro.
    unfold set_locks. rewrite Hnx. by apply lock_equiv_insert.
  - rewrite (lock_equiv_size _ _ Heq), Hnx. case_bool_decide; [by apply outcome_equiv_intro|].
    apply outcome_equiv_intro. by apply lock_equiv_insert.
Qed.

#[export] Instance lock_Release_proper :
  Proper (lock_equiv ==> (=) ==> (=) ==> (=) ==> outcome_equiv lock_equiv) Release.
Proof.
  intros t1 t2 Heq n ? <- h ? <- tok ? <-. unfold Release.
  destruct (ValidName n); [by apply outcome_equiv_intro|].
  lock_lookup_cases Heq n.
  case_match; apply outcome_equiv_intro; [done|by apply lock_equiv_delete].
Qed.

#[export] Instance lock_Renew_proper :
  Proper (lock_equiv ==> (=) ==> (=) ==> (=) ==> (=) ==> (=) ==> outcome_equiv lock_equiv) Renew.
Proof.
  intros t1 t2 Heq n ? <- h ? <- tok ? <- d ? <- ttl ? <-. unfold Renew.
  destruct (ValidName n); [by apply outcome_equiv_intro|].
  pose proof Heq as (_ & Hnx & Hem).
  lock_lookup_cases Heq n.
  case_match; apply outcome_equiv_intro; [done|].
  unfold set_locks. rewrite Hnx. by apply lock_equiv_insert.
Qed.

#[export] Instance lock_Expire_proper :
  Proper (lock_equiv ==> (=) ==> (=) ==> outcome_equiv lock_equiv) Expire.
Proof.
  intros t1 t2 Heq n ? <- tok ? <-. unfold Expire.
  destruct (ValidName n); [by apply outcome_equiv_intro|].
  pose proof Heq as (_ & _ & Hem).
  lock_lookup_cases Heq n.
  case_match; [by apply outcome_equiv_intro|]. rewrite Hem.
  apply outcome_equiv_intro. by apply lock_equiv_delete.
Qed.

(** ** Listing, snapshots and expiry *)

Lemma lock_keyed t : lock_wf t → keyed lk_Name (locks t).
Proof. intros Hwf n r Hn. by apply Hwf in Hn as [? _]. Qed.

Lemma lock_due_iff now r :
  due_at now r = true ↔ lk_Deadline r ≠ zeroTime ∧ (lk_Deadline r ≤ now)%Z.
Proof.
  unfold due_at, IsZero, After. rewrite andb_true_iff, !negb_true_iff, Z.eqb_neq, Z.ltb_ge. done.
Qed.

Lemma lock_Due_elem t now r :
  lock_wf t → r ∈ Due t now ↔ locks t !! lk_Name r = Some r ∧ due_at now r = true.
Proof.
  intros Hwf. unfold Due, records. rewrite sort_by_perm, list_elem_of_In, List.filter_In, <-list_elem_of_In.
  by rewrite (keyed_elem lk_Name) by by apply lock_keyed.
Qed.

Lemma lock_Due_NoDup t now : lock_wf t → NoDup (lk_Name <$> Due t now).
Proof.
  intros Hwf. unfold Due, records. rewrite sort_by_perm.
  by apply NoDup_filter_names, keyed_NoDup, lock_keyed.
Qed.

Lemma lock_Expire_hit t r :
  lock_wf t → locks t !! lk_Name r = Some r →
  (Expire t (lk_Name r) (lk_Token r)).1.1 = set_locks t (delete (lk_Name r) (locks t)).
Proof.
  intros Hwf Hr. unfold Expire. pose proof (lwf_entry _ Hwf _ _ Hr) as (_ & Hv & _).
  by rewrite Hv, Hr, Z.eqb_refl.
Qed.

Lemma lock_expire_all t l :
  lock_wf t → NoDup (lk_Name <$> l) → (∀ r, r ∈ l → locks t !! lk_Name r = Some r) →
  foldl (λ s rec, (Expire s (lk_Name rec) (lk_Token rec)).1.1) t l =
  set_locks t (drop_all (locks t) (lk_Name <$> l)).
Proof.
  revert t; induction l as [|r l IH]; intros t Hwf Hnd Hin; [by destruct t|].
  apply NoDup_cons in Hnd as [Hr Hnd]. cbn [foldl fmap list_fmap].
  rewrite lock_Expire_hit by (try done; apply Hin; left).
  rewrite IH; [done|by apply lock_wf_delete|done|].
  intros r' Hr'. simpl. rewrite lookup_delete_ne; [by apply Hin; right|].
  intros Hn. apply Hr. rewrite Hn. by apply list_elem_of_fmap_2.
Qed.

(** [List] returns every held lock exactly once, in name order, whatever the
    order in which Go iterates the map. *)
Theorem lock_List_complete t l :
  lock_wf t → l ≡ₚ records t →
  sort_by lk_Name l = List_ t ∧
  StronglySorted (λ a b, String.le (lk_Name a) (lk_Name b)) (List_ t) ∧
  NoDup (lk_Name <$> List_ t) ∧
  ∀ r, r ∈ List_ t ↔ Get t (lk_Name r) = Some r.
Proof.
  intros Hwf Hp. pose proof (lock_keyed _ Hwf) as Hk. unfold List_, Get, records in *.
  split_and!; [by apply sort_by_values|apply sort_by_sorted| |].
  - rewrite sort_by_perm. by apply keyed_NoDup.
  - intros r. rewrite sort_by_perm. by apply keyed_elem.
Qed.

(** Restoring a snapshot, whatever the order of its records, gives back the
    locks and the token counter of the table it was taken from, and wakes the
    waiters. *)
Theorem lock_snapshot_roundtrip t t0 l :
  lock_wf t → l ≡ₚ sn_Locks (SnapshotCopy t) →
  Restore t0 (MkSnapshot l (sn_Next (SnapshotCopy t))) =
  (MkTable (locks t) (next t) (Emit t0), [Broadcast]).
Proof.
  intros Hwf Hp. unfold Restore, SnapshotCopy, records in *; simpl in *.
  by rewrite (put_all_rebuild lk_Name (locks t)) by (try done; by apply lock_keyed).
Qed.

Lemma lock_tick_lookup t now :
  lock_wf t →
  let t' := RunExpirer_tick t (Some true) (λ s n k, (Expire s n k).1.1) now t in
  t' = set_locks t (locks t') ∧ lock_wf t' ∧
  ∀ n, locks t' !! n =
    match locks t !! n with
    | Some r => if due_at now r then None else Some r
    | None => None
    end.
Proof.
  intros Hwf t'. unfold t', RunExpirer_tick.
  rewrite lock_expire_all; [|done|by apply lock_Due_NoDup|by intros r [? _]%lock_Due_elem].
  split; [done|]. split.
  { clear t'. generalize (lk_Name <$> Due t now) as l. revert t Hwf.
    intros t Hwf l; revert t Hwf; induction l as [|n l IH]; intros t Hwf; simpl; [by destruct t|].
    exact (IH _ (lock_wf_delete t n Hwf)). }
  intros n; simpl. rewrite drop_all_lookup.
  destruct (locks t !! n) as [r|] eqn:Hn; [|by case_bool_decide].
  pose proof (lock_keyed _ Hwf _ _ Hn) as Hnm.
  case_bool_decide as Hin; destruct (due_at now r) eqn:Hd; try done; exfalso.
  - apply list_elem_of_fmap in Hin as (r' & -> & [Hr' Hd']%lock_Due_elem); [congruence|done].
  - apply Hin. rewrite <-Hnm. apply list_elem_of_fmap_2, lock_Due_elem; [done|].
    by rewrite Hnm.
Qed.

(** One tick of the expirer on the leader, with every expiry committed, drops
    exactly the locks whose deadline is set and has passed; the others, and the
    token counter, stay as they were. *)
Theorem lock_expirer_exact t now :
  lock_wf t →
  let t' := RunExpirer_tick t (Some true) (λ s n k, (Expire s n k).1.1) now t in
  next t' = next t ∧
  ∀ n, locks t' !! n =
    match locks t !! n with
    | Some r => if due_at now r then None else Some r
    | None => None
    end.
Proof.
  intros Hwf t'. destruct (lock_tick_lookup t now Hwf) as (Ht & _ & Hl). split; [|exact Hl].
  exact (f_equal next Ht).
Qed.

(** The expiry of a lock does not see a renewal: after a successful [Renew]
    with any new deadline, a queued [Expire] with the same token still drops the
    lock, although the comment on [Expire] says a raced renew makes it a no-op. *)
Theorem lock_expire_ignores_renew t n h tok deadline ttl t1 es :
  Renew t n h tok deadline ttl = (t1, None, es) →
  (Expire t1 n tok).1.2 = true ∧ Get (Expire t1 n tok).1.1 n = None.
Proof.
  unfold Renew. intros Hr. destruct (ValidName n) eqn:Hv; [done|].
  destruct (locks t !! n) as [rec|] eqn:Hn; [|done]. case_match eqn:Hm; [done|].
  apply lock_match_iff in Hm. simplify_eq. unfold Expire, Get. rewrite Hv; simpl.
  rewrite lookup_insert_eq; simpl. rewrite Z.eqb_refl; simpl. by rewrite lookup_delete_eq.
Qed.

End props.

(** ** A concrete table: [n1] holds [a] (due at 50) and [n2] holds [b] *)
Module LockExamples.
#[export] Existing Instance latin1.

Definition one : Table := (Acquire 1 New "b" "n2" 90 10).1.1.
Definition two : Table := (Acquire 2 one "a" "n1" 50 10).1.1.
Lemma two_wf : lock_wf two.
Proof.
  eapply lock_Acquire_wf; [by apply outcome_eta|].
  eapply lock_Acquire_wf; [by apply outcome_eta|]. apply lock_wf_New.
Qed.

Lemma lock_List_complete_witness : NoDup (lk_Name <$> List_ two).
Proof. apply (lock_List_complete two (records two)); [apply two_wf|done]. Defined.

Lemma lock_snapshot_roundtrip_witness :
  Restore New (SnapshotCopy two) = (MkTable (locks two) 2 false, [Broadcast]).
Proof. apply (lock_snapshot_roundtrip two New (records two)); [apply two_wf|done]. Defined.

Lemma lock_expirer_exact_witness :
  locks (RunExpirer_tick two (Some true) (λ s n k, (Expire s n k).1.1) 60 two) !! "a" = None.
Proof. apply (lock_expirer_exact two 60 two_wf). Defined.

Lemma lock_expire_ignores_renew_witness :
  Get (Expire (Renew two "a" "n1" 2 1000 10).1.1 "a" 2).1.1 "a" = None.
Proof.
  apply (lock_expire_ignores_renew two "a" "n1" 2 1000 10 (Renew two "a" "n1" 2 1000 10).1.1 []).
  apply outcome_eta; vm_compute; reflexivity.
Defined.
End LockExamples.
