(* ===== verification/Leases.v ===== *)
(** * Leases: the lease table of [internal/leases]

    The struct and methods of [table.go], and one tick of [RunExpirer] of
    [expirer.go], in the form of [Locks]: each method runs under the mutex and
    returns the new table, its results and the events it emits.  A lease table
    has no condition variable; it emits [lease.granted], [lease.revoked] and
    [lease.expired].  [as_lock] reads a lease table as a lock table: the
    operations correspond one to one, which carries the refinement of
    [GrantSpec] and the invariant over from [Locks]. *)
From S2P Require Import Prelude Events GrantSpec Locks.

Definition MaxNameLen : nat := 128.
Definition MaxLeases : nat := 4096.
Definition DefaultTTL : Duration := (15 * Second)%Z.
Definition MinTTL : Duration := Millisecond.
Definition MaxTTL : Duration := (24 * Hour)%Z.
Definition DefaultExpireInterval : Duration := (100 * Millisecond)%Z.

Definition ClampTTL (requested fallback : Duration) : Duration :=
  let requested := if (requested <=? 0)%Z then fallback else requested in
  let requested := if (requested <=? 0)%Z then DefaultTTL else requested in
  if (requested <? MinTTL)%Z then MinTTL else
  if (MaxTTL <? requested)%Z then MaxTTL else requested.

Record LeaseRecord := MkLease {
  ls_Name : string;
  ls_Owner : string;
  ls_Token : Z;
  ls_GrantedAt : Time;
  ls_Deadline : Time;
  ls_TTL : Duration;
}.

Definition refresh (r : LeaseRecord) (deadline : Time) (ttl : Duration) : LeaseRecord :=
  MkLease (ls_Name r) (ls_Owner r) (ls_Token r) (ls_GrantedAt r) deadline ttl.

Record Table := MkTable {
  leases : gmap string LeaseRecord;
  next : Z;
  Emit : bool;
}.

Definition New : Table := MkTable ∅ 0 false.

Definition set_leases (t : Table) (m : gmap string LeaseRecord) : Table :=
  MkTable m (next t) (Emit t).

Record Snapshot := MkSnapshot { sn_Leases : list LeaseRecord; sn_Next : Z }.

(** [t.emit(fn, typ, rec)]: the hook, if set, with owner and token as JSON. *)
Definition emit (fn : bool) (typ : string) (rec : LeaseRecord) : list effect :=
  if fn then
    [Emitted (new_event typ (ls_Name rec)
       (JsonObject [("owner", JStr (ls_Owner rec)); ("token", JNum (ls_Token rec))]))]
  else [].

Section table.
Context `{Unicode}.

Definition nameChar (r : Z) : bool :=
  negb (negb (IsLetter r) && negb (IsDigit r) && negb (r =? 46)%Z &&
        negb (r =? 95)%Z && negb (r =? 45)%Z).

Definition ValidName (name : string) : option error :=
  if str_empty name then Some (Errorf "lease name is required" []) else
  if bool_decide (MaxNameLen < String.length name)
  then Some (Errorf "lease name exceeds %d characters" [ANum (Z.of_nat MaxNameLen)]) else
  match List.find (λ r, negb (nameChar r)) (runes name) with
  | Some r => Some (Errorf "lease name contains invalid character %q" [ARune r])
  | None => None
  end.

Definition Grant (now : Time) (t : Table) (name owner : string)
    (deadline : Time) (ttl : Duration) : Table * result error (Z * bool) * list effect :=
  match ValidName name with
  | Some err => (t, Fail err, [])
  | None =>
    if str_empty owner then (t, Fail (Errorf "lease owner is required" []), []) else
    match leases t !! name with
    | Some rec =>
      if String.eqb (ls_Owner rec) owner
      then (set_leases t (<[name := refresh rec deadline ttl]> (leases t)),
            Ok (ls_Token rec, true), [])
      else (t, Ok (ls_Token rec, false), [])
    | None =>
      if bool_decide (MaxLeases ≤ size (leases t))
      then (t, Fail (Errorf "too many leases (max %d)" [ANum (Z.of_nat MaxLeases)]), [])
      else
        let nx := u64 (next t + 1) in
        let rec := MkLease name owner nx now deadline ttl in
        (MkTable (<[name := rec]> (leases t)) nx (Emit t), Ok (nx, true),
         emit (Emit t) TypeLeaseGranted rec)
    end
  end.

Definition not_held (name : string) : error := Errorf "lease %q is not held" [AStr name].
Definition token_mismatch (name : string) : error :=
  Errorf "fencing token mismatch for lease %q" [AStr name].

Definition Renew (t : Table) (name owner : string) (token : Z)
    (deadline : Time) (ttl : Duration) : Table * option error * list effect :=
  match ValidName name with
  | Some err => (t, Some err, [])
  | None =>
    match leases t !! name with
    | None => (t, Some (not_held name), [])
    | Some rec =>
      if negb (String.eqb (ls_Owner rec) owner) || negb (ls_Token rec =? token)%Z
      then (t, Some (token_mismatch name), [])
      else (set_leases t (<[name := refresh rec deadline ttl]> (leases t)), None, [])
    end
  end.

Definition Revoke (t : Table) (name owner : string) (token : Z)
    : Table * option error * list effect :=
  match ValidName name with
  | Some err => (t, Some err, [])
  | None =>
    match leases t !! name with
    | None => (t, Some (not_held name), [])
    | Some rec =>
      if negb (String.eqb (ls_Owner rec) owner) || negb (ls_Token rec =? token)%Z
      then (t, Some (token_mismatch name), [])
      else (set_leases t (delete name (leases t)), None, emit (Emit t) TypeLeaseRevoked rec)
    end
  end.

Definition Expire (t : Table) (name : string) (token : Z) : Table * bool * list effect :=
  match ValidName name with
  | Some _ => (t, false, [])
  | None =>
    match leases t !! name with
    | None => (t, false, [])
    | Some rec =>
      if negb (ls_Token rec =? token)%Z then (t, false, []) else
      (set_leases t (delete name (leases t)), true, emit (Emit t) TypeLeaseExpired rec)
    end
  end.

Definition due_at (now : Time) (r : LeaseRecord) : bool :=
  negb (IsZero (ls_Deadline r)) && negb (After (ls_Deadline r) now).

Definition records (t : Table) : list LeaseRecord := values (leases t).

Definition Due (t : Table) (now : Time) : list LeaseRecord :=
  sort_by ls_Name (List.filter (due_at now) (records t)).

Definition Get (t : Table) (name : string) : option LeaseRecord := leases t !! name.

Definition List_ (t : Table) : list LeaseRecord := sort_by ls_Name (records t).

Definition SnapshotCopy (t : Table) : Snapshot := MkSnapshot (records t) (next t).

Definition Restore (t : Table) (snap : Snapshot) : Table :=
  MkTable (put_all ls_Name ∅ (sn_Leases snap)) (sn_Next snap) (Emit t).

Definition RunExpirer_interval (interval : Duration) : Duration :=
  if (interval <=? 0)%Z then DefaultExpireInterval else interval.

(** One tick, as [Locks.RunExpirer_tick]. *)
Definition RunExpirer_tick {S} (t : Table) (isLeader : option bool)
    (expire : S → string → Z → S) (now : Time) (s : S) : S :=
  match isLeader with
  | Some false => s
  | _ => foldl (λ s rec, expire s (ls_Name rec) (ls_Token rec)) s (Due t now)
  end.

End table.

(** ** Leases read as locks *)

Definition lock_of (r : LeaseRecord) : LockRecord :=
  MkLock (ls_Name r) (ls_Owner r) (ls_Token r) (ls_GrantedAt r) (ls_Deadline r) (ls_TTL r).
Definition as_lock (t : Table) : Locks.Table :=
  Locks.MkTable (lock_of <$> leases t) (next t) (Emit t).

Definition lease_abs (t : Table) : Grants := lock_abs (as_lock t).

Section props.
Context `{Unicode}.

Definition lease_wf (t : Table) : Prop := lock_wf (as_lock t).
Definition lease_equiv (t1 t2 : Table) : Prop := lock_equiv (as_lock t1) (as_lock t2).

#[export] Instance lease_equiv_equivalence : Equivalence lease_equiv.
Proof.
  split; unfold lease_equiv.
  - by intros t.
  - by intros t1 t2 ->.
  - by intros t1 t2 t3 -> ->.
Qed.

Lemma lease_ClampTTL_locks r f : ClampTTL r f = Locks.ClampTTL r f.
Proof. done. Qed.

Lemma lease_ValidName_locks n :
  match ValidName n, Locks.ValidName n with
  | None, None | Some _, Some _ => True
  | _, _ => False
  end.
Proof.
  unfold ValidName, Locks.ValidName. change nameChar with Locks.nameChar.
  change MaxNameLen with Locks.MaxNameLen.
  destruct (str_empty n); [done|]. case_bool_decide; [done|]. by destruct (List.find _ _).
Qed.

Lemma as_lock_lookup t n : locks (as_lock t) !! n = lock_of <$> leases t !! n.
Proof. apply lookup_fmap. Qed.
Lemma as_lock_size t : size (locks (as_lock t)) = size (leases t).
Proof. apply map_size_fmap. Qed.
Lemma as_lock_insert t n r nx em :
  as_lock (MkTable (<[n := r]> (leases t)) nx em) =
  Locks.MkTable (<[n := lock_of r]> (locks (as_lock t))) nx em.
Proof. unfold as_lock; simpl. by rewrite fmap_insert. Qed.
Lemma as_lock_delete t n :
  as_lock (set_leases t (delete n (leases t))) = set_locks (as_lock t) (delete n (locks (as_lock t))).
Proof. unfold as_lock, set_locks; simpl. by rewrite fmap_delete. Qed.

(** A lease operation is the lock operation under [as_lock]: same state change,
    same answer up to the text of errors. *)
Lemma lease_Grant_as_lock now t n o d ttl :
  as_lock (Grant now t n o d ttl).1.1 = (Acquire now (as_lock t) n o d ttl).1.1 ∧
  acq_resp (Grant now t n o d ttl).1.2 = acq_resp (Acquire now (as_lock t) n o d ttl).1.2.
Proof.
  unfold Grant, Acquire. pose proof (lease_ValidName_locks n) as Hv.
  destruct (ValidName n), (Locks.ValidName n); try done.
  destruct (str_empty o); [done|].
  rewrite as_lock_lookup, as_lock_size. change MaxLeases with MaxLocks.
  destruct (leases t !! n) as [r|]; simpl.
  - destruct (String.eqb _ _); [|done]. split; [|done]. simpl.
    unfold set_leases. by rewrite as_lock_insert.
  - case_bool_decide; [done|]. split; [|done]. simpl. by rewrite as_lock_insert.
Qed.

Lemma lease_Renew_as_lock t n o k d ttl :
  as_lock (Renew t n o k d ttl).1.1 = (Locks.Renew (as_lock t) n o k d ttl).1.1 ∧
  err_resp (Renew t n o k d ttl).1.2 = err_resp (Locks.Renew (as_lock t) n o k d ttl).1.2.
Proof.
  unfold Renew, Locks.Renew. pose proof (lease_ValidName_locks n) as Hv.
  destruct (ValidName n), (Locks.ValidName n); try done.
  rewrite as_lock_lookup. destruct (leases t !! n) as [r|]; [simpl|done].
  destruct (_ || _); [done|]. split; [|done]. simpl. unfold set_leases. by rewrite as_lock_insert.
Qed.

Lemma lease_Revoke_as_lock t n o k :
  as_lock (Revoke t n o k).1.1 = (Release (as_lock t) n o k).1.1 ∧
  err_resp (Revoke t n o k).1.2 = err_resp (Release (as_lock t) n o k).1.2.
Proof.
  unfold Revoke, Release. pose proof (lease_ValidName_locks n) as Hv.
  destruct (ValidName n), (Locks.ValidName n); try done.
  rewrite as_lock_lookup. destruct (leases t !! n) as [r|]; [simpl|done].
  destruct (_ || _); [done|]. split; [|done]. apply as_lock_delete.
Qed.

Lemma lease_Expire_as_lock t n k :
  as_lock (Expire t n k).1.1 = (Locks.Expire (as_lock t) n k).1.1 ∧
  (Expire t n k).1.2 = (Locks.Expire (as_lock t) n k).1.2.
Proof.
  unfold Expire, Locks.Expire. pose proof (lease_ValidName_locks n) as Hv.
  destruct (ValidName n), (Locks.ValidName n); try done.
  rewrite as_lock_lookup. destruct (leases t !! n) as [r|]; [simpl|done].
  destruct (negb _); [done|]. split; [|done]. apply as_lock_delete.
Qed.

(** ** Refinement of [GrantSpec] and the invariant *)

Lemma lease_Grant_refines now t n o d ttl t' r es :
  Grant now t n o d ttl = (t', r, es) →
  gstep lock_adm MaxLeases (lease_abs t) (GAcquire n o) (acq_resp r) (lease_abs t').
Proof.
  intros Hg. destruct (lease_Grant_as_lock now t n o d ttl) as [Ht Hr]. rewrite Hg in Ht, Hr.
  simpl in *. destruct (Acquire _ _ _ _ _ _) as [[tl rl] el] eqn:Ha; simpl in *.
  unfold lease_abs. rewrite Hr, Ht. by eapply lock_Acquire_refines.
Qed.

Lemma lease_Renew_refines t n o k d ttl t' r es :
  lease_wf t → Renew t n o k d ttl = (t', r, es) →
  gstep lock_adm MaxLeases (lease_abs t) (GRenew n o k) (err_resp r) (lease_abs t').
Proof.
  intros Hwf Hg. destruct (lease_Renew_as_lock t n o k d ttl) as [Ht Hr]. rewrite Hg in Ht, Hr.
  simpl in *. destruct (Locks.Renew _ _ _ _ _ _) as [[tl rl] el] eqn:Ha; simpl in *.
  unfold lease_abs. rewrite Hr, Ht. by eapply lock_Renew_refines.
Qed.

Lemma lease_Revoke_refines t n o k t' r es :
  lease_wf t → Revoke t n o k = (t', r, es) →
  gstep lock_adm MaxLeases (lease_abs t) (GRelease n o k) (err_resp r) (lease_abs t').
Proof.
  intros Hwf Hg. destruct (lease_Revoke_as_lock t n o k) as [Ht Hr]. rewrite Hg in Ht, Hr.
  simpl in *. destruct (Release _ _ _ _) as [[tl rl] el] eqn:Ha; simpl in *.
  unfold lease_abs. rewrite Hr, Ht. by eapply lock_Release_refines.
Qed.

Lemma lease_Expire_refines t n k t' r es :
  lease_wf t → Expire t n k = (t', r, es) →
  gstep lock_adm MaxLeases (lease_abs t) (GExpire n k) (bool_resp r) (lease_abs t').
Proof.
  intros Hwf Hg. destruct (lease_Expire_as_lock t n k) as [Ht Hr]. rewrite Hg in Ht, Hr.
  simpl in *. destruct (Locks.Expire _ _ _) as [[tl rl] el] eqn:Ha; simpl in *.
  unfold lease_abs. rewrite Hr, Ht. by eapply lock_Expire_refines.
Qed.

Lemma lease_wf_New : lease_wf New.
Proof. unfold lease_wf, as_lock; simpl. rewrite fmap_empty. apply lock_wf_New. Qed.
Lemma lease_Grant_wf now t n o d ttl : lease_wf t → lease_wf (Grant now t n o d ttl).1.1.
Proof.
  unfold lease_wf. rewrite (proj1 (lease_Grant_as_lock now t n o d ttl)).
  destruct (Acquire _ _ _ _ _ _) as [[]] eqn:Ha. by apply (lock_Acquire_wf _ _ _ _ _ _ _ _ _ Ha).
Qed.
Lemma lease_Renew_wf t n o k d ttl : lease_wf t → lease_wf (Renew t n o k d ttl).1.1.
Proof.
  unfold lease_wf. rewrite (proj1 (lease_Renew_as_lock t n o k d ttl)).
  destruct (Locks.Renew _ _ _ _ _ _) as [[]] eqn:Ha. by apply (lock_Renew_wf _ _ _ _ _ _ _ _ _ Ha).
Qed.
Lemma lease_Revoke_wf t n o k : lease_wf t → lease_wf (Revoke t n o k).1.1.
Proof.
  unfold lease_wf. rewrite (proj1 (lease_Revoke_as_lock t n o k)).
  destruct (Release _ _ _ _) as [[]] eqn:Ha. by apply (lock_Release_wf _ _ _ _ _ _ _ Ha).
Qed.
Lemma lease_Expire_wf t n k : lease_wf t → lease_wf (Expire t n k).1.1.
Proof.
  unfold lease_wf. rewrite (proj1 (lease_Expire_as_lock t n k)).
  destruct (Locks.Expire _ _ _) as [[]] eqn:Ha. by apply (lock_Expire_wf _ _ _ _ _ _ Ha).
Qed.

(** ** Replicas *)

Lemma lease_equiv_lookup t1 t2 n :
  lease_equiv t1 t2 →
  (lock_erase ∘ lock_of) <$> leases t1 !! n = (lock_erase ∘ lock_of) <$> leases t2 !! n.
Proof.
  intros Heq. pose proof (lock_equiv_lookup _ _ n Heq) as Hl.
  by rewrite !as_lock_lookup, <-!option_fmap_compose in Hl.
Qed.
Lemma lease_equiv_insert t1 t2 n r1 r2 nx :
  lease_equiv t1 t2 → lock_erase (lock_of r1) = lock_erase (lock_of r2) →
  lease_equiv (MkTable (<[n := r1]> (leases t1)) nx (Emit t1))
              (MkTable (<[n := r2]> (leases t2)) nx (Emit t2)).
Proof.
  intros Heq Hr. unfold lease_equiv. rewrite !as_lock_insert.
  by apply (lock_equiv_insert (as_lock t1) (as_lock t2)).
Qed.
Lemma lease_equiv_delete t1 t2 n :
  lease_equiv t1 t2 →
  lease_equiv (set_leases t1 (delete n (leases t1))) (set_leases t2 (delete n (leases t2))).
Proof. unfold lease_equiv. rewrite !as_lock_delete. apply lock_equiv_delete. Qed.

Ltac lease_lookup_cases Heq n :=
  let Hl := fresh "Hl" in
  pose proof (lease_equiv_lookup _ _ n Heq) as Hl;
  let E1 := fresh "E1" in let E2 := fresh "E2" in
  match type of Hl with
  | _ <$> ?a = _ <$> ?b =>
    destruct a as [[]|] eqn:E1, b as [[]|] eqn:E2; simplify_eq/=; try done
  end.

#[export] Instance lease_Grant_proper :
  Proper (any_clock ==> lease_equiv ==> (=) ==> (=) ==> (=) ==> (=) ==> outcome_equiv lease_equiv) Grant.
Proof.
  intros now1 now2 _ t1 t2 Heq n ? <- o ? <- d ? <- ttl ? <-. unfold Grant.
  destruct (ValidName n); [by apply outcome_equiv_intro|].
  destruct (str_empty o); [by apply outcome_equiv_intro|].
  pose proof Heq as (_ & Hnx & Hem). simpl in Hnx, Hem.
  pose proof (lock_equiv_size _ _ Heq) as Hsz. rewrite !as_lock_size in Hsz.
  lease_lookup_cases Heq n.
  - case_match; [|by apply outcome_equiv_intro]. apply outcome_equiv_intro.
    unfold set_leases. rewrite Hnx. by apply lease_equiv_insert.
  - rewrite Hsz, Hnx. case_bool_decide; [by apply outcome_equiv_intro|].
    unfold emit; simpl. rewrite Hem at 2. apply outcome_equiv_intro. by apply lease_equiv_insert.
Qed.

#[export] Instance lease_Renew_proper :
  Proper (lease_equiv ==> (=) ==> (=) ==> (=) ==> (=) ==> (=) ==> outcome_equiv lease_equiv) Renew.
Proof.
  intros t1 t2 Heq n ? <- o ? <- k ? <- d ? <- ttl ? <-. unfold Renew.
  destruct (ValidName n); [by apply outcome_equiv_intro|].
  pose proof Heq as (_ & Hnx & _). simpl in Hnx. lease_lookup_cases Heq n.
  case_match; apply outcome_equiv_intro; [done|].
  unfold set_leases. rewrite Hnx. by apply lease_equiv_insert.
Qed.

#[export] Instance lease_Revoke_proper :
  Proper (lease_equiv ==> (=) ==> (=) ==> (=) ==> outcome_equiv lease_equiv) Revoke.
Proof.
  intros t1 t2 Heq n ? <- o ? <- k ? <-. unfold Revoke.
  destruct (ValidName n); [by apply outcome_equiv_intro|].
  pose proof Heq as (_ & _ & Hem). simpl in Hem. lease_lookup_cases Heq n.
  case_match; [by apply outcome_equiv_intro|]. unfold emit; simpl. rewrite Hem.
  apply outcome_equiv_intro. by apply lease_equiv_delete.
Qed.

#[export] Instance lease_Expire_proper :
  Proper (lease_equiv ==> (=) ==> (=) ==> outcome_equiv lease_equiv) Expire.
Proof.
  intros t1 t2 Heq n ? <- k ? <-. unfold Expire.
  destruct (ValidName n); [by apply outcome_equiv_intro|].
  pose proof Heq as (_ & _ & Hem). simpl in Hem. lease_lookup_cases Heq n.
  case_match; [by apply outcome_equiv_intro|]. unfold emit; simpl. rewrite Hem.
  apply outcome_equiv_intro. by apply lease_equiv_delete.
Qed.

(** ** Snapshots and expiry *)

Lemma lease_wf_entry t n r :
  lease_wf t → leases t !! n = Some r → ls_Name r = n ∧ ValidName n = None ∧ ls_Owner r ≠ "".
Proof.
  intros Hwf Hn. destruct (lwf_entry _ Hwf n (lock_of r)) as (Hnm & Hv & Ho).
  { by rewrite as_lock_lookup, Hn. }
  split_and!; try done. pose proof (lease_ValidName_locks n) as Hvv.
  rewrite Hv in Hvv. by destruct (ValidName n).
Qed.

Lemma lease_keyed t : lease_wf t → keyed ls_Name (leases t).
Proof. intros Hwf n r Hn. by apply lease_wf_entry in Hn as [? _]. Qed.

Lemma lease_Restore_copy t t0 l :
  lease_wf t → l ≡ₚ sn_Leases (SnapshotCopy t) →
  Restore t0 (MkSnapshot l (sn_Next (SnapshotCopy t))) = MkTable (leases t) (next t) (Emit t0).
Proof.
  intros Hwf Hp. unfold Restore, SnapshotCopy, records in *; simpl in *.
  by rewrite (put_all_rebuild ls_Name (leases t)) by (try done; by apply lease_keyed).
Qed.

Lemma lease_Due_elem t now r :
  lease_wf t → r ∈ Due t now ↔ leases t !! ls_Name r = Some r ∧ due_at now r = true.
Proof.
  intros Hwf. unfold Due, records. rewrite sort_by_perm, list_elem_of_In, List.filter_In, <-list_elem_of_In.
  by rewrite (keyed_elem ls_Name) by by apply lease_keyed.
Qed.

(** ** Properties *)

(** A lease that expired or was revoked is gone and announced exactly once:
    a [Revoke] or [Expire] that succeeds on a table with the hook set emits one
    event naming the lease with its last owner and token, and any further
    [Revoke] or [Expire] of that name fails without an event until it is granted
    again. *)
Theorem lease_end_announced_once t n k t' es :
  lease_wf t → Emit t = true →
  (∃ o, Revoke t n o k = (t', None, es)) ∨ Expire t n k = (t', true, es) →
  (∃ r typ, leases t !! n = Some r ∧ ls_Token r = k ∧
     typ ∈ [TypeLeaseRevoked; TypeLeaseExpired] ∧
     events_of es = [new_event typ n
       (JsonObject [("owner", JStr (ls_Owner r)); ("token", JNum k)])]) ∧
  Get t' n = None ∧
  (∀ k', Expire t' n k' = (t', false, [])) ∧
  (∀ o k', Revoke t' n o k' = (t', Some (not_held n), [])).
Proof.
  intros Hwf Hem Hend.
  assert (∃ r typ, leases t !! n = Some r ∧ ls_Token r = k ∧ typ ∈ [TypeLeaseRevoked; TypeLeaseExpired] ∧
    es = emit true typ r ∧ t' = set_leases t (delete n (leases t))) as (r & typ & Hn & Hk & Htyp & -> & ->).
  { destruct Hend as [[o Hr]|He].
    - unfold Revoke in Hr. rewrite Hem in Hr. go_cases. breflect.
      eexists _, TypeLeaseRevoked. split_and!; [done..|by left|done|done].
    - unfold Expire in He. rewrite Hem in He. go_cases. breflect.
      eexists _, TypeLeaseExpired. split_and!; [done..|by right; left|done|done]. }
  destruct (lease_wf_entry _ _ _ Hwf Hn) as (Hnm & Hv & _).
  split_and!.
  - exists r, typ. split_and!; try done. simpl. by rewrite Hnm, Hk.
  - unfold Get; simpl. by rewrite lookup_delete_eq.
  - intros k'. unfold Expire. simpl. by rewrite Hv, lookup_delete_eq.
  - intros o k'. unfold Revoke. simpl. by rewrite Hv, lookup_delete_eq.
Qed.

End props.

(** ** A concrete lease, revoked *)
Module LeaseExamples.
#[export] Existing Instance latin1.

Definition one : Table := (Grant 1 (MkTable ∅ 0 true) "a" "n1" 50 10).1.1.
Lemma one_wf : lease_wf one.
Proof.
  apply lease_Grant_wf. unfold lease_wf, as_lock; simpl. rewrite fmap_empty.
  split; simpl; [intros n r; by rewrite lookup_empty|]. rewrite map_size_empty. lia.
Qed.

Lemma lease_end_announced_once_witness : Get (Revoke one "a" "n1" 1).1.1 "a" = None.
Proof.
  apply (lease_end_announced_once one "a" 1 (Revoke one "a" "n1" 1).1.1 (Revoke one "a" "n1" 1).2).
  - apply one_wf.
  - reflexivity.
  - left. exists "n1". apply outcome_eta; vm_compute; reflexivity.
Defined.
End LeaseExamples.
