(* ===== verification/Membership.v ===== *)
(** * Membership: the member list of [internal/membership/engine.go]

    [Engine] is the struct without its mutex and logger; [Emit] says whether the
    hook is set.  Every method runs under the mutex and is one function of the
    engine; the hook is called after the mutex is released, once.  A [Status] is
    the Go string it is. *)
From S2P Require Import Prelude Events.

Definition StatusAlive : string := "alive".
Definition StatusDead : string := "dead".
Definition StatusLeaving : string := "leaving".

Definition NormalizeStatus (s : string) : string :=
  if String.eqb s StatusAlive || String.eqb s "" then StatusAlive else StatusDead.

Definition RoleVoter : string := "voter".
Definition RoleObserver : string := "observer".

Definition NormalizeRole (role : string) : string :=
  if String.eqb role RoleObserver then RoleObserver else RoleVoter.

Record Member := MkMember {
  m_ID : string;
  m_Address : string;
  m_Status : string;
  m_Leader : bool;
  m_Role : string;
  m_JoinedAt : Time;
}.

Record Engine := MkEngine {
  selfID : string;
  leaderID : string;
  members : gmap string Member;
  dropped : gset string;
  Emit : bool;
}.

Definition New (now : Time) (selfID selfAddr : string) : Engine :=
  MkEngine selfID selfID
    {[ selfID := MkMember selfID selfAddr StatusAlive true RoleVoter now ]} ∅ false.

Definition set_members (e : Engine) (m : gmap string Member) (d : gset string) : Engine :=
  MkEngine (selfID e) (leaderID e) m d (Emit e).

Definition set_status (m : Member) (s : string) : Member :=
  MkMember (m_ID m) (m_Address m) s (m_Leader m) (m_Role m) (m_JoinedAt m).
Definition set_leader_flag (m : Member) (b : bool) : Member :=
  MkMember (m_ID m) (m_Address m) (m_Status m) b (m_Role m) (m_JoinedAt m).

(** [if emit != nil { emit(ev) }] *)
Definition emit_if (hook : bool) (ev : Event) : list effect :=
  if hook then [Emitted ev] else [].

Definition JoinAs (now : Time) (e : Engine) (id addr role : string)
    : Engine * result error bool * list effect :=
  if str_empty id then (e, Fail (Errorf "membership join: empty node id" []), []) else
  let role := NormalizeRole role in
  let existing := members e !! id in
  let alive := match existing with Some m => String.eqb (m_Status m) StatusAlive | None => false end in
  let isNew := negb alive in
  let joinedAt := match existing with
                  | Some m => if alive then m_JoinedAt m else now
                  | None => now end in
  let e' := set_members e
    (<[id := MkMember id addr StatusAlive (String.eqb id (leaderID e)) role joinedAt]> (members e))
    (dropped e ∖ {[ id ]}) in
  (e', Ok isNew,
   if isNew then
     emit_if (Emit e) (new_event TypeMemberJoin id
       (JsonObject [("address", JStr addr); ("role", JStr role)]))
   else []).

Definition Join (now : Time) (e : Engine) (id addr : string) : Engine * result error bool * list effect :=
  JoinAs now e id addr RoleVoter.

Definition MarkDead (e : Engine) (id : string) : Engine * list effect :=
  match members e !! id with
  | None => (e, [])
  | Some m =>
    if String.eqb (NormalizeStatus (m_Status m)) StatusDead then (e, []) else
    (set_members e (<[id := set_status m StatusDead]> (members e)) (dropped e),
     emit_if (Emit e) (new_event TypeMemberDead id NoPayload))
  end.

Definition Leave (e : Engine) (id : string) : Engine * list effect :=
  if bool_decide (id ∈ dropped e) then (e, []) else
  match members e !! id with
  | None => (e, [])
  | Some _ =>
    (set_members e (delete id (members e)) (dropped e ∪ {[ id ]}),
     emit_if (Emit e) (new_event TypeMemberLeft id NoPayload))
  end.

Definition Drop (e : Engine) (id : string) : Engine * list effect := Leave e id.

Definition RestoreMember (now : Time) (e : Engine) (id addr role status : string)
    : Engine * option error :=
  if str_empty id then (e, Some (Errorf "membership restore: empty node id" [])) else
  let role := NormalizeRole role in
  let status := NormalizeStatus status in
  let joinedAt := match members e !! id with Some m => m_JoinedAt m | None => now end in
  (set_members e
    (<[id := MkMember id addr status (String.eqb id (leaderID e)) role joinedAt]> (members e))
    (dropped e ∖ {[ id ]}), None).

Definition Members (e : Engine) : list Member := sort_by m_ID (values (members e)).

Definition Leader (e : Engine) : option Member := members e !! leaderID e.

Definition SetLeader (e : Engine) (id : string) : Engine * list effect :=
  if String.eqb (leaderID e) id then (e, []) else
  (MkEngine (selfID e) id
     (map_imap (λ k m, Some (set_leader_flag m (String.eqb k id))) (members e))
     (dropped e) (Emit e),
   emit_if (Emit e) (new_event TypeLeaderChanged id NoPayload)).

Definition SelfID (e : Engine) : string := selfID e.

Definition SelfRole (e : Engine) : string :=
  match members e !! selfID e with
  | Some m => NormalizeRole (m_Role m)
  | None => RoleVoter
  end.

Definition LeaderID (e : Engine) : string := leaderID e.

Definition Left (e : Engine) (id : string) : bool := bool_decide (id ∈ dropped e).

(** ** Sequences of operations *)

Inductive mop : Type :=
  | OpJoinAs (now : Time) (id addr role : string)
  | OpMarkDead (id : string)
  | OpDrop (id : string)
  | OpRestoreMember (now : Time) (id addr role status : string)
  | OpSetLeader (id : string).

Definition mapply (e : Engine) (o : mop) : Engine * list effect :=
  match o with
  | OpJoinAs now id addr role => let r := JoinAs now e id addr role in (r.1.1, r.2)
  | OpMarkDead id => MarkDead e id
  | OpDrop id => Drop e id
  | OpRestoreMember now id addr role status => ((RestoreMember now e id addr role status).1, [])
  | OpSetLeader id => SetLeader e id
  end.

(** The engines a process can have: the constructor, the hook installed or not,
    then any operations. *)
Inductive mreachable : Engine → Prop :=
  | mreach_new now id addr hook :
      mreachable (MkEngine (selfID (New now id addr)) (leaderID (New now id addr))
                    (members (New now id addr)) (dropped (New now id addr)) hook)
  | mreach_op e o : mreachable e → mreachable (mapply e o).1.

(** ** Invariant and views *)

Record member_ok (e : Engine) (id : string) (m : Member) : Prop := {
  mok_id : m_ID m = id;
  mok_leader : m_Leader m = String.eqb id (leaderID e);
  mok_status : m_Status m = StatusAlive ∨ m_Status m = StatusDead;
  mok_role : m_Role m = RoleVoter ∨ m_Role m = RoleObserver;
  mok_dropped : id ∉ dropped e;
}.
Definition engine_wf (e : Engine) : Prop :=
  ∀ id m, members e !! id = Some m → member_ok e id m.

(** What a client sees of a node: never heard of, member alive or dead, or left. *)
Inductive liveness : Type := Unknown | Alive | Dead | Gone.
#[export] Instance liveness_eq_dec : EqDecision liveness.
Proof. solve_decision. Defined.

Definition live (e : Engine) (id : string) : liveness :=
  match members e !! id with
  | Some m => if String.eqb (m_Status m) StatusAlive then Alive else Dead
  | None => if bool_decide (id ∈ dropped e) then Gone else Unknown
  end.

(** What two replicas can agree on about a node: not the local clock reading
    [JoinedAt], not the locally observed leader flag. *)
Definition views (e : Engine) : gmap string (string * string * string) :=
  (λ m, (m_Address m, m_Status m, m_Role m)) <$> members e.

(** ** Lemmas *)

Lemma NormalizeRole_cases r : NormalizeRole r = RoleVoter ∨ NormalizeRole r = RoleObserver.
Proof. unfold NormalizeRole. case_match; auto. Qed.
Lemma NormalizeStatus_cases s : NormalizeStatus s = StatusAlive ∨ NormalizeStatus s = StatusDead.
Proof. unfold NormalizeStatus. case_match; auto. Qed.
Lemma NormalizeRole_idemp r : NormalizeRole (NormalizeRole r) = NormalizeRole r.
Proof. by destruct (NormalizeRole_cases r) as [-> | ->]. Qed.
Lemma NormalizeStatus_id s : s = StatusAlive ∨ s = StatusDead → NormalizeStatus s = s.
Proof. by intros [-> | ->]. Qed.
Lemma NormalizeRole_id r : r = RoleVoter ∨ r = RoleObserver → NormalizeRole r = r.
Proof. by intros [-> | ->]. Qed.
Lemma NormalizeStatus_dead s :
  s = StatusAlive ∨ s = StatusDead →
  String.eqb (NormalizeStatus s) StatusDead = negb (String.eqb s StatusAlive).
Proof. by intros [-> | ->]. Qed.
#[export] Hint Resolve NormalizeRole_cases NormalizeStatus_cases : clusdr.

Lemma engine_wf_New now id addr hook :
  engine_wf (MkEngine id id (members (New now id addr)) ∅ hook).
Proof.
  intros id' m Hm. cbn [members New] in Hm. apply lookup_singleton_Some in Hm as [<- <-]. split; simpl; auto; [|set_solver].
  by rewrite String.eqb_refl.
Qed.

(** Writing a member that is right for [id], and forgetting that [id] left. *)
Lemma engine_wf_put e id m :
  engine_wf e → m_ID m = id → m_Leader m = String.eqb id (leaderID e) →
  m_Status m = StatusAlive ∨ m_Status m = StatusDead →
  m_Role m = RoleVoter ∨ m_Role m = RoleObserver →
  engine_wf (set_members e (<[id := m]> (members e)) (dropped e ∖ {[ id ]})).
Proof.
  intros Hwf ? ? ? ? id' m' Hl. simpl in Hl. apply lookup_insert_Some in Hl as [[<- <-]|[Hne Hl]].
  - split; simpl; auto. set_solver.
  - destruct (Hwf _ _ Hl). split; simpl; auto. set_solver.
Qed.

Lemma engine_wf_step e o : engine_wf e → engine_wf (mapply e o).1.
Proof.
  intros Hwf. destruct o; simpl.
  - unfold JoinAs. destruct (str_empty id); [done|]. simpl.
    apply engine_wf_put; simpl; auto with clusdr.
  - unfold MarkDead. destruct (members e !! id) as [m|] eqn:Hm; [|done].
    destruct (String.eqb (NormalizeStatus (m_Status m)) StatusDead); [done|]. intros id' m' Hl.
    simpl in Hl. apply lookup_insert_Some in Hl as [[<- <-]|[Hne Hl]].
    + destruct (Hwf _ _ Hm). split; simpl; auto.
    + destruct (Hwf _ _ Hl). split; simpl; auto.
  - unfold Drop, Leave. case_bool_decide; [done|]. destruct (members e !! id) eqn:Hm; [|done].
    intros id' m' Hl. simpl in Hl. apply lookup_delete_Some in Hl as [Hne Hl]. destruct (Hwf _ _ Hl). split; simpl; auto. set_solver.
  - unfold RestoreMember. destruct (str_empty id); [done|]. simpl.
    apply engine_wf_put; simpl; auto with clusdr.
  - unfold SetLeader. destruct (String.eqb (leaderID e) id); [done|]. intros id' m' Hl. simpl in Hl.
    rewrite map_lookup_imap in Hl. destruct (members e !! id') as [m|] eqn:Hm; simplify_eq/=.
    destruct (Hwf _ _ Hm). split; simpl; auto.
Qed.

Lemma engine_wf_reachable e : mreachable e → engine_wf e.
Proof. induction 1; [apply engine_wf_New|by apply engine_wf_step]. Qed.

Lemma engine_keyed e : engine_wf e → keyed m_ID (members e).
Proof. intros Hwf id m Hm. by apply Hwf in Hm as []. Qed.

(** ** Specification of the announcements

    The FSM's operations as a machine on the liveness of one node: the next
    liveness, and the event that announces the change, if there is one. *)
Definition live_step (o : mop) (l : liveness) : liveness :=
  match o, l with
  | OpJoinAs _ _ _ _, _ => Alive
  | OpMarkDead _, Alive => Dead
  | OpDrop _, (Alive | Dead) => Gone
  | _, _ => l
  end.
Definition announcement (o : mop) (l : liveness) : list Event :=
  if bool_decide (live_step o l = l) then [] else
  match o with
  | OpJoinAs _ id addr role =>
    [new_event TypeMemberJoin id
       (JsonObject [("address", JStr addr); ("role", JStr (NormalizeRole role))])]
  | OpMarkDead id => [new_event TypeMemberDead id NoPayload]
  | OpDrop id => [new_event TypeMemberLeft id NoPayload]
  | _ => []
  end.
(** The node a replicated operation is about. *)
Definition op_target (o : mop) : option string :=
  match o with
  | OpJoinAs _ id _ _ | OpMarkDead id | OpDrop id => if str_empty id then None else Some id
  | _ => None
  end.

Lemma live_put e id m d : m_Status m = StatusAlive →
  live (set_members e (<[id := m]> (members e)) d) id = Alive.
Proof. intros Hm. unfold live; simpl. by rewrite lookup_insert_eq, Hm. Qed.

Lemma live_member e id m :
  members e !! id = Some m → live e id = if String.eqb (m_Status m) StatusAlive then Alive else Dead.
Proof. unfold live. by intros ->. Qed.
Lemma live_absent e id :
  members e !! id = None → live e id = if bool_decide (id ∈ dropped e) then Gone else Unknown.
Proof. unfold live. by intros ->. Qed.

Lemma live_JoinAs e now id addr role :
  str_empty id = false → Emit e = true →
  let r := mapply e (OpJoinAs now id addr role) in
  live r.1 id = Alive ∧ events_of r.2 = announcement (OpJoinAs now id addr role) (live e id).
Proof.
  intros Hid Hem. unfold mapply, JoinAs. rewrite Hid. cbn zeta. cbn [fst snd].
  split; [by apply live_put|]. rewrite Hem. unfold announcement, live, live_step, emit_if.
  destruct (members e !! id) as [m|]; [by destruct (String.eqb _ _)|].
  by destruct (bool_decide (id ∈ dropped e)).
Qed.

Lemma live_MarkDead e id :
  engine_wf e → Emit e = true →
  let r := mapply e (OpMarkDead id) in
  live r.1 id = live_step (OpMarkDead id) (live e id) ∧
  events_of r.2 = announcement (OpMarkDead id) (live e id).
Proof.
  intros Hwf Hem. unfold mapply, MarkDead. destruct (members e !! id) as [m|] eqn:Hm.
  - destruct (Hwf _ _ Hm) as [_ _ Hs _ _]. rewrite NormalizeStatus_dead, Hem by done.
    rewrite (live_member _ _ _ Hm).
    destruct (String.eqb (m_Status m) StatusAlive) eqn:Ha; simpl; split; try done.
    + by erewrite live_member by apply lookup_insert_eq.
    + by rewrite (live_member _ _ _ Hm), Ha.
  - simpl. rewrite (live_absent _ _ Hm). by destruct (bool_decide (id ∈ dropped e)).
Qed.

Lemma live_Drop e id :
  engine_wf e → Emit e = true →
  let r := mapply e (OpDrop id) in
  live r.1 id = live_step (OpDrop id) (live e id) ∧
  events_of r.2 = announcement (OpDrop id) (live e id).
Proof.
  intros Hwf Hem. unfold mapply, Drop, Leave. destruct (members e !! id) as [m|] eqn:Hm.
  - destruct (Hwf _ _ Hm) as [_ _ _ _ Hd]. rewrite bool_decide_eq_false_2, Hem by done.
    rewrite (live_member _ _ _ Hm). simpl. rewrite live_absent by apply lookup_delete_eq.
    simpl. rewrite bool_decide_eq_true_2 by set_solver. by destruct (String.eqb _ _).
  - rewrite (live_absent _ _ Hm). case_bool_decide as Hd; simpl;
      rewrite (live_absent _ _ Hm); [by rewrite bool_decide_eq_true_2|by rewrite bool_decide_eq_false_2].
Qed.

Lemma mapply_frame e o id id' :
  op_target o = Some id → id' ≠ id →
  members (mapply e o).1 !! id' = members e !! id' ∧
  (id' ∈ dropped (mapply e o).1 ↔ id' ∈ dropped e).
Proof.
  intros Ht Hne. destruct o; simplify_eq/=; (case_match eqn:Hid; [done|]); simplify_eq.
  - unfold JoinAs. rewrite Hid; simpl. rewrite lookup_insert_ne by done. set_solver.
  - unfold MarkDead. destruct (members e !! id); [|done]. destruct (String.eqb _ _); [done|].
    simpl. by rewrite lookup_insert_ne by done.
  - unfold Drop, Leave. case_bool_decide; [done|]. destruct (members e !! id); [|done].
    simpl. rewrite lookup_delete_ne by done. set_solver.
Qed.

(** ** Properties *)

(** C28: In every reachable engine the member list is sorted by id without
    duplicates; every listed member has status alive or dead, role voter or
    observer, and has not left; its leader flag is set exactly when it is the
    known leader, so [Leader] is the one member with the flag. *)
Theorem member_list_invariant e :
  mreachable e →
  StronglySorted (λ a b, String.le (m_ID a) (m_ID b)) (Members e) ∧
  NoDup (m_ID <$> Members e) ∧
  (∀ m, m ∈ Members e →
     (m_Status m = StatusAlive ∨ m_Status m = StatusDead) ∧
     (m_Role m = RoleVoter ∨ m_Role m = RoleObserver) ∧
     Left e (m_ID m) = false ∧
     (m_Leader m = true ↔ m_ID m = LeaderID e)) ∧
  (∀ m, Leader e = Some m ↔ m ∈ Members e ∧ m_Leader m = true).
Proof.
  intros Hr. pose proof (engine_wf_reachable _ Hr) as Hwf.
  pose proof (engine_keyed _ Hwf) as Hk.
  assert (∀ m, m ∈ Members e ↔ members e !! m_ID m = Some m) as Hin.
  { intros m. unfold Members. rewrite sort_by_perm. by apply keyed_elem. }
  split_and!.
  - apply sort_by_sorted.
  - unfold Members. rewrite sort_by_perm. by apply keyed_NoDup.
  - intros m Hm%Hin. destruct (Hwf _ _ Hm) as [_ Hl Hs Hro Hd].
    split_and!; try done; [by apply bool_decide_eq_false|]. by rewrite Hl, String.eqb_eq.
  - intros m. rewrite Hin. unfold Leader. split.
    + intros Hm. destruct (Hwf _ _ Hm) as [Hid Hl _ _ _]. rewrite Hid. split; [done|].
      by rewrite Hl, String.eqb_refl.
    + intros [Hm Hf]. destruct (Hwf _ _ Hm) as [_ Hl _ _ _]. rewrite Hf in Hl.
      symmetry in Hl. apply String.eqb_eq in Hl. by rewrite <-Hl.
Qed.

(** A replicated membership operation moves the liveness of its node as
    [live_step] says, announces the change with exactly one event of the right
    type and nothing when there is no change, and leaves every other node as it
    was. *)
Theorem member_announces_changes e o id :
  mreachable e → Emit e = true → op_target o = Some id →
  live (mapply e o).1 id = live_step o (live e id) ∧
  events_of (mapply e o).2 = announcement o (live e id) ∧
  ∀ id', id' ≠ id → live (mapply e o).1 id' = live e id' ∧ views (mapply e o).1 !! id' = views e !! id'.
Proof.
  intros Hr Hem Ht. pose proof (engine_wf_reachable _ Hr) as Hwf.
  assert (live (mapply e o).1 id = live_step o (live e id) ∧
          events_of (mapply e o).2 = announcement o (live e id)) as [Hl He].
  { destruct o; simplify_eq/=; (case_match eqn:Hid; [done|]); simplify_eq.
    - by apply live_JoinAs.
    - by apply live_MarkDead.
    - by apply live_Drop. }
  split_and!; [done..|]. intros id' Hne.
  destruct (mapply_frame e o id id' Ht Hne) as [Hm Hd]. unfold live, views. rewrite !lookup_fmap, Hm.
  by rewrite (bool_decide_ext _ _ Hd).
Qed.

(** ** A concrete engine *)
Module MemberExamples.
Definition self : Engine := MkEngine "n1" "n1" (members (New 0 "n1" "h:1")) ∅ true.
Lemma self_reachable : mreachable self.
Proof. exact (mreach_new 0 "n1" "h:1" true). Qed.

Lemma member_list_invariant_witness :
  NoDup (m_ID <$> Members (mapply self (OpJoinAs 5 "n2" "h:2" "observer")).1).
Proof.
  apply (member_list_invariant (mapply self (OpJoinAs 5 "n2" "h:2" "observer")).1).
  apply mreach_op, self_reachable.
Defined.

Lemma member_announces_changes_witness :
  events_of (mapply self (OpMarkDead "n1")).2 = announcement (OpMarkDead "n1") (live self "n1").
Proof.
  apply (member_announces_changes self (OpMarkDead "n1") "n1" self_reachable); reflexivity.
Defined.
End MemberExamples.
