(* ===== verification/FSM.v ===== *)
(** * FSM: the replicated state machine of [internal/consensus/fsm.go]

    [Command] and its kinds ([command.go]); the three applier interfaces of
    [fsm.go] as type classes of operations, with the laws the state machine
    relies on as a second class; [Apply], [Snapshot] and [Restore] against these
    interfaces; and the instances that discharge the laws for the lock table,
    the lease table and the member list.  A command is encoded by
    [encoding/json]; the bytes and their codec are an interface ([Codec]).

    The theorems are about a whole log: a run of [Apply] over a list of entries
    refines [GrantSpec] for locks and for leases, so fencing and mutual exclusion
    hold of the answers in the log, and replicas that apply the same log agree
    whatever their clocks. *)
From S2P Require Import Prelude Events GrantSpec Locks Leases Membership.

Inductive CommandKind : Type :=
  | CmdAddMember | CmdRemoveMember | CmdDropMember
  | CmdLockAcquire | CmdLockRelease | CmdLockRenew | CmdLockExpire
  | CmdLeaseGrant | CmdLeaseRenew | CmdLeaseRevoke | CmdLeaseExpire
  | CmdUnknown (s : string).

Record Command := MkCommand {
  Kind : CommandKind;
  ID : string;
  Address : string;
  Role : string;
  Name : string;
  Token : Z;
  TTLMs : Z;
  DeadlineUnixMs : Z;
}.

(** A codec between values and the bytes [D] of a log entry or snapshot file.
    [codec_dom] are the values it represents exactly (for [encoding/json]: valid
    UTF-8 strings, times of years 0 to 9999). *)
Class Codec (D A : Type) := {
  encode : A → result error D;
  decode : D → result error A;
  codec_dom : A → Prop;
  decode_encode a : codec_dom a → ∃ d, encode a = Ok d ∧ decode d = Ok a;
}.

Definition encodeCommand `{Codec D Command} (c : Command) : result error D :=
  match encode c with
  | Ok b => Ok b
  | Fail err => Fail (Errorf "encode command: %w" [AErr err])
  end.

Definition decodeCommand `{Codec D Command} (data : D) : result error Command :=
  match decode data with
  | Ok c => Ok c
  | Fail err => Fail (Errorf "decode command: %w" [AErr err])
  end.

Definition deadlineOf (cmd : Command) : Time :=
  if (DeadlineUnixMs cmd =? 0)%Z then zeroTime else FromUnixMilli (DeadlineUnixMs cmd).

Definition ttlOf (cmd : Command) : Duration :=
  if (TTLMs cmd <=? 0)%Z then 0%Z else DurationOfMs (TTLMs cmd).

(** ** The applier interfaces

    [LockApplier] and [LeaseApplier] have the same operations under two names;
    [GrantApplier T Snap] is both, at the snapshot type of either package. *)

Class GrantApplier (T Snap : Type) := {
  ga_Acquire : Time → T → string → string → Time → Duration →
    T * result error (Z * bool) * list effect;
  ga_Release : T → string → string → Z → T * option error * list effect;
  ga_Renew : T → string → string → Z → Time → Duration → T * option error * list effect;
  ga_Expire : T → string → Z → T * bool * list effect;
  ga_SnapshotCopy : T → Snap;
  ga_Restore : T → Snap → T * list effect;
}.

Class MemberApplier (M : Type) := {
  ma_JoinAs : Time → M → string → string → string → M * result error bool * list effect;
  ma_MarkDead : M → string → M * list effect;
  ma_Drop : M → string → M * list effect;
  ma_RestoreMember : Time → M → string → string → string → string → M * option error;
  ma_Members : M → list Member;
}.

(** What the FSM relies on: the grant table refines [GrantSpec] from a state that
    satisfies its invariant, answers alike on equivalent tables whatever the
    clock, and is rebuilt by its snapshot. *)
Class GrantLaws (T Snap : Type) `{GrantApplier T Snap} := {
  gl_abs : T → Grants;
  gl_wf : T → Prop;
  gl_equiv : relation T;
  gl_hook : T → bool;
  gl_adm : string → string → Prop;
  gl_cap : nat;
  gl_Acquire now t n h d ttl : gl_wf t →
    gstep gl_adm gl_cap (gl_abs t) (GAcquire n h) (acq_resp (ga_Acquire now t n h d ttl).1.2)
      (gl_abs (ga_Acquire now t n h d ttl).1.1) ∧ gl_wf (ga_Acquire now t n h d ttl).1.1;
  gl_Release t n h k : gl_wf t →
    gstep gl_adm gl_cap (gl_abs t) (GRelease n h k) (err_resp (ga_Release t n h k).1.2)
      (gl_abs (ga_Release t n h k).1.1) ∧ gl_wf (ga_Release t n h k).1.1;
  gl_Renew t n h k d ttl : gl_wf t →
    gstep gl_adm gl_cap (gl_abs t) (GRenew n h k) (err_resp (ga_Renew t n h k d ttl).1.2)
      (gl_abs (ga_Renew t n h k d ttl).1.1) ∧ gl_wf (ga_Renew t n h k d ttl).1.1;
  gl_Expire t n k : gl_wf t →
    gstep gl_adm gl_cap (gl_abs t) (GExpire n k) (bool_resp (ga_Expire t n k).1.2)
      (gl_abs (ga_Expire t n k).1.1) ∧ gl_wf (ga_Expire t n k).1.1;
  gl_equivalence :: Equivalence gl_equiv;
  gl_Acquire_proper ::
    Proper (any_clock ==> gl_equiv ==> (=) ==> (=) ==> (=) ==> (=) ==> outcome_equiv gl_equiv) ga_Acquire;
  gl_Release_proper :: Proper (gl_equiv ==> (=) ==> (=) ==> (=) ==> outcome_equiv gl_equiv) ga_Release;
  gl_Renew_proper ::
    Proper (gl_equiv ==> (=) ==> (=) ==> (=) ==> (=) ==> (=) ==> outcome_equiv gl_equiv) ga_Renew;
  gl_Expire_proper :: Proper (gl_equiv ==> (=) ==> (=) ==> outcome_equiv gl_equiv) ga_Expire;
  gl_Restore t t0 : gl_wf t → gl_hook t0 = gl_hook t →
    gl_equiv (ga_Restore t0 (ga_SnapshotCopy t)).1 t ∧ gl_wf (ga_Restore t0 (ga_SnapshotCopy t)).1;
}.

Arguments gl_adm T {Snap _ _} _ _.
Arguments gl_cap T {Snap _ _}.

(** The member list as the FSM sees it: the view each operation leaves. *)
Class MemberLaws (M : Type) `{MemberApplier M} := {
  ml_view : M → gmap string (string * string * string);
  ml_wf : M → Prop;
  ml_JoinAs now m id a r : ml_wf m → id ≠ "" →
    isOk (ma_JoinAs now m id a r).1.2 = true ∧
    ml_view (ma_JoinAs now m id a r).1.1 = <[id := (a, StatusAlive, NormalizeRole r)]> (ml_view m);
  ml_JoinAs_empty now m a r : ml_wf m →
    ∃ e, ma_JoinAs now m "" a r = (m, Fail e, []) ∧ ∀ now' m', ma_JoinAs now' m' "" a r = (m', Fail e, []);
  ml_MarkDead m id : ml_wf m →
    ml_view (ma_MarkDead m id).1 = alter (λ v, (v.1.1, StatusDead, v.2)) id (ml_view m);
  ml_Drop m id : ml_wf m → ml_view (ma_Drop m id).1 = delete id (ml_view m);
  ml_RestoreMember now m id a r s : ml_wf m → id ≠ "" →
    ml_view (ma_RestoreMember now m id a r s).1 =
      <[id := (a, NormalizeStatus s, NormalizeRole r)]> (ml_view m);
  ml_Restore_empty now m a r s : (ma_RestoreMember now m "" a r s).1 = m;
  ml_Members m : ml_wf m →
    list_to_map ((λ x, (m_ID x, (m_Address x, m_Status x, m_Role x))) <$> ma_Members m) = ml_view m ∧
    NoDup (m_ID <$> ma_Members m) ∧
    Forall (λ x, NormalizeStatus (m_Status x) = m_Status x ∧ NormalizeRole (m_Role x) = m_Role x) (ma_Members m);
  ml_wf_JoinAs now m id a r : ml_wf m → ml_wf (ma_JoinAs now m id a r).1.1;
  ml_wf_MarkDead m id : ml_wf m → ml_wf (ma_MarkDead m id).1;
  ml_wf_Drop m id : ml_wf m → ml_wf (ma_Drop m id).1;
  ml_wf_RestoreMember now m id a r s : ml_wf m → ml_wf (ma_RestoreMember now m id a r s).1;
}.

(** ** The state machine *)

Record lockResult := MkLockResult {
  Acquired : bool;
  rToken : Z;
  rDeadlineUnixMs : Z;
  Err : option error;  (* the text of an error; [None] is the empty string *)
}.

Definition errResult (e : error) : lockResult := MkLockResult false 0 0 (Some e).

(** The [interface{}] that [Apply] returns. *)
Inductive response : Type :=
  | RespNil
  | RespErr (e : error)
  | RespLock (r : lockResult).

Inductive LogType : Type := LogCommand | LogOther.
Record Log (D : Type) := MkLog { lg_Index : Z; lg_Type : LogType; lg_Data : D }.
Arguments MkLog {D}.
Arguments lg_Index {D}.
Arguments lg_Type {D}.
Arguments lg_Data {D}.

Record FSM (M L S : Type) := MkFSM {
  applier : M;
  fsm_locks : option L;
  fsm_leases : option S;
}.
Arguments MkFSM {M L S}.
Arguments applier {M L S}.
Arguments fsm_locks {M L S}.
Arguments fsm_leases {M L S}.

Record memberEntry := MkMemberEntry {
  me_ID : string; me_Address : string; me_Role : string; me_Status : string;
}.
Record snapshotPayload := MkPayload {
  pl_Members : list memberEntry;
  pl_Locks : list LockRecord;
  pl_NextLockToken : Z;
  pl_Leases : list LeaseRecord;
  pl_NextLeaseToken : Z;
}.

Section fsm.
Context {M L S D : Type}.
Context `{MA : MemberApplier M} `{LA : GrantApplier L Locks.Snapshot} `{SA : GrantApplier S Leases.Snapshot}.

Abbreviation fsm := (FSM M L S).
Abbreviation no_locks := (Errorf "lock table not initialized" []).
Abbreviation no_leases := (Errorf "lease table not initialized" []).

Definition set_applier (f : fsm) (m : M) : fsm := MkFSM m (fsm_locks f) (fsm_leases f).
Definition set_lock_table (f : fsm) (t : L) : fsm := MkFSM (applier f) (Some t) (fsm_leases f).
Definition set_lease_table (f : fsm) (t : S) : fsm := MkFSM (applier f) (fsm_locks f) (Some t).

(** The answers to a take, an owner's request and an expiry, shared by the lock
    and lease cases of the switch. *)
Definition take_result (cmd : Command) (r : result error (Z * bool)) : lockResult :=
  match r with
  | Fail e => errResult e
  | Ok (tok, ok) => MkLockResult ok tok (DeadlineUnixMs cmd) None
  end.
Definition drop_result (cmd : Command) (r : option error) : lockResult :=
  match r with
  | Some e => errResult e
  | None => MkLockResult false (Token cmd) 0 None
  end.
Definition renew_result (cmd : Command) (r : option error) : lockResult :=
  match r with
  | Some e => errResult e
  | None => MkLockResult true (Token cmd) (DeadlineUnixMs cmd) None
  end.
Definition expire_result (cmd : Command) (ok : bool) : lockResult :=
  MkLockResult ok (Token cmd) 0 None.

(** The switch of [Apply] on a decoded command. *)
Definition applyCommand (now : Time) (f : fsm) (cmd : Command) : fsm * response * list effect :=
  match Kind cmd with
  | CmdAddMember =>
    let role := NormalizeRole (Role cmd) in
    match ma_JoinAs now (applier f) (ID cmd) (Address cmd) role with
    | (m, Fail err, es) => (set_applier f m, RespErr err, es)
    | (m, Ok _, es) => (set_applier f m, RespNil, es)
    end
  | CmdRemoveMember =>
    let r := ma_MarkDead (applier f) (ID cmd) in (set_applier f r.1, RespNil, r.2)
  | CmdDropMember =>
    let r := ma_Drop (applier f) (ID cmd) in (set_applier f r.1, RespNil, r.2)
  | CmdLockAcquire =>
    match fsm_locks f with
    | None => (f, RespLock (errResult no_locks), [])
    | Some t =>
      let r := ga_Acquire now t (Name cmd) (ID cmd) (deadlineOf cmd) (ttlOf cmd) in
      (set_lock_table f r.1.1, RespLock (take_result cmd r.1.2), r.2)
    end
  | CmdLockRelease =>
    match fsm_locks f with
    | None => (f, RespLock (errResult no_locks), [])
    | Some t =>
      let r := ga_Release t (Name cmd) (ID cmd) (Token cmd) in
      (set_lock_table f r.1.1, RespLock (drop_result cmd r.1.2), r.2)
    end
  | CmdLockRenew =>
    match fsm_locks f with
    | None => (f, RespLock (errResult no_locks), [])
    | Some t =>
      let r := ga_Renew t (Name cmd) (ID cmd) (Token cmd) (deadlineOf cmd) (ttlOf cmd) in
      (set_lock_table f r.1.1, RespLock (renew_result cmd r.1.2), r.2)
    end
  | CmdLockExpire =>
    match fsm_locks f with
    | None => (f, RespLock (errResult no_locks), [])
    | Some t =>
      let r := ga_Expire t (Name cmd) (Token cmd) in
      (set_lock_table f r.1.1, RespLock (expire_result cmd r.1.2), r.2)
    end
  | CmdLeaseGrant =>
    match fsm_leases f with
    | None => (f, RespLock (errResult no_leases), [])
    | Some t =>
      let r := ga_Acquire now t (Name cmd) (ID cmd) (deadlineOf cmd) (ttlOf cmd) in
      (set_lease_table f r.1.1, RespLock (take_result cmd r.1.2), r.2)
    end
  | CmdLeaseRenew =>
    match fsm_leases f with
    | None => (f, RespLock (errResult no_leases), [])
    | Some t =>
      let r := ga_Renew t (Name cmd) (ID cmd) (Token cmd) (deadlineOf cmd) (ttlOf cmd) in
      (set_lease_table f r.1.1, RespLock (renew_result cmd r.1.2), r.2)
    end
  | CmdLeaseRevoke =>
    match fsm_leases f with
    | None => (f, RespLock (errResult no_leases), [])
    | Some t =>
      let r := ga_Release t (Name cmd) (ID cmd) (Token cmd) in
      (set_lease_table f r.1.1, RespLock (drop_result cmd r.1.2), r.2)
    end
  | CmdLeaseExpire =>
    match fsm_leases f with
    | None => (f, RespLock (errResult no_leases), [])
    | Some t =>
      let r := ga_Expire t (Name cmd) (Token cmd) in
      (set_lease_table f r.1.1, RespLock (expire_result cmd r.1.2), r.2)
    end
  | CmdUnknown _ => (f, RespNil, [])
  end.

Definition Apply `{Codec D Command} (now : Time) (f : fsm) (entry : Log D) : fsm * response * list effect :=
  match lg_Type entry with
  | LogOther => (f, RespNil, [])
  | LogCommand =>
    match decodeCommand (lg_Data entry) with
    | Fail err => (f, RespErr err, [])
    | Ok cmd => applyCommand now f cmd
    end
  end.

(** The loop over [f.applier.Members()] of [Snapshot]. *)
Definition entry_of (m : Member) : memberEntry :=
  MkMemberEntry (m_ID m) (m_Address m) (NormalizeRole (m_Role m)) (NormalizeStatus (m_Status m)).

Definition payloadOf (f : fsm) : snapshotPayload :=
  let ls := from_option ga_SnapshotCopy (Locks.MkSnapshot [] 0) (fsm_locks f) in
  let ss := from_option ga_SnapshotCopy (Leases.MkSnapshot [] 0) (fsm_leases f) in
  MkPayload (entry_of <$> ma_Members (applier f))
    (Locks.sn_Locks ls) (Locks.sn_Next ls) (Leases.sn_Leases ss) (Leases.sn_Next ss).

Definition Snapshot `{Codec D snapshotPayload} (f : fsm) : result error D :=
  match encode (payloadOf f) with
  | Ok data => Ok data
  | Fail err => Fail (Errorf "snapshot marshal: %w" [AErr err])
  end.

(** A failing [RestoreMember] is logged and skipped. *)
Definition restoreMembers (now : Time) (m : M) (l : list memberEntry) : M :=
  foldl (λ m e, (ma_RestoreMember now m (me_ID e) (me_Address e) (NormalizeRole (me_Role e)) (me_Status e)).1) m l.

Definition restorePayload (now : Time) (f : fsm) (p : snapshotPayload) : fsm * list effect :=
  let m := restoreMembers now (applier f) (pl_Members p) in
  let rl := (λ t, ga_Restore t (Locks.MkSnapshot (pl_Locks p) (pl_NextLockToken p))) <$> fsm_locks f in
  let rs := (λ t, ga_Restore t (Leases.MkSnapshot (pl_Leases p) (pl_NextLeaseToken p))) <$> fsm_leases f in
  (MkFSM m (fst <$> rl) (fst <$> rs), from_option snd [] rl ++ from_option snd [] rs).

Definition Restore `{Codec D snapshotPayload} (now : Time) (f : fsm) (rc : D)
    : fsm * option error * list effect :=
  match decode rc with
  | Fail err => (f, Some (Errorf "snapshot decode: %w" [AErr err]), [])
  | Ok p => let r := restorePayload now f p in (r.1, None, r.2)
  end.

(** [Persist] on a sink: the write, then cancel or close. *)
Definition Persist {K} (write : K → D → K * option error) (cancel : K → K)
    (close : K → K * option error) (sink : K) (data : D) : K * option error :=
  match write sink data with
  | (k, Some err) => (cancel k, Some (Errorf "snapshot persist: %w" [AErr err]))
  | (k, None) => close k
  end.

(** ** Runs over a log *)

(** Entries with the local clock reading of each apply; the answers, in order. *)
Fixpoint apply_log (f : fsm) (log : list (Time * Command)) : fsm * list (Command * response) :=
  match log with
  | [] => (f, [])
  | (now, cmd) :: log =>
    let r := applyCommand now f cmd in
    let rest := apply_log r.1.1 log in
    (rest.1, (cmd, r.1.2) :: rest.2)
  end.

End fsm.

(** The request and answer of a log entry, as [GrantSpec] sees them. *)
Definition take_gresp (r : response) : gresp :=
  match r with
  | RespLock (MkLockResult true tok _ None) => RGranted tok
  | RespLock (MkLockResult false tok _ None) => RDenied tok
  | _ => RRejected
  end.
Definition owner_gresp (r : response) : gresp :=
  match r with RespLock (MkLockResult _ _ _ None) => RDone | _ => RRejected end.
Definition expire_gresp (r : response) : gresp :=
  match r with RespLock (MkLockResult true _ _ None) => RDone | _ => RRejected end.

Definition lock_gop (e : Command * response) : option (gop * gresp) :=
  let (c, r) := e in
  match Kind c with
  | CmdLockAcquire => Some (GAcquire (Name c) (ID c), take_gresp r)
  | CmdLockRelease => Some (GRelease (Name c) (ID c) (Token c), owner_gresp r)
  | CmdLockRenew => Some (GRenew (Name c) (ID c) (Token c), owner_gresp r)
  | CmdLockExpire => Some (GExpire (Name c) (Token c), expire_gresp r)
  | _ => None
  end.
Definition lease_gop (e : Command * response) : option (gop * gresp) :=
  let (c, r) := e in
  match Kind c with
  | CmdLeaseGrant => Some (GAcquire (Name c) (ID c), take_gresp r)
  | CmdLeaseRevoke => Some (GRelease (Name c) (ID c) (Token c), owner_gresp r)
  | CmdLeaseRenew => Some (GRenew (Name c) (ID c) (Token c), owner_gresp r)
  | CmdLeaseExpire => Some (GExpire (Name c) (Token c), expire_gresp r)
  | _ => None
  end.

#[global] Arguments lock_gop : simpl never.
#[global] Arguments lease_gop : simpl never.

(** ** Proofs against the interfaces *)

Section agree.
Context `{GrantLaws T Snap}.

Lemma Acquire_agree now1 now2 t1 t2 n h d ttl :
  gl_equiv t1 t2 →
  (ga_Acquire now1 t1 n h d ttl).1.2 = (ga_Acquire now2 t2 n h d ttl).1.2 ∧
  gl_equiv (ga_Acquire now1 t1 n h d ttl).1.1 (ga_Acquire now2 t2 n h d ttl).1.1.
Proof. intros Heq. by destruct (gl_Acquire_proper now1 now2 I t1 t2 Heq n n eq_refl h h eq_refl d d eq_refl ttl ttl eq_refl) as [[? ?] _]. Qed.
Lemma Release_agree t1 t2 n h k :
  gl_equiv t1 t2 →
  (ga_Release t1 n h k).1.2 = (ga_Release t2 n h k).1.2 ∧
  gl_equiv (ga_Release t1 n h k).1.1 (ga_Release t2 n h k).1.1.
Proof. intros Heq. by destruct (gl_Release_proper t1 t2 Heq n n eq_refl h h eq_refl k k eq_refl) as [[? ?] _]. Qed.
Lemma Renew_agree t1 t2 n h k d ttl :
  gl_equiv t1 t2 →
  (ga_Renew t1 n h k d ttl).1.2 = (ga_Renew t2 n h k d ttl).1.2 ∧
  gl_equiv (ga_Renew t1 n h k d ttl).1.1 (ga_Renew t2 n h k d ttl).1.1.
Proof. intros Heq. by destruct (gl_Renew_proper t1 t2 Heq n n eq_refl h h eq_refl k k eq_refl d d eq_refl ttl ttl eq_refl) as [[? ?] _]. Qed.
Lemma Expire_agree t1 t2 n k :
  gl_equiv t1 t2 →
  (ga_Expire t1 n k).1.2 = (ga_Expire t2 n k).1.2 ∧
  gl_equiv (ga_Expire t1 n k).1.1 (ga_Expire t2 n k).1.1.
Proof. intros Heq. by destruct (gl_Expire_proper t1 t2 Heq n n eq_refl k k eq_refl) as [[? ?] _]. Qed.
End agree.

Section laws.
Context {M L S D : Type}.
Context `{MA : MemberApplier M} `{LA : GrantApplier L Locks.Snapshot} `{SA : GrantApplier S Leases.Snapshot}.
Context {ML : MemberLaws M} {LL : GrantLaws L Locks.Snapshot} {SL : GrantLaws S Leases.Snapshot}.
Abbreviation fsm := (FSM M L S).

Definition option_wf {A} (P : A → Prop) (o : option A) : Prop := from_option P True o.

Record fsm_wf (f : fsm) : Prop := {
  fwf_members : ml_wf (applier f);
  fwf_locks : option_wf gl_wf (fsm_locks f);
  fwf_leases : option_wf gl_wf (fsm_leases f);
}.

Lemma take_gresp_result cmd r : take_gresp (RespLock (take_result cmd r)) = acq_resp r.
Proof. by destruct r as [[? []]|]. Qed.
Lemma owner_gresp_drop cmd r : owner_gresp (RespLock (drop_result cmd r)) = err_resp r.
Proof. by destruct r. Qed.
Lemma owner_gresp_renew cmd r : owner_gresp (RespLock (renew_result cmd r)) = err_resp r.
Proof. by destruct r. Qed.
Lemma expire_gresp_result cmd b : expire_gresp (RespLock (expire_result cmd b)) = bool_resp b.
Proof. by destruct b. Qed.

(** Case analysis on the kind of a command, then on the table it needs. *)
Ltac kind_cases f cmd :=
  unfold applyCommand; destruct (Kind cmd);
  [ | | 
  | destruct (fsm_locks f) as [t|] eqn:Ht | destruct (fsm_locks f) as [t|] eqn:Ht
  | destruct (fsm_locks f) as [t|] eqn:Ht | destruct (fsm_locks f) as [t|] eqn:Ht
  | destruct (fsm_leases f) as [t|] eqn:Ht | destruct (fsm_leases f) as [t|] eqn:Ht
  | destruct (fsm_leases f) as [t|] eqn:Ht | destruct (fsm_leases f) as [t|] eqn:Ht
  | ].

Lemma applyCommand_wf now f cmd : fsm_wf f → fsm_wf (applyCommand now f cmd).1.1.
Proof.
  intros [Hm Hl Hs].
  pose proof (ml_wf_JoinAs now (applier f) (ID cmd) (Address cmd) (NormalizeRole (Role cmd)) Hm) as Hj.
  kind_cases f cmd; simpl.
  1: destruct (ma_JoinAs _ _ _ _ _) as [[m [b|e]] es]; by split.
  all: split; simpl; rewrite ?Ht; auto using ml_wf_MarkDead, ml_wf_Drop;
    first [by apply gl_Acquire | by apply gl_Release | by apply gl_Renew | by apply gl_Expire].
Qed.

(** *** One entry, seen from the lock table and from the lease table *)

Lemma applyCommand_locks now f cmd t :
  gl_wf t → fsm_locks f = Some t →
  let r := applyCommand now f cmd in
  ∃ t', fsm_locks r.1.1 = Some t' ∧ gl_wf t' ∧
    match lock_gop (cmd, r.1.2) with
    | Some (o, g) => gstep (gl_adm L) (gl_cap L) (gl_abs t) o g (gl_abs t')
    | None => t' = t
    end.
Proof.
  intros Hwf Hf. unfold applyCommand, lock_gop. rewrite Hf.
  destruct (Kind cmd); cbn -[take_result drop_result renew_result expire_result take_gresp owner_gresp expire_gresp];
    try (by exists t);
    try (by destruct (fsm_leases f); exists t).
  - destruct (ma_JoinAs _ _ _ _ _) as [[m [b|e]] es]; by exists t.
  - rewrite take_gresp_result. destruct (gl_Acquire now t (Name cmd) (ID cmd) (deadlineOf cmd) (ttlOf cmd) Hwf). by eexists; split_and!.
  - rewrite owner_gresp_drop. destruct (gl_Release t (Name cmd) (ID cmd) (Token cmd) Hwf). by eexists; split_and!.
  - rewrite owner_gresp_renew. destruct (gl_Renew t (Name cmd) (ID cmd) (Token cmd) (deadlineOf cmd) (ttlOf cmd) Hwf). by eexists; split_and!.
  - rewrite expire_gresp_result. destruct (gl_Expire t (Name cmd) (Token cmd) Hwf). by eexists; split_and!.
Qed.

Lemma applyCommand_leases now f cmd t :
  gl_wf t → fsm_leases f = Some t →
  let r := applyCommand now f cmd in
  ∃ t', fsm_leases r.1.1 = Some t' ∧ gl_wf t' ∧
    match lease_gop (cmd, r.1.2) with
    | Some (o, g) => gstep (gl_adm S) (gl_cap S) (gl_abs t) o g (gl_abs t')
    | None => t' = t
    end.
Proof.
  intros Hwf Hf. unfold applyCommand, lease_gop. rewrite Hf.
  destruct (Kind cmd); cbn -[take_result drop_result renew_result expire_result take_gresp owner_gresp expire_gresp];
    try (by exists t);
    try (by destruct (fsm_locks f); exists t).
  - destruct (ma_JoinAs _ _ _ _ _) as [[m [b|e]] es]; by exists t.
  - rewrite take_gresp_result. destruct (gl_Acquire now t (Name cmd) (ID cmd) (deadlineOf cmd) (ttlOf cmd) Hwf). by eexists; split_and!.
  - rewrite owner_gresp_renew. destruct (gl_Renew t (Name cmd) (ID cmd) (Token cmd) (deadlineOf cmd) (ttlOf cmd) Hwf). by eexists; split_and!.
  - rewrite owner_gresp_drop. destruct (gl_Release t (Name cmd) (ID cmd) (Token cmd) Hwf). by eexists; split_and!.
  - rewrite expire_gresp_result. destruct (gl_Expire t (Name cmd) (Token cmd) Hwf). by eexists; split_and!.
Qed.

Lemma apply_log_locks f log t :
  gl_wf t → fsm_locks f = Some t →
  ∃ t', fsm_locks (apply_log f log).1 = Some t' ∧ gl_wf t' ∧
    grun (gl_adm L) (gl_cap L) (gl_abs t) (omap lock_gop (apply_log f log).2) (gl_abs t').
Proof.
  revert f t; induction log as [|[now cmd] log IH]; intros f t Hwf Hf; simpl.
  { exists t. split_and!; try done. constructor. }
  destruct (applyCommand_locks now f cmd t Hwf Hf) as (t1 & Hf1 & Hwf1 & Hstep).
  destruct (IH _ _ Hwf1 Hf1) as (t2 & Hf2 & Hwf2 & Hrun). exists t2. split_and!; try done.
  destruct (lock_gop _) as [[o g]|].
  - by econstructor.
  - by subst.
Qed.

Lemma apply_log_leases f log t :
  gl_wf t → fsm_leases f = Some t →
  ∃ t', fsm_leases (apply_log f log).1 = Some t' ∧ gl_wf t' ∧
    grun (gl_adm S) (gl_cap S) (gl_abs t) (omap lease_gop (apply_log f log).2) (gl_abs t').
Proof.
  revert f t; induction log as [|[now cmd] log IH]; intros f t Hwf Hf; simpl.
  { exists t. split_and!; try done. constructor. }
  destruct (applyCommand_leases now f cmd t Hwf Hf) as (t1 & Hf1 & Hwf1 & Hstep).
  destruct (IH _ _ Hwf1 Hf1) as (t2 & Hf2 & Hwf2 & Hrun). exists t2. split_and!; try done.
  destruct (lease_gop _) as [[o g]|].
  - by econstructor.
  - by subst.
Qed.

Lemma apply_log_length f log : length (apply_log f log).2 = length log.
Proof. revert f; induction log as [|[now cmd] log IH]; intros f; simpl; auto. Qed.

(** *** The member list *)

Definition member_step (cmd : Command) (v : gmap string (string * string * string)) :=
  match Kind cmd with
  | CmdAddMember =>
    if str_empty (ID cmd) then v else <[ID cmd := (Address cmd, StatusAlive, NormalizeRole (Role cmd))]> v
  | CmdRemoveMember => alter (λ x, (x.1.1, StatusDead, x.2)) (ID cmd) v
  | CmdDropMember => delete (ID cmd) v
  | _ => v
  end.

Lemma applyCommand_view now f cmd :
  ml_wf (applier f) →
  ml_view (applier (applyCommand now f cmd).1.1) = member_step cmd (ml_view (applier f)).
Proof.
  intros Hwf. unfold applyCommand, member_step. destruct (Kind cmd); simpl;
    try (by destruct (fsm_locks f)); try (by destruct (fsm_leases f)).
  - destruct (str_empty (ID cmd)) eqn:Hid.
    + apply str_empty_true in Hid. rewrite Hid.
      destruct (ml_JoinAs_empty now (applier f) (Address cmd) (NormalizeRole (Role cmd)) Hwf) as (e & -> & _).
      done.
    + apply str_empty_false in Hid.
      destruct (ml_JoinAs now (applier f) (ID cmd) (Address cmd) (NormalizeRole (Role cmd)) Hwf Hid) as [Hok Hv].
      rewrite NormalizeRole_idemp in Hv. destruct (ma_JoinAs _ _ _ _ _) as [[m [b|e]] es]; by simplify_eq/=.
  - by apply ml_MarkDead.
  - by apply ml_Drop.
Qed.

(** A log entry after which every replica has the same view of [id]. *)
Definition settles (id : string) (cmd : Command) : Prop :=
  ID cmd = id ∧ id ≠ "" ∧ (Kind cmd = CmdAddMember ∨ Kind cmd = CmdDropMember).

Lemma member_step_settles id cmd v1 v2 :
  settles id cmd → member_step cmd v1 !! id = member_step cmd v2 !! id.
Proof.
  intros (<- & Hne & [Hk|Hk]); unfold member_step; rewrite Hk.
  - apply str_empty_false in Hne. by rewrite Hne, !lookup_insert_eq.
  - by rewrite !lookup_delete_eq.
Qed.
Lemma member_step_agree id cmd v1 v2 :
  v1 !! id = v2 !! id → member_step cmd v1 !! id = member_step cmd v2 !! id.
Proof.
  intros Hv. unfold member_step. destruct (Kind cmd); try done.
  - case_match; [done|]. rewrite !lookup_insert. by case_decide.
  - rewrite !lookup_alter. case_decide; [by simplify_eq; rewrite Hv|done].
  - rewrite !lookup_delete. by case_decide.
Qed.

(** *** Replicas *)

Definition fsm_equiv (f1 f2 : fsm) : Prop :=
  option_Forall2 gl_equiv (fsm_locks f1) (fsm_locks f2) ∧
  option_Forall2 gl_equiv (fsm_leases f1) (fsm_leases f2).

Lemma JoinAs_resp now1 now2 m1 m2 id a r :
  ml_wf m1 → ml_wf m2 →
  match (ma_JoinAs now1 m1 id a r).1.2, (ma_JoinAs now2 m2 id a r).1.2 with
  | Ok _, Ok _ => True
  | Fail e1, Fail e2 => e1 = e2
  | _, _ => False
  end.
Proof.
  intros H1 H2. destruct (decide (id = "")) as [->|Hne].
  - destruct (ml_JoinAs_empty now1 m1 a r H1) as (e & -> & ->). done.
  - destruct (ml_JoinAs now1 m1 id a r H1 Hne) as [Hok1 _].
    destruct (ml_JoinAs now2 m2 id a r H2 Hne) as [Hok2 _].
    by destruct (ma_JoinAs now1 _ _ _ _).1.2, (ma_JoinAs now2 _ _ _ _).1.2.
Qed.

Lemma applyCommand_equiv now1 now2 f1 f2 cmd :
  fsm_wf f1 → fsm_wf f2 → fsm_equiv f1 f2 →
  (applyCommand now1 f1 cmd).1.2 = (applyCommand now2 f2 cmd).1.2 ∧
  fsm_equiv (applyCommand now1 f1 cmd).1.1 (applyCommand now2 f2 cmd).1.1.
Proof.
  intros [Hm1 _ _] [Hm2 _ _] [Hl Hs].
  pose proof (JoinAs_resp now1 now2 (applier f1) (applier f2) (ID cmd) (Address cmd)
    (NormalizeRole (Role cmd)) Hm1 Hm2) as Hj.
  unfold applyCommand. destruct (Kind cmd); simpl; try (by split).
  1: destruct (ma_JoinAs now1 _ _ _ _) as [[? []] ?], (ma_JoinAs now2 _ _ _ _) as [[? []] ?];
      simplify_eq/=; by split.
  1-4: inversion Hl as [t1 t2 Heq E1 E2|E1 E2]; simpl; [|by split; [|split; rewrite <-?E1, <-?E2]].
  5-8: inversion Hs as [t1 t2 Heq E1 E2|E1 E2]; simpl; [|by split; [|split; rewrite <-?E1, <-?E2]].
  all: first
    [ destruct (Acquire_agree now1 now2 t1 t2 (Name cmd) (ID cmd) (deadlineOf cmd) (ttlOf cmd) Heq) as [-> ?]
    | destruct (Release_agree t1 t2 (Name cmd) (ID cmd) (Token cmd) Heq) as [-> ?]
    | destruct (Renew_agree t1 t2 (Name cmd) (ID cmd) (Token cmd) (deadlineOf cmd) (ttlOf cmd) Heq) as [-> ?]
    | destruct (Expire_agree t1 t2 (Name cmd) (Token cmd) Heq) as [-> ?] ].
  all: by split; [|split; try constructor].
Qed.

Lemma apply_log_wf f log : fsm_wf f → fsm_wf (apply_log f log).1.
Proof.
  revert f; induction log as [|[now cmd] log IH]; intros f Hwf; simpl; [done|].
  by apply IH, applyCommand_wf.
Qed.

(** *** Snapshots *)

Lemma restoreMembers_view now m l :
  ml_wf m → Forall (λ e, me_ID e ≠ "") l → NoDup (me_ID <$> l) →
  ml_wf (restoreMembers now m l) ∧
  ml_view (restoreMembers now m l) =
    list_to_map ((λ e, (me_ID e, (me_Address e, NormalizeStatus (me_Status e), NormalizeRole (me_Role e)))) <$> l)
    ∪ ml_view m.
Proof.
  revert m; induction l as [|e l IH]; intros m Hwf Hne Hnd; simpl.
  { split; [done|]. by rewrite (left_id_L ∅ (∪)). }
  apply Forall_cons in Hne as [He Hne]. apply NoDup_cons in Hnd as [Hn Hnd].
  destruct (IH (ma_RestoreMember now m (me_ID e) (me_Address e) (NormalizeRole (me_Role e)) (me_Status e)).1)
    as [Hwf' Hv]; [by apply ml_wf_RestoreMember|done..|]. split; [done|].
  etrans; [exact Hv|]. rewrite ml_RestoreMember, NormalizeRole_idemp by done.
  rewrite <-insert_union_l, insert_union_r; [done|].
  apply not_elem_of_list_to_map_1. by rewrite <-list_fmap_compose.
Qed.

End laws.

(** A run of [GrantSpec] read off a log through [g]: exclusion, fencing and stale
    tokens for the entries of the log themselves. *)
Section traces.
Context {A : Type} (g : A → option (gop * gresp)) (adm : string → string → Prop) (cap : nat).

Definition ended_by (n h : string) (t : Z) (e : A) : Prop := ∃ x, g e = Some x ∧ ends n h t x.

Lemma omap_split pre e x post :
  g e = Some x → omap g (pre ++ e :: post) = omap g pre ++ x :: omap g post.
Proof. intros He. rewrite omap_app. simpl. by rewrite He. Qed.

Lemma omap_length (l : list A) : length (omap g l) ≤ length l.
Proof. induction l as [|e l IH]; csimpl; [done|]. destruct (g e); csimpl; lia. Qed.

Lemma room_omap G tr : room G (length tr) → room G (length (omap g tr)).
Proof. unfold room. pose proof (omap_length tr). lia. Qed.

Lemma trace_exclusion G pre e1 mid e2 post G' n h1 h2 t1 t2 :
  grants_wf G → room G (length (pre ++ e1 :: mid ++ e2 :: post)) →
  grun adm cap G (omap g (pre ++ e1 :: mid ++ e2 :: post)) G' →
  g e1 = Some (GAcquire n h1, RGranted t1) → g e2 = Some (GAcquire n h2, RGranted t2) → h1 ≠ h2 →
  (t1 < t2)%Z ∧ Exists (ended_by n h1 t1) mid.
Proof.
  intros Hwf Hroom%room_omap Hrun H1 H2 Hne.
  rewrite (omap_split _ _ _ _ H1), (omap_split _ _ _ _ H2) in Hrun, Hroom.
  split; [by eapply spec_fencing|].
  eapply spec_exclusive in Hrun; [|done..]. apply Exists_exists in Hrun as (x & Hx & He).
  apply list_elem_of_omap in Hx as (e & Hin & Hg). apply Exists_exists. exists e. split; [done|]. by exists x.
Qed.

Lemma trace_stale G pre e1 mid e2 post G' n h t o r :
  grants_wf G → room G (length (pre ++ e1 :: mid ++ e2 :: post)) →
  grun adm cap G (omap g (pre ++ e1 :: mid ++ e2 :: post)) G' →
  ended_by n h t e1 → g e2 = Some (o, r) →
  (∃ h', o = GRelease n h' t ∨ o = GRenew n h' t ∨ o = GExpire n t) → r = RRejected.
Proof.
  intros Hwf Hroom%room_omap Hrun (x & H1 & Hx) H2 Ho.
  rewrite (omap_split _ _ _ _ H1), (omap_split _ _ _ _ H2) in Hrun, Hroom.
  by eapply spec_stale.
Qed.
End traces.

(** ** The instances of the program *)

#[export] Instance Table_LockApplier `{Unicode} : GrantApplier Locks.Table Locks.Snapshot := {|
  ga_Acquire := Locks.Acquire;
  ga_Release := Locks.Release;
  ga_Renew := Locks.Renew;
  ga_Expire := Locks.Expire;
  ga_SnapshotCopy := Locks.SnapshotCopy;
  ga_Restore := Locks.Restore;
|}.
#[export] Instance Table_LeaseApplier `{Unicode} : GrantApplier Leases.Table Leases.Snapshot := {|
  ga_Acquire := Leases.Grant;
  ga_Release := Leases.Revoke;
  ga_Renew := Leases.Renew;
  ga_Expire := Leases.Expire;
  ga_SnapshotCopy := Leases.SnapshotCopy;
  ga_Restore t s := (Leases.Restore t s, []);
|}.
#[export] Instance Engine_MemberApplier : MemberApplier Engine := {|
  ma_JoinAs := JoinAs;
  ma_MarkDead := MarkDead;
  ma_Drop := Drop;
  ma_RestoreMember := RestoreMember;
  ma_Members := Members;
|}.

#[export, refine] Instance Table_LockLaws `{Unicode} : GrantLaws Locks.Table Locks.Snapshot := {|
  gl_abs := lock_abs;
  gl_wf := lock_wf;
  gl_equiv := lock_equiv;
  gl_hook := Locks.Emit;
  gl_adm := lock_adm;
  gl_cap := MaxLocks;
|}.
Proof.
  - intros now t n h d ttl Hwf. simpl. destruct (Acquire _ _ _ _ _ _) as [[]] eqn:Ha; simpl.
    eauto using lock_Acquire_refines, lock_Acquire_wf.
  - intros t n h k Hwf. simpl. destruct (Release _ _ _ _) as [[]] eqn:Ha; simpl.
    eauto using lock_Release_refines, lock_Release_wf.
  - intros t n h k d ttl Hwf. simpl. destruct (Locks.Renew _ _ _ _ _ _) as [[]] eqn:Ha; simpl.
    eauto using lock_Renew_refines, lock_Renew_wf.
  - intros t n k Hwf. simpl. destruct (Locks.Expire _ _ _) as [[]] eqn:Ha; simpl.
    eauto using lock_Expire_refines, lock_Expire_wf.
  - intros t t0 Hwf Hh. cbn [ga_Restore ga_SnapshotCopy Table_LockApplier].
    assert ((Locks.Restore t0 (Locks.SnapshotCopy t)).1 = t) as ->; [|done].
    unfold Locks.Restore, Locks.SnapshotCopy; simpl.
    rewrite (put_all_rebuild lk_Name (locks t)), Hh; [by destruct t|by apply lock_keyed|done].
Defined.

#[export, refine] Instance Table_LeaseLaws `{Unicode} : GrantLaws Leases.Table Leases.Snapshot := {|
  gl_abs := lease_abs;
  gl_wf := lease_wf;
  gl_equiv := lease_equiv;
  gl_hook := Leases.Emit;
  gl_adm := lock_adm;
  gl_cap := MaxLeases;
|}.
Proof.
  - intros now t n h d ttl Hwf. simpl. split; [|by apply lease_Grant_wf].
    destruct (Grant _ _ _ _ _ _) as [[]] eqn:Ha; simpl. eauto using lease_Grant_refines.
  - intros t n h k Hwf. simpl. split; [|by apply lease_Revoke_wf].
    destruct (Revoke _ _ _ _) as [[]] eqn:Ha; simpl. eauto using lease_Revoke_refines.
  - intros t n h k d ttl Hwf. simpl. split; [|by apply lease_Renew_wf].
    destruct (Leases.Renew _ _ _ _ _ _) as [[]] eqn:Ha; simpl. eauto using lease_Renew_refines.
  - intros t n k Hwf. simpl. split; [|by apply lease_Expire_wf].
    destruct (Leases.Expire _ _ _) as [[]] eqn:Ha; simpl. eauto using lease_Expire_refines.
  - intros t t0 Hwf Hh. cbn [ga_Restore ga_SnapshotCopy Table_LeaseApplier fst].
    assert (Leases.Restore t0 (Leases.SnapshotCopy t) = t) as ->; [|done].
    change (Leases.SnapshotCopy t) with
      (Leases.MkSnapshot (Leases.sn_Leases (Leases.SnapshotCopy t)) (Leases.sn_Next (Leases.SnapshotCopy t))).
    rewrite (lease_Restore_copy t t0 _ Hwf), Hh by done. by destruct t.
Defined.

Lemma views_Members e :
  engine_wf e →
  list_to_map ((λ x, (m_ID x, (m_Address x, m_Status x, m_Role x))) <$> Members e) = views e.
Proof.
  intros Hwf. pose proof (engine_keyed _ Hwf) as Hk. unfold Members, views.
  rewrite <-(list_to_map_to_list (members e)) at 2.
  rewrite <-list_to_map_fmap, <-(keyed_pairs m_ID (members e) Hk), <-list_fmap_compose.
  apply list_to_map_proper; [|by rewrite sort_by_perm].
  rewrite <-list_fmap_compose. change (NoDup (m_ID <$> sort_by m_ID (values (members e)))).
  rewrite sort_by_perm. by apply keyed_NoDup.
Qed.

#[export, refine] Instance Engine_MemberLaws : MemberLaws Engine := {|
  ml_view := views;
  ml_wf := engine_wf;
|}.
Proof.
  - intros now m id a r Hwf Hid. apply str_empty_false in Hid. simpl. unfold JoinAs. rewrite Hid.
    split; [done|]. unfold views; simpl. by rewrite fmap_insert.
  - intros now m a r Hwf. by eexists.
  - intros m id Hwf. simpl. unfold MarkDead, views. destruct (members m !! id) as [x|] eqn:Hx.
    + rewrite NormalizeStatus_dead by by destruct (Hwf _ _ Hx).
      apply map_eq. intros id'. rewrite lookup_fmap, lookup_alter.
      destruct (decide (id = id')) as [<-|Hne].
      * rewrite lookup_fmap, Hx. destruct (String.eqb_spec (m_Status x) StatusAlive) as [Ha|Ha]; simpl.
        -- by rewrite lookup_insert_eq.
        -- rewrite Hx; simpl. do 3 f_equal. by destruct (Hwf _ _ Hx) as [_ _ [|] _ _].
      * rewrite lookup_fmap. destruct (negb _); simpl; [done|]. by rewrite lookup_insert_ne.
    + simpl. symmetry. apply map_eq. intros id'. rewrite lookup_alter, !lookup_fmap.
      case_decide; [by subst; rewrite Hx|done].
  - intros m id Hwf. simpl. unfold Drop, Leave, views.
    case_bool_decide as Hd; [|destruct (members m !! id) as [x|] eqn:Hx]; simpl.
    + rewrite delete_id; [done|]. rewrite lookup_fmap. destruct (members m !! id) eqn:Hx; [|done].
      by destruct (Hwf _ _ Hx).
    + by rewrite fmap_delete.
    + rewrite delete_id; [done|]. by rewrite lookup_fmap, Hx.
  - intros now m id a r s Hwf Hid. apply str_empty_false in Hid. simpl. unfold RestoreMember. rewrite Hid.
    unfold views; simpl. by rewrite fmap_insert.
  - done.
  - intros m Hwf. split_and!; [by apply views_Members| |].
    + simpl. unfold Members. rewrite sort_by_perm. by apply keyed_NoDup, engine_keyed.
    + apply Forall_forall. intros x Hx. simpl in Hx. unfold Members in Hx. rewrite sort_by_perm in Hx.
      apply map_values_elem in Hx as [id Hx]. destruct (Hwf _ _ Hx).
      by rewrite NormalizeStatus_id, NormalizeRole_id.
  - intros now m id a r Hwf. apply (engine_wf_step m (OpJoinAs now id a r) Hwf).
  - intros m id Hwf. apply (engine_wf_step m (OpMarkDead id) Hwf).
  - intros m id Hwf. apply (engine_wf_step m (OpDrop id) Hwf).
  - intros now m id a r s Hwf. apply (engine_wf_step m (OpRestoreMember now id a r s) Hwf).
Defined.

(** ** Properties of the replicated log *)

Section props.
Context `{Unicode}.
Abbreviation fsm := (FSM Engine Locks.Table Leases.Table).

(** The FSM a fresh daemon starts with. *)
Definition new_fsm (now : Time) (id addr : string) : fsm :=
  MkFSM (Membership.New now id addr) (Some Locks.New) (Some Leases.New).

(** The FSM invariant with both tables present: well-formed tables whose tokens
    are distinct and not above the counter, which has room for [k] more. *)
Record fsm_ready (f : fsm) (k : nat) : Prop := {
  rdy_wf : fsm_wf f;
  rdy_locks : ∃ t, fsm_locks f = Some t ∧ grants_wf (lock_abs t) ∧ room (lock_abs t) k;
  rdy_leases : ∃ t, fsm_leases f = Some t ∧ grants_wf (lease_abs t) ∧ room (lease_abs t) k;
}.

Lemma grants_wf_empty : grants_wf (MkGrants ∅ 0).
Proof. split; simpl; [done|intros n h t|intros n1 n2 h1 h2 t]; by rewrite lookup_empty. Qed.

Lemma new_fsm_ready now id addr k : (Z.of_nat k < two64)%Z → fsm_ready (new_fsm now id addr) k.
Proof.
  intros Hk. split.
  - split; simpl; [apply engine_wf_New|apply lock_wf_New|apply lease_wf_New].
  - exists Locks.New. split; [done|]. unfold lock_abs; simpl. rewrite fmap_empty.
    split; [apply grants_wf_empty|by unfold room].
  - exists Leases.New. split; [done|]. unfold lease_abs, as_lock, lock_abs; simpl. rewrite !fmap_empty.
    split; [apply grants_wf_empty|by unfold room].
Qed.

(** C1: Locks are mutually exclusive and fenced: if a committed log grants lock
    [n] to [h1] with token [t1] and later to another holder [h2] with token [t2],
    then [t1 < t2], and between the two the log holds an applied release by [h1]
    with [t1] or an applied expiry of [t1]. *)
Theorem fsm_lock_exclusion f log pre e1 mid e2 post n h1 t1 h2 t2 :
  fsm_ready f (length log) →
  (apply_log f log).2 = pre ++ e1 :: mid ++ e2 :: post →
  lock_gop e1 = Some (GAcquire n h1, RGranted t1) →
  lock_gop e2 = Some (GAcquire n h2, RGranted t2) → h1 ≠ h2 →
  (t1 < t2)%Z ∧ Exists (ended_by lock_gop n h1 t1) mid.
Proof.
  intros [Hwf (t & Ht & Hg & Hr) _] Hlog H1 H2 Hne.
  pose proof (fwf_locks _ Hwf) as Hwt. rewrite Ht in Hwt.
  destruct (apply_log_locks f log t Hwt Ht) as (t' & _ & _ & Hrun).
  rewrite Hlog in Hrun. rewrite <-(apply_log_length f log), Hlog in Hr.
  by eapply trace_exclusion.
Qed.

(** The same for leases: a later grant of a lease to another owner carries a
    larger token and follows an applied revocation or expiry of the earlier one. *)
Theorem fsm_lease_exclusion f log pre e1 mid e2 post n h1 t1 h2 t2 :
  fsm_ready f (length log) →
  (apply_log f log).2 = pre ++ e1 :: mid ++ e2 :: post →
  lease_gop e1 = Some (GAcquire n h1, RGranted t1) →
  lease_gop e2 = Some (GAcquire n h2, RGranted t2) → h1 ≠ h2 →
  (t1 < t2)%Z ∧ Exists (ended_by lease_gop n h1 t1) mid.
Proof.
  intros [Hwf _ (t & Ht & Hg & Hr)] Hlog H1 H2 Hne.
  pose proof (fwf_leases _ Hwf) as Hwt. rewrite Ht in Hwt.
  destruct (apply_log_leases f log t Hwt Ht) as (t' & _ & _ & Hrun).
  rewrite Hlog in Hrun. rewrite <-(apply_log_length f log), Hlog in Hr.
  by eapply trace_exclusion.
Qed.

(** C2: A fencing token that was released or expired is dead: every later
    release, renew or expiry of the same lock with that token is refused, and
    likewise for leases. *)
Theorem fsm_stale_token_refused f log pre e1 mid e2 post n h t o r :
  fsm_ready f (length log) →
  (apply_log f log).2 = pre ++ e1 :: mid ++ e2 :: post →
  (ended_by lock_gop n h t e1 ∧ lock_gop e2 = Some (o, r)) ∨
  (ended_by lease_gop n h t e1 ∧ lease_gop e2 = Some (o, r)) →
  (∃ h', o = GRelease n h' t ∨ o = GRenew n h' t ∨ o = GExpire n t) →
  r = RRejected.
Proof.
  intros [Hwf (tl & Hl & Hgl & Hrl) (ts & Hs & Hgs & Hrs)] Hlog He Ho.
  destruct Hwf as [_ Hwl Hws]. rewrite Hl in Hwl. rewrite Hs in Hws.
  rewrite <-(apply_log_length f log), Hlog in Hrl, Hrs. destruct He as [[H1 H2]|[H1 H2]].
  - destruct (apply_log_locks f log tl Hwl Hl) as (t' & _ & _ & Hrun). rewrite Hlog in Hrun.
    by eapply (trace_stale lock_gop _ _ (lock_abs tl)).
  - destruct (apply_log_leases f log ts Hws Hs) as (t' & _ & _ & Hrun). rewrite Hlog in Hrun.
    by eapply (trace_stale lease_gop _ _ (lease_abs ts)).
Qed.

Lemma replicas_agree (f1 f2 : fsm) log1 log2 :
  fsm_wf f1 → fsm_wf f2 → fsm_equiv f1 f2 → log1.*2 = log2.*2 →
  (apply_log f1 log1).2 = (apply_log f2 log2).2 ∧ fsm_equiv (apply_log f1 log1).1 (apply_log f2 log2).1.
Proof.
  revert f1 f2 log2; induction log1 as [|[now1 cmd] log1 IH]; intros f1 f2 [|[now2 cmd2] log2] H1 H2 Heq Hlog;
    simplify_eq/=; [done|].
  destruct (applyCommand_equiv now1 now2 f1 f2 cmd2 H1 H2 Heq) as [-> Heq'].
  destruct (IH (applyCommand now1 f1 cmd2).1.1 (applyCommand now2 f2 cmd2).1.1 log2) as [-> ?];
    auto using applyCommand_wf.
Qed.

Lemma views_agree (f1 f2 : fsm) log1 log2 id :
  fsm_wf f1 → fsm_wf f2 → log1.*2 = log2.*2 →
  views (applier f1) !! id = views (applier f2) !! id ∨ Exists (settles id) log1.*2 →
  views (applier (apply_log f1 log1).1) !! id = views (applier (apply_log f2 log2).1) !! id.
Proof.
  revert f1 f2 log2; induction log1 as [|[now1 cmd] log1 IH]; intros f1 f2 [|[now2 cmd2] log2] H1 H2 Hlog Hor;
    simplify_eq/=; [by destruct Hor as [|?%Exists_nil]|].
  apply IH; auto using applyCommand_wf.
  pose proof (applyCommand_view now1 f1 cmd2 (fwf_members _ H1)) as E1.
  pose proof (applyCommand_view now2 f2 cmd2 (fwf_members _ H2)) as E2. simpl in E1, E2.
  rewrite E1, E2. destruct Hor as [Hv|[Hs|Hs]%Exists_cons]; [|left; by apply member_step_settles|by right].
  left. by apply member_step_agree.
Qed.

(** Two replicas that start from equivalent lock and lease tables and apply
    the same commands give the same answer to every command and end with
    equivalent tables, whatever their local clocks read; and they agree on
    address, status and role of every node the log added or dropped. *)
Theorem fsm_replicas_agree (f1 f2 : fsm) log1 log2 :
  fsm_wf f1 → fsm_wf f2 → fsm_equiv f1 f2 → log1.*2 = log2.*2 →
  (apply_log f1 log1).2 = (apply_log f2 log2).2 ∧
  fsm_equiv (apply_log f1 log1).1 (apply_log f2 log2).1 ∧
  ∀ id, Exists (settles id) log1.*2 →
    views (applier (apply_log f1 log1).1) !! id = views (applier (apply_log f2 log2).1) !! id.
Proof.
  intros H1 H2 Heq Hlog. destruct (replicas_agree f1 f2 log1 log2 H1 H2 Heq Hlog) as [? ?].
  split_and!; [done..|]. intros id Hs. apply views_agree; auto.
Qed.

(** [Restore] of a decoded snapshot of [f], on any node. *)
Lemma restorePayload_equiv now (f f0 : fsm) :
  fsm_wf f →
  option_Forall2 (λ t0 t, Locks.Emit t0 = Locks.Emit t) (fsm_locks f0) (fsm_locks f) →
  option_Forall2 (λ t0 t, Leases.Emit t0 = Leases.Emit t) (fsm_leases f0) (fsm_leases f) →
  fsm_equiv (restorePayload now f0 (payloadOf f)).1 f.
Proof.
  intros [_ Hl Hs] Hel Hes. split; simpl.
  - destruct (fsm_locks f0) as [t0|], (fsm_locks f) as [t|]; inv Hel; constructor.
    by destruct (gl_Restore t t0 Hl ltac:(done)).
  - destruct (fsm_leases f0) as [t0|], (fsm_leases f) as [t|]; inv Hes; constructor.
    by destruct (gl_Restore t t0 Hs ltac:(done)).
Qed.

Lemma restorePayload_view now (f f0 : fsm) :
  fsm_wf f → fsm_wf f0 → views (applier f) !! "" = None →
  ml_wf (applier (restorePayload now f0 (payloadOf f)).1) ∧
  views (applier (restorePayload now f0 (payloadOf f)).1) = views (applier f) ∪ views (applier f0).
Proof.
  intros [Hm _ _] [Hm0 _ _] Hne. simpl.
  destruct (ml_Members _ Hm) as (Hv & Hnd & Hall). simpl in Hv, Hnd, Hall.
  destruct (restoreMembers_view now (applier f0) (entry_of <$> Members (applier f)) Hm0) as [Hwf Hr].
  - apply Forall_fmap, Forall_forall. intros m Hm'. simpl. intros Hid.
    rewrite <-Hv in Hne. apply not_elem_of_list_to_map_2 in Hne. apply Hne.
    rewrite <-list_fmap_compose, <-Hid. by apply (list_elem_of_fmap_2 m_ID).
  - by rewrite <-list_fmap_compose.
  - split; [exact Hwf|]. etrans; [exact Hr|]. f_equal. rewrite <-Hv at 1. f_equal. rewrite <-list_fmap_compose.
    apply list_fmap_ext. intros i m Hi%list_elem_of_lookup_2. rewrite Forall_forall in Hall.
    destruct (Hall m Hi) as [Es Er]. simpl. by rewrite Es, Er, Es, Er.
Qed.

Lemma restorePayload_wf now (f f0 : fsm) :
  fsm_wf f → fsm_wf f0 → views (applier f) !! "" = None →
  option_Forall2 (λ t0 t, Locks.Emit t0 = Locks.Emit t) (fsm_locks f0) (fsm_locks f) →
  option_Forall2 (λ t0 t, Leases.Emit t0 = Leases.Emit t) (fsm_leases f0) (fsm_leases f) →
  fsm_wf (restorePayload now f0 (payloadOf f)).1.
Proof.
  intros Hf Hf0 Hne Hel Hes. destruct (restorePayload_view now f f0 Hf Hf0 Hne) as [Hm _].
  destruct Hf as [_ Hl Hs]. split; [exact Hm|..]; simpl.
  - destruct (fsm_locks f0) as [t0|], (fsm_locks f) as [t|]; inv Hel; [|done].
    by destruct (gl_Restore t t0 Hl ltac:(done)).
  - destruct (fsm_leases f0) as [t0|], (fsm_leases f) as [t|]; inv Hes; [|done].
    by destruct (gl_Restore t t0 Hs ltac:(done)).
Qed.

(** C6: Restoring on any node the snapshot of [f] gives lock and lease tables
    equivalent to those of [f]; every member of [f] gets its address, status and
    role back.  Members the node had before and [f] has not stay listed: the
    restored list is the union, not the snapshot. *)
Theorem fsm_snapshot_restore `{Codec D snapshotPayload} now (f f0 : fsm) :
  fsm_wf f → fsm_wf f0 → views (applier f) !! "" = None →
  option_Forall2 (λ t0 t, Locks.Emit t0 = Locks.Emit t) (fsm_locks f0) (fsm_locks f) →
  option_Forall2 (λ t0 t, Leases.Emit t0 = Leases.Emit t) (fsm_leases f0) (fsm_leases f) →
  codec_dom (payloadOf f) →
  ∃ d f1 es, Snapshot f = Ok d ∧ Restore now f0 d = (f1, None, es) ∧ fsm_equiv f1 f ∧
    views (applier f1) = views (applier f) ∪ views (applier f0).
Proof.
  intros Hf Hf0 Hne Hel Hes Hdom.
  destruct (decode_encode _ Hdom) as (d & Henc & Hdec). unfold Snapshot, Restore.
  rewrite Henc. exists d. rewrite Hdec. eexists _, _. split_and!; [done..| |].
  - by apply restorePayload_equiv.
  - by apply restorePayload_view.
Qed.

End props.

(** ** Concrete logs

    One node, a lock and a lease that change hands; the codec is the identity. *)
Module LogExamples.
#[export] Existing Instance latin1.

Definition cmd (k : CommandKind) (id name : string) (tok : Z) : Command :=
  MkCommand k id "10.0.0.1:7" "" name tok 1000 2000.
Definition start : FSM Engine Locks.Table Leases.Table := new_fsm 0 "n1" "10.0.0.1:7".
Definition log : list (Time * Command) :=
  [(1, cmd CmdLockAcquire "n1" "a" 0); (2, cmd CmdLeaseGrant "n1" "b" 0);
   (3, cmd CmdLockExpire "" "a" 1); (4, cmd CmdLeaseRevoke "n1" "b" 1);
   (5, cmd CmdLockAcquire "n2" "a" 0); (6, cmd CmdLeaseGrant "n2" "b" 0);
   (7, cmd CmdLockRenew "n1" "a" 1)]%Z.
Definition answers : list (Command * response) := Eval vm_compute in (apply_log start log).2.
Definition answer (i : nat) : Command * response := nth i answers (cmd CmdAddMember "" "" 0, RespNil).

#[export] Instance id_codec A : Codec A A.
Proof. refine {| encode a := Ok a; decode a := Ok a; codec_dom _ := True |}. intros a _. by exists a. Defined.

Lemma fsm_lock_exclusion_witness :
  (1 < 2)%Z ∧ Exists (ended_by lock_gop "a" "n1" 1) [answer 1; answer 2; answer 3].
Proof.
  apply (fsm_lock_exclusion start log [] (answer 0) [answer 1; answer 2; answer 3] (answer 4)
    [answer 5; answer 6] "a" "n1" 1 "n2" 2); [by apply new_fsm_ready|by vm_compute..|done].
Defined.

Lemma fsm_lease_exclusion_witness :
  (1 < 2)%Z ∧ Exists (ended_by lease_gop "b" "n1" 1) [answer 2; answer 3; answer 4].
Proof.
  apply (fsm_lease_exclusion start log [answer 0] (answer 1) [answer 2; answer 3; answer 4] (answer 5)
    [answer 6] "b" "n1" 1 "n2" 2); [by apply new_fsm_ready|by vm_compute..|done].
Defined.

Lemma fsm_stale_token_refused_witness : owner_gresp (answer 6).2 = RRejected.
Proof.
  apply (fsm_stale_token_refused start log [answer 0; answer 1] (answer 2)
    [answer 3; answer 4; answer 5] (answer 6) [] "a" "n1" 1 (GRenew "a" "n1" 1));
    [by apply new_fsm_ready|by vm_compute| |].
  - left. split; [|by vm_compute]. exists (GExpire "a" 1, RDone). split; [by vm_compute|by right].
  - exists "n1". auto.
Defined.

Definition joins : list (Time * Command) := [(1, cmd CmdAddMember "n3" "" 0)]%Z.
Lemma fsm_replicas_agree_witness :
  views (applier (apply_log start (log ++ joins)).1) !! "n3" =
  views (applier (apply_log (new_fsm 9 "n2" "10.0.0.2:7") (log ++ joins)).1) !! "n3".
Proof.
  apply (fsm_replicas_agree start (new_fsm 9 "n2" "10.0.0.2:7") (log ++ joins) (log ++ joins)).
  - by apply (new_fsm_ready _ _ _ 0).
  - by apply (new_fsm_ready _ _ _ 0).
  - by split; constructor.
  - done.
  - rewrite fmap_app, Exists_app. right. apply Exists_cons. left. split; [done|]. auto.
Defined.

Lemma fsm_snapshot_restore_witness :
  ∃ f1 es, Restore 9 (new_fsm 8 "n2" "10.0.0.2:7") (payloadOf start) = (f1, None, es) ∧ fsm_equiv f1 start ∧
    views (applier f1) = views (applier start) ∪ views (applier (new_fsm 8 "n2" "10.0.0.2:7")).
Proof.
  destruct (fsm_snapshot_restore (D := snapshotPayload) 9 start (new_fsm 8 "n2" "10.0.0.2:7"))
    as (d & f1 & es & Hd & Hr); [by apply (new_fsm_ready _ _ _ 0)..|by vm_compute|by constructor|by constructor|done|].
  exists f1, es. by injection Hd as ->.
Defined.

End LogExamples.
