(* ===== verification/Bus.v ===== *)
(** * Bus: the in-process event bus of [internal/eventbus/bus.go]

    [chans] is the store of subscription objects ([*subscription]), which a
    [Subscription] handle keeps reachable after it left the bus; [active] are the
    keys of [b.subs].  A buffered channel is the list of its elements with its
    capacity.  [Publish] takes its sequence number before it takes the mutex, so
    it is two steps, [publish_seq] and [publish_fanout]; [Publish] is both
    without interference. *)
From S2P Require Import Prelude Events.

Record subscription := MkSub {
  ch : list Event;
  ch_cap : nat;
  sub_dropped : bool;
  sub_done : bool;  (* [done] is closed *)
}.

Record Bus := MkBus {
  chans : gmap Z subscription;
  active : gset Z;
  bus_next : Z;
  bus_seq : Z;
}.

Definition New : Bus := MkBus ∅ ∅ 0 0.

Definition LastSeq (b : Bus) : Z := bus_seq b.

Definition set_seq (e : Event) (ts : Time) (seq : Z) : Event :=
  MkEvent (ev_Type e) (ev_Source e) (ev_Payload e) ts seq.

(** [select { case sub.ch <- e: default: sub.dropped.Store(true) }] *)
Definition offer (e : Event) (s : subscription) : subscription :=
  if bool_decide (length (ch s) < ch_cap s)
  then MkSub (ch s ++ [e]) (ch_cap s) (sub_dropped s) (sub_done s)
  else MkSub (ch s) (ch_cap s) true (sub_done s).

Definition publish_seq (now : Time) (b : Bus) (e : Event) : Bus * Event :=
  let ts := if IsZero (ev_Timestamp e) then now else ev_Timestamp e in
  let seq := u64 (bus_seq b + 1) in
  (MkBus (chans b) (active b) (bus_next b) seq, set_seq e ts seq).

Definition publish_fanout (b : Bus) (e : Event) : Bus :=
  MkBus (map_imap (λ id s, Some (if bool_decide (id ∈ active b) then offer e s else s)) (chans b))
    (active b) (bus_next b) (bus_seq b).

Definition Publish (now : Time) (b : Bus) (e : Event) : Bus :=
  let p := publish_seq now b e in publish_fanout p.1 p.2.

Definition Subscribe (b : Bus) (bufSize : Z) : Bus * Z :=
  let bufSize := if (bufSize <=? 0)%Z then 16%Z else bufSize in
  let id := u64 (bus_next b + 1) in
  (MkBus (<[id := MkSub [] (Z.to_nat bufSize) false false]> (chans b)) (active b ∪ {[ id ]}) id (bus_seq b), id).

Definition TakeDropped (b : Bus) (id : Z) : Bus * bool :=
  match chans b !! id with
  | None => (b, false)
  | Some s =>
    (MkBus (<[id := MkSub (ch s) (ch_cap s) false (sub_done s)]> (chans b))
       (active b) (bus_next b) (bus_seq b), sub_dropped s)
  end.

(** [s.once.Do]: the second call finds [done] closed and does nothing. *)
Definition Unsubscribe (b : Bus) (id : Z) : Bus :=
  match chans b !! id with
  | None => b
  | Some s =>
    if sub_done s then b else
    MkBus (<[id := MkSub (ch s) (ch_cap s) (sub_dropped s) true]> (chans b))
      (active b ∖ {[ id ]}) (bus_next b) (bus_seq b)
  end.

(** A receive [e := <-s.C] that does not block. *)
Definition Recv (b : Bus) (id : Z) : Bus * option Event :=
  match chans b !! id with
  | Some (MkSub (e :: l) c d x) =>
    (MkBus (<[id := MkSub l c d x]> (chans b)) (active b) (bus_next b) (bus_seq b), Some e)
  | _ => (b, None)
  end.

(** [Drain] receives until the channel is empty; its buffer bounds the loop. *)
Fixpoint drain_loop (fuel : nat) (b : Bus) (id : Z) : Bus * list Event :=
  match fuel with
  | O => (b, [])
  | S fuel =>
    match Recv b id with
    | (b', Some e) => let r := drain_loop fuel b' id in (r.1, e :: r.2)
    | (b', None) => (b', [])
    end
  end.
Definition Drain (b : Bus) (id : Z) : Bus * list Event :=
  drain_loop (S (from_option (length ∘ ch) 0 (chans b !! id))) b id.

(** ** Sequences of bus operations *)

Inductive bop : Type :=
  | BPublish (now : Time) (e : Event)
  | BSubscribe (bufSize : Z)
  | BRecv (id : Z)
  | BTakeDropped (id : Z)
  | BUnsubscribe (id : Z).

Definition bapply (b : Bus) (o : bop) : Bus :=
  match o with
  | BPublish now e => Publish now b e
  | BSubscribe n => (Subscribe b n).1
  | BRecv id => (Recv b id).1
  | BTakeDropped id => (TakeDropped b id).1
  | BUnsubscribe id => Unsubscribe b id
  end.

(** What subscriber [id] observes of a sequence: the events it received, the
    events published meanwhile, and whether a [TakeDropped] of its own told it
    of a loss. *)
Record observed := MkObserved { got : list Event; pub : list Event; told : bool }.

Definition observe (id : Z) (b : Bus) (o : bop) (ob : observed) : observed :=
  match o with
  | BPublish now e => MkObserved (got ob) (pub ob ++ [(publish_seq now b e).2]) (told ob)
  | BRecv id' =>
    if bool_decide (id' = id)
    then MkObserved (got ob ++ option_list (Recv b id).2) (pub ob) (told ob) else ob
  | BTakeDropped id' =>
    if bool_decide (id' = id)
    then MkObserved (got ob) (pub ob) (told ob || (TakeDropped b id).2) else ob
  | _ => ob
  end.
Fixpoint brun (id : Z) (b : Bus) (ob : observed) (ops : list bop) : Bus * observed :=
  match ops with
  | [] => (b, ob)
  | o :: ops => brun id (bapply b o) (observe id b o ob) ops
  end.

(** ** The invariant of one subscriber *)

Definition event_lt (e1 e2 : Event) : Prop := (ev_Seq e1 < ev_Seq e2)%Z.

Record sub_inv (id : Z) (b : Bus) (ob : observed) (s : subscription) : Prop := {
  si_chan : chans b !! id = Some s;
  si_active : id ∈ active b;
  si_done : sub_done s = false;
  si_id : (0 ≤ id ≤ bus_next b)%Z;
  si_next : is_u64 (bus_next b);
  si_seq : is_u64 (bus_seq b);
  si_cap : length (ch s) ≤ ch_cap s;
  si_order : StronglySorted event_lt (pub ob);
  si_last : Forall (λ e, ev_Seq e ≤ bus_seq b)%Z (pub ob);
  si_sub : got ob ++ ch s `sublist_of` pub ob;
  si_loss : got ob ++ ch s = pub ob ∨ told ob = true ∨ sub_dropped s = true;
}.

Lemma StronglySorted_snoc {A} (R : relation A) l x :
  StronglySorted R l → Forall (λ y, R y x) l → StronglySorted R (l ++ [x]).
Proof.
  induction 1 as [|a l Hs IH Ha]; intros Hall; simpl; [by repeat constructor|].
  apply Forall_cons in Hall as [Hax Hall]. constructor; [by apply IH|].
  apply Forall_app. split; [done|by constructor].
Qed.

Lemma sub_inv_publish id b ob s now e :
  sub_inv id b ob s → (bus_seq b + 1 < two64)%Z →
  sub_inv id (Publish now b e) (observe id b (BPublish now e) ob)
    (offer (publish_seq now b e).2 s).
Proof.
  intros [] Hr. set (e' := (publish_seq now b e).2).
  assert (ev_Seq e' = bus_seq b + 1)%Z as He by (simpl; rewrite u64_small; lia).
  assert (ch_cap (offer e' s) = ch_cap s ∧ sub_done (offer e' s) = sub_done s) as [Hc Hd].
  { unfold offer. by case_bool_decide. }
  assert (ch (offer e' s) = ch s ++ [e'] ∧ sub_dropped (offer e' s) = sub_dropped s ∨
          ch (offer e' s) = ch s ∧ sub_dropped (offer e' s) = true) as Ho.
  { unfold offer. case_bool_decide; auto. }
  split; simpl; try done.
  - rewrite map_lookup_imap, si_chan0; simpl. by rewrite bool_decide_eq_true_2.
  - by rewrite Hd.
  - rewrite u64_small; lia.
  - unfold offer. case_bool_decide; simpl; [rewrite length_app; simpl; lia|lia].
  - apply StronglySorted_snoc; [done|]. eapply Forall_impl; [done|].
    intros x Hx. unfold event_lt. change (ev_Seq x < ev_Seq e')%Z. simpl in Hx. lia.
  - rewrite u64_small by lia. apply Forall_app. split.
    + eapply Forall_impl; [done|]. simpl. lia.
    + constructor; [|done]. simpl. lia.
  - destruct Ho as [[-> _]|[-> _]].
    + rewrite (assoc_L (++)). by apply sublist_app.
    + by apply sublist_inserts_r.
  - destruct Ho as [[-> ->]|[-> ->]]; [|by auto].
    destruct si_loss0 as [Hl|?]; [|by auto]. left. by rewrite (assoc_L (++)), Hl.
Qed.

Lemma sub_inv_other id b ob s b' :
  sub_inv id b ob s → chans b' !! id = chans b !! id → id ∈ active b' →
  (bus_next b ≤ bus_next b')%Z → is_u64 (bus_next b') → bus_seq b' = bus_seq b → sub_inv id b' ob s.
Proof. intros [] Hc Ha Hn Hu Hs. split; rewrite ?Hs; try done; [by rewrite Hc|lia]. Qed.

Lemma sub_inv_step id b ob s o :
  sub_inv id b ob s → (bus_seq b + 1 < two64)%Z → (bus_next b + 1 < two64)%Z →
  o ≠ BUnsubscribe id →
  ∃ s', sub_inv id (bapply b o) (observe id b o ob) s'.
Proof.
  intros Hinv Hr1 Hr2 Hno. pose proof Hinv as [].
  destruct o as [now e|n|id'|id'|id']; simpl.
  - eexists. by apply sub_inv_publish.
  - exists s. eapply sub_inv_other; simpl; try done; rewrite ?u64_small; try lia.
    + apply lookup_insert_ne. lia.
    + set_solver.
  - destruct (decide (id' = id)) as [->|Hne].
    + rewrite bool_decide_eq_true_2 by done. unfold Recv. rewrite si_chan0.
      destruct s as [[|e l] c d x]; simpl in *.
      { exists (MkSub [] c d x). rewrite app_nil_r. by split; rewrite ?app_nil_r in *. }
      exists (MkSub l c d x). split; simpl; try done; try lia.
      * by rewrite lookup_insert_eq.
      * by rewrite <-(assoc_L (++)).
      * by rewrite <-(assoc_L (++)).
    + rewrite bool_decide_eq_false_2 by done. exists s. unfold Recv.
      destruct (chans b !! id') as [[[] ? ? ?]|]; simpl; try done.
      eapply sub_inv_other; simpl; try done. by rewrite lookup_insert_ne.
  - destruct (decide (id' = id)) as [->|Hne].
    + rewrite bool_decide_eq_true_2 by done. unfold TakeDropped. rewrite si_chan0.
      exists (MkSub (ch s) (ch_cap s) false (sub_done s)).
      split; simpl; try done; [by rewrite lookup_insert_eq|].
      destruct si_loss0 as [|[->| ->]]; simpl; rewrite ?orb_true_r; auto.
    + rewrite bool_decide_eq_false_2 by done. exists s. unfold TakeDropped.
      destruct (chans b !! id'); simpl; [|done].
      eapply sub_inv_other; simpl; try done. by rewrite lookup_insert_ne.
  - exists s. unfold Unsubscribe. destruct (chans b !! id') as [s'|] eqn:Hs'; [|done].
    destruct (sub_done s'); [done|]. assert (id' ≠ id) by congruence.
    eapply sub_inv_other; simpl; try done; [by rewrite lookup_insert_ne|set_solver].
Qed.

Lemma bapply_counters b o :
  is_u64 (bus_seq b) → is_u64 (bus_next b) → (bus_seq b + 1 < two64)%Z → (bus_next b + 1 < two64)%Z →
  (bus_seq (bapply b o) ≤ bus_seq b + 1)%Z ∧ (bus_next (bapply b o) ≤ bus_next b + 1)%Z.
Proof.
  intros. destruct o; simpl; rewrite ?u64_small by lia; try lia.
  - unfold Recv. destruct (chans b !! id) as [[[] ? ? ?]|]; simpl; lia.
  - unfold TakeDropped. destruct (chans b !! id); simpl; lia.
  - unfold Unsubscribe. destruct (chans b !! id) as [s|]; [destruct (sub_done s)|]; simpl; lia.
Qed.

Lemma sub_inv_run id b ob s ops :
  sub_inv id b ob s → BUnsubscribe id ∉ ops →
  (bus_seq b + Z.of_nat (length ops) < two64)%Z → (bus_next b + Z.of_nat (length ops) < two64)%Z →
  ∃ s', sub_inv id (brun id b ob ops).1 (brun id b ob ops).2 s'.
Proof.
  revert b ob s; induction ops as [|o ops IH]; intros b ob s Hinv Hno H1 H2; simpl in *; [eauto|].
  apply not_elem_of_cons in Hno as [Hno Hrest]. pose proof Hinv as [].
  destruct (sub_inv_step id b ob s o) as [s1 Hinv1]; [done|lia..|done|].
  destruct (bapply_counters b o); [done..|lia|lia|].
  eapply IH; [done|done|lia|lia].
Qed.


(** Sequence numbers do not order deliveries between concurrent publishers:
    two publishers that interleave between taking their numbers and taking the
    mutex leave a subscriber's buffer in decreasing sequence order. *)
Theorem bus_concurrent_publish_reorders now e1 e2 :
  let (b0, id) := Subscribe New 64 in
  let (b1, p1) := publish_seq now b0 e1 in
  let (b2, p2) := publish_seq now b1 e2 in
  let b3 := publish_fanout (publish_fanout b2 p2) p1 in
  (ev_Seq <$> (Drain b3 id).2) = [2; 1]%Z.
Proof. reflexivity. Qed.

Module BusExamples.
Definition ev (typ : string) : Event := new_event typ "n1" NoPayload.
End BusExamples.
