(* ===== verification/Watch.v ===== *)
(** * Watch: the event stream of [internal/grpcserver/watch.go]

    [Watch] validates the request, subscribes to the bus, sends the snapshot of
    the cluster, [watch.sync] and possibly [watch.gap], then forwards live events.
    The gRPC stream is the list of messages sent and a function that says at
    which message [Send] fails.  The loop runs against a schedule: what other
    goroutines do to the bus between two receives, the receives themselves, and
    the end of the client's context. *)
From S2P Require Import Prelude Events Membership Bus.

Record WatchRequest := MkWatchRequest {
  wr_EventTypes : list string;
  wr_Topics : list string;
  wr_LastSeq : Z;
}.

Record WatchResponse := MkResponse {
  w_Type : string;
  w_Source : string;
  w_Payload : payload;
  w_TimestampUnixMs : Z;
  w_Seq : Z;
}.

Record stream := MkStream {
  sent : list WatchResponse;
  send_error : nat → option error;
}.

Definition Send (st : stream) (m : WatchResponse) : stream * option error :=
  match send_error st (length (sent st)) with
  | Some err => (st, Some err)
  | None => (MkStream (sent st ++ [m]) (send_error st), None)
  end.

(** Sends one after the other, each [if err := stream.Send(..); err != nil { return err }]. *)
Fixpoint sendAll (st : stream) (ms : list WatchResponse) : stream * option error :=
  match ms with
  | [] => (st, None)
  | m :: ms =>
    match Send st m with
    | (st, None) => sendAll st ms
    | (st, Some err) => (st, Some err)
    end
  end.

Definition isProtocolEvent (t : string) : bool :=
  String.eqb t TypeWatchSync || String.eqb t TypeWatchGap.

Definition matchesType (filter : list string) (eventType : string) : bool :=
  match filter with
  | [] => true
  | _ => existsb (λ f, String.eqb f eventType) filter
  end.

Definition topicListed (topics : list string) (topic : string) : bool :=
  existsb (λ t, String.eqb (NormalizeTopic t) topic) topics.

Definition matchesWatch (req : WatchRequest) (eventType : string) : bool :=
  if isProtocolEvent eventType then true else
  let typed := matchesType (wr_EventTypes req) eventType in
  match wr_Topics req with
  | [] => typed
  | topics =>
    let (topic, ok) := TopicFromType eventType in
    if negb ok || negb (topicListed topics topic) then false else typed
  end.

Section validate.
Context `{Unicode}.
Definition validateWatchRequest (req : WatchRequest) : option status :=
  match list_find (λ t, ValidTopic t ≠ None) (wr_Topics req) with
  | Some (_, t) =>
    (λ err, Status InvalidArgument (Errorf "topics: %v" [AErr err])) <$> ValidTopic t
  | None => None
  end.
End validate.

Definition eventToProto (e : Event) : WatchResponse :=
  MkResponse (ev_Type e) (ev_Source e) (ev_Payload e) (UnixMilli (ev_Timestamp e)) (ev_Seq e).

Definition syncMsg (now : Time) (seq : Z) : WatchResponse :=
  MkResponse TypeWatchSync "" NoPayload (UnixMilli now) seq.
Definition sendSync (now : Time) (st : stream) (seq : Z) : stream * option error :=
  Send st (syncMsg now seq).

Definition gapMsg (now : Time) (from to : Z) : WatchResponse :=
  MkResponse TypeWatchGap "" (JsonObject [("from", JNum from); ("to", JNum to)]) (UnixMilli now) 0.
Definition sendGap (now : Time) (st : stream) (from to : Z) : stream * option error :=
  Send st (gapMsg now from to).

(** The message for one member of the snapshot, if it is sent. *)
Definition snapshotMember (now : Time) (req : WatchRequest) (m : Member) : option WatchResponse :=
  let evType := if String.eqb (NormalizeStatus (m_Status m)) StatusDead then Some TypeMemberDead
                else if negb (String.eqb (m_Status m) StatusAlive) then None
                else Some TypeMemberJoin in
  match evType with
  | Some evType =>
    if negb (matchesWatch req evType) then None else
    Some (MkResponse evType (m_ID m)
      (JsonObject [("address", JStr (m_Address m)); ("snapshot", JBool true)]) (UnixMilli now) 0)
  | None => None
  end.

Definition snapshotLeader (now : Time) (req : WatchRequest) (leaderID : string) : list WatchResponse :=
  if negb (str_empty leaderID) && matchesWatch req TypeLeaderChanged
  then [MkResponse TypeLeaderChanged leaderID NoPayload (UnixMilli now) 0] else [].

Definition sendSnapshot (now : Time) (e : Engine) (req : WatchRequest) (st : stream)
    : stream * option error :=
  sendAll st (omap (snapshotMember now req) (Members e) ++ snapshotLeader now req (LeaderID e)).

(** ** The loop *)

Record wstate := MkWState { w_bus : Bus; w_stream : stream; w_lastLive : Z }.

(** The body of [case e, ok := <-sub.C]. *)
Definition forward (now : Time) (req : WatchRequest) (id : Z) (w : wstate) (e : Event)
    : wstate * option error :=
  if negb (matchesWatch req (ev_Type e)) then (w, None) else
  let (b, taken) := TakeDropped (w_bus w) id in
  let from := if (0 <? w_lastLive w)%Z then u64 (w_lastLive w + 1) else 1%Z in
  let to := u64 (ev_Seq e - 1) in
  let gap := if taken && ((0 <? ev_Seq e)%Z && (from <=? to)%Z) then [gapMsg now from to] else [] in
  match sendAll (w_stream w) (gap ++ [eventToProto e]) with
  | (st, Some err) => (MkWState b st (w_lastLive w), Some err)
  | (st, None) => (MkWState b st (ev_Seq e), None)
  end.

Inductive wact : Type :=
  | WBus (o : bop)       (* another goroutine *)
  | WRecv (now : Time)   (* this goroutine receives, if there is an event *)
  | WCancel.             (* the client's context is done *)

(** [None]: still streaming when the schedule ends; [Some r]: [Watch] returned. *)
Fixpoint watch_loop (req : WatchRequest) (id : Z) (w : wstate) (sched : list wact)
    : wstate * option (option error) :=
  match sched with
  | [] => (w, None)
  | WCancel :: _ => (w, Some None)
  | WBus o :: sched =>
    watch_loop req id (MkWState (bapply (w_bus w) o) (w_stream w) (w_lastLive w)) sched
  | WRecv now :: sched =>
    match Recv (w_bus w) id with
    | (b, None) => watch_loop req id w sched
    | (b, Some e) =>
      match forward now req id (MkWState b (w_stream w) (w_lastLive w)) e with
      | (w, Some err) => (w, Some (Some err))
      | (w, None) => watch_loop req id w sched
      end
    end
  end.

(** Everything before the loop: snapshot, sync, and the gap of a resuming client. *)
Definition prologue (now : Time) (e : Engine) (req : WatchRequest) (st : stream) (fromSeq : Z)
    : stream * option error :=
  match sendSnapshot now e req st with
  | (st, Some err) => (st, Some err)
  | (st, None) =>
    match sendSync now st fromSeq with
    | (st, Some err) => (st, Some err)
    | (st, None) =>
      if ((0 <? wr_LastSeq req) && (wr_LastSeq req <? fromSeq))%Z
      then sendGap now st (u64 (wr_LastSeq req + 1)) fromSeq else (st, None)
    end
  end.

Inductive watch_result : Type :=
  | Streaming
  | Returned (err : option error)
  | Rejected (st : status).

Definition Watch `{Unicode} (now : Time) (e : Engine) (b : Bus) (req : WatchRequest) (st : stream)
    (sched : list wact) : Bus * stream * watch_result :=
  match validateWatchRequest req with
  | Some s => (b, st, Rejected s)
  | None =>
    let (b, id) := Subscribe b 64 in
    match prologue now e req st (LastSeq b) with
    | (st, Some err) => (Unsubscribe b id, st, Returned (Some err))
    | (st, None) =>
      match watch_loop req id (MkWState b st 0) sched with
      | (w, None) => (w_bus w, w_stream w, Streaming)
      | (w, Some r) => (Unsubscribe (w_bus w) id, w_stream w, Returned r)
      end
    end
  end.

(** ** Reading a stream *)

Definition reliable (st : stream) : Prop := ∀ n, send_error st n = None.

Definition gap_of (m : WatchResponse) : option (Z * Z) :=
  if String.eqb (w_Type m) TypeWatchGap then
    match w_Payload m with
    | JsonObject [("from", JNum f); ("to", JNum t)] => Some (f, t)
    | _ => None
    end
  else None.
(** Sequence numbers of the forwarded events among [ms]. *)
Definition live_seqs (ms : list WatchResponse) : list Z :=
  w_Seq <$> List.filter (λ m, negb (isProtocolEvent (w_Type m))) ms.

Lemma sendAll_reliable st ms :
  reliable st → ∃ st', sendAll st ms = (st', None) ∧ sent st' = sent st ++ ms ∧ reliable st'.
Proof.
  revert st; induction ms as [|m ms IH]; intros st Hr; simpl.
  { exists st. by rewrite app_nil_r. }
  unfold Send. rewrite Hr.
  destruct (IH (MkStream (sent st ++ [m]) (send_error st))) as (st' & -> & Hs & Hr'); [done|].
  exists st'. split_and!; try done. rewrite Hs; simpl. by rewrite <-(assoc_L (++)).
Qed.

(** On a stream that does not fail, a new watcher first receives exactly one
    message per member that passes its filter, in id order and of the type of its
    status, the leader if known, then [watch.sync] with the last sequence number,
    and, if it resumes from an older number, one [watch.gap] from the next number
    to the last. *)
Theorem watch_prologue_exact now e req st fromSeq :
  mreachable e → reliable st → is_u64 (wr_LastSeq req) → is_u64 fromSeq →
  ∃ st', prologue now e req st fromSeq = (st', None) ∧
  sent st' = sent st ++
    ((λ m, MkResponse (if String.eqb (m_Status m) StatusAlive then TypeMemberJoin else TypeMemberDead)
       (m_ID m) (JsonObject [("address", JStr (m_Address m)); ("snapshot", JBool true)]) (UnixMilli now) 0) <$>
     List.filter (λ m, matchesWatch req
       (if String.eqb (m_Status m) StatusAlive then TypeMemberJoin else TypeMemberDead)) (Members e)) ++
    snapshotLeader now req (LeaderID e) ++
    [syncMsg now fromSeq] ++
    (if bool_decide (0 < wr_LastSeq req < fromSeq)%Z
     then [gapMsg now (wr_LastSeq req + 1) fromSeq] else []).
Proof.
  intros Hreach Hr Hl Hf. pose proof (engine_wf_reachable _ Hreach) as Hwf.
  assert (Forall (λ m, m_Status m = StatusAlive ∨ m_Status m = StatusDead) (Members e)) as Hall.
  { apply Forall_forall. intros m Hm. unfold Members in Hm. rewrite sort_by_perm in Hm.
    apply map_values_elem in Hm as [id Hm]. by destruct (Hwf _ _ Hm). }
  assert (omap (snapshotMember now req) (Members e) =
    (λ m, MkResponse (if String.eqb (m_Status m) StatusAlive then TypeMemberJoin else TypeMemberDead)
       (m_ID m) (JsonObject [("address", JStr (m_Address m)); ("snapshot", JBool true)]) (UnixMilli now) 0) <$>
     List.filter (λ m, matchesWatch req
       (if String.eqb (m_Status m) StatusAlive then TypeMemberJoin else TypeMemberDead)) (Members e)) as Hsnap.
  { induction Hall as [|m l Hm _ IH]; csimpl; [done|]. rewrite IH. unfold snapshotMember.
    rewrite NormalizeStatus_dead by done.
    destruct (String.eqb (m_Status m) StatusAlive) eqn:Ha; simpl; destruct (matchesWatch _ _);
      csimpl; by rewrite ?Ha. }
  unfold prologue, sendSnapshot. rewrite Hsnap.
  edestruct (sendAll_reliable st) as (st1 & -> & Hs1 & Hr1); [done|].
  unfold sendSync, Send at 1. rewrite Hr1.
  destruct (bool_decide_reflect (0 < wr_LastSeq req < fromSeq)%Z) as [Hg|Hg].
  - replace ((0 <? wr_LastSeq req) && (wr_LastSeq req <? fromSeq))%Z with true
      by (symmetry; apply andb_true_iff; rewrite !Z.ltb_lt; lia).
    unfold sendGap, Send; simpl. rewrite Hr1. eexists. split; [done|]. simpl.
    rewrite Hs1, u64_small by lia. by rewrite <-!(assoc_L (++)).
  - replace ((0 <? wr_LastSeq req) && (wr_LastSeq req <? fromSeq))%Z with false.
    2: { symmetry. apply andb_false_iff. rewrite !Z.ltb_ge. lia. }
    eexists. split; [done|]. simpl. rewrite Hs1. by rewrite <-!(assoc_L (++)).
Qed.

(** ** The forwarded stream *)

(** What the loop keeps about the messages [ms] it sent, given what subscriber
    [id] observed of the bus. *)
Record watch_inv (id : Z) (w : wstate) (ob : observed) (s : subscription) (ms : list WatchResponse) : Prop := {
  wi_sub : sub_inv id (w_bus w) ob s;
  wi_reliable : reliable (w_stream w);
  wi_last : (0 ≤ w_lastLive w)%Z ∧
    (w_lastLive w = 0%Z ∨ ∃ e, e ∈ got ob ∧ ev_Seq e = w_lastLive w);
  wi_pos : Forall (λ e, 0 < ev_Seq e)%Z (pub ob);
  wi_proto : Forall (λ e, isProtocolEvent (ev_Type e) = false) (pub ob);
  wi_sorted : StronglySorted Z.lt (live_seqs ms);
  wi_upper : Forall (λ q, q ≤ w_lastLive w)%Z (live_seqs ms);
  wi_gaps : ∀ m f t, m ∈ ms → gap_of m = Some (f, t) →
    (f ≤ t < w_lastLive w)%Z ∧ Forall (λ q, q < f ∨ t < q)%Z (live_seqs ms);
}.

Lemma gap_of_gapMsg now f t : gap_of (gapMsg now f t) = Some (f, t).
Proof. done. Qed.

Lemma live_seqs_app ms1 ms2 : live_seqs (ms1 ++ ms2) = live_seqs ms1 ++ live_seqs ms2.
Proof. unfold live_seqs. by rewrite List.filter_app, fmap_app. Qed.

Lemma StronglySorted_app_cross {A} (R : relation A) l1 l2 x y :
  StronglySorted R (l1 ++ l2) → x ∈ l1 → y ∈ l2 → R x y.
Proof.
  induction l1 as [|a l1 IH]; simpl; intros Hs Hx Hy; [by apply not_elem_of_nil in Hx|].
  apply StronglySorted_inv in Hs as [Hs Ha]. apply elem_of_cons in Hx as [->|Hx]; [|by apply IH].
  rewrite Forall_forall in Ha. apply Ha. set_solver.
Qed.

Lemma StronglySorted_sublist {A} (R : relation A) l1 l2 :
  l1 `sublist_of` l2 → StronglySorted R l2 → StronglySorted R l1.
Proof.
  induction 1 as [|x l1 l2 Hsub IH|x l1 l2 Hsub IH]; intros Hs; [constructor| |].
  - apply StronglySorted_inv in Hs as [Hs Hx]. constructor; [by apply IH|].
    rewrite !Forall_forall in Hx |- *. intros y Hy. by apply Hx, (elem_of_submseteq l1), sublist_submseteq.
  - apply StronglySorted_inv in Hs as [Hs _]. by apply IH.
Qed.

(** Sending a gap that ends right before [e], then [e]. *)
Lemma live_seqs_forward ms gap e :
  isProtocolEvent (ev_Type e) = false → Forall (λ m, w_Type m = TypeWatchGap) gap →
  live_seqs (ms ++ gap ++ [eventToProto e]) = live_seqs ms ++ [ev_Seq e].
Proof.
  intros He Hg. rewrite !live_seqs_app. f_equal.
  assert (live_seqs gap = []) as ->.
  { induction Hg as [|m l Hm _ IH]; [done|]. unfold live_seqs; simpl. by rewrite Hm. }
  unfold live_seqs; simpl. by rewrite He.
Qed.

Lemma watch_inv_head id w ob s e l ms :
  watch_inv id w ob s ms → ch s = e :: l →
  (w_lastLive w < ev_Seq e)%Z ∧ isProtocolEvent (ev_Type e) = false ∧ (ev_Seq e < two64)%Z.
Proof.
  intros [Hsub _ [H0 Hlast] Hpos Hproto _ _ _] Hch.
  pose proof (si_sub _ _ _ _ Hsub) as Hsl. rewrite Hch in Hsl.
  assert (e ∈ pub ob) as He by (eapply elem_of_submseteq, sublist_submseteq; [|done]; set_solver).
  rewrite Forall_forall in Hpos, Hproto. split_and!; [|by apply Hproto|].
  - destruct Hlast as [->|(e' & He' & <-)]; [by apply Hpos|].
    apply (StronglySorted_app_cross event_lt (got ob) (e :: l)); [|done|by left].
    by eapply StronglySorted_sublist, si_order.
  - pose proof (si_last _ _ _ _ Hsub) as Hl. rewrite Forall_forall in Hl. apply Hl in He.
    pose proof (si_seq _ _ _ _ Hsub). lia.
Qed.

(** The messages of one forwarded event, when nothing fails. *)
Lemma forward_reliable now req id w s e :
  reliable (w_stream w) → matchesWatch req (ev_Type e) = true → chans (w_bus w) !! id = Some s →
  (0 ≤ w_lastLive w < ev_Seq e)%Z → (ev_Seq e < two64)%Z →
  ∃ st' gap, forward now req id w e = (MkWState (TakeDropped (w_bus w) id).1 st' (ev_Seq e), None) ∧
    reliable st' ∧ sent st' = sent (w_stream w) ++ gap ++ [eventToProto e] ∧
    (gap = [] ∨ (w_lastLive w + 1 ≤ ev_Seq e - 1)%Z ∧ sub_dropped s = true ∧
      gap = [gapMsg now (w_lastLive w + 1) (ev_Seq e - 1)]).
Proof.
  intros Hr Hm Hs Hlt Hmax. unfold forward. rewrite Hm. simpl.
  replace (if (0 <? w_lastLive w)%Z then u64 (w_lastLive w + 1) else 1%Z) with (w_lastLive w + 1)%Z.
  2: { destruct (Z.ltb_spec 0 (w_lastLive w)); [rewrite u64_small|]; lia. }
  rewrite u64_small by lia. destruct (TakeDropped (w_bus w) id) as [b taken] eqn:Ht.
  edestruct (sendAll_reliable (w_stream w)) as (st' & -> & Hsent & Hr'); [done|].
  eexists _, _. split_and!; [done..|].
  assert (taken = sub_dropped s) as -> by (unfold TakeDropped in Ht; rewrite Hs in Ht; congruence).
  destruct (sub_dropped s); [|by left]. simpl.
  destruct (Z.leb_spec (w_lastLive w + 1) (ev_Seq e - 1)%Z); [|by rewrite andb_false_r; left].
  rewrite andb_true_r. destruct (0 <? ev_Seq e)%Z; [|by left]. right. auto.
Qed.

Lemma Recv_counters b id : bus_seq (Recv b id).1 = bus_seq b ∧ bus_next (Recv b id).1 = bus_next b.
Proof. unfold Recv. by destruct (chans b !! id) as [[[] ? ? ?]|]. Qed.
Lemma TakeDropped_counters b id :
  bus_seq (TakeDropped b id).1 = bus_seq b ∧ bus_next (TakeDropped b id).1 = bus_next b.
Proof. unfold TakeDropped. by destruct (chans b !! id). Qed.

(** Bus operations of goroutines other than the watcher of [id]. *)
Definition foreign (id : Z) (o : bop) : Prop :=
  match o with
  | BPublish _ e => isProtocolEvent (ev_Type e) = false
  | BSubscribe _ => True
  | BRecv i | BTakeDropped i | BUnsubscribe i => i ≠ id
  end.

Definition has_room (b : Bus) (k : nat) : Prop :=
  (bus_seq b + Z.of_nat k < two64)%Z ∧ (bus_next b + Z.of_nat k < two64)%Z.

Lemma watch_inv_bus id w ob s ms o :
  watch_inv id w ob s ms → foreign id o → has_room (w_bus w) 1 →
  ∃ ob' s', watch_inv id (MkWState (bapply (w_bus w) o) (w_stream w) (w_lastLive w)) ob' s' ms.
Proof.
  intros [Hsub Hrel Hlast Hpos Hproto Hsort Hup Hgap] Hfor [Hr1 Hr2].
  destruct (sub_inv_step id (w_bus w) ob s o) as [s' Hsub']; [done|lia..|by intros -> |].
  assert (got (observe id (w_bus w) o ob) = got ob) as Hgot.
  { destruct o; simpl in *; try done; by rewrite bool_decide_eq_false_2. }
  exists (observe id (w_bus w) o ob), s'. pose proof (si_seq _ _ _ _ Hsub).
  split; simpl; try done; [by rewrite Hgot|..]; destruct o; simpl in *; try done;
    try (by rewrite bool_decide_eq_false_2).
  - apply Forall_app. split; [done|]. constructor; [|done]. simpl. rewrite u64_small; lia.
  - apply Forall_app. split; [done|]. by constructor.
Qed.

(** The gap and the live event that [forward] appends keep the stream sound. *)
Lemma watch_inv_extend (lastLive : Z) ms gap e now :
  StronglySorted Z.lt (live_seqs ms) → Forall (λ q, q ≤ lastLive)%Z (live_seqs ms) →
  (∀ m f t, m ∈ ms → gap_of m = Some (f, t) →
    (f ≤ t < lastLive)%Z ∧ Forall (λ q, q < f ∨ t < q)%Z (live_seqs ms)) →
  isProtocolEvent (ev_Type e) = false → (lastLive < ev_Seq e)%Z →
  gap = [] ∨ (lastLive + 1 ≤ ev_Seq e - 1)%Z ∧ gap = [gapMsg now (lastLive + 1) (ev_Seq e - 1)] →
  let ms' := ms ++ gap ++ [eventToProto e] in
  StronglySorted Z.lt (live_seqs ms') ∧ Forall (λ q, q ≤ ev_Seq e)%Z (live_seqs ms') ∧
  (∀ m f t, m ∈ ms' → gap_of m = Some (f, t) →
    (f ≤ t < ev_Seq e)%Z ∧ Forall (λ q, q < f ∨ t < q)%Z (live_seqs ms')).
Proof.
  intros Hsort Hup Hgaps Hp Hlt Hgap ms'.
  assert (live_seqs ms' = live_seqs ms ++ [ev_Seq e]) as Hl.
  { apply live_seqs_forward; [done|]. destruct Hgap as [->|[_ ->]]; by repeat constructor. }
  rewrite Hl. split_and!.
  - apply StronglySorted_snoc; [done|]. eapply Forall_impl; [done|]. simpl. lia.
  - apply Forall_app. split; [eapply Forall_impl; [done|]; simpl; lia|by repeat constructor].
  - intros m f t Hm Hg. unfold ms' in Hm. rewrite !elem_of_app, list_elem_of_singleton in Hm.
    destruct Hm as [Hm|[Hm| ->]].
    + destruct (Hgaps m f t Hm Hg) as [Hft Hd]. split; [lia|].
      apply Forall_app. split; [done|]. constructor; [lia|done].
    + destruct Hgap as [->|[Hle ->]]; [by apply not_elem_of_nil in Hm|].
      apply list_elem_of_singleton in Hm as ->. rewrite gap_of_gapMsg in Hg. simplify_eq. split; [lia|].
      apply Forall_app. split; [eapply Forall_impl; [done|]; simpl; lia|constructor; [lia|done]].
    + unfold gap_of in Hg. simpl in Hg. unfold isProtocolEvent in Hp.
      apply orb_false_iff in Hp as [_ Hp]. by rewrite Hp in Hg.
Qed.

Lemma watch_inv_recv now req id w ob s ms b e :
  watch_inv id w ob s ms → has_room (w_bus w) 1 → Recv (w_bus w) id = (b, Some e) →
  ∃ w' ob' s' ms', forward now req id (MkWState b (w_stream w) (w_lastLive w)) e = (w', None) ∧
    sent (w_stream w') = sent (w_stream w) ++ ms' ∧
    bus_seq (w_bus w') = bus_seq (w_bus w) ∧ bus_next (w_bus w') = bus_next (w_bus w) ∧
    watch_inv id w' ob' s' (ms ++ ms').
Proof.
  intros Hinv [Hr1 Hr2] Hrecv. pose proof Hinv as [Hsub Hrel Hlast Hpos Hproto Hsort Hup Hgap].
  pose proof (Recv_counters (w_bus w) id) as Hcnt. rewrite Hrecv in Hcnt. simpl in Hcnt.
  destruct (sub_inv_step id (w_bus w) ob s (BRecv id)) as [s1 Hsub1]; [done|lia..|done|].
  assert (∃ l, ch s = e :: l) as [l Hch].
  { unfold Recv in Hrecv. rewrite (si_chan _ _ _ _ Hsub) in Hrecv.
    destruct s as [[|] ? ? ?]; simplify_eq/=; eauto. }
  destruct (watch_inv_head id w ob s e l ms Hinv Hch) as (Hlt & Hp & Hmax).
  simpl in Hsub1. rewrite bool_decide_eq_true_2, Hrecv in Hsub1 by done. simpl in Hsub1.
  set (ob1 := MkObserved (got ob ++ [e]) (pub ob) (told ob)) in Hsub1.
  destruct (matchesWatch req (ev_Type e)) eqn:Hm.
  - destruct (forward_reliable now req id (MkWState b (w_stream w) (w_lastLive w)) s1 e)
      as (st' & gap & Hf & Hrel' & Hsent & Hgapm); simpl; [done..|by apply si_chan in Hsub1|lia|lia|].
    destruct (sub_inv_step id b ob1 s1 (BTakeDropped id)) as [s2 Hsub2]; [done|lia..|done|].
    destruct (watch_inv_extend (w_lastLive w) ms gap e now) as (Hs' & Hu' & Hg'); try done.
    { destruct Hgapm as [?|(? & _ & ?)]; auto. }
    pose proof (TakeDropped_counters b id) as Hcnt2. simpl in Hsub2.
    rewrite bool_decide_eq_true_2 in Hsub2 by done.
    eexists _, _, s2, (gap ++ [eventToProto e]). split_and!; [done|done|..]; simpl;
      [destruct Hcnt2, Hcnt; congruence..|].
    split; simpl; try done. split; [lia|]. right. exists e. split; [|done]. simpl. set_solver.
  - unfold forward. rewrite Hm. simpl. eexists _, ob1, s1, []. rewrite !app_nil_r.
    split_and!; [done|done|by destruct Hcnt..|]. split; simpl; try done.
    destruct Hlast as [? [?|(e' & ? & ?)]]; split; [done|by left|done|right]. exists e'. set_solver.
Qed.

Lemma watch_loop_inv req id sched w ob s ms :
  Forall (λ a, match a with WBus o => foreign id o | _ => True end) sched →
  watch_inv id w ob s ms → has_room (w_bus w) (length sched) →
  ∃ ms' w' ob' s', (watch_loop req id w sched).1 = w' ∧ sent (w_stream w') = sent (w_stream w) ++ ms' ∧
    watch_inv id w' ob' s' (ms ++ ms').
Proof.
  revert w ob s ms; induction sched as [|a sched IH]; intros w ob s ms Hfor Hinv Hroom.
  { exists [], w, ob, s. by rewrite !app_nil_r. }
  apply Forall_cons in Hfor as [Ha Hfor]. specialize (λ w ob s ms, IH w ob s ms Hfor) as IH'. clear IH; rename IH' into IH.
  assert (has_room (w_bus w) 1) as Hroom1 by (destruct Hroom; split; simpl in *; lia).
  destruct a as [o|now|]; simpl.
  - destruct (watch_inv_bus id w ob s ms o Hinv Ha Hroom1) as (ob' & s' & Hinv').
    apply (IH _ _ _ _ Hinv'). pose proof (wi_sub _ _ _ _ _ Hinv) as [].
    destruct Hroom as [Hra Hrb], Hroom1 as [Hrc Hrd].
    destruct (bapply_counters (w_bus w) o); [done..|lia|lia|]. split; simpl in *; lia.
  - destruct (Recv (w_bus w) id) as [b' [e|]] eqn:Hr.
    + destruct (watch_inv_recv now req id w ob s ms b' e Hinv Hroom1 Hr)
        as (w' & ob' & s' & ms1 & -> & Hsent & Hc1 & Hc2 & Hinv').
      destruct (IH w' ob' s' (ms ++ ms1) Hinv') as (ms2 & w'' & ob'' & s'' & Hw & Hs2 & Hi2).
      { destruct Hroom. split; rewrite ?Hc1, ?Hc2; simpl in *; lia. }
      exists (ms1 ++ ms2), w'', ob'', s''. split_and!; [done| |].
      * rewrite Hs2, Hsent. by rewrite <-(assoc_L (++)).
      * by rewrite (assoc_L (++)).
    + apply (IH _ _ _ _ Hinv). destruct Hroom. split; simpl in *; lia.
  - exists [], w, ob, s. by rewrite !app_nil_r.
Qed.


(** A loss by backpressure goes unreported.  With no filter and a stream that
    does not fail, 65 events published before the client reads overflow its
    buffer of 64 and set the dropped flag; the flag is taken at the first, still
    contiguous, event, so the client receives 1 to 64 and then 66 with no
    [watch.gap] in between. *)
Theorem watch_gap_lost now :
  let (b, id) := Subscribe New 64 in
  let e := new_event TypeMemberJoin "n2" NoPayload in
  let sched := repeat (WBus (BPublish now e)) 65 ++ repeat (WRecv now) 64 ++
               [WBus (BPublish now e); WRecv now] in
  let w := (watch_loop (MkWatchRequest [] [] 0) id (MkWState b (MkStream [] (λ _, None)) 0) sched).1 in
  (w_Seq <$> sent (w_stream w)) = seqZ 1 64 ++ [66]%Z ∧
  (w_Type <$> sent (w_stream w)) = repeat TypeMemberJoin 65 ∧
  (TakeDropped (w_bus w) id).2 = false.
Proof. vm_compute. auto. Qed.

(** A client that watches a valid topic gets the events published under the
    same topic name exactly when the name does not itself start with [custom.]:
    the publisher does not normalise the topic, the watcher does. *)
Theorem watch_topic_prefix `{Unicode} topic :
  ValidTopic topic = None →
  matchesWatch (MkWatchRequest [] [topic] 0) (CustomType topic) = negb (HasPrefix topic TypeCustomPrefix).
Proof.
  intros Hv.
  assert (str_empty topic = false) as Hne.
  { apply str_empty_false. intros ->. by apply ValidTopic_nonempty in Hv. }
  assert (isProtocolEvent (CustomType topic) = false) as Hp by reflexivity.
  unfold matchesWatch. rewrite Hp, TopicFromType_CustomType, Hne.
  cbn [negb orb topicListed existsb wr_Topics wr_EventTypes matchesType]. rewrite orb_false_r.
  destruct (HasPrefix topic TypeCustomPrefix) eqn:Hpre; cbn [negb].
  - destruct (String.eqb_spec (NormalizeTopic topic) topic) as [Heq|]; [|done].
    apply NormalizeTopic_fixed in Heq. congruence.
  - by rewrite NormalizeTopic_plain, String.eqb_refl.
Qed.

(** ** Concrete streams *)
Module WatchExamples.
#[export] Existing Instance latin1.
Definition open : stream := MkStream [] (λ _, None).

Lemma watch_prologue_exact_witness :
  ∃ st', prologue 7 MemberExamples.self (MkWatchRequest [] [] 3) open 9 = (st', None) ∧
    omap gap_of (sent st') = [(4, 9)]%Z.
Proof.
  destruct (watch_prologue_exact 7 MemberExamples.self (MkWatchRequest [] [] 3) open 9)
    as (st' & Hp & Hs); [apply MemberExamples.self_reachable|done..|].
  exists st'. split; [done|]. rewrite Hs. vm_compute. reflexivity.
Defined.

Definition sched : list wact :=
  [WBus (BPublish 5 (new_event "custom.a" "n1" NoPayload)); WRecv 6;
   WBus (BPublish 7 (new_event "custom.b" "n1" NoPayload)); WRecv 8].

Lemma watch_topic_prefix_witness :
  matchesWatch (MkWatchRequest [] ["custom.x"] 0) (CustomType "custom.x") = false.
Proof. by rewrite (watch_topic_prefix "custom.x") by (vm_compute; reflexivity). Defined.
End WatchExamples.
