(* ===== verification/EventService.v ===== *)
(** * EventService: custom events of [internal/grpcserver/events.go]

    [PublishEvent] validates a request, drops duplicates by event id, publishes
    on the local bus and, unless the request is a relay, sends one relay request
    to every other alive member.  The relays, which the code sends from
    goroutines whose errors are only logged, are returned as a list of requests
    with their targets. *)
From S2P Require Import Prelude Events Membership Bus.

Definition seenEventCap : nat := 4096.

(** ** The bounded set of recent event ids *)

Record idCache := MkCache { ic_m : gset string; ic_q : list string; ic_cap : nat }.

Definition newIDCache (n : Z) : idCache :=
  MkCache ∅ [] (Z.to_nat (if (n <=? 0)%Z then 1024%Z else n)).

Definition seenOrAdd (c : idCache) (id : string) : idCache * bool :=
  if bool_decide (id ∈ ic_m c) then (c, true) else
  let c := if bool_decide (ic_cap c ≤ length (ic_q c))
           then match ic_q c with
                | old :: q => MkCache (ic_m c ∖ {[ old ]}) q (ic_cap c)
                | [] => c  (* [c.q[0]] panics; excluded by [cache_wf] *)
                end
           else c in
  (MkCache (ic_m c ∪ {[ id ]}) (ic_q c ++ [id]) (ic_cap c), false).

(** ** Fresh ids: [internal/uid/uid.go]

    [rand] is what [rand.Read] fills the 16 bytes with, or its error. *)

Definition hexdigit (n : Z) : Ascii.ascii :=
  Ascii.ascii_of_N (Z.to_N (if (n <? 10)%Z then 48 + n else 87 + n)%Z).
Fixpoint hex (bs : list Z) : string :=
  match bs with
  | [] => EmptyString
  | b :: bs => String (hexdigit (Z.shiftr b 4)) (String (hexdigit (Z.land b 15)) (hex bs))
  end.
Definition slice (lo hi : nat) (b : list Z) : list Z := take (hi - lo) (drop lo b).

Definition uid_New (rand : result error (list Z)) : result error string :=
  match rand with
  | Fail err => Fail (Errorf "generate uid: %w" [AErr err])
  | Ok b =>
    let b := alter (λ x, Z.lor (Z.land x 15) 64) 6 b in
    let b := alter (λ x, Z.lor (Z.land x 63) 128) 8 b in
    Ok (hex (slice 0 4 b) +:+ "-" +:+ hex (slice 4 6 b) +:+ "-" +:+ hex (slice 6 8 b) +:+ "-" +:+
        hex (slice 8 10 b) +:+ "-" +:+ hex (slice 10 16 b))
  end.

(** ** The handler *)

Record PublishEventRequest := MkPublish {
  pe_Topic : string; pe_Payload : list Z; pe_EventId : string; pe_Source : string; pe_Relay : bool;
}.
Record PublishEventResponse := MkPublished {
  pr_Accepted : bool; pr_Message : string; pr_EventId : string; pr_Type : string;
}.
Record relay := MkRelay { rl_Target : string; rl_Address : string; rl_Request : PublishEventRequest }.

Record eventService := MkEventService {
  es_bus : option Bus;
  es_peers : option Engine;
  es_seen : idCache;
}.

Definition fanout (peers : option Engine) (topic : string) (p : list Z) (eventID source : string)
    : list relay :=
  match peers with
  | None => []
  | Some e =>
    (λ m, MkRelay (m_ID m) (m_Address m) (MkPublish topic p eventID source true)) <$>
    List.filter (λ m, negb (String.eqb (m_ID m) (SelfID e) || negb (String.eqb (m_Status m) StatusAlive)))
      (Members e)
  end.

(** [nil] bytes and empty bytes are the same event payload. *)
Definition payload_of (p : list Z) : payload := match p with [] => NoPayload | _ => RawBytes p end.

Section handler.
Context `{Unicode}.

Definition PublishEvent (now : Time) (rand : result error (list Z)) (s : eventService)
    (req : PublishEventRequest)
    : eventService * result status PublishEventResponse * list relay :=
  match es_bus s with
  | None => (s, Fail (Status FailedPrecondition (Errorf "event bus not initialized" [])), [])
  | Some bus =>
    match ValidTopic (pe_Topic req) with
    | Some err => (s, Fail (Status InvalidArgument (Errorf "%v" [AErr err])), [])
    | None =>
      if (MaxPayloadBytes <? Z.of_nat (length (pe_Payload req)))%Z
      then (s, Fail (Status InvalidArgument (Errorf "payload exceeds %d bytes" [ANum MaxPayloadBytes])), [])
      else
        match (if str_empty (pe_EventId req) then uid_New rand else Ok (pe_EventId req)) with
        | Fail err => (s, Fail (Status Internal (Errorf "event id: %v" [AErr err])), [])
        | Ok eventID =>
          let typ := CustomType (pe_Topic req) in
          match seenOrAdd (es_seen s) eventID with
          | (_, true) => (s, Ok (MkPublished true "duplicate" eventID typ), [])
          | (seen, false) =>
            let source := if str_empty (pe_Source req)
                          then from_option SelfID (pe_Source req) (es_peers s) else pe_Source req in
            let bus := Publish now bus (new_event typ source (payload_of (pe_Payload req))) in
            (MkEventService (Some bus) (es_peers s) seen,
             Ok (MkPublished true "" eventID typ),
             if pe_Relay req then []
             else fanout (es_peers s) (pe_Topic req) (pe_Payload req) eventID source)
          end
        end
    end
  end.
End handler.

(** ** The id window *)

Record cache_wf (c : idCache) : Prop := {
  cw_set : ic_m c = list_to_set (ic_q c);
  cw_nodup : NoDup (ic_q c);
  cw_size : length (ic_q c) ≤ ic_cap c;
  cw_pos : 0 < ic_cap c;
}.

Lemma cache_wf_new n : cache_wf (newIDCache n).
Proof.
  split; simpl; [done|constructor|lia|]. destruct (Z.leb_spec n 0); lia.
Qed.

(** The queue after an addition: the last [ic_cap] of the old queue and [id]. *)
Lemma seenOrAdd_queue c id :
  cache_wf c →
  cache_wf (seenOrAdd c id).1 ∧ ic_cap (seenOrAdd c id).1 = ic_cap c ∧
  (seenOrAdd c id).2 = bool_decide (id ∈ ic_q c) ∧
  ic_q (seenOrAdd c id).1 =
    if bool_decide (id ∈ ic_q c) then ic_q c
    else drop (S (length (ic_q c)) - ic_cap c) (ic_q c ++ [id]).
Proof.
  intros Hwf. pose proof Hwf as [Hset Hnd Hsz Hpos]. unfold seenOrAdd.
  assert (id ∈ ic_m c ↔ id ∈ ic_q c) as Hin by (rewrite Hset; by rewrite elem_of_list_to_set).
  rewrite (bool_decide_ext _ _ Hin). case_bool_decide as Hid; [done|].
  destruct (bool_decide_reflect (ic_cap c ≤ length (ic_q c))) as [Hfull|Hroom].
  - destruct (ic_q c) as [|old q] eqn:Hq; [simpl in *; lia|].
    apply NoDup_cons in Hnd as [Hold Hnd]. simpl in Hsz, Hfull.
    replace (S (length (old :: q)) - ic_cap c) with 1 by (simpl; lia). simpl.
    split_and!; try done. split; simpl; [| |rewrite length_app; simpl; lia|done].
    + rewrite Hset, list_to_set_app_L. simpl. set_solver.
    + apply NoDup_app. split_and!; [done| |apply NoDup_singleton]. set_solver.
  - replace (S (length (ic_q c)) - ic_cap c) with 0 by lia. simpl.
    split_and!; try done. split; simpl; [| |rewrite length_app; simpl; lia|done].
    + rewrite Hset, list_to_set_app_L. simpl. set_solver.
    + apply NoDup_app. split_and!; [done| |apply NoDup_singleton]. set_solver.
Qed.

Definition add_all (c : idCache) (ids : list string) : idCache :=
  foldl (λ c id, (seenOrAdd c id).1) c ids.

(** Where an id sits in the queue bounds how long it stays. *)
Lemma seen_stays c ids i id :
  cache_wf c → ic_q c !! i = Some id → length (ic_q c) - i + length ids ≤ ic_cap c →
  id ∈ ic_q (add_all c ids) ∧ cache_wf (add_all c ids).
Proof.
  revert c i; induction ids as [|x ids IH]; intros c i Hwf Hi Hlen; simpl in *.
  { split; [by eapply list_elem_of_lookup_2|done]. }
  destruct (seenOrAdd_queue c x Hwf) as (Hwf' & Hcap & _ & Hq).
  pose proof (lookup_lt_Some _ _ _ Hi) as Hlt. pose proof (cw_size _ Hwf).
  case_bool_decide as Hx; [apply (IH _ i); rewrite ?Hcap, ?Hq; [done|done|lia]|].
  apply (IH _ (i - (S (length (ic_q c)) - ic_cap c))); rewrite ?Hcap, ?Hq; [done| |].
  - rewrite lookup_drop. replace (_ + _) with i by lia. by rewrite lookup_app_l.
  - rewrite length_drop, length_app. simpl. lia.
Qed.

Lemma seenOrAdd_last c id :
  cache_wf c → ∃ i, ic_q (seenOrAdd c id).1 !! i = Some id ∧
    ((seenOrAdd c id).2 = false → S i = length (ic_q (seenOrAdd c id).1)).
Proof.
  intros Hwf. destruct (seenOrAdd_queue c id Hwf) as (_ & _ & -> & ->). pose proof (cw_pos _ Hwf).
  pose proof (cw_size _ Hwf).
  case_bool_decide as Hin; [apply list_elem_of_lookup in Hin as [i Hi]; by exists i|].
  exists (length (ic_q c) - (S (length (ic_q c)) - ic_cap c)). split.
  - rewrite lookup_drop. replace (_ + _) with (length (ic_q c)) by lia.
    by rewrite lookup_app_r, Nat.sub_diag by lia.
  - intros _. rewrite length_drop, length_app. simpl. lia.
Qed.

Section props.
Context `{Unicode}.

(** A call of the handler: its clock, its random bytes, its request. *)
Abbreviation call := (Time * result error (list Z) * PublishEventRequest)%type.
Definition serve (s : eventService) (c : call) : eventService :=
  (PublishEvent c.1.1 c.1.2 s c.2).1.1.
Definition serve_all (s : eventService) (cs : list call) : eventService := foldl serve s cs.

Lemma PublishEvent_seen now u s req :
  (PublishEvent now u s req).1.1 = s ∨
  ∃ id, es_seen (PublishEvent now u s req).1.1 = (seenOrAdd (es_seen s) id).1 ∧
    is_Some (es_bus (PublishEvent now u s req).1.1).
Proof.
  unfold PublishEvent. destruct (es_bus s) as [b|]; [|by left].
  destruct (ValidTopic _); [by left|]. destruct (_ <? _)%Z; [by left|].
  destruct (if str_empty _ then _ else _) as [id|]; [|by left].
  destruct (seenOrAdd (es_seen s) id) as [c []] eqn:Hs; [by left|]. right. exists id.
  rewrite Hs. simpl. eauto.
Qed.

Lemma serve_all_seen s cs :
  is_Some (es_bus s) →
  ∃ ids, es_seen (serve_all s cs) = add_all (es_seen s) ids ∧ length ids ≤ length cs ∧
    is_Some (es_bus (serve_all s cs)).
Proof.
  revert s; induction cs as [|[[now u] req] cs IH]; intros s Hb; [by exists []|].
  change (serve_all s ((now, u, req) :: cs)) with (serve_all (PublishEvent now u s req).1.1 cs).
  destruct (PublishEvent_seen now u s req) as [Hs|(id & Hs & Hb')].
  - rewrite Hs. destruct (IH s Hb) as (ids & ? & ? & ?). exists ids. split_and!; simpl; [done|lia|done].
  - destruct (IH _ Hb') as (ids & Hids & ? & ?). exists (id :: ids). simpl.
    rewrite Hids, Hs. split_and!; [done|lia|done].
Qed.

Lemma uid_New_nonempty rand id : uid_New rand = Ok id → str_empty id = false.
Proof.
  destruct rand as [b|]; simpl; [|done]. intros [= <-]. apply str_empty_false.
  intros Hl%(f_equal String.length). rewrite !length_str_app in Hl. simpl in Hl. lia.
Qed.

(** What an answer that is neither an error nor [duplicate] says of the request. *)
Lemma PublishEvent_accepted now u s req resp :
  (PublishEvent now u s req).1.2 = Ok resp → pr_Message resp = "" →
  ∃ id src, ValidTopic (pe_Topic req) = None ∧
    (MaxPayloadBytes <? Z.of_nat (length (pe_Payload req)))%Z = false ∧ str_empty id = false ∧
    (seenOrAdd (es_seen s) id).2 = false ∧
    (PublishEvent now u s req).2 =
      if pe_Relay req then [] else fanout (es_peers s) (pe_Topic req) (pe_Payload req) id src.
Proof.
  unfold PublishEvent. intros Hok Hmsg. destruct (es_bus s) as [b|]; [|done].
  destruct (ValidTopic _); [done|]. destruct (_ <? _)%Z eqn:Hp; [done|].
  destruct (if str_empty _ then _ else _) as [id|] eqn:Hid; [|done].
  destruct (seenOrAdd (es_seen s) id) as [c []] eqn:Hs; simplify_eq/=.
  eexists id, _. split_and!; try done; [|by rewrite Hs].
  destruct (str_empty (pe_EventId req)) eqn:He; [by eapply uid_New_nonempty|congruence].
Qed.

(** Events are not delivered twice: once a request with event id [i] was put
    on the bus, a later valid request with the same id, with fewer than 4096
    requests in between, is answered [duplicate] and changes neither the bus nor
    the id cache, and is not relayed. *)
Theorem event_dedup_window now1 u1 s req1 resp1 cs now2 u2 req2 :
  cache_wf (es_seen s) → ic_cap (es_seen s) = seenEventCap →
  str_empty (pe_EventId req1) = false → pe_EventId req2 = pe_EventId req1 →
  ValidTopic (pe_Topic req2) = None → (Z.of_nat (length (pe_Payload req2)) ≤ MaxPayloadBytes)%Z →
  length cs < seenEventCap →
  (PublishEvent now1 u1 s req1).1.2 = Ok resp1 → pr_Message resp1 = "" →
  let s2 := serve_all (PublishEvent now1 u1 s req1).1.1 cs in
  PublishEvent now2 u2 s2 req2 =
    (s2, Ok (MkPublished true "duplicate" (pe_EventId req1) (CustomType (pe_Topic req2))), []).
Proof.
  intros Hwf Hcap Hid Heq Hv Hp Hcs Hok Hmsg s2. subst s2.
  assert (∃ c, seenOrAdd (es_seen s) (pe_EventId req1) = (c, false) ∧
    es_seen (PublishEvent now1 u1 s req1).1.1 = c ∧
    is_Some (es_bus (PublishEvent now1 u1 s req1).1.1)) as (c & Hc & Hs1 & Hb1).
  { unfold PublishEvent in *. rewrite Hid in *. destruct (es_bus s); [|done].
    destruct (ValidTopic (pe_Topic req1)); [done|]. destruct (_ <? _)%Z; [done|].
    destruct (seenOrAdd _ _) as [c []] eqn:Hc; simplify_eq/=. eauto. }
  destruct (seenOrAdd_queue (es_seen s) (pe_EventId req1) Hwf) as (Hwf1 & Hcap1 & _ & _).
  destruct (seenOrAdd_last (es_seen s) (pe_EventId req1) Hwf) as (i & Hi & Hlast).
  rewrite Hc in Hwf1, Hcap1, Hi, Hlast. simpl in *. specialize (Hlast eq_refl).
  destruct (serve_all_seen _ cs Hb1) as (ids & Hids & Hlen & [b Hb]). rewrite Hs1 in Hids.
  destruct (seen_stays c ids i (pe_EventId req1)) as [Hin Hwf2]; [done|done|lia|].
  revert Hids Hb. generalize (serve_all (PublishEvent now1 u1 s req1).1.1 cs) as s2. intros s2 Hids Hb.
  unfold PublishEvent. rewrite Hb, Hv, Heq, Hid.
  replace (MaxPayloadBytes <? _)%Z with false by (symmetry; apply Z.ltb_ge; lia).
  destruct (seenOrAdd_queue _ (pe_EventId req1) Hwf2) as (_ & _ & Hseen & _).
  rewrite bool_decide_eq_true_2 in Hseen by done. rewrite Hids.
  by destruct (seenOrAdd (add_all c ids) (pe_EventId req1)) as [c' []]; simplify_eq/=.
Qed.

(** A published event is relayed to exactly the other members that are alive,
    once each and in id order, and a peer that handles a relay never refuses its
    topic or payload and never relays it further. *)
Theorem event_fanout_exact now u s e req resp rl :
  es_peers s = Some e → mreachable e → pe_Relay req = false →
  (PublishEvent now u s req).1.2 = Ok resp → pr_Message resp = "" → (PublishEvent now u s req).2 = rl →
  (rl_Target <$> rl) = m_ID <$> List.filter (λ m, negb (String.eqb (m_ID m) (SelfID e)) &&
                                                 String.eqb (m_Status m) StatusAlive) (Members e) ∧
  NoDup (rl_Target <$> rl) ∧
  ∀ r now' u' s', r ∈ rl → is_Some (es_bus s') →
    rl_Address r = default "" (m_Address <$> members e !! rl_Target r) ∧
    isOk (PublishEvent now' u' s' (rl_Request r)).1.2 = true ∧
    (PublishEvent now' u' s' (rl_Request r)).2 = [].
Proof.
  intros He Hreach Hrel Hok Hmsg <-. pose proof (engine_wf_reachable _ Hreach) as Hwf.
  pose proof (engine_keyed _ Hwf) as Hk.
  destruct (PublishEvent_accepted now u s req resp) as (id & src & Hv & Hp & Hid & _ & ->); [done..|].
  rewrite He, Hrel. unfold fanout. rewrite <-list_fmap_compose.
  assert (∀ m, negb (String.eqb (m_ID m) (SelfID e) || negb (String.eqb (m_Status m) StatusAlive)) =
    negb (String.eqb (m_ID m) (SelfID e)) && String.eqb (m_Status m) StatusAlive) as Hneg.
  { intros m. by rewrite negb_orb, negb_involutive. }
  rewrite (List.filter_ext _ _ Hneg). split_and!; [done| |].
  - apply (NoDup_filter_names m_ID). unfold Members. rewrite sort_by_perm. by apply keyed_NoDup.
  - intros r now' u' s' (m & -> & Hm)%list_elem_of_fmap [b Hb]. simpl.
    apply list_elem_of_In, List.filter_In in Hm as [Hm _]. apply list_elem_of_In in Hm.
    unfold Members in Hm. rewrite sort_by_perm, (keyed_elem m_ID) in Hm by done.
    rewrite Hm. split; [done|]. unfold PublishEvent. simpl. rewrite Hb, Hv, Hp, Hid.
    by destruct (seenOrAdd _ _) as [? []].
Qed.
End props.

(** ** A concrete publisher with one peer *)
Module EventExamples.
#[export] Existing Instance latin1.
Definition engine : Engine := (mapply MemberExamples.self (OpJoinAs 5 "n2" "h:2" "")).1.
Definition svc : eventService := MkEventService (Some Bus.New) (Some engine) (newIDCache 4096).
Definition req : PublishEventRequest := MkPublish "orders" [1; 2]%Z "id-1" "" false.
Definition no_rand : result error (list Z) := Fail (Errorf "no entropy" []).

Lemma event_dedup_window_witness :
  let s2 := serve_all (PublishEvent 1 no_rand svc req).1.1 [] in
  PublishEvent 2 no_rand s2 req = (s2, Ok (MkPublished true "duplicate" "id-1" "custom.orders"), []).
Proof.
  apply (event_dedup_window 1 no_rand svc req (MkPublished true "" "id-1" "custom.orders")
    [] 2 no_rand req); try reflexivity.
  - apply cache_wf_new.
  - vm_compute. congruence.
  - simpl. unfold seenEventCap. lia.
Defined.

Lemma event_fanout_exact_witness : (rl_Target <$> (PublishEvent 1 no_rand svc req).2) = ["n2"].
Proof.
  destruct (event_fanout_exact 1 no_rand svc engine req (MkPublished true "" "id-1" "custom.orders")
    (PublishEvent 1 no_rand svc req).2) as [Ht _];
    [reflexivity|apply mreach_op, MemberExamples.self_reachable|reflexivity..|].
  rewrite Ht. vm_compute. reflexivity.
Defined.
End EventExamples.
