(* ===== verification/Node.v ===== *)
(** * Node: the consensus node of [internal/consensus/node.go]

    The node wraps a [hashicorp/raft] instance, which is not code of the
    repository: [RaftLib] is its interface over a world [W] (this process, the
    other servers, the network), with the one fact the daemon builds on: when
    [Apply] returns without an error, the entry was committed and applied to the
    local FSM, after some entries and before others, and the answer is the FSM's.
    An error says nothing about whether the entry is or will be committed. *)
From S2P Require Import Prelude Events GrantSpec Locks Leases Membership FSM.

Inductive Suffrage : Type := Voter | Nonvoter | Staging.
Record Server := MkServer { sv_Suffrage : Suffrage; sv_ID : string; sv_Address : string }.

(** The local FSM of the daemon. *)
Abbreviation node_fsm := (FSM Engine Locks.Table Leases.Table).

(** Entries applied by the raft goroutine, each at its own clock reading. *)
Definition apply_entries `{Unicode} `{Codec D Command} (f : node_fsm) (es : list (Time * Log D)) : node_fsm :=
  foldl (λ f e, (Apply e.1 f e.2).1.1) f es.

Class RaftLib `{Unicode} (W D : Type) `{Codec D Command} := {
  raft_fsm : W → node_fsm;
  raft_Apply : W → D → W * result error response;
  raft_GetConfiguration : W → result error (list Server);
  raft_AddVoter : W → string → string → W * option error;
  raft_AddNonvoter : W → string → string → W * option error;
  raft_RemoveServer : W → string → W * option error;
  raft_State_leader : W → bool;
  raft_LeaderWithID : W → string * string;
  raft_Shutdown : W → W * option error;
  raft_Apply_committed w d w' resp :
    raft_Apply w d = (w', Ok resp) →
    ∃ pre now idx post,
      let f0 := apply_entries (raft_fsm w) pre in
      resp = (Apply now f0 (MkLog idx LogCommand d)).1.2 ∧
      raft_fsm w' = apply_entries (Apply now f0 (MkLog idx LogCommand d)).1.1 post;
}.

Definition zeroCommand : Command := MkCommand (CmdUnknown "") "" "" "" "" 0 0 0.

Section node.
Context `{RaftLib W D}.

(** ** Cluster configuration *)

Definition AddVoter (w : W) (id raftAddr : string) : W * option error :=
  match raft_AddVoter w id raftAddr with
  | (w, Some err) => (w, Some (Errorf "raft add voter %s: %w" [AStr id; AErr err]))
  | (w, None) => (w, None)
  end.

Definition AddNonvoter (w : W) (id raftAddr : string) : W * option error :=
  match raft_AddNonvoter w id raftAddr with
  | (w, Some err) => (w, Some (Errorf "raft add nonvoter %s: %w" [AStr id; AErr err]))
  | (w, None) => (w, None)
  end.

Definition find_server (id : string) (servers : list Server) : option Server :=
  List.find (λ s, String.eqb (sv_ID s) id) servers.

Definition PromoteToVoter (w : W) (id : string) : W * option error :=
  match raft_GetConfiguration w with
  | Fail err => (w, Some (Errorf "raft get configuration: %w" [AErr err]))
  | Ok servers =>
    match find_server id servers with
    | None => (w, Some (Errorf "raft server %s not in configuration" [AStr id]))
    | Some s =>
      match sv_Suffrage s with
      | Voter => (w, None)
      | _ => AddVoter w id (sv_Address s)
      end
    end
  end.

Definition HasServer (w : W) (id : string) : bool :=
  if str_empty id then false else
  match raft_GetConfiguration w with
  | Fail _ => false
  | Ok servers => existsb (λ s, String.eqb (sv_ID s) id) servers
  end.

Definition ServerCount (w : W) : nat :=
  match raft_GetConfiguration w with
  | Fail _ => 0
  | Ok servers => length servers
  end.

Definition RemoveVoter (w : W) (id : string) : W * option error :=
  match raft_RemoveServer w id with
  | (w, Some err) => (w, Some (Errorf "raft remove server %s: %w" [AStr id; AErr err]))
  | (w, None) => (w, None)
  end.

Definition IsLeader (w : W) : bool := raft_State_leader w.
Definition LeaderAddr (w : W) : string := (raft_LeaderWithID w).1.
Definition LeaderID (w : W) : string := (raft_LeaderWithID w).2.

(** ** Commands *)

Definition apply_member (w : W) (cmd : Command) (format : string) : W * option error :=
  match encodeCommand cmd with
  | Fail err => (w, Some err)
  | Ok data =>
    match raft_Apply w data with
    | (w, Fail err) => (w, Some (Errorf format [AStr (ID cmd); AErr err]))
    | (w, Ok _) => (w, None)
    end
  end.

Definition ApplyAddMemberAs (w : W) (id addr role : string) : W * option error :=
  let role := NormalizeRole role in
  apply_member w (MkCommand CmdAddMember id addr role "" 0 0 0) "raft apply add_member %s: %w".

Definition ApplyAddMember (w : W) (id addr : string) : W * option error :=
  ApplyAddMemberAs w id addr RoleVoter.

Definition ApplyRemoveMember (w : W) (id : string) : W * option error :=
  apply_member w (MkCommand CmdRemoveMember id "" "" "" 0 0 0) "raft apply mark_dead %s: %w".

Definition ApplyDropMember (w : W) (id : string) : W * option error :=
  apply_member w (MkCommand CmdDropMember id "" "" "" 0 0 0) "raft apply drop_member %s: %w".

Definition applyLock (w : W) (data : D) (op name : string) : W * result error lockResult :=
  match raft_Apply w data with
  | (w, Fail err) => (w, Fail (Errorf "raft apply %s %s: %w" [AStr op; AStr name; AErr err]))
  | (w, Ok (RespLock res)) =>
    match Err res with
    | Some e => (w, Fail (Errorf "%s %s: %s" [AStr op; AStr name; AErr e]))
    | None => (w, Ok res)
    end
  | (w, Ok _) => (w, Fail (Errorf "raft apply %s %s: unexpected result" [AStr op; AStr name]))
  end.

(** [encodeCommand] followed by [applyLock], as every lock and lease call does. *)
Definition commit (w : W) (cmd : Command) (op : string) : W * result error lockResult :=
  match encodeCommand cmd with
  | Fail err => (w, Fail err)
  | Ok data => applyLock w data op (Name cmd)
  end.

(** The command of a take or renewal at leader time [now] with clamped [ttl]. *)
Definition timed (k : CommandKind) (holder name : string) (token : Z) (now : Time) (ttl : Duration) : Command :=
  MkCommand k holder "" "" name token (Milliseconds ttl) (UnixMilli (Add now ttl)).

Definition ApplyLockAcquire (now : Time) (w : W) (name holder : string) (ttl : Duration)
    : W * result error (Z * bool) :=
  let ttl := Locks.ClampTTL ttl 0 in
  match commit w (timed CmdLockAcquire holder name 0 now ttl) "lock_acquire" with
  | (w, Fail err) => (w, Fail err)
  | (w, Ok res) => (w, Ok (rToken res, Acquired res))
  end.

Definition ApplyLockRelease (w : W) (name holder : string) (token : Z) : W * option error :=
  match commit w (MkCommand CmdLockRelease holder "" "" name token 0 0) "lock_release" with
  | (w, Fail err) => (w, Some err)
  | (w, Ok _) => (w, None)
  end.

Definition ApplyLockRenew (now : Time) (w : W) (name holder : string) (token : Z) (ttl : Duration)
    : W * result error Time :=
  let ttl := Locks.ClampTTL ttl 0 in
  match commit w (timed CmdLockRenew holder name token now ttl) "lock_renew" with
  | (w, Fail err) => (w, Fail err)
  | (w, Ok _) => (w, Ok (Add now ttl))
  end.

Definition ApplyLockExpire (w : W) (name : string) (token : Z) : W * option error :=
  match commit w (MkCommand CmdLockExpire "" "" "" name token 0 0) "lock_expire" with
  | (w, Fail err) => (w, Some err)
  | (w, Ok _) => (w, None)
  end.

Definition ApplyLeaseGrant (now : Time) (w : W) (name owner : string) (ttl : Duration)
    : W * result error (Z * bool) :=
  let ttl := Leases.ClampTTL ttl 0 in
  match commit w (timed CmdLeaseGrant owner name 0 now ttl) "lease_grant" with
  | (w, Fail err) => (w, Fail err)
  | (w, Ok res) => (w, Ok (rToken res, Acquired res))
  end.

Definition ApplyLeaseRenew (now : Time) (w : W) (name owner : string) (token : Z) (ttl : Duration)
    : W * result error Time :=
  let ttl := Leases.ClampTTL ttl 0 in
  match commit w (timed CmdLeaseRenew owner name token now ttl) "lease_renew" with
  | (w, Fail err) => (w, Fail err)
  | (w, Ok _) => (w, Ok (Add now ttl))
  end.

Definition ApplyLeaseRevoke (w : W) (name owner : string) (token : Z) : W * option error :=
  match commit w (MkCommand CmdLeaseRevoke owner "" "" name token 0 0) "lease_revoke" with
  | (w, Fail err) => (w, Some err)
  | (w, Ok _) => (w, None)
  end.

Definition ApplyLeaseExpire (w : W) (name : string) (token : Z) : W * option error :=
  match commit w (MkCommand CmdLeaseExpire "" "" "" name token 0 0) "lease_expire" with
  | (w, Fail err) => (w, Some err)
  | (w, Ok _) => (w, None)
  end.

(** [n.store.Close()] is the result [storeClose], [None] without a store. *)
Definition Shutdown (w : W) (storeClose : option (option error)) : W * option error :=
  let (w, e) := raft_Shutdown w in
  let first := (λ err, Errorf "raft shutdown: %w" [AErr err]) <$> e in
  match storeClose, first with
  | Some (Some err), None => (w, Some (Errorf "raft store close: %w" [AErr err]))
  | _, _ => (w, first)
  end.

End node.

(** ** Deadlines and lifetimes *)

Lemma Millisecond_pos : (0 < Millisecond)%Z.
Proof. done. Qed.

Lemma timed_bounds k h n tok now ttl :
  (0 ≤ now)%Z → (now + ttl < two63 * Millisecond)%Z → (Millisecond ≤ ttl ≤ 24 * Hour)%Z →
  let c := timed k h n tok now ttl in
  (deadlineOf c ≤ now + ttl < deadlineOf c + Millisecond)%Z ∧ deadlineOf c ≠ zeroTime ∧
  (ttlOf c ≤ ttl < ttlOf c + Millisecond)%Z ∧ (Millisecond ≤ ttlOf c)%Z.
Proof.
  intros Hnow Hmax Httl c. pose proof Millisecond_pos.
  assert (UnixMilli (Add now ttl) = (now + ttl) / Millisecond)%Z as Hu.
  { unfold UnixMilli, Add. apply i64_small. split.
    - trans 0%Z; [done|]. apply Z.div_pos; lia.
    - apply Z.div_lt_upper_bound; lia. }
  pose proof (Z.div_mod (now + ttl) Millisecond) as Hdm.
  pose proof (Z.mod_pos_bound (now + ttl) Millisecond).
  assert (1 ≤ (now + ttl) / Millisecond)%Z as Hge1.
  { apply Z.div_le_lower_bound; lia. }
  pose proof (Z.div_mod ttl Millisecond) as Hdm2. pose proof (Z.mod_pos_bound ttl Millisecond).
  assert (Milliseconds ttl = ttl / Millisecond)%Z as Hm by (unfold Milliseconds; apply Z.quot_div_nonneg; lia).
  assert (1 ≤ ttl / Millisecond)%Z as Hge2 by (apply Z.div_le_lower_bound; lia).
  assert (deadlineOf c = (now + ttl) / Millisecond * Millisecond)%Z as ->.
  { unfold deadlineOf, c, timed, FromUnixMilli; simpl. rewrite Hu.
    destruct (Z.eqb_spec ((now + ttl) / Millisecond) 0); [lia|done]. }
  assert (ttlOf c = ttl / Millisecond * Millisecond)%Z as ->.
  { unfold ttlOf, c, timed, DurationOfMs; simpl. rewrite Hm.
    destruct (Z.leb_spec (ttl / Millisecond) 0); [lia|]. apply i64_small.
    unfold two63, Hour, Millisecond in *. lia. }
  unfold Millisecond in *. unfold zeroTime. split_and!; lia.
Qed.

(** ** What a successful call means *)

Section props.
Context `{RL : RaftLib W D}.

(** An FSM with both tables present, as [New] builds it in the daemon. *)
Record fsm_full (f : node_fsm) : Prop := {
  ff_wf : fsm_wf f;
  ff_locks : is_Some (fsm_locks f);
  ff_leases : is_Some (fsm_leases f);
}.

Lemma fsm_full_Apply now f (e : Log D) : fsm_full f → fsm_full (Apply now f e).1.1.
Proof.
  intros Hf. unfold Apply. destruct (lg_Type e); [|done].
  destruct (decodeCommand _) as [cmd|]; [|done]. destruct Hf as [Hwf [t Ht] [t' Ht']]. split.
  - by apply applyCommand_wf.
  - pose proof (fwf_locks _ Hwf) as Hw. rewrite Ht in Hw.
    destruct (applyCommand_locks now f cmd t Hw Ht) as (t1 & -> & _). eauto.
  - pose proof (fwf_leases _ Hwf) as Hw. rewrite Ht' in Hw.
    destruct (applyCommand_leases now f cmd t' Hw Ht') as (t1 & -> & _). eauto.
Qed.

Lemma fsm_full_entries f (es : list (Time * Log D)) : fsm_full f → fsm_full (apply_entries f es).
Proof.
  revert f; induction es as [|[now e] es IH]; intros f Hf; [done|]. by apply IH, fsm_full_Apply.
Qed.

Lemma encodeCommand_decode (cmd : Command) :
  codec_dom cmd → ∃ d : D, encodeCommand cmd = Ok d ∧ decodeCommand d = Ok cmd.
Proof.
  intros (d & He & Hd)%decode_encode. exists d. unfold encodeCommand, decodeCommand. by rewrite He, Hd.
Qed.

(** A member command that returns without an error was applied in the state [f0]. *)
Lemma apply_member_applied w cmd format w' :
  codec_dom cmd → fsm_full (raft_fsm w) → apply_member w cmd format = (w', None) →
  ∃ f0 now post, fsm_full f0 ∧ raft_fsm w' = apply_entries (applyCommand now f0 cmd).1.1 post.
Proof.
  intros (d & He & Hd)%encodeCommand_decode Hf Hc. unfold apply_member in Hc. rewrite He in Hc.
  destruct (raft_Apply w d) as [w1 [resp|]] eqn:Ha; simplify_eq.
  destruct (raft_Apply_committed _ _ _ _ Ha) as (pre & now & idx & post & _ & Hfsm).
  cbn zeta in *. unfold Apply in Hfsm. simpl in Hfsm. rewrite Hd in Hfsm.
  exists (apply_entries (raft_fsm w) pre), now, post. split; [by apply fsm_full_entries|done].
Qed.

(** A [commit] that returns a result was applied to the local FSM in the state
    [f0] it had reached, and the result is the answer of the FSM. *)
Lemma commit_applied w cmd op w' res :
  codec_dom cmd → fsm_full (raft_fsm w) → commit w cmd op = (w', Ok res) →
  ∃ f0 now post, fsm_full f0 ∧ (applyCommand now f0 cmd).1.2 = RespLock res ∧ Err res = None ∧
    raft_fsm w' = apply_entries (applyCommand now f0 cmd).1.1 post.
Proof.
  intros (d & He & Hd)%encodeCommand_decode Hf Hc. unfold commit in Hc. rewrite He in Hc.
  unfold applyLock in Hc. destruct (raft_Apply w d) as [w1 [resp|]] eqn:Ha; [|done].
  destruct (raft_Apply_committed _ _ _ _ Ha) as (pre & now & idx & post & Hresp & Hfsm).
  cbn zeta in *. unfold Apply in Hresp, Hfsm. simpl in Hresp, Hfsm. rewrite Hd in Hresp, Hfsm.
  exists (apply_entries (raft_fsm w) pre), now, post.
  destruct resp as [|e|r]; simplify_eq/=; [done..|]. destruct (Err r) eqn:Hr; simplify_eq.
  split_and!; [by apply fsm_full_entries|done..].
Qed.

Lemma ClampTTL_range ttl : (Millisecond ≤ Locks.ClampTTL ttl 0 ≤ 24 * Hour)%Z.
Proof. pose proof (lock_ClampTTL_bounds ttl 0). unfold Locks.MinTTL, Locks.MaxTTL in *. lia. Qed.

(** When the leader's node answers an acquire with a token, the request was
    applied to the replicated lock table: in a state the local FSM went through,
    the table holds the lock for that holder under that token, with a lifetime
    that is the clamped request rounded down to a millisecond and a deadline that
    is the leader's clock plus the lifetime, rounded down to a millisecond. *)
Lemma acquire_commits now w name holder ttl w' tok :
  let ttl' := Locks.ClampTTL ttl 0 in
  codec_dom (timed CmdLockAcquire holder name 0 now ttl') →
  fsm_full (raft_fsm w) → (0 ≤ now)%Z → (now + ttl' < two63 * Millisecond)%Z →
  ApplyLockAcquire now w name holder ttl = (w', Ok (tok, true)) →
  ∃ f1 t1 rec post, raft_fsm w' = apply_entries f1 post ∧ fsm_locks f1 = Some t1 ∧
    Locks.Get t1 name = Some rec ∧ lk_Holder rec = holder ∧ lk_Token rec = tok ∧
    (lk_Deadline rec ≤ now + ttl' < lk_Deadline rec + Millisecond)%Z ∧
    (lk_TTL rec ≤ ttl' < lk_TTL rec + Millisecond)%Z ∧ (Millisecond ≤ lk_TTL rec)%Z.
Proof.
  intros ttl' Hdom Hfull Hnow Hmax Ha. unfold ApplyLockAcquire in Ha. fold ttl' in Ha.
  destruct (timed_bounds CmdLockAcquire holder name 0 now ttl' Hnow Hmax (ClampTTL_range ttl))
    as (Hd & _ & Ht & Hpos).
  set (cmd := timed CmdLockAcquire holder name 0 now ttl') in *.
  destruct (commit w cmd "lock_acquire") as [w1 [res|]] eqn:Hc; simplify_eq.
  destruct (commit_applied _ _ _ _ _ Hdom Hfull Hc) as (f0 & now0 & post & [Hwf0 [t0 Ht0] _] & Hresp & _ & Hfsm).
  exists (applyCommand now0 f0 cmd).1.1. unfold applyCommand in *. simpl in Hresp, Hfsm |- *.
  rewrite Ht0 in *. simpl in Hresp, Hfsm |- *.
  destruct (lock_Acquire_granted now0 t0 name holder (deadlineOf cmd) (ttlOf cmd) (rToken res))
    as (rec & Hrec & ? & ? & Hdl & Httl).
  { destruct (Acquire _ _ _ _ _ _).1.2 as [[tok ok]|]; simplify_eq/=. done. }
  eexists _, rec, post. rewrite Hdl, Httl. split_and!; done || lia.
Qed.

End props.

(** ** A cluster of one server, which commits what it is given at once *)
Module SoloRaft.
#[export] Existing Instance latin1.
#[export] Existing Instance LogExamples.id_codec.

Record solo := MkSolo { so_fsm : node_fsm; so_servers : list Server; so_leads : bool }.
Definition commit_now (w : solo) (c : Command) : solo * result error response :=
  let r := Apply 7 (so_fsm w) (MkLog 1 LogCommand c) in (MkSolo r.1.1 (so_servers w) (so_leads w), Ok r.1.2).
Definition add_server (s : Suffrage) (w : solo) (id addr : string) : solo * option error :=
  (MkSolo (so_fsm w) (MkServer s id addr :: List.filter (λ x, negb (String.eqb (sv_ID x) id)) (so_servers w))
    (so_leads w), None).

#[export] Instance solo_raft : RaftLib solo Command.
Proof.
  refine {|
    raft_fsm := so_fsm;
    raft_Apply := commit_now;
    raft_GetConfiguration w := Ok (so_servers w);
    raft_AddVoter := add_server Voter;
    raft_AddNonvoter := add_server Nonvoter;
    raft_RemoveServer w id :=
      (MkSolo (so_fsm w) (List.filter (λ x, negb (String.eqb (sv_ID x) id)) (so_servers w)) (so_leads w), None);
    raft_State_leader := so_leads;
    raft_LeaderWithID _ := ("10.0.0.1:8", "n1");
    raft_Shutdown w := (w, None);
  |}.
  intros w d w' resp Ha. unfold commit_now in Ha. injection Ha as <- <-.
  exists [], 7%Z, 1%Z, []. done.
Defined.

Definition start : solo := MkSolo LogExamples.start [MkServer Voter "n1" "10.0.0.1:8"] true.
Lemma start_full : fsm_full (so_fsm start).
Proof. split; [|by eexists..]. by apply (new_fsm_ready _ _ _ 0). Qed.
End SoloRaft.
