(* ===== verification/Cluster.v ===== *)
(** * Cluster: the replicated state machine over all servers

    The daemons of a cluster as one transition system: the committed log, the FSM
    of every server with the number of entries it has applied, the snapshots that
    were persisted and every answer any server's [Apply] gave.  A server starts
    with the tables of [internal/app/units.go], applies the next entry at its own
    clock reading, persists [Snapshot] ([internal/consensus/fsm.go]), and is
    handed by raft a snapshot of any server to [Restore].  That entries are
    committed in one order and handed to each FSM in that order is what
    [hashicorp/raft] documents; everything an FSM does with them is the code of
    [FSM].

    The invariant is proved by induction on the steps; [cluster_node] shows that a
    server of the cluster satisfies the interface [RaftLib] that [Node] builds on,
    whatever raft reports to the caller. *)
From S2P Require Import Prelude Events GrantSpec Locks Leases Membership FSM Node.

(** One server: its FSM and how many entries of the log it reflects. *)
Record replica := MkReplica { rp_fsm : node_fsm; rp_applied : nat }.

(** An answer of [Apply]: the server, the index of the entry from 0, the value. *)
Record answer := MkAnswer { an_server : string; an_index : nat; an_resp : response }.

Record Cluster (D : Type) := MkCluster {
  cl_log : list (Log D);
  cl_nodes : gmap string replica;
  cl_snaps : list (nat * D);
  cl_answers : list answer;
}.
Arguments MkCluster {D}.
Arguments cl_log {D}.
Arguments cl_nodes {D}.
Arguments cl_snaps {D}.
Arguments cl_answers {D}.

Section cluster.
Context `{Unicode} {D : Type} `{CC : Codec D Command} `{CS : Codec D snapshotPayload}.

Definition no_servers : Cluster D := MkCluster [] ∅ [] [].

(** [InitMembership], [InitBus], [InitLocks] and [InitLeases] with a bus: what a
    starting daemon hands to [consensus.New]. *)
Definition fresh (now : Time) (id addr : string) : node_fsm :=
  MkFSM (MkEngine id id (members (Membership.New now id addr)) ∅ true)
    (Some (Locks.MkTable ∅ 0 true)) (Some (Leases.MkTable ∅ 0 true)).

Definition set_node (c : Cluster D) (id : string) (r : replica) : Cluster D :=
  MkCluster (cl_log c) (<[id := r]> (cl_nodes c)) (cl_snaps c) (cl_answers c).
Definition append (c : Cluster D) (e : Log D) : Cluster D :=
  MkCluster (cl_log c ++ [e]) (cl_nodes c) (cl_snaps c) (cl_answers c).
Definition persist (c : Cluster D) (i : nat) (d : D) : Cluster D :=
  MkCluster (cl_log c) (cl_nodes c) ((i, d) :: cl_snaps c) (cl_answers c).

(** Server [id] in state [r] applies entry [e]. *)
Definition apply_at (c : Cluster D) (now : Time) (id : string) (r : replica) (e : Log D) : Cluster D :=
  let a := Apply now (rp_fsm r) e in
  MkCluster (cl_log c) (<[id := MkReplica a.1.1 (S (rp_applied r))]> (cl_nodes c)) (cl_snaps c)
    (MkAnswer id (rp_applied r) a.1.2 :: cl_answers c).

(** A snapshot is taken of strings JSON represents ([codec_dom]): names and IDs
    reach the log through protobuf strings, which are UTF-8. *)
Inductive cstep (c : Cluster D) : Cluster D → Prop :=
  | cs_start now id addr :
      id ≠ "" → cstep c (set_node c id (MkReplica (fresh now id addr) 0))
  | cs_commit e :
      cstep c (append c e)
  | cs_apply now id r e :
      cl_nodes c !! id = Some r → cl_log c !! rp_applied r = Some e →
      cstep c (apply_at c now id r e)
  | cs_snapshot id r d :
      cl_nodes c !! id = Some r → codec_dom (payloadOf (rp_fsm r)) →
      Snapshot (rp_fsm r) = Ok d → cstep c (persist c (rp_applied r) d)
  | cs_restore now id r i d f es :
      cl_nodes c !! id = Some r → (i, d) ∈ cl_snaps c →
      Restore now (rp_fsm r) d = (f, None, es) →
      cstep c (set_node c id (MkReplica f i)).

Definition reachable : Cluster D → Prop := rtc cstep no_servers.

(** ** What the log alone determines *)

Definition log_command (e : Log D) : option Command :=
  match lg_Type e, decodeCommand (lg_Data e) with
  | LogCommand, Ok cmd => Some cmd
  | _, _ => None
  end.

(** A reference run of the log from fresh tables, all at one clock reading. *)
Definition replay (es : list (Log D)) : node_fsm :=
  apply_entries (fresh 0 "" "") ((λ e, (0%Z, e)) <$> es).
Definition replay_answer (es : list (Log D)) (i : nat) (e : Log D) : response :=
  (Apply 0 (replay (take i es)) e).1.2.

(** The members the log itself lists. *)
Definition log_view (es : list (Log D)) : gmap string (string * string * string) :=
  foldl (λ v cmd, member_step cmd v) ∅ (omap log_command es).

(** The requests and answers of the reference run, as [GrantSpec] sees them. *)
Fixpoint answers_from (f : node_fsm) (es : list (Log D)) : list (Log D * response) :=
  match es with
  | [] => []
  | e :: es => let a := Apply 0 f e in (e, a.1.2) :: answers_from a.1.1 es
  end.
Definition entry_gop (g : Command * response → option (gop * gresp)) (x : Log D * response)
    : option (gop * gresp) :=
  cmd ← log_command x.1; g (cmd, x.2).
End cluster.

Section inv.
Context `{Unicode} {D : Type} `{CC : Codec D Command} `{CS : Codec D snapshotPayload}.
Implicit Types (c : Cluster D) (es : list (Log D)).

(** ** One entry *)

Lemma Apply_command now (f : node_fsm) (e : Log D) cmd :
  log_command e = Some cmd → Apply now f e = applyCommand now f cmd.
Proof.
  unfold log_command, Apply. destruct (lg_Type e); [|done].
  destruct (decodeCommand _); [|done]. by intros [= ->].
Qed.
Lemma Apply_noop now (f : node_fsm) (e : Log D) :
  log_command e = None → (Apply now f e).1.1 = f ∧ ∀ now' f', (Apply now' f' e).1.2 = (Apply now f e).1.2.
Proof.
  unfold log_command, Apply. destruct (lg_Type e); [|done]. by destruct (decodeCommand _).
Qed.

Lemma Apply_equiv now1 now2 (f1 f2 : node_fsm) (e : Log D) :
  fsm_wf f1 → fsm_wf f2 → fsm_equiv f1 f2 →
  (Apply now1 f1 e).1.2 = (Apply now2 f2 e).1.2 ∧ fsm_equiv (Apply now1 f1 e).1.1 (Apply now2 f2 e).1.1.
Proof.
  intros H1 H2 Heq. destruct (log_command e) as [cmd|] eqn:He.
  - rewrite !(Apply_command _ _ _ _ He). by apply applyCommand_equiv.
  - destruct (Apply_noop now1 f1 e He) as [-> Hr], (Apply_noop now2 f2 e He) as [-> _]. by split.
Qed.

Lemma Apply_wf now (f : node_fsm) (e : Log D) : fsm_wf f → fsm_wf (Apply now f e).1.1.
Proof.
  intros Hf. destruct (log_command e) as [cmd|] eqn:He.
  - rewrite (Apply_command _ _ _ _ He). by apply applyCommand_wf.
  - by destruct (Apply_noop now f e He) as [-> _].
Qed.

Lemma Apply_view now (f : node_fsm) (e : Log D) :
  fsm_wf f →
  views (applier (Apply now f e).1.1) =
    from_option (λ cmd, member_step cmd (views (applier f))) (views (applier f)) (log_command e).
Proof.
  intros Hf. destruct (log_command e) as [cmd|] eqn:He; simpl.
  - rewrite (Apply_command _ _ _ _ He).
    pose proof (applyCommand_view now f cmd (fwf_members _ Hf)) as Hv. simpl in Hv. exact Hv.
  - by destruct (Apply_noop now f e He) as [-> _].
Qed.

(** The hooks of the tables never change: with both set at the start, both stay. *)
Definition hooked (f : node_fsm) : Prop :=
  (Locks.Emit <$> fsm_locks f) = Some true ∧ (Leases.Emit <$> fsm_leases f) = Some true.

Lemma fresh_ok now id addr : fsm_wf (fresh now id addr) ∧ hooked (fresh now id addr).
Proof.
  split; [|done]. split; simpl; [apply engine_wf_New| |].
  - split; simpl; [intros n r; by rewrite lookup_empty|]. rewrite map_size_empty. lia.
  - split; simpl; rewrite fmap_empty; [intros n r; by rewrite lookup_empty|]. rewrite map_size_empty. lia.
Qed.

Ltac hook_cases :=
  intros; unfold Locks.Acquire, Locks.Release, Locks.Renew, Locks.Expire, Locks.Restore,
    Leases.Grant, Leases.Revoke, Leases.Renew, Leases.Expire, Leases.Restore;
  repeat case_match; simpl; congruence.

Lemma lock_hook now t n h d ttl k s :
  Locks.Emit (Locks.Acquire now t n h d ttl).1.1 = Locks.Emit t ∧
  Locks.Emit (Locks.Release t n h k).1.1 = Locks.Emit t ∧
  Locks.Emit (Locks.Renew t n h k d ttl).1.1 = Locks.Emit t ∧
  Locks.Emit (Locks.Expire t n k).1.1 = Locks.Emit t ∧
  Locks.Emit (Locks.Restore t s).1 = Locks.Emit t.
Proof. split_and!; hook_cases. Qed.
Lemma lease_hook now t n h d ttl k s :
  Leases.Emit (Leases.Grant now t n h d ttl).1.1 = Leases.Emit t ∧
  Leases.Emit (Leases.Revoke t n h k).1.1 = Leases.Emit t ∧
  Leases.Emit (Leases.Renew t n h k d ttl).1.1 = Leases.Emit t ∧
  Leases.Emit (Leases.Expire t n k).1.1 = Leases.Emit t ∧
  Leases.Emit (Leases.Restore t s) = Leases.Emit t.
Proof. split_and!; hook_cases. Qed.

Lemma Apply_hooked now f (e : Log D) : hooked f → hooked (Apply now f e).1.1.
Proof.
  intros Hf. destruct (log_command e) as [cmd|] eqn:He;
    [|by destruct (Apply_noop now f e He) as [-> _]].
  rewrite (Apply_command _ _ _ _ He). destruct f as [m l s], Hf as [Hl Hs]; simpl in Hl, Hs.
  destruct l as [l|], s as [s|]; simplify_eq/=.
  destruct (lock_hook now l (Name cmd) (ID cmd) (deadlineOf cmd) (ttlOf cmd) (Token cmd) (Locks.MkSnapshot [] 0))
    as (? & ? & ? & ? & _).
  destruct (lease_hook now s (Name cmd) (ID cmd) (deadlineOf cmd) (ttlOf cmd) (Token cmd) (Leases.MkSnapshot [] 0))
    as (? & ? & ? & ? & _).
  unfold applyCommand, hooked; destruct (Kind cmd); simpl; try (split; congruence).
  destruct (JoinAs _ _ _ _ _) as [[m' []] ?]; simpl; split; congruence.
Qed.

(** ** The invariant *)

(** What an FSM that reflects the first [i] entries of the log looks like: tables
    equivalent to those of the reference run, and every member the log lists is
    there as the log has it. *)
Record reflects es (i : nat) (f : node_fsm) : Prop := {
  ref_index : i ≤ length es;
  ref_wf : fsm_wf f;
  ref_hooked : hooked f;
  ref_equiv : fsm_equiv f (replay (take i es));
  ref_named : views (applier f) !! "" = None;
  ref_view : log_view (take i es) ⊆ views (applier f);
}.

Record cluster_inv c : Prop := {
  inv_nodes : ∀ id r, cl_nodes c !! id = Some r → reflects (cl_log c) (rp_applied r) (rp_fsm r);
  inv_snaps : ∀ i d, (i, d) ∈ cl_snaps c →
    ∃ f, reflects (cl_log c) i f ∧ codec_dom (payloadOf f) ∧ Snapshot f = Ok d;
  inv_answers : ∀ a, a ∈ cl_answers c → ∃ e, cl_log c !! an_index a = Some e ∧
    an_resp a = replay_answer (cl_log c) (an_index a) e;
}.

Lemma replay_snoc es e : replay (es ++ [e]) = (Apply 0 (replay es) e).1.1.
Proof. unfold replay, apply_entries. by rewrite fmap_app, foldl_app. Qed.

Lemma replay_ok es : fsm_wf (replay es) ∧ hooked (replay es).
Proof.
  induction es as [|e es [IH1 IH2]] using rev_ind; [apply fresh_ok|].
  rewrite replay_snoc. split; [by apply Apply_wf|by apply Apply_hooked].
Qed.

Lemma log_view_snoc es e :
  log_view (es ++ [e]) = from_option (λ cmd, member_step cmd (log_view es)) (log_view es) (log_command e).
Proof. unfold log_view. rewrite omap_app, foldl_app. simpl. by destruct (log_command e). Qed.

Lemma member_step_mono cmd v1 v2 : v1 ⊆ v2 → member_step cmd v1 ⊆ member_step cmd v2.
Proof.
  intros Hv. apply map_subseteq_spec. intros id x Hx.
  assert (v1 !! id = v2 !! id ∨ v1 !! id = None) as [Heq|Hn].
  { destruct (v1 !! id) as [y|] eqn:E; [|by right]. left. symmetry. by eapply lookup_weaken. }
  - by rewrite <-(member_step_agree id cmd v1 v2 Heq).
  - unfold member_step in *. destruct (Kind cmd); try congruence.
    + case_match; [congruence|]. rewrite lookup_insert in Hx |- *. case_decide; congruence.
    + rewrite lookup_alter in Hx. case_decide; [subst; by rewrite Hn in Hx|congruence].
    + rewrite lookup_delete in Hx. case_decide; congruence.
Qed.

Lemma reflects_fresh es now id addr : id ≠ "" → reflects es 0 (fresh now id addr).
Proof.
  intros Hid. destruct (fresh_ok now id addr). split; [lia|done|done| | |].
  - by split; constructor.
  - unfold fresh, views. simpl. by rewrite lookup_fmap, lookup_singleton_ne.
  - apply map_empty_subseteq.
Qed.

Lemma reflects_Apply es i f now e :
  reflects es i f → es !! i = Some e →
  reflects es (S i) (Apply now f e).1.1 ∧ (Apply now f e).1.2 = replay_answer es i e.
Proof.
  intros [Hi Hwf Hh Heq Hn Hv] He. destruct (replay_ok (take i es)) as [Hw _].
  destruct (Apply_equiv now 0 f (replay (take i es)) e Hwf Hw Heq) as [Hr Heq'].
  split; [|exact Hr]. split.
  - by apply lookup_lt_Some in He.
  - by apply Apply_wf.
  - by apply Apply_hooked.
  - by rewrite (take_S_r _ _ _ He), replay_snoc.
  - rewrite Apply_view by done. destruct (log_command e) as [cmd|]; simpl; [|done].
    unfold member_step. destruct (Kind cmd); try done.
    + destruct (str_empty (ID cmd)) eqn:E; [done|]. apply str_empty_false in E. by rewrite lookup_insert_ne.
    + rewrite lookup_alter. case_decide as E; [by rewrite E, Hn|done].
    + rewrite lookup_delete. by case_decide.
  - rewrite (take_S_r _ _ _ He), log_view_snoc, Apply_view by done.
    destruct (log_command e); simpl; [by apply member_step_mono|done].
Qed.

(** Two FSMs with both hooks set agree on the hooks table by table. *)
Lemma hooked_agree f0 f :
  hooked f0 → hooked f →
  option_Forall2 (λ t0 t, Locks.Emit t0 = Locks.Emit t) (fsm_locks f0) (fsm_locks f) ∧
  option_Forall2 (λ t0 t, Leases.Emit t0 = Leases.Emit t) (fsm_leases f0) (fsm_leases f).
Proof.
  destruct f0 as [? [l0|] [s0|]], f as [? [l|] [s|]]; intros [H1 H2] [H3 H4]; simplify_eq/=.
  split; constructor; congruence.
Qed.

Lemma hooked_equiv f0 f : fsm_equiv f0 f → hooked f → hooked f0.
Proof.
  destruct f0 as [? l0 s0], f as [? l s]. intros [Hl Hs] [H1 H2]. simpl in *.
  inversion Hl as [? ? (_ & _ & E1)|]; simplify_eq/=. inversion Hs as [? ? (_ & _ & E2)|]; simplify_eq/=.
  split; simpl; f_equal; congruence.
Qed.

Lemma reflects_Restore es i j f f0 now d f1 eff :
  reflects es i f → codec_dom (payloadOf f) → Snapshot f = Ok d → reflects es j f0 →
  Restore now f0 d = (f1, None, eff) → reflects es i f1.
Proof.
  intros [Hi Hwf Hh Heq Hn Hv] Hdom Hs [_ Hwf0 Hh0 _ Hn0 _] Hr.
  destruct (decode_encode _ Hdom) as (d' & Henc & Hdec). unfold Snapshot in Hs. rewrite Henc in Hs.
  injection Hs as ->. unfold Restore in Hr. rewrite Hdec in Hr.
  assert (f1 = (restorePayload now f0 (payloadOf f)).1) as -> by (cbv zeta in Hr; congruence). clear Hr.
  destruct (hooked_agree f0 f Hh0 Hh) as [Hel Hes].
  pose proof (restorePayload_equiv now f f0 Hwf Hel Hes) as Hq.
  destruct (restorePayload_view now f f0 Hwf Hwf0 Hn) as [_ Hview].
  split; [done|by apply restorePayload_wf|by eapply hooked_equiv| | |].
  - destruct Hq as [Q1 Q2], Heq as [Q3 Q4]. split; [by etrans|by etrans].
  - rewrite Hview. by apply lookup_union_None.
  - rewrite Hview. etrans; [exact Hv|]. apply map_union_subseteq_l.
Qed.

Lemma reflects_append es es' i f : reflects es i f → reflects (es ++ es') i f.
Proof.
  intros [Hi Hwf Hh Heq Hn Hv]. split; try done.
  - rewrite length_app. lia.
  - by rewrite take_app_le.
  - by rewrite take_app_le.
Qed.

Lemma replay_answer_append es es' i e :
  i ≤ length es → replay_answer (es ++ es') i e = replay_answer es i e.
Proof. intros Hi. unfold replay_answer. by rewrite take_app_le. Qed.

Lemma cstep_inv c c' : cluster_inv c → cstep c c' → cluster_inv c'.
Proof.
  intros [Hn Hs Ha] Hst. destruct Hst as [now id addr Hid|e|now id r e Hr He|id r d Hr Hdom Hd|now id r i d f eff Hr Hi Hd];
    split; simpl; try done.
  - intros id' r' [[<- <-]|[_ ?]]%lookup_insert_Some; [by apply reflects_fresh|by eapply Hn].
  - intros id' r' Hr. by eapply reflects_append, Hn.
  - intros i d Hi. destruct (Hs i d Hi) as (f & ? & ?). exists f. split; [by apply reflects_append|done].
  - intros a Hin. destruct (Ha a Hin) as (e' & He & ->). exists e'. pose proof (lookup_lt_Some _ _ _ He).
    rewrite lookup_app_l by done. split; [done|]. rewrite replay_answer_append; [done|lia].
  - intros id' r' [[<- <-]|[_ ?]]%lookup_insert_Some; [|by eapply Hn].
    by apply (reflects_Apply _ _ _ now e (Hn _ _ Hr) He).
  - intros a [->|Hin]%elem_of_cons; [|by apply Ha]. exists e. split; [done|].
    by apply (reflects_Apply _ _ _ now e (Hn _ _ Hr) He).
  - intros i d' [[= -> ->]|Hin]%elem_of_cons; [|by apply Hs]. eexists. split; [by eapply Hn|done].
  - intros id' r' [[<- <-]|[_ ?]]%lookup_insert_Some; [|by eapply Hn]. simpl.
    destruct (Hs i d Hi) as (f0 & Hf0 & Hdom & Hsn). by eapply reflects_Restore, Hd; [..|by eapply Hn].
Qed.

Lemma reachable_inv c : reachable c → cluster_inv c.
Proof.
  intros Hr. eapply (rtc_ind_r cluster_inv no_servers); [|by intros ? ? _ Hst ?; eapply cstep_inv|exact Hr].
  split; simpl; [intros id r; by rewrite lookup_empty|by intros i d ?%elem_of_nil|by intros a ?%elem_of_nil].
Qed.

(** ** The reference run as a run of [GrantSpec] *)

(** [P f G]: the table of [f] that [g] reads stands for the grants [G]. *)
Definition tracks (g : Command * response → option (gop * gresp)) (adm : string → string → Prop) (cap : nat)
    (P : node_fsm → Grants → Prop) : Prop :=
  ∀ f G now cmd, P f G → ∃ G', P (applyCommand now f cmd).1.1 G' ∧
    match g (cmd, (applyCommand now f cmd).1.2) with
    | Some (o, r) => gstep adm cap G o r G'
    | None => G' = G
    end.

Lemma answers_grun g adm cap P f G es :
  tracks g adm cap P → P f G → ∃ G', grun adm cap G (omap (entry_gop g) (answers_from f es)) G' ∧
    P (apply_entries f ((λ e, (0%Z, e)) <$> es)) G'.
Proof.
  intros Ht. revert f G; induction es as [|e es IH]; intros f G HP; simpl; [exists G; split; [constructor|done]|].
  unfold entry_gop at 1. simpl. destruct (log_command e) as [cmd|] eqn:He; simpl.
  - rewrite (Apply_command _ _ _ _ He). destruct (Ht f G 0%Z cmd HP) as (G1 & HP1 & Hg).
    destruct (IH _ _ HP1) as (G2 & Hrun & HP2). destruct (g _) as [[o r]|]; [|subst; by exists G2].
    exists G2. split; [by econstructor|done].
  - destruct (Apply_noop 0 f e He) as [-> _]. by apply IH.
Qed.

Definition lock_grants (f : node_fsm) (G : Grants) : Prop :=
  ∃ t, fsm_locks f = Some t ∧ gl_wf t ∧ lock_abs t = G.
Definition lease_grants (f : node_fsm) (G : Grants) : Prop :=
  ∃ t, fsm_leases f = Some t ∧ gl_wf t ∧ lease_abs t = G.

Lemma tracks_locks : tracks lock_gop (gl_adm Locks.Table) (gl_cap Locks.Table) lock_grants.
Proof.
  intros f G now cmd (t & Ht & Hwf & <-).
  destruct (applyCommand_locks now f cmd t Hwf Ht) as (t' & Ht' & Hwf' & Hg).
  exists (lock_abs t'). split; [by exists t'|]. destruct (lock_gop _) as [[o r]|]; [exact Hg|by subst].
Qed.
Lemma tracks_leases : tracks lease_gop (gl_adm Leases.Table) (gl_cap Leases.Table) lease_grants.
Proof.
  intros f G now cmd (t & Ht & Hwf & <-).
  destruct (applyCommand_leases now f cmd t Hwf Ht) as (t' & Ht' & Hwf' & Hg).
  exists (lease_abs t'). split; [by exists t'|]. destruct (lease_gop _) as [[o r]|]; [exact Hg|by subst].
Qed.

Lemma empty_grants :
  lock_grants (replay []) (MkGrants ∅ 0) ∧ lease_grants (replay []) (MkGrants ∅ 0).
Proof.
  destruct (fresh_ok 0 "" "") as [[_ Hl Hs] _]. split.
  - exists (Locks.MkTable ∅ 0 true). split_and!; [done|exact Hl|]. unfold lock_abs; simpl. by rewrite fmap_empty.
  - exists (Leases.MkTable ∅ 0 true). split_and!; [done|exact Hs|].
    unfold lease_abs, as_lock, lock_abs; simpl. by rewrite !fmap_empty.
Qed.

(** The locks, and the leases, of the reference run. *)
Definition log_ops (g : Command * response → option (gop * gresp)) es : list (gop * gresp) :=
  omap (entry_gop g) (answers_from (replay []) es).

Lemma log_locks es : ∃ G, grun lock_adm MaxLocks (MkGrants ∅ 0) (log_ops lock_gop es) G ∧ lock_grants (replay es) G.
Proof. apply (answers_grun _ _ _ lock_grants _ _ es tracks_locks (proj1 empty_grants)). Qed.
Lemma log_leases es : ∃ G, grun lock_adm MaxLeases (MkGrants ∅ 0) (log_ops lease_gop es) G ∧ lease_grants (replay es) G.
Proof. apply (answers_grun _ _ _ lease_grants _ _ es tracks_leases (proj2 empty_grants)). Qed.

Lemma log_grun g es :
  g = lock_gop ∨ g = lease_gop → ∃ adm cap G', grun adm cap (MkGrants ∅ 0) (log_ops g es) G'.
Proof. intros [-> | ->]; [destruct (log_locks es) as (G & ? & _)|destruct (log_leases es) as (G & ? & _)]; by eexists _, _, _. Qed.

(** Equivalent tables hold the same grants. *)
Lemma lock_equiv_abs t1 t2 : lock_equiv t1 t2 → lock_abs t1 = lock_abs t2.
Proof.
  intros (Hl & Hn & _). unfold lock_abs. f_equal; [|done].
  assert (∀ m : gmap string LockRecord,
    (λ r, (lk_Holder r, lk_Token r)) <$> m = (λ r, (lk_Holder r, lk_Token r)) <$> (lock_erase <$> m)) as Herase.
  { intros m. rewrite <-map_fmap_compose. by apply map_fmap_ext. }
  rewrite Herase, Hl, <-Herase. done.
Qed.

Lemma answers_length f es : length (answers_from f es) = length es.
Proof. revert f; induction es as [|e es IH]; intros f; simpl; auto. Qed.

Lemma answers_lookup es i e :
  es !! i = Some e → answers_from (replay []) es !! i = Some (e, replay_answer es i e).
Proof.
  unfold replay_answer, replay. simpl. generalize (fresh 0 "" ""). intros f. revert f i.
  induction es as [|e' es IH]; intros f [|i] Hi; simplify_eq/=; [done|]. by rewrite IH.
Qed.

Lemma list_split2 {A} (l : list A) i j x y :
  l !! i = Some x → l !! j = Some y → i < j →
  l = take i l ++ x :: take (j - S i) (drop (S i) l) ++ y :: drop (S j) l.
Proof.
  intros Hx Hy Hij. rewrite <-(take_drop_middle l i x Hx) at 1. do 2 f_equal.
  assert (drop (S i) l !! (j - S i) = Some y) as Hd by (rewrite lookup_drop; by replace (S i + (j - S i)) with j by lia).
  rewrite <-(take_drop_middle _ _ _ Hd) at 1. do 2 f_equal. rewrite drop_drop. f_equal. lia.
Qed.

Lemma log_fenced g es i j e1 e2 n h1 h2 t1 t2 :
  (Z.of_nat (length es) < two64)%Z → g = lock_gop ∨ g = lease_gop → i < j →
  es !! i = Some e1 → es !! j = Some e2 →
  entry_gop g (e1, replay_answer es i e1) = Some (GAcquire n h1, RGranted t1) →
  entry_gop g (e2, replay_answer es j e2) = Some (GAcquire n h2, RGranted t2) → h1 ≠ h2 →
  (t1 < t2)%Z ∧ ∃ k e, i < k < j ∧ es !! k = Some e ∧
    ended_by (entry_gop g) n h1 t1 (e, replay_answer es k e).
Proof.
  intros Hlen Hg Hij H1 H2 G1 G2 Hne. destruct (log_grun g es Hg) as (adm & cap & G' & Hrun).
  pose proof (list_split2 _ _ _ _ _ (answers_lookup _ _ _ H1) (answers_lookup _ _ _ H2) Hij) as Hsp.
  unfold log_ops in Hrun. rewrite Hsp in Hrun.
  eapply trace_exclusion in Hrun as [Hlt Hex]; [|apply grants_wf_empty| |exact G1|exact G2|exact Hne];
    [|rewrite <-Hsp, answers_length; unfold room; simpl; lia].
  split; [done|]. apply Exists_exists in Hex as (x & Hx & He).
  apply list_elem_of_lookup in Hx as [k Hk]. apply lookup_take_Some in Hk as [Hk Hlt'].
  rewrite lookup_drop in Hk. assert (is_Some (es !! (S i + k))) as [e Hek].
  { apply lookup_lt_is_Some. rewrite <-(answers_length (replay []) es). by eapply lookup_lt_Some. }
  rewrite (answers_lookup _ _ _ Hek) in Hk. injection Hk as <-. exists (S i + k), e. split_and!; [lia|lia|done|done].
Qed.

End inv.

(** ** A server of the cluster, as its [consensus.Node] sees raft *)

(** What raft reports for an entry it was asked to commit: applied, refused, or
    an error that leaves open what became of the entry. *)
Inductive fate : Type := Acked | Refused (err : error) | InDoubt (err : error).

Section node.
Context `{Unicode} {D : Type} `{CC : Codec D Command} `{CS : Codec D snapshotPayload}.
Context (me : string) (clock : nat → Time).
(** The parts of raft the log does not determine: elections and the configuration. *)
Context (report : Cluster D → D → fate) (servers : Cluster D → result error (list Server)).
Context (leads : Cluster D → bool) (leader : Cluster D → string * string).
Context (change : Cluster D → option error) (gone : error).

Definition apply_next (c : Cluster D) (e : Log D) : Cluster D :=
  match cl_nodes c !! me with
  | Some r => apply_at c (clock (rp_applied r)) me r e
  | None => c
  end.
Definition catch_up (c : Cluster D) : Cluster D :=
  match cl_nodes c !! me with
  | Some r => foldl apply_next c (drop (rp_applied r) (cl_log c))
  | None => c
  end.
Definition node_view (c : Cluster D) : node_fsm :=
  from_option rp_fsm (fresh 0 "" "") (cl_nodes c !! me).

(** The server first applies what it has not yet, then the new entry. *)
Definition cluster_Apply (c : Cluster D) (d : D) : Cluster D * result error response :=
  let e := MkLog (Z.of_nat (S (length (cl_log c)))) LogCommand d in
  match report c d, cl_nodes c !! me with
  | Refused err, _ => (c, Fail err)
  | InDoubt err, _ => (append c e, Fail err)
  | Acked, None => (c, Fail gone)
  | Acked, Some _ =>
    let c1 := append (catch_up c) e in
    (apply_next c1 e, Ok (Apply (clock (from_option rp_applied 0 (cl_nodes c1 !! me))) (node_view c1) e).1.2)
  end.

Lemma apply_next_view c e :
  is_Some (cl_nodes c !! me) →
  ∃ now, node_view (apply_next c e) = (Apply now (node_view c) e).1.1 ∧ is_Some (cl_nodes (apply_next c e) !! me).
Proof.
  intros [r Hr]. exists (clock (rp_applied r)). unfold apply_next, node_view. rewrite Hr. simpl.
  rewrite lookup_insert_eq. by split.
Qed.

Lemma apply_nexts_view c es :
  is_Some (cl_nodes c !! me) →
  ∃ pre, node_view (foldl apply_next c es) = apply_entries (node_view c) pre ∧
    is_Some (cl_nodes (foldl apply_next c es) !! me).
Proof.
  revert c; induction es as [|e es IH]; intros c Hr; simpl; [by exists []|].
  destruct (apply_next_view c e Hr) as (now & Hv & Hr'). destruct (IH _ Hr') as (pre & Hp & ?).
  exists ((now, e) :: pre). by rewrite Hp, Hv.
Qed.

Lemma catch_up_view c :
  is_Some (cl_nodes c !! me) →
  ∃ pre, node_view (catch_up c) = apply_entries (node_view c) pre ∧ is_Some (cl_nodes (catch_up c) !! me).
Proof. intros [r Hr]. unfold catch_up. rewrite Hr. by apply apply_nexts_view. Qed.

(** A server of the cluster keeps the contract of [RaftLib]. *)
Definition cluster_node : RaftLib (Cluster D) D.
Proof.
  refine {|
    raft_fsm := node_view;
    raft_Apply := cluster_Apply;
    raft_GetConfiguration := servers;
    raft_AddVoter c _ _ := (c, change c);
    raft_AddNonvoter c _ _ := (c, change c);
    raft_RemoveServer c _ := (c, change c);
    raft_State_leader := leads;
    raft_LeaderWithID := leader;
    raft_Shutdown c := (c, None);
  |}.
  intros c d c' resp Ha. unfold cluster_Apply in Ha.
  destruct (report c d); [|done..]. destruct (cl_nodes c !! me) as [r|] eqn:Hr; [|done].
  destruct (catch_up_view c ltac:(eauto)) as (pre & Hp & r' & Hr').
  injection Ha as <- <-. set (e := MkLog _ LogCommand d).
  assert (node_view (append (catch_up c) e) = node_view (catch_up c)) as Hv by done.
  exists pre, (clock (rp_applied r')), (Z.of_nat (S (length (cl_log c)))), [].
  cbv zeta. fold e. rewrite <-Hp, Hv. split.
  - cbn [append cl_nodes]. by rewrite Hr'.
  - unfold apply_next. cbn [append cl_nodes]. rewrite Hr'.
    unfold node_view, apply_at. cbn [cl_nodes]. rewrite lookup_insert_eq, Hr'. done.
Defined.

(** Everything [cluster_Apply] does is a step of the cluster. *)
Lemma apply_nexts_steps c es r :
  cl_nodes c !! me = Some r → drop (rp_applied r) (cl_log c) = es →
  rtc cstep c (foldl apply_next c es) ∧ cl_log (foldl apply_next c es) = cl_log c ∧
  ∃ r', cl_nodes (foldl apply_next c es) !! me = Some r' ∧ rp_applied r' = rp_applied r + length es.
Proof.
  revert c r; induction es as [|e es IH]; intros c r Hr Hd; simpl.
  { split_and!; [done|done|]. exists r. split; [done|lia]. }
  assert (cl_log c !! rp_applied r = Some e) as He.
  { rewrite <-(Nat.add_0_r (rp_applied r)), <-lookup_drop. by rewrite Hd. }
  assert (apply_next c e = apply_at c (clock (rp_applied r)) me r e) as Hn by (unfold apply_next; by rewrite Hr).
  rewrite Hn. destruct (IH (apply_at c (clock (rp_applied r)) me r e)
    (MkReplica (Apply (clock (rp_applied r)) (rp_fsm r) e).1.1 (S (rp_applied r)))) as (Hst & Hl & r' & Hr' & Ha').
  - simpl. by rewrite lookup_insert_eq.
  - simpl. rewrite (drop_S _ _ _ He) in Hd. by injection Hd.
  - split_and!; [|done|].
    + eapply rtc_l; [by apply cs_apply|done].
    + exists r'. split; [done|]. simpl in Ha'. lia.
Qed.

Lemma cluster_Apply_steps c d c' res :
  cluster_inv c → cluster_Apply c d = (c', res) →
  rtc cstep c c' ∧
  match res with
  | Ok resp => cl_log c' = cl_log c ++ [MkLog (Z.of_nat (S (length (cl_log c)))) LogCommand d] ∧
      MkAnswer me (length (cl_log c)) resp ∈ cl_answers c'
  | Fail _ => True
  end.
Proof.
  intros Hinv Ha. unfold cluster_Apply in Ha. destruct (report c d); simplify_eq.
  - destruct (cl_nodes c !! me) as [r|] eqn:Hr; simplify_eq; [|done].
    destruct (apply_nexts_steps c _ r Hr eq_refl) as (Hst & Hl & r' & Hr' & Hi).
    assert (catch_up c = foldl apply_next c (drop (rp_applied r) (cl_log c))) as Hc by (unfold catch_up; by rewrite Hr).
    rewrite Hc. set (c1 := foldl apply_next c _) in *.
    rewrite length_drop in Hi. pose proof (ref_index _ _ _ (inv_nodes _ Hinv _ _ Hr)) as Hle.
    assert (rp_applied r' = length (cl_log c)) as Hi' by lia.
    set (e := MkLog (Z.of_nat (S (length (cl_log c)))) LogCommand d) in *.
    assert (apply_next (append c1 e) e = apply_at (append c1 e) (clock (rp_applied r')) me r' e) as Hn
      by (unfold apply_next; simpl; by rewrite Hr').
    rewrite Hn. split_and!.
    + etrans; [exact Hst|]. eapply rtc_l; [apply (cs_commit c1 e)|]. apply rtc_once, cs_apply; [exact Hr'|].
      simpl. rewrite Hl, Hi'. rewrite lookup_app_r, Nat.sub_diag by done. done.
    + simpl. by rewrite Hl.
    + simpl. unfold node_view. simpl. rewrite Hr'. simpl. rewrite Hi'. apply elem_of_cons. by left.
  - done.
  - split; [|done]. apply rtc_once, cs_commit.
Qed.

End node.

(** ** Properties of the cluster *)

Section props.
Context `{Unicode} {D : Type} `{CC : Codec D Command} `{CS : Codec D snapshotPayload}.

(** C5: Servers of one cluster agree, through restarts and through snapshots of
    other servers: two that reflect the same number of entries have equivalent
    lock and lease tables; no two [Apply] calls ever answer the same entry
    differently, whichever server, clock or restart; and every member the log
    lists is listed on every server that reflects that much of the log, with the
    same address, status and role. *)
Theorem cluster_servers_agree (c : Cluster D) :
  reachable c →
  (∀ id1 id2 r1 r2, cl_nodes c !! id1 = Some r1 → cl_nodes c !! id2 = Some r2 →
    rp_applied r1 = rp_applied r2 → fsm_equiv (rp_fsm r1) (rp_fsm r2)) ∧
  (∀ a1 a2, a1 ∈ cl_answers c → a2 ∈ cl_answers c → an_index a1 = an_index a2 → an_resp a1 = an_resp a2) ∧
  (∀ id r m v, cl_nodes c !! id = Some r → log_view (take (rp_applied r) (cl_log c)) !! m = Some v →
    views (applier (rp_fsm r)) !! m = Some v).
Proof.
  intros [Hn _ Ha]%reachable_inv. split_and!.
  - intros id1 id2 r1 r2 H1 H2 Hi. destruct (Hn _ _ H1) as [_ _ _ [L1 S1] _ _], (Hn _ _ H2) as [_ _ _ [L2 S2] _ _].
    rewrite Hi in L1, S1. split; (etrans; [eassumption|by symmetry]).
  - intros a1 a2 H1 H2 Hi. destruct (Ha _ H1) as (e1 & E1 & ->), (Ha _ H2) as (e2 & E2 & ->).
    rewrite Hi in E1 |- *. congruence.
  - intros id r m v Hr Hv. eapply lookup_weaken; [exact Hv|]. by apply (ref_view _ _ _ (Hn _ _ Hr)).
Qed.

(** C4: The cluster refines the specification of locks and leases.  The answers of
    the log are a run of [GrantSpec] from no grants, for locks and for leases; on
    every server, after any restarts and restored snapshots, the lock table and the
    lease table stand for the state of that run after the entries the server
    reflects; and every answer a server ever gave is the one of that run. *)
Theorem cluster_refines_grants (c : Cluster D) id r :
  reachable c → cl_nodes c !! id = Some r →
  ∃ t s, fsm_locks (rp_fsm r) = Some t ∧ fsm_leases (rp_fsm r) = Some s ∧
    grun lock_adm MaxLocks (MkGrants ∅ 0) (log_ops lock_gop (take (rp_applied r) (cl_log c))) (lock_abs t) ∧
    grun lock_adm MaxLeases (MkGrants ∅ 0) (log_ops lease_gop (take (rp_applied r) (cl_log c))) (lease_abs s) ∧
    ∀ a, a ∈ cl_answers c → ∃ e, answers_from (replay []) (cl_log c) !! an_index a = Some (e, an_resp a).
Proof.
  intros [Hn _ Ha]%reachable_inv Hr. destruct (Hn _ _ Hr) as [_ _ _ [Hl Hs] _ _].
  destruct (log_locks (take (rp_applied r) (cl_log c))) as (G & HG & t0 & Ht0 & _ & Eq1).
  destruct (log_leases (take (rp_applied r) (cl_log c))) as (S & HS & s0 & Hs0 & _ & Eq2).
  rewrite Ht0 in Hl. rewrite Hs0 in Hs. inversion Hl as [t ? Ht Et|]; subst. inversion Hs as [s ? Hss Es|]; subst.
  exists t, s. split_and!; try done.
  - by rewrite (lock_equiv_abs _ _ Ht).
  - change (lease_equiv s s0) in Hss. unfold lease_abs. by rewrite (lock_equiv_abs _ _ Hss).
  - intros a Hin. destruct (Ha a Hin) as (e & He & ->). exists e. by apply answers_lookup.
Qed.

(** Locks and leases are exclusive and fenced across the cluster: when any
    server answered a take of [n] for [h1] with token [t1], and any server, the
    same or one that leads later, answered a later entry that takes [n] for
    another holder with [t2], then [t1 < t2], and between the two entries the log
    has one whose answer ended the first grant. *)
Theorem cluster_grants_fenced (c : Cluster D) g a1 a2 e1 e2 n h1 h2 t1 t2 :
  reachable c → (Z.of_nat (length (cl_log c)) < two64)%Z → g = lock_gop ∨ g = lease_gop →
  a1 ∈ cl_answers c → a2 ∈ cl_answers c → an_index a1 < an_index a2 →
  cl_log c !! an_index a1 = Some e1 → cl_log c !! an_index a2 = Some e2 →
  entry_gop g (e1, an_resp a1) = Some (GAcquire n h1, RGranted t1) →
  entry_gop g (e2, an_resp a2) = Some (GAcquire n h2, RGranted t2) → h1 ≠ h2 →
  (t1 < t2)%Z ∧ ∃ k e, an_index a1 < k < an_index a2 ∧ cl_log c !! k = Some e ∧
    ended_by (entry_gop g) n h1 t1 (e, replay_answer (cl_log c) k e).
Proof.
  intros [_ _ Ha]%reachable_inv Hlen Hg I1 I2 Hij H1 H2 G1 G2 Hne.
  destruct (Ha _ I1) as (e1' & E1 & R1), (Ha _ I2) as (e2' & E2 & R2). simplify_eq.
  rewrite R1 in G1. rewrite R2 in G2. by eapply log_fenced.
Qed.

(** A server that stays behind can always catch up by steps of its own, and then
    has the tables of the whole log. *)
Lemma server_catches_up (c : Cluster D) id r :
  reachable c → cl_nodes c !! id = Some r →
  ∃ c' r', rtc cstep c c' ∧ cl_log c' = cl_log c ∧ cl_nodes c' !! id = Some r' ∧
    rp_applied r' = length (cl_log c) ∧ fsm_equiv (rp_fsm r') (replay (cl_log c)).
Proof.
  intros Hc Hr. destruct (apply_nexts_steps id (λ _, 0%Z) c _ r Hr eq_refl) as (Hst & Hl & r' & Hr' & Hi).
  pose proof (ref_index _ _ _ (inv_nodes _ (reachable_inv _ Hc) _ _ Hr)) as Hle. rewrite length_drop in Hi.
  eexists _, r'. split_and!; [exact Hst|exact Hl|exact Hr'|lia|].
  assert (reachable (foldl (apply_next id (λ _, 0%Z)) c (drop (rp_applied r) (cl_log c)))) as [Hn _ _]%reachable_inv
    by (unfold reachable; by etrans).
  destruct (Hn _ _ Hr') as [_ _ _ Heq _ _]. rewrite Hl in Heq. by rewrite take_ge in Heq by lia.
Qed.

Lemma rtc_log_prefix (c c' : Cluster D) : rtc cstep c c' → ∃ es, cl_log c' = cl_log c ++ es.
Proof.
  induction 1 as [c|c c1 c' Hst _ (es & ->)]; [exists []; by rewrite app_nil_r|].
  destruct Hst; simpl; eauto. rewrite <-app_assoc. eauto.
Qed.

Lemma cstep_answers (c c' : Cluster D) a : rtc cstep c c' → a ∈ cl_answers c → a ∈ cl_answers c'.
Proof.
  induction 1 as [c|c c1 c' Hst _ IH]; [done|]. intros Ha. apply IH. destruct Hst; simpl; auto.
  apply elem_of_cons. by right.
Qed.

(** A lock a server's [ApplyLockAcquire] returned: the entry and its answer. *)
Definition granted_at (c : Cluster D) (i : nat) (n h : string) (t : Z) : Prop :=
  ∃ e a, cl_log c !! i = Some e ∧ a ∈ cl_answers c ∧ an_index a = i ∧
    entry_gop lock_gop (e, an_resp a) = Some (GAcquire n h, RGranted t).

Lemma granted_later c c' i n h t : rtc cstep c c' → granted_at c i n h t → granted_at c' i n h t.
Proof.
  intros Hst (e & a & He & Ha & Hi & Hg). exists e, a. split_and!; [|by eapply cstep_answers|done|done].
  destruct (rtc_log_prefix _ _ Hst) as [es ->]. by apply lookup_app_l_Some.
Qed.

Lemma acquire_granted me clock report servers leads leader change gone now w n h ttl w' t :
  let RL := cluster_node (D := D) me clock report servers leads leader change gone in
  reachable w → codec_dom (timed CmdLockAcquire h n 0 now (Locks.ClampTTL ttl 0)) →
  ApplyLockAcquire (H1 := RL) now w n h ttl = (w', Ok (t, true)) →
  rtc cstep w w' ∧ length (cl_log w') = S (length (cl_log w)) ∧ granted_at w' (length (cl_log w)) n h t.
Proof.
  intros RL Hw (d & He & Hd)%encodeCommand_decode Ha. unfold ApplyLockAcquire, commit in Ha.
  rewrite He in Ha. unfold applyLock in Ha. cbn [raft_Apply RL cluster_node] in Ha.
  destruct (cluster_Apply _ _ _ _ _ _) as [w1 res] eqn:Hap.
  destruct (cluster_Apply_steps _ _ _ _ _ _ _ _ (reachable_inv _ Hw) Hap) as [Hst Hres].
  destruct res as [[|?|r]|]; simplify_eq/=. destruct (Err r) eqn:Herr; simplify_eq/=.
  destruct Hres as [Hlog Hin]. split_and!; [done|by rewrite Hlog, length_app, Nat.add_1_r|].
  eexists _, _. split_and!; [rewrite Hlog; by apply list_lookup_middle|exact Hin|done|].
  unfold entry_gop, log_command. cbn [fst snd lg_Type lg_Data]. rewrite Hd. simpl.
  unfold lock_gop, take_gresp. cbn. destruct r as [acq tok dl err]. simpl in *. by subst.
Qed.

(** C3: Failover is fenced end to end: if the node of one server returned lock
    [n] to [h1] with token [t1], and after any steps of the cluster, restarts,
    snapshots and elections among them, the node of any server returns [n] to
    another holder with [t2], then [t1 < t2] and the log has an entry between the
    two that ended the first grant; raft may report what it likes of each call. *)
Theorem failover_fenced me1 me2 clock1 clock2 report1 report2 servers leads leader change gone
    now1 now2 (w1 w2 w3 w4 : Cluster D) n h1 h2 ttl1 ttl2 t1 t2 :
  let node1 := cluster_node me1 clock1 report1 servers leads leader change gone in
  let node2 := cluster_node me2 clock2 report2 servers leads leader change gone in
  reachable w1 →
  codec_dom (timed CmdLockAcquire h1 n 0 now1 (Locks.ClampTTL ttl1 0)) →
  codec_dom (timed CmdLockAcquire h2 n 0 now2 (Locks.ClampTTL ttl2 0)) →
  ApplyLockAcquire (H1 := node1) now1 w1 n h1 ttl1 = (w2, Ok (t1, true)) →
  rtc cstep w2 w3 →
  ApplyLockAcquire (H1 := node2) now2 w3 n h2 ttl2 = (w4, Ok (t2, true)) →
  h1 ≠ h2 → (Z.of_nat (length (cl_log w4)) < two64)%Z →
  (t1 < t2)%Z ∧ ∃ k e, length (cl_log w1) < k < length (cl_log w3) ∧ cl_log w4 !! k = Some e ∧
    ended_by (entry_gop lock_gop) n h1 t1 (e, replay_answer (cl_log w4) k e).
Proof.
  intros node1 node2 Hw1 Hd1 Hd2 Ha1 Hst Ha2 Hne Hlen.
  destruct (acquire_granted _ _ _ _ _ _ _ _ _ _ _ _ _ _ _ Hw1 Hd1 Ha1) as (Hst1 & Hl1 & Hg1).
  assert (reachable w3) as Hw3 by (unfold reachable; by do 2 (etrans; [eassumption|])).
  destruct (acquire_granted _ _ _ _ _ _ _ _ _ _ _ _ _ _ _ Hw3 Hd2 Ha2) as (Hst2 & Hl2 & Hg2).
  assert (reachable w4) as [_ _ Ha]%reachable_inv by (unfold reachable; by etrans).
  assert (rtc cstep w2 w4) as Hst24 by (by etrans).
  destruct (granted_later _ _ _ _ _ _ Hst24 Hg1) as (e1 & a1 & E1 & A1 & I1 & G1).
  destruct Hg2 as (e2 & a2 & E2 & A2 & I2 & G2).
  destruct (Ha _ A1) as (e1' & E1' & R1), (Ha _ A2) as (e2' & E2' & R2).
  rewrite I1 in E1', R1. rewrite I2 in E2', R2. simplify_eq. rewrite R1 in G1. rewrite R2 in G2.
  eapply log_fenced; eauto. destruct (rtc_log_prefix _ _ Hst) as [es Hes]. rewrite Hes, length_app. lia.
Qed.

End props.

(** ** Two servers, a snapshot and a failover

    [n1] grants a lock and persists a snapshot; [n2] starts, is handed the
    snapshot, applies an expiry and grants the lock to another client. *)
Module ClusterExamples.
#[export] Existing Instance latin1.

Abbreviation data := (Command + snapshotPayload)%type.
#[export] Instance command_codec : Codec data Command.
Proof.
  refine {| encode c := Ok (inl c); decode d := match d with inl c => Ok c | inr _ => Fail (Errorf "decode" []) end;
    codec_dom _ := True |}.
  intros c _. by exists (inl c).
Defined.
#[export] Instance payload_codec : Codec data snapshotPayload.
Proof.
  refine {| encode p := Ok (inr p); decode d := match d with inr p => Ok p | inl _ => Fail (Errorf "decode" []) end;
    codec_dom _ := True |}.
  intros p _. by exists (inr p).
Defined.

Definition all_acked (c : Cluster data) (d : data) : fate := Acked.
Definition server (me : string) : RaftLib (Cluster data) data :=
  cluster_node me (λ _, 7%Z) all_acked (λ _, Ok []) (λ _, true) (λ _, ("", me)) (λ _, None) (Errorf "shutdown" []).

Definition w1 : Cluster data := set_node no_servers "n1" (MkReplica (fresh 1 "n1" "10.0.0.1:7") 0).
Definition w2 : Cluster data := (ApplyLockAcquire (H1 := server "n1") 0 w1 "a" "c1" Second).1.
Definition at_node (c : Cluster data) (id : string) : replica :=
  from_option (λ r, r) (MkReplica (fresh 0 "" "") 0) (cl_nodes c !! id).
Definition snap : data := inr (payloadOf (rp_fsm (at_node w2 "n1"))).
Definition w2s : Cluster data := persist w2 1 snap.
Definition w2t : Cluster data := set_node w2s "n2" (MkReplica (fresh 2 "n2" "10.0.0.2:7") 0).
Definition w2r : Cluster data :=
  set_node w2t "n2" (MkReplica (Restore 3 (rp_fsm (at_node w2t "n2")) snap).1.1 1).
Definition expiry : Log data := MkLog 2 LogCommand (inl (MkCommand CmdLockExpire "" "" "" "a" 1 0 0)).
Definition w3 : Cluster data := apply_at (append w2r expiry) 8 "n2" (at_node w2r "n2") expiry.
Definition w4 : Cluster data := (ApplyLockAcquire (H1 := server "n2") 5 w3 "a" "c2" Second).1.

Lemma w1_reachable : reachable w1.
Proof. apply rtc_once. by apply cs_start. Qed.

Lemma w2_w3 : rtc cstep w2 w3.
Proof.
  eapply rtc_l. { apply (cs_snapshot w2 "n1" (at_node w2 "n1") snap); by vm_compute. }
  eapply rtc_l. { by apply (cs_start _ 2 "n2" "10.0.0.2:7"). }
  eapply rtc_l.
  { apply (cs_restore w2t 3 "n2" (at_node w2t "n2") 1 snap (Restore 3 (rp_fsm (at_node w2t "n2")) snap).1.1
      (Restore 3 (rp_fsm (at_node w2t "n2")) snap).2); [by vm_compute| |by vm_compute]. apply elem_of_cons. by left. }
  eapply rtc_l. { apply (cs_commit _ expiry). }
  apply rtc_once, (cs_apply (append w2r expiry) 8 "n2" (at_node w2r "n2") expiry); by vm_compute.
Qed.

Lemma w4_reachable : reachable w4.
Proof.
  assert (rtc cstep w1 w2) as H2.
  { apply (acquire_granted "n1" (λ _, 7%Z) all_acked (λ _, Ok []) (λ _, true) (λ _, ("", "n1")) (λ _, None)
      (Errorf "shutdown" []) 0 w1 "a" "c1" Second w2 1 w1_reachable I). by vm_compute. }
  assert (reachable w3) as H3.
  { unfold reachable. etrans; [apply w1_reachable|]. etrans; [exact H2|apply w2_w3]. }
  unfold reachable. etrans; [exact H3|].
  apply (acquire_granted "n2" (λ _, 7%Z) all_acked (λ _, Ok []) (λ _, true) (λ _, ("", "n2")) (λ _, None)
    (Errorf "shutdown" []) 5 w3 "a" "c2" Second w4 2 H3 I). by vm_compute.
Qed.

Lemma failover_fenced_witness :
  (1 < 2)%Z ∧ ∃ k e, 0 < k < 2 ∧ cl_log w4 !! k = Some e ∧
    ended_by (entry_gop lock_gop) "a" "c1" 1 (e, replay_answer (cl_log w4) k e).
Proof.
  apply (failover_fenced "n1" "n2" (λ _, 7%Z) (λ _, 7%Z) all_acked all_acked (λ _, Ok []) (λ _, true)
    (λ _, ("", "n1")) (λ _, None) (Errorf "shutdown" []) 0 5 w1 w2 w3 w4 "a" "c1" "c2" Second Second 1 2);
    [apply w1_reachable|exact I|exact I|by vm_compute|apply w2_w3|by vm_compute|done|by vm_compute].
Defined.

Definition granted (t : Z) : response := RespLock (MkLockResult true t 1000 None).
Lemma cluster_grants_fenced_witness :
  (1 < 2)%Z ∧ ∃ k e, 0 < k < 2 ∧ cl_log w4 !! k = Some e ∧
    ended_by (entry_gop lock_gop) "a" "c1" 1 (e, replay_answer (cl_log w4) k e).
Proof.
  apply (cluster_grants_fenced w4 lock_gop (MkAnswer "n1" 0 (RespLock (MkLockResult true 1 1000 None)))
    (MkAnswer "n2" 2 (RespLock (MkLockResult true 2 1000 None)))
    (MkLog 1 LogCommand (inl (timed CmdLockAcquire "c1" "a" 0 0 Second)))
    (MkLog 3 LogCommand (inl (timed CmdLockAcquire "c2" "a" 0 5 Second))) "a" "c1" "c2" 1 2).
  - apply w4_reachable.
  - by vm_compute.
  - by left.
  - apply elem_of_cons. right. apply elem_of_cons. right. apply elem_of_cons. by left.
  - apply elem_of_cons. by left.
  - simpl. lia.
  - by vm_compute.
  - by vm_compute.
  - by vm_compute.
  - by vm_compute.
  - done.
Defined.

Lemma cluster_servers_agree_witness :
  rp_applied (at_node w4 "n2") = 3 ∧
  ∀ id r m v, cl_nodes w4 !! id = Some r → log_view (take (rp_applied r) (cl_log w4)) !! m = Some v →
    views (applier (rp_fsm r)) !! m = Some v.
Proof. split; [by vm_compute|]. apply (cluster_servers_agree w4 w4_reachable). Defined.

Lemma cluster_refines_grants_witness :
  ∃ t s, fsm_locks (rp_fsm (at_node w4 "n2")) = Some t ∧ fsm_leases (rp_fsm (at_node w4 "n2")) = Some s ∧
    grun lock_adm MaxLocks (MkGrants ∅ 0) (log_ops lock_gop (take (rp_applied (at_node w4 "n2")) (cl_log w4))) (lock_abs t).
Proof.
  destruct (cluster_refines_grants w4 "n2" (at_node w4 "n2") w4_reachable) as (t & s & Ht & Hs & Hg & _);
    [by vm_compute|]. exists t, s. exact (conj Ht (conj Hs Hg)).
Defined.

(** A server that lags behind a drop and is then handed a snapshot keeps the
    dropped member, at the same index as a server that no longer has it:
    [Restore] adds the members of the snapshot and removes none. *)
Definition change_of (k : CommandKind) : Log data :=
  MkLog 1 LogCommand (inl (MkCommand k "n3" "10.0.0.3:7" "" "" 0 0 0)).
Definition apply_on (id : string) (k : CommandKind) (c : Cluster data) : Cluster data :=
  apply_at c 4 id (at_node c id) (change_of k).
Definition d1 : Cluster data := set_node w1 "n2" (MkReplica (fresh 2 "n2" "10.0.0.2:7") 0).
Definition d2 : Cluster data := append (append d1 (change_of CmdAddMember)) (change_of CmdDropMember).
Definition d3 : Cluster data := apply_on "n1" CmdDropMember (apply_on "n1" CmdAddMember (apply_on "n2" CmdAddMember d2)).
Definition dsnap : data := inr (payloadOf (rp_fsm (at_node d3 "n1"))).
Definition d4 : Cluster data := persist d3 2 dsnap.
Definition d5 : Cluster data :=
  set_node d4 "n2" (MkReplica (Restore 5 (rp_fsm (at_node d4 "n2")) dsnap).1.1 2).

Lemma dropped_member_survives :
  reachable d5 ∧ rp_applied (at_node d5 "n1") = rp_applied (at_node d5 "n2") ∧
  views (applier (rp_fsm (at_node d5 "n1"))) !! "n3" = None ∧
  views (applier (rp_fsm (at_node d5 "n2"))) !! "n3" = Some ("10.0.0.3:7", StatusAlive, RoleVoter).
Proof.
  split; [|by vm_compute]. unfold reachable. etrans; [apply w1_reachable|].
  eapply rtc_l. { by apply (cs_start _ 2 "n2" "10.0.0.2:7"). }
  eapply rtc_l. { apply (cs_commit _ (change_of CmdAddMember)). }
  eapply rtc_l. { apply (cs_commit _ (change_of CmdDropMember)). }
  eapply rtc_l. { apply (cs_apply d2 4 "n2" (at_node d2 "n2") (change_of CmdAddMember)); by vm_compute. }
  set (c1 := apply_on "n2" CmdAddMember d2).
  eapply rtc_l. { apply (cs_apply c1 4 "n1" (at_node c1 "n1") (change_of CmdAddMember)); by vm_compute. }
  set (c2 := apply_on "n1" CmdAddMember c1).
  eapply rtc_l. { apply (cs_apply c2 4 "n1" (at_node c2 "n1") (change_of CmdDropMember)); by vm_compute. }
  eapply rtc_l. { apply (cs_snapshot d3 "n1" (at_node d3 "n1") dsnap); by vm_compute. }
  apply rtc_once, (cs_restore d4 5 "n2" (at_node d4 "n2") 2 dsnap (Restore 5 (rp_fsm (at_node d4 "n2")) dsnap).1.1
    (Restore 5 (rp_fsm (at_node d4 "n2")) dsnap).2); [by vm_compute| |by vm_compute]. apply elem_of_cons. by left.
Qed.
End ClusterExamples.
