(* ===== verification/LockService.v ===== *)
(** * LockService: the lock RPCs of [internal/grpcserver/locks.go]

    The handlers run against a world [W]: the lock table this process shares with
    its FSM, the member list, the consensus node behind [LockRaft] and the other
    daemons behind [LockPeers] ([mtls.Dial] and the generated client).  [table]
    is [None] without a table, [raft] is [None] when the service runs without
    consensus.  The blocking [Lock] is given twice: as the loop of the handler
    over an abstract [Wait], and in [LockWait] as the steps of its goroutine
    against the condition variable of [locks.Table]. *)
From S2P Require Import Prelude Events GrantSpec Locks Membership.

Record LockRequest := MkLockRequest { lq_Name : string; lq_Holder : string; lq_TtlMs : Z }.
Record LockResponse := MkLockResponse {
  lp_Acquired : bool; lp_Message : string; lp_FencingToken : Z; lp_Holder : string; lp_DeadlineUnixMs : Z;
}.
Record UnlockRequest := MkUnlockRequest { uq_Name : string; uq_Holder : string; uq_FencingToken : Z }.
Record RenewRequest := MkRenewRequest { nq_Name : string; nq_Holder : string; nq_FencingToken : Z; nq_TtlMs : Z }.
Record RenewResponse := MkRenewResponse { np_Renewed : bool; np_FencingToken : Z; np_DeadlineUnixMs : Z }.
Record LockInfo := MkLockInfo {
  li_Name : string; li_Holder : string; li_FencingToken : Z; li_AcquiredUnixMs : Z; li_DeadlineUnixMs : Z;
}.

(** The interface [LockRaft]; [consensus.Node] implements it. *)
Record LockRaft (W : Type) := MkLockRaft {
  lr_IsLeader : W → bool;
  lr_ApplyLockAcquire : W → string → string → Duration → W * result error (Z * bool);
  lr_ApplyLockRelease : W → string → string → Z → W * option error;
  lr_ApplyLockRenew : W → string → string → Z → Duration → W * result error Time;
}.
Arguments lr_IsLeader {W}.
Arguments lr_ApplyLockAcquire {W}.
Arguments lr_ApplyLockRelease {W}.
Arguments lr_ApplyLockRenew {W}.

(** Dialling the leader, and its answer to a forwarded request. *)
Record LockPeers (W : Type) := MkLockPeers {
  pr_Dial : W → string → option error;
  pr_Lock : W → string → LockRequest → W * result status LockResponse;
  pr_TryLock : W → string → LockRequest → W * result status LockResponse;
  pr_Unlock : W → string → UnlockRequest → W * result status bool;
  pr_Renew : W → string → RenewRequest → W * result status RenewResponse;
}.
Arguments pr_Dial {W}.
Arguments pr_Lock {W}.
Arguments pr_TryLock {W}.
Arguments pr_Unlock {W}.
Arguments pr_Renew {W}.

Definition unixMs (t : Time) : Z := if IsZero t then 0%Z else UnixMilli t.

(** [status.FromContextError]. *)
Inductive ctx_error : Type := CtxCanceled | CtxDeadlineExceeded.
Definition FromContextError (e : ctx_error) : status :=
  match e with
  | CtxCanceled => Status Canceled (Errorf "context canceled" [])
  | CtxDeadlineExceeded => Status DeadlineExceeded (Errorf "context deadline exceeded" [])
  end.

(** [membershipLeader.Leader]. *)
Definition membershipLeader (e : Engine) : option (string * string) :=
  (λ m, (m_ID m, m_Address m)) <$> Leader e.

Definition rejectIfObserver (e : Engine) : option status :=
  if existsb (λ m, String.eqb (m_ID m) (SelfID e) && String.eqb (NormalizeRole (m_Role m)) RoleObserver)
       (Members e)
  then Some (Status FailedPrecondition (Errorf "observer cannot mutate locks" []))
  else None.

Definition not_leader : status := Status FailedPrecondition (Errorf "NOT_LEADER" []).

(** [RegisterLockService]: the default lifetime of the service. *)
Definition service_default (defaultTTL : Duration) : Duration :=
  if (defaultTTL <=? 0)%Z then Locks.DefaultTTL else defaultTTL.

Definition ttlFromMs (defaultTTL : Duration) (ms : Z) (reuse : Duration) : Duration :=
  let requested := if (0 <? ms)%Z then DurationOfMs ms else reuse in
  Locks.ClampTTL requested defaultTTL.

Section service.
Context `{Unicode} {W : Type}.
Context (table : W → option Locks.Table) (set_table : W → Locks.Table → W).
Context (engine : W → Engine) (raft : option (LockRaft W)) (peers : LockPeers W).
Context (defaultTTL : Duration).

Definition holder (w : W) (h : string) : string :=
  if negb (str_empty h) then h else SelfID (engine w).

Definition dialLeader (w : W) : result status string :=
  match membershipLeader (engine w) with
  | None => Fail not_leader
  | Some (id, addr) =>
    if str_empty addr || String.eqb id (SelfID (engine w)) then Fail not_leader else
    match pr_Dial peers w addr with
    | Some err => Fail (Status Unavailable (Errorf "dial leader %s: %v" [AStr id; AErr err]))
    | None => Ok addr
    end
  end.

Definition forward {R} (w : W) (call : W → string → W * result status R) : W * result status R :=
  match dialLeader w with
  | Fail st => (w, Fail st)
  | Ok addr => call w addr
  end.

(** [s.raft != nil && !s.raft.IsLeader()] *)
Definition follower (w : W) : bool :=
  match raft with Some r => negb (lr_IsLeader r w) | None => false end.

Definition applyAcquire (now : Time) (w : W) (name holder : string) (ttl : Duration)
    : W * result error (Z * bool) :=
  match raft with
  | Some r => lr_ApplyLockAcquire r w name holder ttl
  | None =>
    match table w with
    | None => (w, Fail (Errorf "lock table not initialized" []))
    | Some t =>
      let r := Locks.Acquire now t name holder (Add now ttl) ttl in (set_table w r.1.1, r.1.2)
    end
  end.

Definition applyRelease (w : W) (name holder : string) (token : Z) : W * option error :=
  match raft with
  | Some r => lr_ApplyLockRelease r w name holder token
  | None =>
    match table w with
    | None => (w, Some (Errorf "lock table not initialized" []))
    | Some t => let r := Locks.Release t name holder token in (set_table w r.1.1, r.1.2)
    end
  end.

Definition applyRenew (now : Time) (w : W) (name holder : string) (token : Z) (ttl : Duration)
    : W * result error Time :=
  match raft with
  | Some r => lr_ApplyLockRenew r w name holder token ttl
  | None =>
    match table w with
    | None => (w, Fail (Errorf "lock table not initialized" []))
    | Some t =>
      let deadline := Add now ttl in
      match Locks.Renew t name holder token deadline ttl with
      | (t, Some err, _) => (set_table w t, Fail err)
      | (t, None, _) => (set_table w t, Ok deadline)
      end
    end
  end.

(** [s.table.Get(name)], nothing without a table. *)
Definition tableGet (w : W) (name : string) : option LockRecord :=
  match table w with Some t => Locks.Get t name | None => None end.

(** [grantResponse] and [tryLockResponse] build the same fields. *)
Definition grantResponse (w : W) (name holder : string) (tok : Z) : LockResponse :=
  MkLockResponse true "" tok holder
    (match tableGet w name with Some rec => unixMs (lk_Deadline rec) | None => 0%Z end).

(** The guards every mutation starts with. *)
Definition guarded {R} (w : W) (name : string) (fwd : W → string → W * result status R)
    (local : W → W * result status R) : W * result status R :=
  match Locks.ValidName name with
  | Some err => (w, Fail (Status InvalidArgument err))
  | None =>
    match rejectIfObserver (engine w) with
    | Some st => (w, Fail st)
    | None => if follower w then forward w fwd else local w
    end
  end.

(** The loop of [Lock]; [ctx_Err] is [ctx.Err()], [Wait] the table's [Wait].
    [None]: still blocked after [fuel] rounds. *)
Fixpoint lock_loop (ctx_Err : W → option ctx_error) (Wait : W → W * option ctx_error)
    (now : Time) (fuel : nat) (w : W) (name holder : string) (ttl : Duration)
    : W * option (result status LockResponse) :=
  match fuel with
  | O => (w, None)
  | S fuel =>
    match ctx_Err w with
    | Some e => (w, Some (Fail (FromContextError e)))
    | None =>
      match applyAcquire now w name holder ttl with
      | (w, Fail err) => (w, Some (Fail (Status Internal (Errorf "lock: %v" [AErr err]))))
      | (w, Ok (tok, true)) => (w, Some (Ok (grantResponse w name holder tok)))
      | (w, Ok (_, false)) =>
        match Wait w with
        | (w, Some e) => (w, Some (Fail (FromContextError e)))
        | (w, None) => lock_loop ctx_Err Wait now fuel w name holder ttl
        end
      end
    end
  end.

Definition Lock (ctx_Err : W → option ctx_error) (Wait : W → W * option ctx_error)
    (now : Time) (fuel : nat) (w : W) (req : LockRequest) : W * option (result status LockResponse) :=
  match Locks.ValidName (lq_Name req) with
  | Some err => (w, Some (Fail (Status InvalidArgument err)))
  | None =>
    match rejectIfObserver (engine w) with
    | Some st => (w, Some (Fail st))
    | None =>
      if follower w then let r := forward w (λ w addr, pr_Lock peers w addr req) in (r.1, Some r.2)
      else
        lock_loop ctx_Err Wait now fuel w (lq_Name req) (holder w (lq_Holder req))
          (ttlFromMs defaultTTL (lq_TtlMs req) 0)
    end
  end.

Definition TryLock (now : Time) (w : W) (req : LockRequest) : W * result status LockResponse :=
  guarded w (lq_Name req) (λ w addr, pr_TryLock peers w addr req) (λ w,
    let h := holder w (lq_Holder req) in
    let ttl := ttlFromMs defaultTTL (lq_TtlMs req) 0 in
    match applyAcquire now w (lq_Name req) h ttl with
    | (w, Fail err) => (w, Fail (Status Internal (Errorf "trylock: %v" [AErr err])))
    | (w, Ok (_, false)) =>
      let held := default (MkLock "" "" 0 zeroTime zeroTime 0) (tableGet w (lq_Name req)) in
      (w, Ok (MkLockResponse false "held" (lk_Token held) (lk_Holder held) (unixMs (lk_Deadline held))))
    | (w, Ok (tok, true)) => (w, Ok (grantResponse w (lq_Name req) h tok))
    end).

Definition Unlock (w : W) (req : UnlockRequest) : W * result status bool :=
  guarded w (uq_Name req) (λ w addr, pr_Unlock peers w addr req) (λ w,
    match applyRelease w (uq_Name req) (holder w (uq_Holder req)) (uq_FencingToken req) with
    | (w, Some err) => (w, Fail (Status FailedPrecondition err))
    | (w, None) => (w, Ok true)
    end).

Definition Renew (now : Time) (w : W) (req : RenewRequest) : W * result status RenewResponse :=
  guarded w (nq_Name req) (λ w addr, pr_Renew peers w addr req) (λ w,
    let h := holder w (nq_Holder req) in
    let reuse := match tableGet w (nq_Name req) with
                 | Some rec => if (0 <? lk_TTL rec)%Z then lk_TTL rec else defaultTTL
                 | None => defaultTTL end in
    let ttl := ttlFromMs defaultTTL (nq_TtlMs req) reuse in
    match applyRenew now w (nq_Name req) h (nq_FencingToken req) ttl with
    | (w, Fail err) => (w, Fail (Status FailedPrecondition err))
    | (w, Ok deadline) => (w, Ok (MkRenewResponse true (nq_FencingToken req) (unixMs deadline)))
    end).

Definition ListLocks (w : W) : list LockInfo :=
  match table w with
  | None => []
  | Some t =>
    (λ rec, MkLockInfo (lk_Name rec) (lk_Holder rec) (lk_Token rec)
              (UnixMilli (lk_AcquiredAt rec)) (unixMs (lk_Deadline rec))) <$> Locks.List_ t
  end.

End service.

(** ** Lifetimes *)

Lemma ttlFromMs_bounds d ms reuse : (Locks.MinTTL ≤ ttlFromMs d ms reuse ≤ Locks.MaxTTL)%Z.
Proof. apply lock_ClampTTL_bounds. Qed.

Lemma ttlFromMs_min d ms reuse :
  (0 < ms)%Z → (ms * Millisecond < two63)%Z → ttlFromMs d ms reuse = Z.min (ms * Millisecond) Locks.MaxTTL.
Proof.
  intros Hms Hmax. unfold ttlFromMs. rewrite (proj2 (Z.ltb_lt 0 ms)) by done.
  unfold DurationOfMs. rewrite i64_small by (unfold two63, Millisecond in *; lia).
  unfold Locks.ClampTTL, Locks.DefaultTTL, Locks.MinTTL, Locks.MaxTTL, Second, Hour, Millisecond in *.
  repeat case_match; breflect; lia.
Qed.

(** A requested lifetime is honoured to the millisecond within one
    millisecond and 24 hours, and clamped above, for every [ttl_ms] up to about
    292 years; from there on [time.Duration(ms) * time.Millisecond] wraps, and
    [ttl_ms] just above the limit gives the service default instead of 24 hours. *)
Theorem ttl_request_honoured d ms reuse :
  (0 < ms)%Z →
  ((ms * Millisecond < two63)%Z →
    ttlFromMs d ms reuse = Z.min (ms * Millisecond) Locks.MaxTTL) ∧
  (ms = 9223372036855%Z → (Locks.MinTTL ≤ d ≤ Locks.MaxTTL)%Z → ttlFromMs d ms reuse = d).
Proof.
  intros Hms. split; [by apply ttlFromMs_min|].
  intros -> Hd. unfold ttlFromMs, Locks.ClampTTL, Locks.DefaultTTL, Locks.MinTTL, Locks.MaxTTL in *.
  replace (DurationOfMs 9223372036855) with (-9223372036854551616)%Z by reflexivity.
  unfold Second, Hour, Millisecond in *. simpl. repeat case_match; breflect; lia.
Qed.

(** ** Guards *)

Section guards.
Context `{Unicode} {W : Type}.
Context (table : W → option Locks.Table) (set_table : W → Locks.Table → W).
Context (engine : W → Engine) (raft : option (LockRaft W)) (peers : LockPeers W).
Context (defaultTTL : Duration).

Lemma rejectIfObserver_iff e :
  mreachable e →
  rejectIfObserver e = if String.eqb (SelfRole e) RoleObserver
    then Some (Status FailedPrecondition (Errorf "observer cannot mutate locks" [])) else None.
Proof.
  intros Hr. pose proof (engine_keyed _ (engine_wf_reachable _ Hr)) as Hk.
  assert (∀ m, In m (Members e) ↔ members e !! m_ID m = Some m) as Hin.
  { intros m. rewrite <-list_elem_of_In. unfold Members. rewrite sort_by_perm. by apply keyed_elem. }
  unfold rejectIfObserver. match goal with |- (if ?x then _ else _) = _ => destruct x eqn:Hex end.
  - apply existsb_exists in Hex as (m & Hm%Hin & Hc). breflect. unfold SelfRole, SelfID in *.
    rewrite <-H0, Hm, H1. done.
  - unfold SelfRole. destruct (members e !! selfID e) as [m|] eqn:Hm; [|done].
    destruct (String.eqb (NormalizeRole (m_Role m)) RoleObserver) eqn:Hro; [|done].
    exfalso. apply not_true_iff_false in Hex. apply Hex. apply existsb_exists. exists m.
    rewrite Hin, (Hk _ _ Hm), Hro. unfold SelfID. by rewrite String.eqb_refl.
Qed.

(** On an observer every lock mutation with a valid name is refused with
    [FailedPrecondition] and touches nothing: no command is proposed, nothing is
    forwarded, and the world is unchanged. *)
Theorem observer_refuses_locks ctx_Err Wait now fuel w lreq ureq rreq :
  mreachable (engine w) → SelfRole (engine w) = RoleObserver →
  Locks.ValidName (lq_Name lreq) = None → Locks.ValidName (uq_Name ureq) = None →
  Locks.ValidName (nq_Name rreq) = None →
  let refusal := Status FailedPrecondition (Errorf "observer cannot mutate locks" []) in
  Lock table set_table engine raft peers defaultTTL ctx_Err Wait now fuel w lreq = (w, Some (Fail refusal)) ∧
  TryLock table set_table engine raft peers defaultTTL now w lreq = (w, Fail refusal) ∧
  Unlock table set_table engine raft peers w ureq = (w, Fail refusal) ∧
  Renew table set_table engine raft peers defaultTTL now w rreq = (w, Fail refusal).
Proof.
  intros Hr Ho Hl Hu Hn refusal.
  assert (rejectIfObserver (engine w) = Some refusal) as Hrej.
  { rewrite rejectIfObserver_iff by done. by rewrite Ho. }
  unfold Lock, TryLock, Unlock, Renew, guarded. by rewrite Hl, Hu, Hn, Hrej.
Qed.

(** A follower that knows no leader, or believes it is the leader itself, turns
    every mutation away before it touches the world. *)
Lemma guarded_without_leader {R} r w name (fwd : W → string → W * result status R) local :
  raft = Some r → lr_IsLeader r w = false → mreachable (engine w) →
  SelfRole (engine w) = RoleVoter → Locks.ValidName name = None →
  Leader (engine w) = None ∨ LeaderID (engine w) = SelfID (engine w) →
  guarded engine raft peers w name fwd local = (w, Fail not_leader).
Proof.
  intros Hraft Hl Hr Ho Hv Hlead. unfold guarded. rewrite Hv, rejectIfObserver_iff, Ho by done.
  simpl. unfold follower. rewrite Hraft, Hl. simpl. unfold forward, dialLeader, membershipLeader.
  destruct (Leader (engine w)) as [m|] eqn:Hm; [|done]. destruct Hlead as [?|Hid]; [done|]. simpl.
  destruct (engine_wf_reachable _ Hr _ _ Hm) as [Hmid _ _ _ _]. unfold LeaderID in Hid.
  by rewrite Hmid, Hid, String.eqb_refl, orb_true_r.
Qed.

(** Such a follower answers [FailedPrecondition] [NOT_LEADER] (the documentation
    promises [Unavailable]). *)
Theorem follower_without_leader r now w req :
  raft = Some r → lr_IsLeader r w = false → mreachable (engine w) →
  SelfRole (engine w) = RoleVoter → Locks.ValidName (lq_Name req) = None →
  Leader (engine w) = None ∨ LeaderID (engine w) = SelfID (engine w) →
  TryLock table set_table engine raft peers defaultTTL now w req = (w, Fail not_leader).
Proof. apply guarded_without_leader. Qed.
End guards.

(** ** Forwarded requests

    One leader, whose commits take effect at once, and followers that forward to
    it; the world is the lock table of the leader. *)
Definition direct_locks `{Unicode} (now : Time) (leads : bool) : LockRaft Locks.Table :=
  MkLockRaft Locks.Table (λ _, leads)
    (λ t n h ttl, let r := Locks.Acquire now t n h (Add now (Locks.ClampTTL ttl 0)) (Locks.ClampTTL ttl 0) in
       (r.1.1, r.1.2))
    (λ t n h k, let r := Locks.Release t n h k in (r.1.1, r.1.2))
    (λ t n h k ttl, let d := Add now (Locks.ClampTTL ttl 0) in
       match Locks.Renew t n h k d (Locks.ClampTTL ttl 0) with
       | (t, Some e, _) => (t, Fail e)
       | (t, None, _) => (t, Ok d)
       end).
Definition lock_node `{Unicode} (now : Time) (e : Engine) (leads : bool) (peers : LockPeers Locks.Table)
    (d : Duration) (t : Locks.Table) (req : LockRequest) : Locks.Table * result status LockResponse :=
  TryLock Some (λ _ t, t) (λ _, e) (Some (direct_locks now leads)) peers d now t req.
Definition unreachable : LockPeers Locks.Table :=
  let refused {R} : result status R := Fail (Status Unavailable (Errorf "down" [])) in
  MkLockPeers Locks.Table (λ _ _, None) (λ w _ _, (w, refused)) (λ w _ _, (w, refused))
    (λ w _ _, (w, refused)) (λ w _ _, (w, refused)).
Definition to_leader `{Unicode} (now : Time) (eL : Engine) (d : Duration) : LockPeers Locks.Table :=
  MkLockPeers Locks.Table (λ _ _, None) (pr_Lock unreachable)
    (λ t _ req, lock_node now eL true unreachable d t req) (pr_Unlock unreachable) (pr_Renew unreachable).

(** A voter that knows another node as its leader. *)
Definition follows (e : Engine) : Prop :=
  rejectIfObserver e = None ∧
  ∃ id addr, membershipLeader e = Some (id, addr) ∧ addr ≠ "" ∧ id ≠ SelfID e.

Lemma follower_forwards `{Unicode} now eL e d t req :
  follows e → Locks.ValidName (lq_Name req) = None →
  lock_node now e false (to_leader now eL d) d t req = lock_node now eL true unreachable d t req.
Proof.
  intros (Hr & id & addr & Hm & Ha & Hid) Hv. unfold lock_node at 1, TryLock, guarded.
  rewrite Hv, Hr. cbn -[lock_node]. unfold forward, dialLeader. rewrite Hm.
  apply str_empty_false in Ha. apply String.eqb_neq in Hid. by rewrite Ha, Hid.
Qed.

Lemma leader_acquires `{Unicode} now eL d t req :
  Locks.ValidName (lq_Name req) = None → rejectIfObserver eL = None →
  lock_node now eL true unreachable d t req =
    let h := holder (λ _ : Locks.Table, eL) t (lq_Holder req) in
    let ttl := Locks.ClampTTL (ttlFromMs d (lq_TtlMs req) 0) 0 in
    match Locks.Acquire now t (lq_Name req) h (Add now ttl) ttl with
    | (t', Fail err, _) => (t', Fail (Status Internal (Errorf "trylock: %v" [AErr err])))
    | (t', Ok (_, false), _) =>
      let held := default (MkLock "" "" 0 zeroTime zeroTime 0) (Locks.Get t' (lq_Name req)) in
      (t', Ok (MkLockResponse false "held" (lk_Token held) (lk_Holder held) (unixMs (lk_Deadline held))))
    | (t', Ok (tok, true), _) => (t', Ok (grantResponse Some t' (lq_Name req) h tok))
    end.
Proof.
  intros Hv Hr. unfold lock_node, TryLock, guarded. rewrite Hv, Hr. cbn -[Locks.Acquire].
  by destruct (Locks.Acquire _ _ _ _ _ _) as [[t' [[tok []]|]] es].
Qed.

(** C30: An empty holder is filled in by the node that commits, not by the node
    that was asked: two followers whose clients leave the holder empty and ask
    for the same free lock are both told it is acquired, with the same fencing
    token, both in the name of the leader. *)
Theorem forwarded_empty_holder_shared `{Unicode} now eL e1 e2 d t name ms :
  follows e1 → follows e2 → rejectIfObserver eL = None → SelfID eL ≠ "" →
  Locks.ValidName name = None → locks t !! name = None → size (locks t) < MaxLocks →
  let req := MkLockRequest name "" ms in
  let r1 := lock_node now e1 false (to_leader now eL d) d t req in
  let r2 := lock_node now e2 false (to_leader now eL d) d r1.1 req in
  ∃ p1 p2, r1.2 = Ok p1 ∧ r2.2 = Ok p2 ∧ lp_Acquired p1 = true ∧ lp_Acquired p2 = true ∧
    lp_FencingToken p1 = lp_FencingToken p2 ∧ lp_Holder p1 = SelfID eL ∧ lp_Holder p2 = SelfID eL.
Proof.
  intros H1 H2 Hr Hid Hv Hfree Hsz req r1 r2. apply str_empty_false in Hid.
  unfold r2, r1. rewrite !follower_forwards, !leader_acquires by done. cbn -[Locks.Acquire].
  unfold Locks.Acquire at 2 3. rewrite Hv, Hid, Hfree, bool_decide_eq_false_2 by lia. simpl.
  unfold Locks.Acquire. rewrite Hv, Hid, Hfree, bool_decide_eq_false_2 by lia. simpl.
  rewrite lookup_insert_eq. simpl. rewrite String.eqb_refl.
  eexists _, _. unfold grantResponse. split_and!; reflexivity.
Qed.

(** ** The waiting goroutine

    Between the failed acquire and [t.mu.Lock()] in [Wait] the goroutine of [Lock]
    holds no mutex; in [Wait] it registers with the condition variable and
    sleeps.  A cancelled context wakes a sleeper through [context.AfterFunc]. *)
Module LockWait.

Inductive top : Type :=
  | TAcquire (now : Time) (name holder : string) (deadline : Time) (ttl : Duration)
  | TRelease (name holder : string) (token : Z)
  | TRenew (name holder : string) (token : Z) (deadline : Time) (ttl : Duration)
  | TExpire (name : string) (token : Z)
  | TRestore (snap : Locks.Snapshot).

Definition tapply `{Unicode} (t : Locks.Table) (o : top) : Locks.Table * list effect :=
  match o with
  | TAcquire now n h d ttl => let r := Locks.Acquire now t n h d ttl in (r.1.1, r.2)
  | TRelease n h k => let r := Locks.Release t n h k in (r.1.1, r.2)
  | TRenew n h k d ttl => let r := Locks.Renew t n h k d ttl in (r.1.1, r.2)
  | TExpire n k => let r := Locks.Expire t n k in (r.1.1, r.2)
  | TRestore s => Locks.Restore t s
  end.

Inductive gstate : Type :=
  | Trying
  | Registering
  | Sleeping
  | Woken
  | Returned (r : result status Z).

Record config := MkConfig { c_table : Locks.Table; c_state : gstate; c_cancel : option ctx_error }.

Inductive act : Type :=
  | ARun (now : Time)     (* the goroutine of [Lock] takes its next step *)
  | AEnv (o : top)        (* another goroutine applies a table operation *)
  | ACancel (e : ctx_error).

Definition broadcast (es : list effect) : bool :=
  existsb (λ x, match x with Broadcast => true | _ => false end) es.
Definition wake (es : list effect) (g : gstate) : gstate :=
  match g with Sleeping => if broadcast es then Woken else g | _ => g end.

Definition step `{Unicode} (name holder : string) (ttl : Duration) (c : config) (a : act) : config :=
  match a with
  | AEnv o => let r := tapply (c_table c) o in MkConfig r.1 (wake r.2 (c_state c)) (c_cancel c)
  | ACancel e =>
    MkConfig (c_table c) (wake [Broadcast] (c_state c))
      (match c_cancel c with Some e' => Some e' | None => Some e end)
  | ARun now =>
    match c_state c with
    | Trying =>
      match c_cancel c with
      | Some e => MkConfig (c_table c) (Returned (Fail (FromContextError e))) (c_cancel c)
      | None =>
        match Locks.Acquire now (c_table c) name holder (Add now ttl) ttl with
        | (t, Fail err, _) =>
          MkConfig t (Returned (Fail (Status Internal (Errorf "lock: %v" [AErr err])))) None
        | (t, Ok (tok, true), _) => MkConfig t (Returned (Ok tok)) None
        | (t, Ok (_, false), _) => MkConfig t Registering None
        end
      end
    | Registering =>
      MkConfig (c_table c) (match c_cancel c with Some _ => Woken | None => Sleeping end) (c_cancel c)
    | Sleeping => c
    | Woken =>
      MkConfig (c_table c)
        (match c_cancel c with Some e => Returned (Fail (FromContextError e)) | None => Trying end)
        (c_cancel c)
    | Returned _ => c
    end
  end.

Definition run `{Unicode} (name holder : string) (ttl : Duration) (c : config) (l : list act) : config :=
  foldl (step name holder ttl) c l.

Section props.
Context `{Unicode} (name holder : string) (ttl : Duration).
Abbreviation step := (step name holder ttl).

(** An operation that makes a held lock free wakes sleepers. *)
Lemma freed_broadcasts t o :
  is_Some (locks t !! name) → locks (tapply t o).1 !! name = None → broadcast (tapply t o).2 = true.
Proof.
  intros [rec Hrec] Hfree. destruct o as [now n h d u|n h k|n h k d u|n k|s]; simpl in *; [..|done].
  - unfold Acquire in *. go_cases; done || congruence.
  - unfold Release in *. go_cases; done || congruence.
  - unfold Locks.Renew in *. go_cases; try congruence.
    destruct (decide (n = name)) as [->|Hne]; [by rewrite lookup_insert_eq in Hfree|].
    rewrite lookup_insert_ne in Hfree by done. congruence.
  - unfold Locks.Expire in *. go_cases; done || congruence.
Qed.


(** A wake-up can be lost.  If the lock is released after the goroutine's
    acquire failed and before it sleeps in [Wait], it sleeps while the lock is
    free: its own steps change nothing any more, although a new acquire would
    succeed at once. *)
Theorem wakeup_lost t other tok now rec :
  lock_adm name holder → lock_wf t → locks t !! name = Some rec →
  lk_Holder rec = other → lk_Token rec = tok → other ≠ holder →
  let c := run name holder ttl (MkConfig t Trying None)
             [ARun now; AEnv (TRelease name other tok); ARun now] in
  c_state c = Sleeping ∧ Locks.Get (c_table c) name = None ∧
  (∀ now', step c (ARun now') = c) ∧
  isOk (Locks.Acquire now (c_table c) name holder (Add now ttl) ttl).1.2 = true.
Proof.
  intros [Hv Hh] Hwf Hrec Ho Ht Hne. unfold run. simpl.
  pose proof Hh as Hh'. apply str_empty_false in Hh'.
  assert (Locks.Acquire now t name holder (Add now ttl) ttl = (t, Ok (tok, false), [])) as ->.
  { unfold Acquire. rewrite Hv, Hh', Hrec. by rewrite (proj2 (String.eqb_neq _ _)) by congruence; subst. }
  assert (Locks.Release t name other tok = (set_locks t (delete name (locks t)), None, [Broadcast])) as Hrel.
  { unfold Release. rewrite Hv, Hrec, (proj2 (lock_match_iff rec other tok)) by congruence. done. }
  simpl. rewrite Hrel. simpl. unfold Locks.Get. simpl. rewrite lookup_delete_eq. split_and!; try done.
  unfold Acquire. rewrite Hv, Hh'. simpl. rewrite lookup_delete_eq.
  rewrite bool_decide_eq_false_2; [done|]. rewrite map_size_delete, Hrec. simpl.
  pose proof (lwf_size _ Hwf). assert (size (locks t) ≠ 0) by by eapply map_size_ne_0_lookup_2.
  unfold MaxLocks in *. lia.
Qed.
End props.

End LockWait.

(** ** Concrete worlds: the world is a table and a member list *)
Module LockServiceExamples.
#[export] Existing Instance latin1.
Abbreviation world := (Locks.Table * Engine)%type.
Definition table (w : world) : option Locks.Table := Some w.1.
Definition set_table (w : world) (t : Locks.Table) : world := (t, w.2).
Definition no_peers : LockPeers world :=
  let refused {R} : result status R := Fail (Status Unavailable (Errorf "down" [])) in
  MkLockPeers world (λ _ _, None) (λ w _ _, (w, refused)) (λ w _ _, (w, refused))
    (λ w _ _, (w, refused)) (λ w _ _, (w, refused)).
Definition not_leading : LockRaft world :=
  let no := Errorf "node is not the leader" [] in
  MkLockRaft world (λ _, false) (λ w _ _ _, (w, Fail no)) (λ w _ _ _, (w, Some no)) (λ w _ _ _ _, (w, Fail no)).
Definition observer : Engine := (mapply MemberExamples.self (OpJoinAs 5 "n1" "h:1" "observer")).1.
Lemma observer_reachable : mreachable observer.
Proof. apply mreach_op, MemberExamples.self_reachable. Qed.
Definition req : LockRequest := MkLockRequest "a" "" 0.

Lemma ttl_request_honoured_witness : ttlFromMs Second 9223372036855 0 = Second.
Proof. apply (ttl_request_honoured Second 9223372036855 0); [done|done|]. by vm_compute. Defined.

Lemma observer_refuses_locks_witness :
  TryLock table set_table snd None no_peers Second 7 (Locks.New, observer) req =
  ((Locks.New, observer), Fail (Status FailedPrecondition (Errorf "observer cannot mutate locks" []))).
Proof.
  apply (observer_refuses_locks table set_table snd None no_peers Second (λ _, None) (λ w, (w, None)) 7 1
    (Locks.New, observer) req (MkUnlockRequest "a" "" 1) (MkRenewRequest "a" "" 1 0));
    [apply observer_reachable|reflexivity..].
Defined.

Lemma follower_without_leader_witness :
  TryLock table set_table snd (Some not_leading) no_peers Second 7 (Locks.New, MemberExamples.self) req =
  ((Locks.New, MemberExamples.self), Fail not_leader).
Proof.
  apply (follower_without_leader table set_table snd (Some not_leading) no_peers Second not_leading);
    [reflexivity|reflexivity|apply MemberExamples.self_reachable|reflexivity|reflexivity|right; reflexivity].
Defined.

Definition asleep : LockWait.config :=
  LockWait.MkConfig LockExamples.two LockWait.Sleeping None.

Lemma wakeup_lost_witness :
  LockWait.c_state (LockWait.run "a" "n3" 10 (LockWait.MkConfig LockExamples.two LockWait.Trying None)
    [LockWait.ARun 5; LockWait.AEnv (LockWait.TRelease "a" "n1" 2); LockWait.ARun 5]) = LockWait.Sleeping.
Proof.
  apply (LockWait.wakeup_lost "a" "n3" 10 LockExamples.two "n1" 2 5 (MkLock "a" "n1" 2 2 50 10));
    [done|apply LockExamples.two_wf|reflexivity..|done].
Defined.
Definition leader_of (id : string) : Engine :=
  MkEngine id "n1" (members (JoinAs 0 (Membership.New 0 id "h:2") "n1" "h:1" "voter").1.1) ∅ false.
Lemma forwarded_empty_holder_shared_witness :
  ∃ p1 p2, (lock_node 7 (leader_of "n2") false (to_leader 7 MemberExamples.self Second) Second Locks.New req).2 = Ok p1 ∧
    lp_Acquired p1 = true ∧ lp_Acquired p2 = true ∧ lp_FencingToken p1 = lp_FencingToken p2.
Proof.
  destruct (forwarded_empty_holder_shared 7 MemberExamples.self (leader_of "n2") (leader_of "n3") Second Locks.New "a" 0)
    as (p1 & p2 & ? & _ & ? & ? & ? & _); [..|by exists p1, p2].
  1-2: split; [reflexivity|]; by exists "n1", "h:1".
  - reflexivity.
  - done.
  - reflexivity.
  - reflexivity.
  - vm_compute. lia.
Defined.
End LockServiceExamples.
