(* ===== verification/LeaseService.v ===== *)
(** * LeaseService: the lease RPCs of [internal/grpcserver/leases.go]

    The handlers in the form of [LockService]; an observer is not refused here
    (presence leases must work on observers). *)
From S2P Require Import Prelude Events GrantSpec Locks Leases Membership LockService.

Record GrantRequest := MkGrantRequest { gq_Name : string; gq_Owner : string; gq_TtlMs : Z }.
Record GrantResponse := MkGrantResponse {
  gp_Granted : bool; gp_Message : string; gp_FencingToken : Z; gp_Owner : string; gp_DeadlineUnixMs : Z;
}.
Record RevokeRequest := MkRevokeRequest { vq_Name : string; vq_Owner : string; vq_FencingToken : Z }.
Record LeaseInfo := MkLeaseInfo {
  le_Name : string; le_Owner : string; le_FencingToken : Z; le_GrantedUnixMs : Z; le_DeadlineUnixMs : Z;
}.

(** The interface [LeaseRaft]; [consensus.Node] implements it. *)
Record LeaseRaft (W : Type) := MkLeaseRaft {
  er_IsLeader : W → bool;
  er_ApplyLeaseGrant : W → string → string → Duration → W * result error (Z * bool);
  er_ApplyLeaseRenew : W → string → string → Z → Duration → W * result error Time;
  er_ApplyLeaseRevoke : W → string → string → Z → W * option error;
}.
Arguments er_IsLeader {W}.
Arguments er_ApplyLeaseGrant {W}.
Arguments er_ApplyLeaseRenew {W}.
Arguments er_ApplyLeaseRevoke {W}.

Record LeasePeers (W : Type) := MkLeasePeers {
  ep_Dial : W → string → option error;
  ep_Grant : W → string → GrantRequest → W * result status GrantResponse;
  ep_Renew : W → string → RenewRequest → W * result status RenewResponse;
  ep_Revoke : W → string → RevokeRequest → W * result status bool;
}.
Arguments ep_Dial {W}.
Arguments ep_Grant {W}.
Arguments ep_Renew {W}.
Arguments ep_Revoke {W}.

(** [RegisterLeaseService]: the default lifetime of the service. *)
Definition lease_service_default (defaultTTL : Duration) : Duration :=
  if (defaultTTL <=? 0)%Z then Leases.DefaultTTL else defaultTTL.

Definition ttlFromMs (defaultTTL : Duration) (ms : Z) (reuse : Duration) : Duration :=
  let requested := if (0 <? ms)%Z then DurationOfMs ms else reuse in
  Leases.ClampTTL requested defaultTTL.

Section service.
Context `{Unicode} {W : Type}.
Context (table : W → option Leases.Table) (set_table : W → Leases.Table → W).
Context (engine : W → Engine) (raft : option (LeaseRaft W)) (peers : LeasePeers W).
Context (defaultTTL : Duration).

Definition owner (w : W) (h : string) : string :=
  if negb (str_empty h) then h else SelfID (engine w).

Definition dialLeader (w : W) : result status string :=
  match membershipLeader (engine w) with
  | None => Fail not_leader
  | Some (id, addr) =>
    if str_empty addr || String.eqb id (SelfID (engine w)) then Fail not_leader else
    match ep_Dial peers w addr with
    | Some err => Fail (Status Unavailable (Errorf "dial leader %s: %v" [AStr id; AErr err]))
    | None => Ok addr
    end
  end.

Definition forward {R} (w : W) (call : W → string → W * result status R) : W * result status R :=
  match dialLeader w with
  | Fail st => (w, Fail st)
  | Ok addr => call w addr
  end.

Definition follower (w : W) : bool :=
  match raft with Some r => negb (er_IsLeader r w) | None => false end.

Definition applyGrant (now : Time) (w : W) (name owner : string) (ttl : Duration)
    : W * result error (Z * bool) :=
  match raft with
  | Some r => er_ApplyLeaseGrant r w name owner ttl
  | None =>
    match table w with
    | None => (w, Fail (Errorf "lease table not initialized" []))
    | Some t =>
      let r := Leases.Grant now t name owner (Add now ttl) ttl in (set_table w r.1.1, r.1.2)
    end
  end.

Definition applyRenew (now : Time) (w : W) (name owner : string) (token : Z) (ttl : Duration)
    : W * result error Time :=
  match raft with
  | Some r => er_ApplyLeaseRenew r w name owner token ttl
  | None =>
    match table w with
    | None => (w, Fail (Errorf "lease table not initialized" []))
    | Some t =>
      let deadline := Add now ttl in
      match Leases.Renew t name owner token deadline ttl with
      | (t, Some err, _) => (set_table w t, Fail err)
      | (t, None, _) => (set_table w t, Ok deadline)
      end
    end
  end.

Definition applyRevoke (w : W) (name owner : string) (token : Z) : W * option error :=
  match raft with
  | Some r => er_ApplyLeaseRevoke r w name owner token
  | None =>
    match table w with
    | None => (w, Some (Errorf "lease table not initialized" []))
    | Some t => let r := Leases.Revoke t name owner token in (set_table w r.1.1, r.1.2)
    end
  end.

Definition tableGet (w : W) (name : string) : option LeaseRecord :=
  match table w with Some t => Leases.Get t name | None => None end.

Definition grantResponse (w : W) (name owner : string) (tok : Z) : GrantResponse :=
  MkGrantResponse true "" tok owner
    (match tableGet w name with Some rec => unixMs (ls_Deadline rec) | None => 0%Z end).

Definition guarded {R} (w : W) (name : string) (fwd : W → string → W * result status R)
    (local : W → W * result status R) : W * result status R :=
  match Leases.ValidName name with
  | Some err => (w, Fail (Status InvalidArgument err))
  | None => if follower w then forward w fwd else local w
  end.

Definition Grant (now : Time) (w : W) (req : GrantRequest) : W * result status GrantResponse :=
  guarded w (gq_Name req) (λ w addr, ep_Grant peers w addr req) (λ w,
    let o := owner w (gq_Owner req) in
    let ttl := ttlFromMs defaultTTL (gq_TtlMs req) 0 in
    match applyGrant now w (gq_Name req) o ttl with
    | (w, Fail err) => (w, Fail (Status Internal (Errorf "grant: %v" [AErr err])))
    | (w, Ok (_, false)) =>
      let held := default (MkLease "" "" 0 zeroTime zeroTime 0) (tableGet w (gq_Name req)) in
      (w, Ok (MkGrantResponse false "held" (ls_Token held) (ls_Owner held) (unixMs (ls_Deadline held))))
    | (w, Ok (tok, true)) => (w, Ok (grantResponse w (gq_Name req) o tok))
    end).

Definition Renew (now : Time) (w : W) (req : RenewRequest) : W * result status RenewResponse :=
  guarded w (nq_Name req) (λ w addr, ep_Renew peers w addr req) (λ w,
    let o := owner w (nq_Holder req) in
    let reuse := match tableGet w (nq_Name req) with
                 | Some rec => if (0 <? ls_TTL rec)%Z then ls_TTL rec else defaultTTL
                 | None => defaultTTL end in
    let ttl := ttlFromMs defaultTTL (nq_TtlMs req) reuse in
    match applyRenew now w (nq_Name req) o (nq_FencingToken req) ttl with
    | (w, Fail err) => (w, Fail (Status FailedPrecondition err))
    | (w, Ok deadline) => (w, Ok (MkRenewResponse true (nq_FencingToken req) (unixMs deadline)))
    end).

Definition Revoke (w : W) (req : RevokeRequest) : W * result status bool :=
  guarded w (vq_Name req) (λ w addr, ep_Revoke peers w addr req) (λ w,
    match applyRevoke w (vq_Name req) (owner w (vq_Owner req)) (vq_FencingToken req) with
    | (w, Some err) => (w, Fail (Status FailedPrecondition err))
    | (w, None) => (w, Ok true)
    end).

Definition ListLeases (w : W) : list LeaseInfo :=
  match table w with
  | None => []
  | Some t =>
    (λ rec, MkLeaseInfo (ls_Name rec) (ls_Owner rec) (ls_Token rec)
              (UnixMilli (ls_GrantedAt rec)) (unixMs (ls_Deadline rec))) <$> Leases.List_ t
  end.

(** A grant renewed with [ttl_ms = 0] keeps its lifetime: on the leader, for a
    lease held with a lifetime of 1 ms to 24 h, the commit is asked for exactly
    that lifetime, and the answer carries the new deadline in milliseconds. *)
Theorem lease_renew_reuses_ttl r now w req rec w' deadline :
  raft = Some r → er_IsLeader r w = true → Leases.ValidName (nq_Name req) = None →
  (nq_TtlMs req ≤ 0)%Z → tableGet w (nq_Name req) = Some rec →
  (Leases.MinTTL ≤ ls_TTL rec ≤ Leases.MaxTTL)%Z →
  er_ApplyLeaseRenew r w (nq_Name req) (owner w (nq_Holder req)) (nq_FencingToken req) (ls_TTL rec) =
    (w', Ok deadline) →
  Renew now w req = (w', Ok (MkRenewResponse true (nq_FencingToken req) (unixMs deadline))).
Proof.
  intros Hraft Hl Hv Hms Hrec Httl Happ. unfold Renew, guarded, follower. rewrite Hv, Hraft, Hl. simpl.
  rewrite Hrec. unfold ttlFromMs. rewrite (proj2 (Z.ltb_ge 0 (nq_TtlMs req))) by done.
  assert (0 < ls_TTL rec)%Z as Hpos by (unfold Leases.MinTTL, Millisecond in *; lia).
  rewrite (proj2 (Z.ltb_lt 0 (ls_TTL rec))) by done.
  assert (Leases.ClampTTL (ls_TTL rec) defaultTTL = ls_TTL rec) as ->.
  { unfold Leases.ClampTTL. rewrite (proj2 (Z.leb_gt (ls_TTL rec) 0)), (proj2 (Z.leb_gt (ls_TTL rec) 0)) by done.
    by rewrite (proj2 (Z.ltb_ge (ls_TTL rec) Leases.MinTTL)), (proj2 (Z.ltb_ge Leases.MaxTTL (ls_TTL rec))) by lia. }
  unfold applyRenew. rewrite Hraft, Happ. done.
Qed.

End service.

(** ** A concrete world: a leader that applies to its own table *)
Module LeaseServiceExamples.
#[export] Existing Instance latin1.
Abbreviation world := (Leases.Table * Engine)%type.
Definition table (w : world) : option Leases.Table := Some w.1.
Definition set_table (w : world) (t : Leases.Table) : world := (t, w.2).
Definition leading : LeaseRaft world := MkLeaseRaft world (λ _, true)
  (λ w n o ttl, let r := Leases.Grant 1 w.1 n o (Add 1 ttl) ttl in (set_table w r.1.1, r.1.2))
  (λ w n o k ttl,
     match Leases.Renew w.1 n o k (Add 1 ttl) ttl with
     | (t, Some e, _) => (w, Fail e)
     | (t, None, _) => (set_table w t, Ok (Add 1 ttl))
     end)
  (λ w n o k, let r := Leases.Revoke w.1 n o k in (set_table w r.1.1, r.1.2)).
Definition no_peers : LeasePeers world :=
  let refused {R} : result status R := Fail (Status Unavailable (Errorf "down" [])) in
  MkLeasePeers world (λ _ _, None) (λ w _ _, (w, refused)) (λ w _ _, (w, refused)) (λ w _ _, (w, refused)).
Definition held : world := ((Leases.Grant 1 Leases.New "a" "n1" 9 Second).1.1, MemberExamples.self).
Definition req : RenewRequest := MkRenewRequest "a" "" 1 0.
Definition rec : LeaseRecord := MkLease "a" "n1" 1 1 9 Second.
Definition renewed : world := (er_ApplyLeaseRenew leading held "a" "n1" 1 Second).1.

Lemma lease_renew_reuses_ttl_witness :
  Renew table set_table snd (Some leading) no_peers Minute 7 held req =
  (renewed, Ok (MkRenewResponse true 1 1000)).
Proof.
  apply (lease_renew_reuses_ttl table set_table snd (Some leading) no_peers Minute leading 7 held req
    rec renewed (Add 1 Second)); reflexivity || (vm_compute; split; congruence).
Defined.
End LeaseServiceExamples.
