(* ===== verification/JoinService.v ===== *)
(** * JoinService: joining, promotion, leaving and rejoining
    ([internal/grpcserver/join.go])

    [joinService] answers other daemons, [controlService] the CLI.  Both run
    against a world [W]: the member list, the consensus node behind [VoterAdder],
    the other daemons behind [JoinPeers], and the PKI behind [JoinSecurity]
    (absent when the cluster has no certificates).  Without consensus ([None],
    the unit-test mode of the code) the in-memory engine is changed directly. *)
From S2P Require Import Prelude Events Membership LockService.

Record JoinRequest := MkJoinRequest {
  jq_NodeId : string; jq_ClusterId : string; jq_Address : string; jq_RaftAddr : string;
  jq_JoinToken : string; jq_Relay : bool; jq_Observer : bool;
}.
Record certs := MkCerts { ct_NodeCert : list Z; ct_NodeKey : list Z; ct_CaCert : list Z; ct_TokenHash : list Z }.
Definition no_certs : certs := MkCerts [] [] [] [].
Record JoinResponse := MkJoinResponse {
  jr_Accepted : bool; jr_Message : option error; jr_Members : list Member; jr_Certs : certs;
}.
Record NodeRequest := MkNodeRequest { oq_NodeId : string; oq_Relay : bool }.
Record RejoinRequest := MkRejoinRequest {
  rq_NodeId : string; rq_Address : string; rq_Role : string; rq_Relay : bool;
}.
(** [PromoteResponse], [LeaveResponse] and [RejoinResponse]: done, a message, and the members. *)
Record DoneResponse := MkDone { dr_Done : bool; dr_Message : string; dr_Members : list Member }.

(** The interface [VoterAdder]; [consensus.Node] implements it. *)
Record VoterAdder (W : Type) := MkVoterAdder {
  va_AddVoter : W → string → string → W * option error;
  va_AddNonvoter : W → string → string → W * option error;
  va_PromoteToVoter : W → string → W * option error;
  va_RemoveVoter : W → string → W * option error;
  va_ApplyAddMemberAs : W → string → string → string → W * option error;
  va_ApplyDropMember : W → string → W * option error;
  va_HasServer : W → string → bool;
  va_IsLeader : W → bool;
}.
Arguments va_AddVoter {W}.
Arguments va_AddNonvoter {W}.
Arguments va_PromoteToVoter {W}.
Arguments va_RemoveVoter {W}.
Arguments va_ApplyAddMemberAs {W}.
Arguments va_ApplyDropMember {W}.
Arguments va_HasServer {W}.
Arguments va_IsLeader {W}.

Record JoinSecurity (W : Type) := MkJoinSecurity {
  sc_CheckToken : W → string → option error;
  sc_IssueNode : W → string → W * result error certs;
}.
Arguments sc_CheckToken {W}.
Arguments sc_IssueNode {W}.

Record JoinPeers (W : Type) := MkJoinPeers {
  jp_Dial : W → string → option error;
  jp_Join : W → string → JoinRequest → W * result status JoinResponse;
  jp_Promote : W → string → NodeRequest → W * result status DoneResponse;
  jp_Leave : W → string → NodeRequest → W * result status DoneResponse;
  jp_Rejoin : W → string → RejoinRequest → W * result status DoneResponse;
}.
Arguments jp_Dial {W}.
Arguments jp_Join {W}.
Arguments jp_Promote {W}.
Arguments jp_Leave {W}.
Arguments jp_Rejoin {W}.

Definition memberByID (e : Engine) (id : string) : option Member :=
  List.find (λ m, String.eqb (m_ID m) id) (Members e).

Definition invalid (msg : string) : status := Status InvalidArgument (Errorf msg []).
Definition internal (format : string) (err : error) : status := Status Internal (Errorf format [AErr err]).

Section service.
Context {W : Type}.
Context (engine : W → Engine) (set_engine : W → Engine → W).
Context (voter : option (VoterAdder W)) (sec : option (JoinSecurity W)) (peers : JoinPeers W).
Context (clusterID raftAddr : string).

(** [joinLocal] and [leaveLocal] on an engine, which has both methods. *)
Definition joinLocal (now : Time) (w : W) (id addr role : string) : W * option error :=
  match JoinAs now (engine w) id addr role with
  | (e, Fail err, _) => (set_engine w e, Some err)
  | (e, Ok _, _) => (set_engine w e, None)
  end.
Definition leaveLocal (w : W) (id : string) : W := set_engine w (Membership.Leave (engine w) id).1.

(** The leader to forward to, dialled. *)
Definition leaderConn (w : W) : result status string :=
  match Leader (engine w) with
  | None => Fail not_leader
  | Some l =>
    if str_empty (m_Address l) || String.eqb (m_ID l) (SelfID (engine w)) then Fail not_leader else
    match jp_Dial peers w (m_Address l) with
    | Some err => Fail (Status Unavailable (Errorf "dial leader %s: %v" [AStr (m_ID l); AErr err]))
    | None => Ok (m_Address l)
    end
  end.

Definition forwarding {R} (w : W) (call : W → string → W * result status R) : W * result status R :=
  match leaderConn w with
  | Fail st => (w, Fail st)
  | Ok addr => call w addr
  end.

Definition relayed (req : JoinRequest) : JoinRequest :=
  MkJoinRequest (jq_NodeId req) (jq_ClusterId req) (jq_Address req) (jq_RaftAddr req)
    (jq_JoinToken req) true (jq_Observer req).

Definition forwardToLeader (w : W) (req : JoinRequest) : W * result status JoinResponse :=
  forwarding w (λ w addr, jp_Join peers w addr (relayed req)).
Definition forwardPromote (w : W) (req : NodeRequest) : W * result status DoneResponse :=
  forwarding w (λ w addr, jp_Promote peers w addr (MkNodeRequest (oq_NodeId req) true)).
Definition forwardLeave (w : W) (req : NodeRequest) : W * result status DoneResponse :=
  forwarding w (λ w addr, jp_Leave peers w addr (MkNodeRequest (oq_NodeId req) true)).
Definition forwardRejoin (w : W) (req : RejoinRequest) : W * result status DoneResponse :=
  forwarding w (λ w addr, jp_Rejoin peers w addr (MkRejoinRequest (rq_NodeId req) (rq_Address req) (rq_Role req) true)).
(** The two of [controlService], which take an id. *)
Definition control_forwardPromote (w : W) (id : string) : W * result status DoneResponse :=
  forwarding w (λ w addr, jp_Promote peers w addr (MkNodeRequest id true)).
Definition control_forwardLeave (w : W) (id : string) : W * result status DoneResponse :=
  forwarding w (λ w addr, jp_Leave peers w addr (MkNodeRequest id true)).

(** [voter != nil && !voter.IsLeader()]: refuse a relayed request, forward others. *)
Definition on_leader {R} (w : W) (relay : bool) (fwd : W → W * result status R)
    (local : W → W * result status R) : W * result status R :=
  match voter with
  | Some v =>
    if negb (va_IsLeader v w) then if relay then (w, Fail not_leader) else fwd w
    else local w
  | None => local w
  end.

Definition done_with (w : W) : W * result status DoneResponse := (w, Ok (MkDone true "" (Members (engine w)))).
Definition finish (r : W * option status) : W * result status DoneResponse :=
  match r with
  | (w, Some st) => (w, Fail st)
  | (w, None) => done_with w
  end.

(** ** Join *)

(** [addr] of the Raft configuration, then [add_member]; the leader's part. *)
Definition addToRaft (v : VoterAdder W) (w : W) (req : JoinRequest) : W * option status :=
  if str_empty (jq_RaftAddr req) then (w, None) else
  if jq_Observer req then
    match va_AddNonvoter v w (jq_NodeId req) (jq_RaftAddr req) with
    | (w, Some err) => (w, Some (Status Internal (Errorf "add raft %s: %v" [AStr "nonvoter"; AErr err])))
    | (w, None) => (w, None)
    end
  else
    match va_AddVoter v w (jq_NodeId req) (jq_RaftAddr req) with
    | (w, Some err) => (w, Some (Status Internal (Errorf "add raft %s: %v" [AStr "voter"; AErr err])))
    | (w, None) => (w, None)
    end.

Definition enrol (now : Time) (w : W) (req : JoinRequest) : W * option status :=
  let role := if jq_Observer req then RoleObserver else RoleVoter in
  match voter with
  | Some v =>
    match addToRaft v w req with
    | (w, Some st) => (w, Some st)
    | (w, None) =>
      match va_ApplyAddMemberAs v w (jq_NodeId req) (jq_Address req) role with
      | (w, Some err) => (w, Some (internal "apply add_member: %v" err))
      | (w, None) => (w, None)
      end
    end
  | None =>
    match joinLocal now w (jq_NodeId req) (jq_Address req) role with
    | (w, Some err) => (w, Some (internal "join: %v" err))
    | (w, None) => (w, None)
    end
  end.

Definition issue (w : W) (req : JoinRequest) (members : list Member) : W * result status JoinResponse :=
  match sec with
  | None => (w, Ok (MkJoinResponse true None members no_certs))
  | Some s =>
    match sc_IssueNode s w (jq_NodeId req) with
    | (w, Fail err) => (w, Fail (internal "issue node cert: %v" err))
    | (w, Ok c) => (w, Ok (MkJoinResponse true None members c))
    end
  end.

Definition Join (now : Time) (w : W) (req : JoinRequest) : W * result status JoinResponse :=
  if str_empty (jq_NodeId req) then (w, Fail (invalid "node_id is required")) else
  if str_empty (jq_Address req) then (w, Fail (invalid "address is required")) else
  if negb (str_empty clusterID) && negb (str_empty (jq_ClusterId req)) &&
     negb (String.eqb (jq_ClusterId req) clusterID)
  then (w, Ok (MkJoinResponse false (Some (Errorf "cluster id mismatch: want %q" [AStr clusterID])) [] no_certs))
  else
  match (match sec with Some s => sc_CheckToken s w (jq_JoinToken req) | None => None end) with
  | Some _ => (w, Fail (Status Unauthenticated (Errorf "UNAUTHORIZED: invalid join token" [])))
  | None =>
    on_leader w (jq_Relay req) (λ w, forwardToLeader w req) (λ w,
      match enrol now w req with
      | (w, Some st) => (w, Fail st)
      | (w, None) => issue w req (Members (engine w))
      end)
  end.

(** ** Promote *)

Definition promoteMember (now : Time) (w : W) (id : string) : W * option status :=
  match memberByID (engine w) id with
  | None => (w, Some (Status NotFound (Errorf "member %s not found" [AStr id])))
  | Some m =>
    if negb (String.eqb (m_Status m) StatusAlive)
    then (w, Some (Status FailedPrecondition (Errorf "member %s is %s" [AStr id; AStr (m_Status m)]))) else
    if String.eqb (NormalizeRole (m_Role m)) RoleVoter then (w, None) else
    match voter with
    | Some v =>
      match va_PromoteToVoter v w id with
      | (w, Some err) => (w, Some (internal "promote raft voter: %v" err))
      | (w, None) =>
        match va_ApplyAddMemberAs v w id (m_Address m) RoleVoter with
        | (w, Some err) => (w, Some (internal "apply add_member: %v" err))
        | (w, None) => (w, None)
        end
      end
    | None =>
      match joinLocal now w id (m_Address m) RoleVoter with
      | (w, Some err) => (w, Some (internal "promote: %v" err))
      | (w, None) => (w, None)
      end
    end
  end.

Definition Promote (now : Time) (w : W) (req : NodeRequest) : W * result status DoneResponse :=
  if str_empty (oq_NodeId req) then (w, Fail (invalid "node_id is required")) else
  on_leader w (oq_Relay req) (λ w, forwardPromote w req)
    (λ w, finish (promoteMember now w (oq_NodeId req))).

(** ** Leave *)

Definition leaveMember (w : W) (id : string) : W * option status :=
  let inMem := match memberByID (engine w) id with Some _ => true | None => false end in
  let inRaft := match voter with Some v => va_HasServer v w id | None => false end in
  let already := Left (engine w) id in
  if negb inMem && negb inRaft && negb already
  then (w, Some (Status NotFound (Errorf "member %s not found" [AStr id]))) else
  if already && negb inRaft then (w, None) else
  match voter with
  | Some v =>
    match va_ApplyDropMember v w id with
    | (w, Some err) => (w, Some (internal "apply drop_member: %v" err))
    | (w, None) =>
      if inRaft then
        match va_RemoveVoter v w id with
        | (w, Some err) => (w, Some (internal "remove raft server: %v" err))
        | (w, None) => (w, None)
        end
      else (w, None)
    end
  | None => (leaveLocal w id, None)
  end.

Definition Leave (w : W) (req : NodeRequest) : W * result status DoneResponse :=
  if str_empty (oq_NodeId req) then (w, Fail (invalid "node_id is required")) else
  on_leader w (oq_Relay req) (λ w, forwardLeave w req)
    (λ w, finish (leaveMember w (oq_NodeId req))).

(** ** Rejoin *)

Definition rejoinMember (now : Time) (w : W) (id addr role : string) : W * option status :=
  if match voter with Some v => negb (va_HasServer v w id) | None => false end
  then (w, Some (Status FailedPrecondition (Errorf "not a raft member; use Join" []))) else
  let role := match memberByID (engine w) id with
              | Some m => NormalizeRole (m_Role m)
              | None => NormalizeRole role end in
  match voter with
  | Some v =>
    match va_ApplyAddMemberAs v w id addr role with
    | (w, Some err) => (w, Some (internal "apply add_member: %v" err))
    | (w, None) => (w, None)
    end
  | None =>
    match joinLocal now w id addr role with
    | (w, Some err) => (w, Some (internal "rejoin: %v" err))
    | (w, None) => (w, None)
    end
  end.

Definition Rejoin (now : Time) (w : W) (req : RejoinRequest) : W * result status DoneResponse :=
  if str_empty (rq_NodeId req) then (w, Fail (invalid "node_id is required")) else
  if str_empty (rq_Address req) then (w, Fail (invalid "address is required")) else
  on_leader w (rq_Relay req) (λ w, forwardRejoin w req)
    (λ w, finish (rejoinMember now w (rq_NodeId req) (rq_Address req) (rq_Role req))).

(** ** The control service of the CLI *)

(** [SaveJoinCerts] of the joining node's store, if it has one. *)
Definition RequestJoin (boot : option (W → certs → W * option error)) (w : W) (addr token : string)
    (observer : bool) : W * result status (bool * option error * list Member * bool) :=
  if str_empty addr then (w, Fail (invalid "addr is required")) else
  match jp_Dial peers w addr with
  | Some err => (w, Fail (Status Unavailable (Errorf "dial %s: %v" [AStr addr; AErr err])))
  | None =>
    let self := SelfID (engine w) in
    let selfAddr := from_option m_Address "" (memberByID (engine w) self) in
    match jp_Join peers w addr (MkJoinRequest self clusterID selfAddr raftAddr token false observer) with
    | (w, Fail st) =>
      (w, Fail (if decide (st_code st = Unauthenticated) then st
                else Status Unavailable (Errorf "remote join: %v" [AErr (st_msg st)])))
    | (w, Ok resp) =>
      if negb (jr_Accepted resp)
      then (w, Ok (false, Some (Errorf "rejected: %s" (option_list (AErr <$> jr_Message resp))), [], false))
      else
      let issued := bool_decide (0 < length (ct_NodeCert (jr_Certs resp))) in
      match boot with
      | Some save =>
        if issued then
          match save w (jr_Certs resp) with
          | (w, Some err) => (w, Fail (internal "save join certs: %v" err))
          | (w, None) => (w, Ok (true, None, jr_Members resp, issued))
          end
        else (w, Ok (true, None, jr_Members resp, issued))
      | None => (w, Ok (true, None, jr_Members resp, issued))
      end
    end
  end.

(** [RequestPromote] and [RequestLeave]: an empty id is this node. *)
Definition request_target (w : W) (id : string) : string :=
  if str_empty id then SelfID (engine w) else id.

Definition RequestPromote (now : Time) (w : W) (id : string) : W * result status DoneResponse :=
  let id := request_target w id in
  if str_empty id then (w, Fail (invalid "node_id is required")) else
  on_leader w false (λ w, control_forwardPromote w id)
    (λ w, finish (promoteMember now w id)).

Definition RequestLeave (w : W) (id : string) : W * result status DoneResponse :=
  let id := request_target w id in
  if str_empty id then (w, Fail (invalid "node_id is required")) else
  on_leader w false (λ w, control_forwardLeave w id)
    (λ w, finish (leaveMember w id)).

End service.

(** ** Properties *)

Definition joined (r : result status JoinResponse) : bool :=
  match r with Ok resp => jr_Accepted resp | Fail _ => false end.

Section props.
Context {W : Type}.
Context (engine : W → Engine) (set_engine : W → Engine → W).
Context (sec : option (JoinSecurity W)) (peers : JoinPeers W).
Context (clusterID raftAddr : string).

(** Nobody joins without the token: when the cluster checks tokens and the
    token of a request is refused, [Join] does not accept the request and changes
    nothing: no Raft configuration change, no command, no certificate, no
    forward. *)
Theorem join_needs_token voter s now w req err :
  sec = Some s → sc_CheckToken s w (jq_JoinToken req) = Some err →
  (Join engine set_engine voter sec peers clusterID now w req).1 = w ∧
  match (Join engine set_engine voter sec peers clusterID now w req).2 with
  | Ok resp => jr_Accepted resp = false ∧ jr_Certs resp = no_certs
  | Fail st => st_code st = InvalidArgument ∨ st_code st = Unauthenticated
  end.
Proof.
  intros Hs Ht. unfold Join. destruct (str_empty (jq_NodeId req)); [by split; [|left]|].
  destruct (str_empty (jq_Address req)); [by split; [|left]|]. destruct (_ && _); [done|].
  rewrite Hs, Ht. by split; [|right].
Qed.

(** Requests are relayed at most one hop: what a daemon forwards is marked as
    relayed, and a daemon that is not the leader refuses a relayed [Join],
    [Promote], [Leave] or [Rejoin] with [NOT_LEADER] (after its argument checks)
    without forwarding or changing anything. *)
Theorem relay_one_hop v now w jreq preq lreq rreq :
  va_IsLeader v w = false →
  jq_Relay jreq = true → oq_Relay preq = true → oq_Relay lreq = true → rq_Relay rreq = true →
  let rj := Join engine set_engine (Some v) sec peers clusterID now w jreq in
  let rp := Promote engine set_engine (Some v) peers now w preq in
  let rl := Leave engine set_engine (Some v) peers w lreq in
  let rr := Rejoin engine set_engine (Some v) peers now w rreq in
  (rj.1 = w ∧ joined rj.2 = false) ∧ (rp.1 = w ∧ isOk rp.2 = false) ∧
  (rl.1 = w ∧ isOk rl.2 = false) ∧ (rr.1 = w ∧ isOk rr.2 = false) ∧
  ∀ req, jq_Relay (relayed req) = true.
Proof.
  intros Hl Hj Hp Hv Hr. unfold Join, Promote, Leave, Rejoin, on_leader. rewrite Hl, Hj, Hp, Hv, Hr. simpl.
  repeat split; repeat case_match; simplify_eq/=; done.
Qed.

(** On the leader a join is committed in order: the Raft configuration first
    (as a non-voter for an observer), then the [add_member] command with the
    matching role, and only then the members are read and a certificate is
    issued; if the configuration change fails no command is proposed. *)
Theorem join_commits_in_order v now w req :
  va_IsLeader v w = true → str_empty (jq_NodeId req) = false → str_empty (jq_Address req) = false →
  str_empty clusterID = true → str_empty (jq_RaftAddr req) = false →
  match sec with Some s => sc_CheckToken s w (jq_JoinToken req) = None | None => True end →
  let role := if jq_Observer req then RoleObserver else RoleVoter in
  let add := if jq_Observer req then va_AddNonvoter v else va_AddVoter v in
  let r := Join engine set_engine (Some v) sec peers clusterID now w req in
  match add w (jq_NodeId req) (jq_RaftAddr req) with
  | (w1, Some _) => r.1 = w1 ∧ isOk r.2 = false
  | (w1, None) =>
    match va_ApplyAddMemberAs v w1 (jq_NodeId req) (jq_Address req) role with
    | (w2, Some _) => r.1 = w2 ∧ isOk r.2 = false
    | (w2, None) => r = issue sec w2 req (Members (engine w2))
    end
  end.
Proof.
  intros Hl Hid Ha Hcl Hra Hsec role add r. unfold r, Join. rewrite Hid, Ha, Hcl. simpl.
  assert (match sec with Some s => sc_CheckToken s w (jq_JoinToken req) | None => None end = None) as ->.
  { by destruct sec. }
  unfold on_leader. rewrite Hl. simpl. unfold enrol, addToRaft, add, role. rewrite Hra.
  destruct (jq_Observer req).
  - destruct (va_AddNonvoter v w _ _) as [w1 [err|]]; [done|].
    by destruct (va_ApplyAddMemberAs v w1 _ _ _) as [w2 [err|]].
  - destruct (va_AddVoter v w _ _) as [w1 [err|]]; [done|].
    by destruct (va_ApplyAddMemberAs v w1 _ _ _) as [w2 [err|]].
Qed.

(** A leave can be retried until the node is out of both the member list and
    the Raft configuration: if the [drop_member] command was applied but removing
    the server failed, a second [Leave] on the leader is not answered [NotFound]
    but removes the server, and once the server is gone a further [Leave] does
    nothing and succeeds. *)
Theorem leave_is_retryable v w id :
  Left (engine w) id = true →
  (va_HasServer v w id = true →
   ∀ w1 w2, va_ApplyDropMember v w id = (w1, None) → va_RemoveVoter v w1 id = (w2, None) →
   leaveMember engine set_engine (Some v) w id = (w2, None)) ∧
  (va_HasServer v w id = false → leaveMember engine set_engine (Some v) w id = (w, None)).
Proof.
  intros Hleft. unfold leaveMember. rewrite Hleft. split.
  - intros Hs w1 w2 Hd Hr. rewrite Hs, Hd, Hr. simpl. by rewrite andb_false_r.
  - intros Hs. rewrite Hs. simpl. by rewrite andb_false_r.
Qed.

(** Rejoining never adds a server: for every observation [config] of the
    world that the [add_member] command does not change, a [Rejoin] handled on
    the leader does not change it either; a node outside the Raft configuration
    is refused and nothing happens; a listed member keeps its role whatever role
    the request asks for. *)
Theorem rejoin_keeps_configuration {C} (config : W → C) v now w req :
  mreachable (engine w) → va_IsLeader v w = true →
  (∀ w id a r, config (va_ApplyAddMemberAs v w id a r).1 = config w) →
  let r := Rejoin engine set_engine (Some v) peers now w req in
  config r.1 = config w ∧
  (va_HasServer v w (rq_NodeId req) = false → r.1 = w ∧ isOk r.2 = false) ∧
  (isOk r.2 = true → ∀ m, members (engine w) !! rq_NodeId req = Some m →
     r.1 = (va_ApplyAddMemberAs v w (rq_NodeId req) (rq_Address req) (m_Role m)).1).
Proof.
  intros Hreach Hl Hcfg r. unfold r, Rejoin.
  destruct (str_empty (rq_NodeId req)); [done|]. destruct (str_empty (rq_Address req)); [done|].
  unfold on_leader. rewrite Hl. simpl. unfold rejoinMember.
  destruct (va_HasServer v w (rq_NodeId req)) eqn:Hs; simpl; [|done].
  match goal with |- context [va_ApplyAddMemberAs v w _ _ ?r] => set (role := r) end.
  pose proof (Hcfg w (rq_NodeId req) (rq_Address req) role) as Hc.
  destruct (va_ApplyAddMemberAs v w (rq_NodeId req) (rq_Address req) role) as [w1 [err|]] eqn:Ha; simpl in *; [done|].
  split_and!; [done..|]. intros _ m Hm.
  assert (role = m_Role m) as Hrole.
  { unfold role. pose proof (engine_wf_reachable _ Hreach) as Hwf. destruct (Hwf _ _ Hm) as [Hid _ _ Hro _].
    assert (memberByID (engine w) (rq_NodeId req) = Some m) as ->; [|by apply NormalizeRole_id].
    unfold memberByID. destruct (List.find _ _) as [m'|] eqn:Hf.
    - apply List.find_some in Hf as [Hin Heq]. apply String.eqb_eq in Heq.
      apply list_elem_of_In in Hin. unfold Members in Hin.
      rewrite sort_by_perm, (keyed_elem m_ID) in Hin by by apply engine_keyed. congruence.
    - exfalso. assert (In m (Members (engine w))) as Hin.
      { apply list_elem_of_In. unfold Members. rewrite sort_by_perm, (keyed_elem m_ID), Hid by by apply engine_keyed.
        done. }
      apply (List.find_none _ _ Hf) in Hin. rewrite Hid, String.eqb_refl in Hin. done. }
  by rewrite <-Hrole, Ha.
Qed.

End props.

(** ** A concrete leader: members and the ids in the Raft configuration *)
Module JoinExamples.
Abbreviation world := (Engine * list string)%type.
Definition set_engine (w : world) (e : Engine) : world := (e, w.2).
Definition add (w : world) (id _ : string) : world * option error := ((w.1, id :: w.2), None).
Definition voter (leader : bool) : VoterAdder world := MkVoterAdder world
  add add
  (λ w id, (w, None))
  (λ w id, ((w.1, List.filter (λ x, negb (String.eqb x id)) w.2), None))
  (λ w id a r, (((JoinAs 5 w.1 id a r).1.1, w.2), None))
  (λ w id, (((Membership.Leave w.1 id).1, w.2), None))
  (λ w id, existsb (String.eqb id) w.2)
  (λ _, leader).
Definition no_peers : JoinPeers world :=
  let down {R} : result status R := Fail (Status Unavailable (Errorf "down" [])) in
  MkJoinPeers world (λ _ _, None) (λ w _ _, (w, down)) (λ w _ _, (w, down)) (λ w _ _, (w, down)) (λ w _ _, (w, down)).
Definition security : JoinSecurity world := MkJoinSecurity world
  (λ _ t, if String.eqb t "s3cret" then None else Some (Errorf "bad token" [])) (λ w _, (w, Ok no_certs)).
Definition start : world := (MemberExamples.self, ["n1"]).
Definition req (token : string) (relay : bool) : JoinRequest :=
  MkJoinRequest "n2" "" "h:2" "r:2" token relay true.

Lemma join_needs_token_witness :
  (Join fst set_engine (Some (voter true)) (Some security) no_peers "" 5 start (req "guess" false)).1 = start.
Proof.
  apply (join_needs_token fst set_engine (Some security) no_peers "" (Some (voter true)) security 5 start
    (req "guess" false) (Errorf "bad token" [])); reflexivity.
Defined.

Lemma relay_one_hop_witness :
  (Join fst set_engine (Some (voter false)) None no_peers "" 5 start (req "" true)).1 = start.
Proof.
  apply (relay_one_hop fst set_engine None no_peers "" (voter false) 5 start (req "" true)
    (MkNodeRequest "n1" true) (MkNodeRequest "n1" true) (MkRejoinRequest "n1" "h:1" "" true)); reflexivity.
Defined.

Definition w1 : world := (MemberExamples.self, ["n2"; "n1"]).
Definition w2 : world := ((JoinAs 5 MemberExamples.self "n2" "h:2" "observer").1.1, ["n2"; "n1"]).
Lemma join_commits_in_order_witness :
  Join fst set_engine (Some (voter true)) (Some security) no_peers "" 5 start (req "s3cret" false) =
  issue (Some security) w2 (req "s3cret" false) (Members w2.1).
Proof.
  exact (join_commits_in_order fst set_engine (Some security) no_peers "" (voter true) 5 start
    (req "s3cret" false) eq_refl eq_refl eq_refl eq_refl eq_refl eq_refl).
Defined.

Definition left : world := ((Membership.Leave MemberExamples.self "n1").1, ["n1"]).
Lemma leave_is_retryable_witness :
  leaveMember fst set_engine (Some (voter true)) left "n1" = ((Membership.Leave left.1 "n1").1, [], None).
Proof.
  apply (proj1 (leave_is_retryable fst set_engine (voter true) left "n1" eq_refl) eq_refl
    ((Membership.Leave left.1 "n1").1, ["n1"])); reflexivity.
Defined.

Lemma rejoin_keeps_configuration_witness :
  (Rejoin fst set_engine (Some (voter true)) no_peers 5 start (MkRejoinRequest "n1" "h:9" "observer" false)).1.2 =
  ["n1"].
Proof.
  apply (rejoin_keeps_configuration fst set_engine no_peers (snd : world → list string) (voter true) 5 start
    (MkRejoinRequest "n1" "h:9" "observer" false));
    [apply MemberExamples.self_reachable|reflexivity|intros; reflexivity].
Defined.
End JoinExamples.
