(* ===== verification/Heartbeat.v ===== *)
(** * Heartbeat: the liveness monitor and the small read services

    One [tick] of [internal/heartbeat/monitor.go] over the member list it reads at
    its start; [ping] is the outcome of dialling and pinging an address.  The
    peers a tick reports dead are returned in order; production commits
    [mark_dead] for each, without consensus the engine is changed directly.
    Also the read-only handlers of [internal/grpcserver/membership.go],
    [health.go] and [heartbeat.go]. *)
From S2P Require Import Prelude Events Membership.

Record Config := MkConfig { Interval : Duration; Timeout : Duration; MaxMisses : Z }.

(** The body of the loop for a member that is pinged. *)
Definition probe (cfg : Config) (ok : bool) (id : string) (misses : gmap string Z)
    : gmap string Z * list string :=
  if ok then (delete id misses, []) else
  let n := (lookup0 misses id + 1)%Z in
  if (MaxMisses cfg <=? n)%Z then (delete id misses, [id]) else (<[id := n]> misses, []).

(** Whether a tick pings this member. *)
Definition probed (self : string) (m : Member) : bool :=
  negb (String.eqb (m_ID m) self) && String.eqb (m_Status m) StatusAlive.

Definition tick_member (cfg : Config) (ping : string → bool) (self : string)
    (acc : gmap string Z * list string) (m : Member) : gmap string Z * list string :=
  if probed self m then
    let r := probe cfg (ping (m_Address m)) (m_ID m) acc.1 in (r.1, acc.2 ++ r.2)
  else acc.

Definition tick (cfg : Config) (ping : string → bool) (e : Engine) (misses : gmap string Z)
    : gmap string Z * list string :=
  foldl (tick_member cfg ping (SelfID e)) (misses, []) (Members e).

(** [ping]: [creds] is [m.creds] with what it returns, either may be nil; [Dial] is
    [mtls.Dial], and [Call] the RPC to an address under a context that is done or
    not. *)
Definition ping {K} (Dial : string → option K → option error) (Call : bool → string → option error)
    (creds : option (option K)) (done : bool) (addr : string) : option error :=
  match Dial addr (mjoin creds) with
  | Some err => Some (Errorf "dial: %w" [AErr err])
  | None => Call done addr
  end.
Definition reachable {K} Dial Call (creds : option (option K)) (done : bool) (addr : string) : bool :=
  bool_decide (ping Dial Call creds done addr = None).

(** A [tick] whose context is cancelled by [Stop] while it runs: after the first
    [k] members of the list every ping runs under a context that is done. *)
Definition tick_stopped (cfg : Config) (ping : bool → string → bool) (k : nat) (e : Engine) (misses : gmap string Z)
    : gmap string Z * list string :=
  foldl (tick_member cfg (ping true) (SelfID e))
    (foldl (tick_member cfg (ping false) (SelfID e)) (misses, []) (take k (Members e))) (drop k (Members e)).

(** [m.reportDead == nil]: the engine is marked directly. *)
Definition mark_reports (e : Engine) (ids : list string) : Engine :=
  foldl (λ e id, (MarkDead e id).1) e ids.

(** ** Read services *)

Record ProtoMember := MkProtoMember {
  pm_Id : string; pm_Address : string; pm_Status : string; pm_Leader : bool; pm_Role : string;
}.
Definition memberToProto (m : Member) : ProtoMember :=
  MkProtoMember (m_ID m) (m_Address m) (NormalizeStatus (m_Status m)) (m_Leader m) (NormalizeRole (m_Role m)).
Definition ListMembers (e : Engine) : list ProtoMember := memberToProto <$> Members e.
Definition GetLeader (e : Engine) : result status (string * string) :=
  match Leader e with
  | None => Fail (Status Unavailable (Errorf "no leader elected" []))
  | Some l => Ok (m_ID l, m_Address l)
  end.

Record NodeInfo := MkNodeInfo { ni_NodeID : string; ni_ClusterID : string; ni_Role : string }.
Definition Health (info : NodeInfo) : string * string * string * bool :=
  (ni_NodeID info, ni_ClusterID info, ni_Role info, true).
Definition Ping (nodeID : string) : string * bool := (nodeID, true).

(** ** The monitor over many ticks *)

(** What each tick finds: the member list and the reachable addresses. *)
Abbreviation round := (Engine * (string → bool))%type.

Fixpoint ticks (cfg : Config) (misses : gmap string Z) (rs : list round) : gmap string Z * list (list string) :=
  match rs with
  | [] => (misses, [])
  | (e, ping) :: rs =>
    let r := tick cfg ping e misses in
    let rest := ticks cfg r.1 rs in (rest.1, r.2 :: rest.2)
  end.

(** The outcome of [id]'s ping in a round, if it was pinged. *)
Definition outcome (id : string) (r : round) : option bool :=
  match members r.1 !! id with
  | Some m => if probed (SelfID r.1) m then Some (r.2 (m_Address m)) else None
  | None => None
  end.

(** [fail_run n l]: the last [n] outcomes, [l] being newest first, are failures. *)
Definition fail_run (n : nat) (l : list bool) : Prop :=
  n ≤ length l ∧ Forall (λ b, b = false) (take n l).

(** What one tick does to the counter of a single peer, and whether it reports it. *)
Definition solo (cfg : Config) (out : option bool) (c : option Z) : option Z * bool :=
  match out with
  | None => (c, false)
  | Some true => (None, false)
  | Some false =>
    let n := (default 0 c + 1)%Z in
    if (MaxMisses cfg <=? n)%Z then (None, true) else (Some n, false)
  end.

Lemma probe_solo cfg ok id ms :
  (probe cfg ok id ms).1 !! id = (solo cfg (Some ok) (ms !! id)).1 ∧
  (id ∈ (probe cfg ok id ms).2 ↔ (solo cfg (Some ok) (ms !! id)).2 = true).
Proof.
  unfold probe, solo, lookup0. destruct ok; simpl; [rewrite lookup_delete_eq; set_solver|].
  case_match; simpl; rewrite ?lookup_delete_eq, ?lookup_insert_eq; set_solver.
Qed.
Lemma probe_other cfg ok id id' ms :
  id' ≠ id → (probe cfg ok id ms).1 !! id' = ms !! id' ∧ id' ∉ (probe cfg ok id ms).2.
Proof.
  intros Hne. unfold probe. destruct ok; simpl; [rewrite lookup_delete_ne by done; set_solver|].
  case_match; simpl; rewrite ?lookup_delete_ne, ?lookup_insert_ne by done; set_solver.
Qed.

Lemma tick_member_other cfg ping self acc m id :
  m_ID m ≠ id →
  (tick_member cfg ping self acc m).1 !! id = acc.1 !! id ∧
  (id ∈ (tick_member cfg ping self acc m).2 ↔ id ∈ acc.2).
Proof.
  intros Hne. unfold tick_member. destruct (probed self m); [|done]. simpl.
  destruct (probe_other cfg (ping (m_Address m)) (m_ID m) id acc.1) as [H1 H2]; [done|]. set_solver.
Qed.

Definition member_outcome (ping : string → bool) (self id : string) (l : list Member) : option bool :=
  match List.find (λ m, String.eqb (m_ID m) id) l with
  | Some m => if probed self m then Some (ping (m_Address m)) else None
  | None => None
  end.

(** A tick treats each peer as if it were alone. *)
Lemma tick_fold cfg ping self l acc id :
  NoDup (m_ID <$> l) →
  (foldl (tick_member cfg ping self) acc l).1 !! id =
    (solo cfg (member_outcome ping self id l) (acc.1 !! id)).1 ∧
  (id ∈ (foldl (tick_member cfg ping self) acc l).2 ↔
    id ∈ acc.2 ∨ (solo cfg (member_outcome ping self id l) (acc.1 !! id)).2 = true).
Proof.
  revert acc; induction l as [|m l IH]; intros acc Hnd; simpl; [split; [done|naive_solver]|].
  apply NoDup_cons in Hnd as [Hm Hnd].
  destruct (IH (tick_member cfg ping self acc m) Hnd) as [-> ->]. unfold member_outcome; simpl.
  destruct (String.eqb_spec (m_ID m) id) as [<-|Hid].
  - destruct (List.find _ l) as [x|] eqn:Hf.
    { exfalso. apply List.find_some in Hf as [Hin Heq]. apply String.eqb_eq in Heq.
      apply Hm. rewrite <-Heq. apply list_elem_of_fmap_2. by apply list_elem_of_In. }
    unfold tick_member. destruct (probed self m); simpl; [|naive_solver].
    destruct (probe_solo cfg (ping (m_Address m)) (m_ID m) acc.1) as [-> H2].
    rewrite elem_of_app, H2. naive_solver.
  - destruct (tick_member_other cfg ping self acc m id Hid) as [-> ->]. done.
Qed.

Lemma tick_solo cfg ping e ms id :
  engine_wf e →
  (tick cfg ping e ms).1 !! id = (solo cfg (outcome id (e, ping)) (ms !! id)).1 ∧
  (id ∈ (tick cfg ping e ms).2 ↔ (solo cfg (outcome id (e, ping)) (ms !! id)).2 = true).
Proof.
  intros Hwf. pose proof (engine_keyed _ Hwf) as Hk.
  assert (member_outcome ping (SelfID e) id (Members e) = outcome id (e, ping)) as Ho.
  { unfold member_outcome, outcome; simpl.
    assert (∀ m, In m (Members e) ↔ members e !! m_ID m = Some m) as Hin.
    { intros m. rewrite <-list_elem_of_In. unfold Members. rewrite sort_by_perm. by apply keyed_elem. }
    destruct (List.find _ _) as [m|] eqn:Hf.
    - apply List.find_some in Hf as [Hm Heq]. apply String.eqb_eq in Heq as <-. apply Hin in Hm. by rewrite Hm.
    - destruct (members e !! id) as [m|] eqn:Hm; [|done]. pose proof (Hk _ _ Hm) as Hid.
      apply (List.find_none _ _) with (x := m) in Hf; [|apply Hin; by rewrite Hid].
      by rewrite Hid, String.eqb_refl in Hf. }
  unfold tick. destruct (tick_fold cfg ping (SelfID e) (Members e) (ms, []) id) as [H1 H2].
  { unfold Members. rewrite sort_by_perm. by apply keyed_NoDup. }
  rewrite Ho in H1, H2. simpl in H1, H2. split; [done|]. rewrite H2. set_solver.
Qed.

Lemma fail_run_cons n l : fail_run n l → fail_run (S n) (false :: l).
Proof. intros [Hn Hf]. split; simpl; [lia|]. by constructor. Qed.

(** The counter of a peer is backed by that many failed pings in a row. *)
Lemma solo_fail_run cfg out c l n :
  (1 ≤ MaxMisses cfg)%Z → (0 ≤ default 0%Z c < MaxMisses cfg)%Z → fail_run (Z.to_nat (default 0%Z c)) l →
  let l' := option_list out ++ l in
  (0 ≤ default 0%Z (solo cfg out c).1 < MaxMisses cfg)%Z ∧
  fail_run (Z.to_nat (default 0%Z (solo cfg out c).1)) l' ∧
  ((solo cfg out c).2 = true → n = Z.to_nat (MaxMisses cfg) → fail_run n l').
Proof.
  intros Hmax Hc Hl. destruct out as [[]|]; simpl.
  - split_and!; try done; [lia|split; [simpl; lia|constructor]].
  - apply fail_run_cons in Hl. destruct (Z.leb_spec (MaxMisses cfg) (default 0%Z c + 1)); simpl.
    + split_and!; [lia|lia|split; [simpl; lia|constructor]|]. intros _ ->.
      replace (Z.to_nat (MaxMisses cfg)) with (S (Z.to_nat (default 0%Z c))) by lia. done.
    + split_and!; [lia|lia| |done].
      replace (Z.to_nat (default 0%Z c + 1)) with (S (Z.to_nat (default 0%Z c))) by lia. done.
  - split_and!; done || lia.
Qed.

Lemma ticks_snoc cfg ms rs e ping :
  ticks cfg ms (rs ++ [(e, ping)]) =
  let r := ticks cfg ms rs in let t := tick cfg ping e r.1 in (t.1, r.2 ++ [t.2]).
Proof.
  revert ms; induction rs as [|[e' ping'] rs IH]; intros ms; simpl; [done|]. by rewrite IH.
Qed.

(** Newest first, the outcomes of the rounds in which [id] was pinged. *)
Definition history (id : string) (rs : list round) : list bool := reverse (omap (outcome id) rs).
Lemma history_snoc id rs r : history id (rs ++ [r]) = option_list (outcome id r) ++ history id rs.
Proof.
  unfold history. rewrite omap_app, reverse_app. f_equal. csimpl. by destruct (outcome id r).
Qed.

Lemma ticks_counter cfg rs id :
  (1 ≤ MaxMisses cfg)%Z → Forall (λ r : round, engine_wf r.1) rs →
  (0 ≤ lookup0 (ticks cfg ∅ rs).1 id < MaxMisses cfg)%Z ∧
  fail_run (Z.to_nat (lookup0 (ticks cfg ∅ rs).1 id)) (history id rs).
Proof.
  intros Hmax. unfold lookup0. induction rs as [|[e ping] rs IH] using rev_ind; intros Hwf.
  { simpl. rewrite lookup_empty; simpl. split; [lia|]. by split. }
  apply Forall_app in Hwf as [Hwf [He _]%Forall_cons]. destruct (IH Hwf) as [Hc Hf]. simpl in He.
  rewrite ticks_snoc, history_snoc. simpl. destruct (tick_solo cfg ping e (ticks cfg ∅ rs).1 id He) as [-> _].
  destruct (solo_fail_run cfg (outcome id (e, ping)) ((ticks cfg ∅ rs).1 !! id) (history id rs) 0)
    as (? & ? & _); done.
Qed.

(** While every ping fails and the limit is not reached, the counter is the number
    of ticks and nothing is reported. *)
Lemma ticks_all_fail cfg rs id :
  (1 ≤ MaxMisses cfg)%Z → Forall (λ r : round, engine_wf r.1) rs →
  Forall (λ r, outcome id r = Some false) rs → (Z.of_nat (length rs) < MaxMisses cfg)%Z →
  lookup0 (ticks cfg ∅ rs).1 id = Z.of_nat (length rs) ∧ Forall (λ l, id ∉ l) (ticks cfg ∅ rs).2.
Proof.
  intros Hmax. unfold lookup0. induction rs as [|[e ping] rs IH] using rev_ind; intros Hwf Hall Hlen.
  { simpl. rewrite lookup_empty. by split. }
  apply Forall_app in Hwf as [Hwf [He _]%Forall_cons]. apply Forall_app in Hall as [Hall [Ho _]%Forall_cons].
  rewrite length_app in Hlen |- *. simpl in Hlen, He |- *. destruct (IH Hwf Hall) as [Hc Hno]; [lia|].
  rewrite ticks_snoc. simpl. destruct (tick_solo cfg ping e (ticks cfg ∅ rs).1 id He) as [-> Hrep].
  rewrite Ho in Hrep |- *. simpl in Hrep |- *. rewrite Hc in Hrep |- *.
  destruct (Z.leb_spec (MaxMisses cfg) (Z.of_nat (length rs) + 1)); [lia|]. simpl in *.
  split; [lia|]. apply Forall_app. split; [done|]. constructor; [|done]. by rewrite Hrep.
Qed.

(** C31: A peer is reported dead only after [MaxMisses] failed pings in a row, with
    no successful one in between; and a peer that is alive in the list and fails
    every ping is reported exactly at its [MaxMisses]-th tick. *)
Theorem heartbeat_reports_consecutive_misses cfg rs e ping id :
  (1 ≤ MaxMisses cfg)%Z → Forall (λ r : round, mreachable r.1) (rs ++ [(e, ping)]) →
  (id ∈ (tick cfg ping e (ticks cfg ∅ rs).1).2 →
   fail_run (Z.to_nat (MaxMisses cfg)) (history id (rs ++ [(e, ping)]))) ∧
  (Forall (λ r, outcome id r = Some false) (rs ++ [(e, ping)]) →
   Z.of_nat (length rs) = (MaxMisses cfg - 1)%Z →
   id ∈ (tick cfg ping e (ticks cfg ∅ rs).1).2 ∧ Forall (λ l, id ∉ l) (ticks cfg ∅ rs).2).
Proof.
  intros Hmax Hreach.
  assert (Forall (λ r : round, engine_wf r.1) (rs ++ [(e, ping)])) as Hwf.
  { eapply Forall_impl; [done|]. intros r. apply engine_wf_reachable. }
  apply Forall_app in Hwf as [Hwf [He _]%Forall_cons]. simpl in He.
  destruct (tick_solo cfg ping e (ticks cfg ∅ rs).1 id He) as [_ Hrep].
  destruct (ticks_counter cfg rs id Hmax Hwf) as [Hc Hf]. split.
  - rewrite Hrep, history_snoc. intros Hs.
    by eapply (solo_fail_run cfg (outcome id (e, ping)) ((ticks cfg ∅ rs).1 !! id) (history id rs)).
  - intros [Hall [Hlast _]%Forall_cons]%Forall_app Hlen.
    destruct (ticks_all_fail cfg rs id Hmax Hwf Hall) as [Hcnt Hno]; [lia|]. split; [|done].
    rewrite Hrep, Hlast. unfold lookup0 in Hcnt. simpl. rewrite Hcnt.
    destruct (Z.leb_spec (MaxMisses cfg) (Z.of_nat (length rs) + 1)); [done|lia].
Qed.

Lemma tick_stopped_late cfg ping k e misses :
  length (Members e) ≤ k → tick_stopped cfg ping k e misses = tick cfg (ping false) e misses.
Proof. intros Hk. unfold tick_stopped. by rewrite take_ge, drop_ge. Qed.

Lemma member_outcome_elem ping self l m :
  NoDup (m_ID <$> l) → m ∈ l → probed self m = true → member_outcome ping self (m_ID m) l = Some (ping (m_Address m)).
Proof.
  induction l as [|x l IH]; [set_solver|]. intros [Hx Hnd]%NoDup_cons Hm Hp. unfold member_outcome. simpl.
  apply elem_of_cons in Hm as [->|Hm]; [by rewrite String.eqb_refl, Hp|].
  destruct (String.eqb_spec (m_ID x) (m_ID m)) as [Heq|]; [|by apply IH].
  exfalso. apply Hx. rewrite Heq. by apply list_elem_of_fmap_2.
Qed.
Lemma member_outcome_absent ping self l id : id ∉ m_ID <$> l → member_outcome ping self id l = None.
Proof.
  induction l as [|x l IH]; [done|]. intros Hid. unfold member_outcome. simpl.
  destruct (String.eqb_spec (m_ID x) id) as [Heq|]; [set_solver|apply IH; set_solver].
Qed.

(** Stopping the monitor counts as a miss of every peer it had still to ping: the
    pings that [Stop] cancels fail ([grpc] fails a call whose context is done), so
    a peer that is one miss from the limit is reported dead although it would have
    answered; with a limit of one, so is every remaining peer. *)
Theorem heartbeat_stop_counts_misses {K} cfg (Dial : string → option K → option error) Call creds k e misses m :
  (∀ addr, Call true addr ≠ None) →
  mreachable e → m ∈ drop k (Members e) → probed (SelfID e) m = true →
  let r := tick_stopped cfg (reachable Dial Call creds) k e misses in
  ((MaxMisses cfg - 1 ≤ lookup0 misses (m_ID m))%Z → m_ID m ∈ r.2) ∧
  ((lookup0 misses (m_ID m) < MaxMisses cfg - 1)%Z → lookup0 r.1 (m_ID m) = (lookup0 misses (m_ID m) + 1)%Z).
Proof.
  intros Hctx Hr Hm Hp r. pose proof (engine_keyed _ (engine_wf_reachable _ Hr)) as Hk.
  assert (NoDup (m_ID <$> take k (Members e) ++ drop k (Members e))) as Hnd.
  { rewrite take_drop. unfold Members. rewrite sort_by_perm. by apply keyed_NoDup. }
  rewrite fmap_app in Hnd. apply NoDup_app in Hnd as (Hnd1 & Hdis & Hnd2).
  assert (m_ID m ∉ m_ID <$> take k (Members e)) as Hnot.
  { intros Hin. apply (Hdis _ Hin). by apply list_elem_of_fmap_2. }
  set (pg := reachable Dial Call creds) in *.
  destruct (tick_fold cfg (pg false) (SelfID e) (take k (Members e)) (misses, []) (m_ID m) Hnd1) as [Hc1 _].
  rewrite member_outcome_absent in Hc1 by done. simpl in Hc1.
  set (acc := foldl _ (misses, []) _) in Hc1.
  destruct (tick_fold cfg (pg true) (SelfID e) (drop k (Members e)) acc (m_ID m) Hnd2) as [Hc2 Hrep].
  rewrite member_outcome_elem, Hc1 in Hc2, Hrep by done.
  assert (pg true (m_Address m) = false) as Hf.
  { unfold pg, reachable, ping. apply bool_decide_eq_false. destruct (Dial _ _); [done|apply Hctx]. }
  rewrite Hf in Hc2, Hrep. fold r in Hc2, Hrep. simpl in Hc2, Hrep. unfold lookup0.
  split; intros Hle.
  - apply Hrep. right. by rewrite (proj2 (Z.leb_le (MaxMisses cfg) _)) by lia.
  - rewrite (proj2 (Z.leb_gt (MaxMisses cfg) _)) in Hc2 by lia. unfold r, tick_stopped. fold acc. by rewrite Hc2.
Qed.

(** ** A concrete peer that never answers *)
Module HeartbeatExamples.
Definition engine : Engine := (mapply MemberExamples.self (OpJoinAs 5 "n2" "h:2" "")).1.
Definition cfg : Config := MkConfig Second Second 2.
Definition down : round := (engine, λ _, false).

Lemma heartbeat_reports_consecutive_misses_witness :
  "n2" ∈ (tick cfg down.2 engine (ticks cfg ∅ [down]).1).2.
Proof.
  apply (heartbeat_reports_consecutive_misses cfg [down] engine down.2 "n2"); [done| |..].
  - repeat constructor; apply MemberExamples.self_reachable.
  - by repeat constructor.
  - done.
Defined.

(** A healthy peer, one allowed miss, and a stop before the first ping. *)
Definition strict : Config := MkConfig Second Second 1.
Definition answers (done : bool) (_ : string) : option error :=
  if done then Some (Errorf "context canceled" []) else None.
Lemma heartbeat_stop_counts_misses_witness :
  "n2" ∈ (tick_stopped strict (reachable (λ _ (_ : option unit), None) answers None) 0 engine ∅).2.
Proof.
  apply (proj1 (heartbeat_stop_counts_misses strict (λ _ (_ : option unit), None) answers None 0 engine ∅
    (MkMember "n2" "h:2" StatusAlive false RoleVoter 5) ltac:(done)
    (mreach_op _ _ MemberExamples.self_reachable) ltac:(apply list_elem_of_In; vm_compute; auto) eq_refl)).
  done.
Defined.
End HeartbeatExamples.
