(* ===== verification/Presence.v ===== *)
(** * Presence: per-node leases that announce a dead node ([internal/presence])

    Lease names ([name.go]), the keeper that holds this node's lease
    ([keeper.go]) over the [Holder] interface, the holder that grants on the
    leader and forwards elsewhere ([holder.go]), and the handler that turns an
    expired presence lease into a dead member ([expire.go], [watch.go]). *)
From S2P Require Import Prelude Events GrantSpec Locks Leases Membership Bus LockService LeaseService.

Definition Prefix : string := "presence.".

Definition LeaseName (nodeID : string) : string := Prefix +:+ nodeID.

Definition NodeID (leaseName : string) : string * bool :=
  if negb (HasPrefix leaseName Prefix) then ("", false) else
  let id := TrimPrefix leaseName Prefix in
  if str_empty id then ("", false) else (id, true).

(** The ids [remove] is called with. *)
Definition OnExpired (e : Event) (selfID : string) (isLeader : bool) (remove : bool) : list string :=
  if negb (String.eqb (ev_Type e) TypeLeaseExpired) then [] else
  let (id, ok) := NodeID (ev_Source e) in
  if negb ok || str_empty id || String.eqb id selfID || negb isLeader || negb remove then [] else [id].

(** [WatchExpired] on the events its subscription delivers, with the answers of
    [isLeader] at each. *)
Definition WatchExpired (evs : list (Event * bool)) (selfID : string) : list string :=
  evs ≫= λ x, OnExpired x.1 selfID x.2 true.

(** ** The keeper *)

Record Config := MkConfig {
  cf_NodeID : string; cf_TTL : Duration; cf_RenewInterval : Duration; cf_RequestTimeout : Duration;
}.

Definition NewKeeper (cfg : Config) : Config :=
  let ttl := if (cf_TTL cfg <=? 0)%Z then (3 * Second)%Z else cf_TTL cfg in
  let renew := if (cf_RenewInterval cfg <=? 0)%Z
               then (let r := (ttl `quot` 3)%Z in if (r <=? 0)%Z then ttl else r)
               else cf_RenewInterval cfg in
  let timeout := if (cf_RequestTimeout cfg <=? 0)%Z then (5 * Second)%Z else cf_RequestTimeout cfg in
  MkConfig (cf_NodeID cfg) ttl renew timeout.

Record Holder (W : Type) := MkHolder {
  ho_Grant : W → string → string → Duration → W * result error Z;
  ho_Renew : W → string → string → Z → Duration → W * option error;
}.
Arguments ho_Grant {W}.
Arguments ho_Renew {W}.

Section keeper.
Context {W : Type}.

(** [ensure] with the keeper's token; the new token. *)
Definition ensure (holder : option (Holder W)) (cfg : Config) (w : W) (token : Z) : W * Z :=
  match holder with
  | None => (w, token)
  | Some h =>
    if str_empty (cf_NodeID cfg) then (w, token) else
    let name := LeaseName (cf_NodeID cfg) in
    let grant w :=
      match ho_Grant h w name (cf_NodeID cfg) (cf_TTL cfg) with
      | (w, Fail _) => (w, token)
      | (w, Ok tok) => (w, tok)
      end in
    if (token =? 0)%Z then grant w else
    match ho_Renew h w name (cf_NodeID cfg) token (cf_TTL cfg) with
    | (w, None) => (w, token)
    | (w, Some _) => grant w
    end
  end.

(** ** The Raft holder *)

Context (engine : W → Engine) (raft : option (LeaseRaft W)) (peers : LeasePeers W).

Definition ErrHeld : error := Errorf "presence lease held by another owner" [].

Definition holder_leads (w : W) : bool :=
  match raft with Some r => er_IsLeader r w | None => false end.

Definition dialLeader (w : W) : result error string :=
  match membershipLeader (engine w) with
  | None => Fail (Errorf "NOT_LEADER" [])
  | Some (id, addr) =>
    if str_empty addr || String.eqb id (SelfID (engine w)) then Fail (Errorf "NOT_LEADER" []) else
    match ep_Dial peers w addr with
    | Some err => Fail (Errorf "dial leader %s: %w" [AStr id; AErr err])
    | None => Ok addr
    end
  end.

Definition RaftHolder_Grant (w : W) (name owner : string) (ttl : Duration) : W * result error Z :=
  match raft with
  | Some r =>
    if er_IsLeader r w then
      match er_ApplyLeaseGrant r w name owner ttl with
      | (w, Fail err) => (w, Fail err)
      | (w, Ok (_, false)) => (w, Fail ErrHeld)
      | (w, Ok (tok, true)) => (w, Ok tok)
      end
    else
      match dialLeader w with
      | Fail err => (w, Fail err)
      | Ok addr =>
        match ep_Grant peers w addr (MkGrantRequest name owner (Milliseconds ttl)) with
        | (w, Fail st) => (w, Fail (st_msg st))
        | (w, Ok resp) => (w, if negb (gp_Granted resp) then Fail ErrHeld else Ok (gp_FencingToken resp))
        end
      end
  | None =>
    match dialLeader w with
    | Fail err => (w, Fail err)
    | Ok addr =>
      match ep_Grant peers w addr (MkGrantRequest name owner (Milliseconds ttl)) with
      | (w, Fail st) => (w, Fail (st_msg st))
      | (w, Ok resp) => (w, if negb (gp_Granted resp) then Fail ErrHeld else Ok (gp_FencingToken resp))
      end
    end
  end.

Definition RaftHolder_Renew (w : W) (name owner : string) (token : Z) (ttl : Duration) : W * option error :=
  let forwarded :=
    match dialLeader w with
    | Fail err => (w, Some err)
    | Ok addr =>
      match ep_Renew peers w addr (MkRenewRequest name owner token (Milliseconds ttl)) with
      | (w, Fail st) => (w, Some (st_msg st))
      | (w, Ok resp) => (w, if negb (np_Renewed resp) then Some (Errorf "presence renew rejected" []) else None)
      end
    end in
  match raft with
  | Some r =>
    if er_IsLeader r w then
      match er_ApplyLeaseRenew r w name owner token ttl with
      | (w, Fail err) => (w, Some err)
      | (w, Ok _) => (w, None)
      end
    else forwarded
  | None => forwarded
  end.

Definition RaftHolder : Holder W := MkHolder W RaftHolder_Grant RaftHolder_Renew.

End keeper.

(** ** Names *)

Lemma NodeID_LeaseName id : NodeID (LeaseName id) = if str_empty id then ("", false) else (id, true).
Proof. unfold NodeID, LeaseName. by rewrite HasPrefix_app, TrimPrefix_app. Qed.

Lemma NodeID_Some name id : NodeID name = (id, true) ↔ name = LeaseName id ∧ id ≠ "".
Proof.
  split.
  - unfold NodeID, TrimPrefix. intros Hn. go_cases. breflect.
    split; [by apply HasPrefix_split|by apply str_empty_false].
  - intros [-> Hne]. rewrite NodeID_LeaseName. by apply str_empty_false in Hne as ->.
Qed.

(** The end of a lease marks a node dead exactly when it is the expiry of a
    presence lease of another node, seen on the leader: the events an [Expire] of
    the lease table emits make the leader remove that node once; a revocation, a
    user lease, the node's own lease or a follower removes nobody. *)
Theorem presence_expiry_removes `{Unicode} t name tok t' es selfID isLeader :
  lease_wf t → Leases.Emit t = true →
  (Leases.Expire t name tok = (t', true, es) →
   WatchExpired ((λ e, (e, isLeader)) <$> events_of es) selfID =
     match NodeID name with
     | (id, true) => if isLeader && negb (String.eqb id selfID) then [id] else []
     | _ => []
     end) ∧
  (∀ o, Leases.Revoke t name o tok = (t', None, es) →
   WatchExpired ((λ e, (e, isLeader)) <$> events_of es) selfID = []).
Proof.
  intros Hwf Hem. split.
  - intros He. unfold Leases.Expire in He. rewrite Hem in He.
    destruct (Leases.ValidName name); [done|]. destruct (leases t !! name) as [r|] eqn:Hr; [|done].
    destruct (negb _); simplify_eq. destruct (lease_wf_entry _ _ _ Hwf Hr) as (Hn & _). simpl.
    unfold OnExpired; simpl. rewrite Hn, app_nil_r.
    destruct (NodeID name) as [id []] eqn:Hid; simpl; [|done].
    apply NodeID_Some in Hid as [_ Hne]. apply str_empty_false in Hne as ->. simpl.
    by destruct (String.eqb id selfID), isLeader.
  - intros o Hr. unfold Leases.Revoke in Hr. rewrite Hem in Hr.
    destruct (Leases.ValidName name); [done|]. destruct (leases t !! name) as [r|]; [|done].
    destruct (_ || _); simplify_eq. done.
Qed.

(** A leader whose commits take effect at once, at leader time [now]. *)
Definition direct `{Unicode} (now : Time) : LeaseRaft Leases.Table :=
  MkLeaseRaft Leases.Table (λ _, true)
    (λ t n o ttl, let ttl := Leases.ClampTTL ttl 0 in
       let r := Leases.Grant now t n o (Add now ttl) ttl in (r.1.1, r.1.2))
    (λ t n o k ttl, let ttl := Leases.ClampTTL ttl 0 in
       match Leases.Renew t n o k (Add now ttl) ttl with
       | (t, Some e, _) => (t, Fail e)
       | (t, None, _) => (t, Ok (Add now ttl))
       end)
    (λ t n o k, let r := Leases.Revoke t n o k in (r.1.1, r.1.2)).

(** A grant to the current owner, or of a free name with room, succeeds. *)
Lemma lease_Grant_succeeds `{Unicode} now t n o d ttl :
  Leases.ValidName n = None → o ≠ "" →
  (∀ r, leases t !! n = Some r → ls_Owner r = o) →
  is_Some (leases t !! n) ∨ size (leases t) < MaxLeases →
  ∃ r, (Leases.Grant now t n o d ttl).1.2 = Ok (ls_Token r, true) ∧
    leases (Leases.Grant now t n o d ttl).1.1 !! n = Some r ∧ ls_Owner r = o ∧ ls_Deadline r = d.
Proof.
  intros Hv Ho Hown Hroom. unfold Leases.Grant. rewrite Hv. apply str_empty_false in Ho. rewrite Ho.
  destruct (leases t !! n) as [r|] eqn:Hr.
  - rewrite (Hown r eq_refl), String.eqb_refl. exists (Leases.refresh r d ttl). simpl.
    rewrite lookup_insert_eq. split_and!; try done. by apply Hown.
  - destruct Hroom as [[? ?]|Hsz]; [done|]. rewrite bool_decide_eq_false_2 by lia.
    eexists (MkLease _ _ _ _ _ _). simpl. by rewrite lookup_insert_eq.
Qed.

Lemma lease_Renew_cases `{Unicode} t n o k d ttl :
  (∃ e, Leases.Renew t n o k d ttl = (t, Some e, [])) ∨
  ∃ r, leases t !! n = Some r ∧ ls_Token r = k ∧
    Leases.Renew t n o k d ttl = (Leases.set_leases t (<[n := Leases.refresh r d ttl]> (leases t)), None, []).
Proof.
  unfold Leases.Renew. destruct (Leases.ValidName n); [by left; eauto|].
  destruct (leases t !! n) as [r|]; [|by left; eauto].
  destruct (_ || _) eqn:Hm; [by left; eauto|]. right. exists r.
  apply orb_false_iff in Hm as [_ Hm%negb_false_iff%Z.eqb_eq]. done.
Qed.

(** The keeper heals itself: on a leader, when no other owner holds this
    node's presence lease and the table has room, one [ensure] ends with the
    lease held by this node under the keeper's token and a full lifetime ahead,
    whatever token the keeper remembered: it renews its own grant, adopts it
    again if the token was lost, and grants anew after an expiry. *)
Theorem keeper_holds_lease `{Unicode} now engine peers cfg t tok :
  let id := cf_NodeID cfg in let name := LeaseName id in
  Leases.ValidName name = None → id ≠ "" →
  (∀ r, leases t !! name = Some r → ls_Owner r = id) →
  is_Some (leases t !! name) ∨ size (leases t) < MaxLeases →
  let r := ensure (Some (RaftHolder engine (Some (direct now)) peers)) cfg t tok in
  ∃ rec, Leases.Get r.1 name = Some rec ∧ ls_Owner rec = id ∧ ls_Token rec = r.2 ∧
    ls_Deadline rec = Add now (Leases.ClampTTL (cf_TTL cfg) 0).
Proof.
  intros id name Hv Hid Hown Hroom. pose proof Hid as Hne. apply str_empty_false in Hne.
  unfold ensure. fold id name. rewrite Hne. cbn zeta.
  set (ttl := Leases.ClampTTL (cf_TTL cfg) 0). set (d := Add now ttl).
  destruct (lease_Grant_succeeds now t name id d ttl Hv Hid Hown Hroom) as (rec & Hok & Hget & Ho & Hd).
  assert (∃ rec', Leases.Get (Leases.Grant now t name id d ttl).1.1 name = Some rec' ∧ ls_Owner rec' = id ∧
    ls_Token rec' = ls_Token rec ∧ ls_Deadline rec' = d) as Hgrant by (exists rec; done).
  destruct (tok =? 0)%Z; cbn -[Leases.Grant Leases.Renew]; fold ttl d.
  - by rewrite Hok.
  - destruct (lease_Renew_cases t name id tok d ttl) as [[e ->]|(r & Hr & Hk & ->)]; simpl; fold ttl d.
    + by rewrite Hok.
    + exists (Leases.refresh r d ttl). unfold Leases.Get; simpl. rewrite lookup_insert_eq.
      split_and!; try done. by apply Hown.
Qed.

(** ** Concrete nodes *)
Module PresenceExamples.
#[export] Existing Instance latin1.
Definition on : Leases.Table := Leases.MkTable ∅ 0 true.
Definition held : Leases.Table := (Leases.Grant 1 on "presence.n2" "n2" 50 10).1.1.
Lemma held_wf : lease_wf held.
Proof.
  apply lease_Grant_wf. unfold lease_wf, as_lock; simpl. rewrite fmap_empty.
  split; simpl; [intros n r; by rewrite lookup_empty|]. rewrite map_size_empty. lia.
Qed.

Lemma presence_expiry_removes_witness :
  WatchExpired ((λ e, (e, true)) <$> events_of (Leases.Expire held "presence.n2" 1).2) "n1" = ["n2"].
Proof.
  apply (presence_expiry_removes held "presence.n2" 1 (Leases.Expire held "presence.n2" 1).1.1
    (Leases.Expire held "presence.n2" 1).2 "n1" true held_wf eq_refl).
  apply outcome_eta; vm_compute; reflexivity.
Defined.

Definition no_peers : LeasePeers Leases.Table :=
  let refused {R} : result status R := Fail (Status Unavailable (Errorf "down" [])) in
  MkLeasePeers Leases.Table (λ _ _, None) (λ w _ _, (w, refused)) (λ w _ _, (w, refused)) (λ w _ _, (w, refused)).
Lemma keeper_holds_lease_witness :
  ∃ rec, Leases.Get (ensure (Some (RaftHolder (λ _, MemberExamples.self) (Some (direct 7)) no_peers))
    (MkConfig "n1" Second 0 0) on 5).1 "presence.n1" = Some rec ∧ ls_Owner rec = "n1".
Proof.
  destruct (keeper_holds_lease 7 (λ _, MemberExamples.self) no_peers (MkConfig "n1" Second 0 0) on 5)
    as (rec & Hg & Ho & _); [reflexivity|done|done|right; vm_compute; lia|].
  by exists rec.
Defined.
End PresenceExamples.
