(* ===== verification/Config.v ===== *)
(** * Config: configuration of the daemon ([internal/config/config.go])

    The record of settings, its defaults, the environment overrides, the clamping
    and the validation.  The YAML decoder is third-party code and
    [time.ParseDuration] works in floating point; both are parameters, as are
    the file system, the environment and the home directory. *)
From S2P Require Import Prelude.

Record NodeConfig := MkNodeConfig { cn_ID : string; cn_Addr : string }.
Record LogConfig := MkLogConfig { cl_Level : string; cl_Format : string }.
Record GRPCConfig := MkGRPCConfig {
  cg_Addr : string; cg_ControlSocket : string; cg_DialTimeout : Duration; cg_RequestTimeout : Duration;
}.
Record HeartbeatConfig := MkHeartbeatConfig { ch_Interval : Duration; ch_Timeout : Duration; ch_MaxMisses : Z }.
Record RaftConfig := MkRaftConfig {
  cr_Addr : string; cr_Bootstrap : bool; cr_HeartbeatTimeout : Duration;
  cr_ElectionTimeout : Duration; cr_LeaderLeaseTimeout : Duration;
}.
Record LockConfig := MkLockConfig { ck_TTL : Duration; ck_ExpireInterval : Duration }.
Record LeaseConfig := MkLeaseConfig {
  ce_TTL : Duration; ce_ExpireInterval : Duration; ce_Presence : bool; ce_PresenceTTL : Duration;
}.
Record Config := MkCfg {
  Node : NodeConfig;
  Cluster_ID : string;
  Data_Dir : string;
  Log : LogConfig;
  GRPC : GRPCConfig;
  ShutdownTimeout : Duration;
  Heartbeat : HeartbeatConfig;
  Raft : RaftConfig;
  TLS_Mode : string;
  Lock : LockConfig;
  Lease : LeaseConfig;
}.

(** [home] is the result of [os.UserHomeDir]. *)
Definition defaultDataDir (home : result error string) : string :=
  match home with
  | Ok h => if str_empty h then "/var/lib/clusdr" else h +:+ "/.clusdr"
  | Fail _ => "/var/lib/clusdr"
  end.
Definition defaultControlSocket (home : result error string) : string :=
  match home with
  | Ok h => if str_empty h then "/var/lib/clusdr/clusdr.sock" else h +:+ "/.clusdr/clusdr.sock"
  | Fail _ => "/var/lib/clusdr/clusdr.sock"
  end.

Definition Defaults (home : result error string) : Config :=
  MkCfg (MkNodeConfig "" "0.0.0.0:7947") "" (defaultDataDir home) (MkLogConfig "info" "text")
    (MkGRPCConfig "127.0.0.1:7947" (defaultControlSocket home) (5 * Second)%Z (10 * Second)%Z)
    0
    (MkHeartbeatConfig (2 * Second)%Z (1 * Second)%Z 3)
    (MkRaftConfig "127.0.0.1:7946" false (150 * Millisecond)%Z (150 * Millisecond)%Z (75 * Millisecond)%Z)
    "enabled"
    (MkLockConfig (15 * Second)%Z (100 * Millisecond)%Z)
    (MkLeaseConfig (15 * Second)%Z (100 * Millisecond)%Z true (3 * Second)%Z).

Definition clampRaft (c : Config) : Config :=
  let r := Raft c in
  if ((0 <? cr_HeartbeatTimeout r) && (cr_HeartbeatTimeout r <? cr_LeaderLeaseTimeout r))%Z then
    let half := (cr_HeartbeatTimeout r `quot` 2)%Z in
    let lease := if (half <=? 0)%Z then cr_HeartbeatTimeout r else half in
    MkCfg (Node c) (Cluster_ID c) (Data_Dir c) (Log c) (GRPC c) (ShutdownTimeout c) (Heartbeat c)
      (MkRaftConfig (cr_Addr r) (cr_Bootstrap r) (cr_HeartbeatTimeout r) (cr_ElectionTimeout r) lease)
      (TLS_Mode c) (Lock c) (Lease c)
  else c.

Definition Validate (c : Config) : option error :=
  let r := Raft c in
  if ((0 <? cr_HeartbeatTimeout r) && (cr_HeartbeatTimeout r <? cr_LeaderLeaseTimeout r))%Z
  then Some (Errorf "raft.leader_lease_timeout (%s) must be <= raft.heartbeat_timeout (%s)"
               [ANum (cr_LeaderLeaseTimeout r); ANum (cr_HeartbeatTimeout r)])
  else None.

Section config.
Context `{Unicode}.
Context (ParseDuration : string → result error Duration).

Definition TLSEnabled (c : Config) : bool :=
  negb (bool_decide (lower_trim (TLS_Mode c) ∈ [runes "disabled"; runes "off"; runes "false"; runes "0"])).

Section env.
Context (getenv : string → string).

(** [if v := getenv(key); v != "" { dest = v }] *)
Definition envString (key dest : string) : string :=
  let v := getenv key in if str_empty v then dest else v.

Definition envDuration (key : string) (dest : Duration) : Duration :=
  let v := getenv key in
  if str_empty v then dest else
  match ParseDuration v with
  | Fail _ => dest
  | Ok d => d
  end.

Definition envBool (key : string) (dest : bool) : bool :=
  let v := lower_trim (getenv key) in
  if bool_decide (v ∈ [runes "true"; runes "1"; runes "on"; runes "enabled"]) then true else
  if bool_decide (v ∈ [runes "false"; runes "0"; runes "off"; runes "disabled"]) then false else dest.

Definition applyEnv (c : Config) : Config :=
  let n := Node c in let l := Log c in let g := GRPC c in let r := Raft c in
  let k := Lock c in let e := Lease c in
  MkCfg
    (MkNodeConfig (envString "CLUSDR_NODE_ID" (cn_ID n)) (envString "CLUSDR_NODE_ADDR" (cn_Addr n)))
    (envString "CLUSDR_CLUSTER_ID" (Cluster_ID c))
    (envString "CLUSDR_DATA_DIR" (Data_Dir c))
    (MkLogConfig (envString "CLUSDR_LOG_LEVEL" (cl_Level l)) (envString "CLUSDR_LOG_FORMAT" (cl_Format l)))
    (MkGRPCConfig (envString "CLUSDR_GRPC_ADDR" (cg_Addr g))
       (envString "CLUSDR_CONTROL_SOCKET" (cg_ControlSocket g)) (cg_DialTimeout g) (cg_RequestTimeout g))
    (ShutdownTimeout c)
    (Heartbeat c)
    (MkRaftConfig (envString "CLUSDR_RAFT_ADDR" (cr_Addr r))
       (let v := getenv "CLUSDR_RAFT_BOOTSTRAP" in
        if String.eqb v "true" || String.eqb v "1" then true else cr_Bootstrap r)
       (envDuration "CLUSDR_RAFT_HEARTBEAT_TIMEOUT" (cr_HeartbeatTimeout r))
       (envDuration "CLUSDR_RAFT_ELECTION_TIMEOUT" (cr_ElectionTimeout r))
       (envDuration "CLUSDR_RAFT_LEADER_LEASE_TIMEOUT" (cr_LeaderLeaseTimeout r)))
    (envString "CLUSDR_TLS" (TLS_Mode c))
    (MkLockConfig (envDuration "CLUSDR_LOCK_TTL" (ck_TTL k))
       (envDuration "CLUSDR_LOCK_EXPIRE_INTERVAL" (ck_ExpireInterval k)))
    (MkLeaseConfig (envDuration "CLUSDR_LEASE_TTL" (ce_TTL e))
       (envDuration "CLUSDR_LEASE_EXPIRE_INTERVAL" (ce_ExpireInterval e))
       (envBool "CLUSDR_LEASE_PRESENCE" (ce_Presence e))
       (envDuration "CLUSDR_LEASE_PRESENCE_TTL" (ce_PresenceTTL e))).

(** [os.ReadFile]: the data, a missing file, or another error. *)
Inductive file : Type := FileData (data : list Z) | FileMissing | FileError (e : error).

Definition finishLoad (c : Config) : result error Config :=
  let c := clampRaft c in
  match Validate c with
  | Some err => Fail err
  | None => Ok c
  end.

Definition LoadFrom (home : result error string) (read : string → file)
    (Unmarshal : list Z → Config → result error Config) (path : string) : result error Config :=
  let c := Defaults home in
  let loaded :=
    if str_empty path then Ok c else
    match read path with
    | FileError err => Fail (Errorf "read config %q: %w" [AStr path; AErr err])
    | FileMissing => Ok c
    | FileData data =>
      match Unmarshal data c with
      | Fail err => Fail (Errorf "parse config %q: %w" [AStr path; AErr err])
      | Ok c => Ok c
      end
    end in
  match loaded with
  | Fail err => Fail err
  | Ok c => finishLoad (applyEnv c)
  end.
End env.

Definition ParseYAML (home : result error string) (Unmarshal : list Z → Config → result error Config)
    (data : list Z) : result error Config :=
  match Unmarshal data (Defaults home) with
  | Fail err => Fail err
  | Ok c => finishLoad c
  end.

Lemma clampRaft_valid c : Validate (clampRaft c) = None.
Proof.
  unfold clampRaft.
  destruct ((0 <? cr_HeartbeatTimeout (Raft c)) && (cr_HeartbeatTimeout (Raft c) <? cr_LeaderLeaseTimeout (Raft c)))%Z
    eqn:Hc; unfold Validate; [|by rewrite Hc].
  simpl. apply andb_prop in Hc as [Hpos _]. rewrite Hpos. apply Z.ltb_lt in Hpos. simpl.
  match goal with |- (if (?x <? ?y)%Z then _ else _) = _ => assert (y ≤ x)%Z as Hle end;
    [|apply Z.ltb_ge in Hle; by rewrite Hle].
  case_match; [lia|]. rewrite Z.quot_div_nonneg by lia.
  pose proof (Z.div_lt (cr_HeartbeatTimeout (Raft c)) 2). lia.
Qed.

(** A configuration that loads has a leader lease no longer than the Raft
    heartbeat, whatever the file and the environment say: the clamp repairs every
    combination, so validation never refuses one, and loading fails only when the
    file cannot be read or parsed. *)
Theorem config_lease_within_heartbeat getenv home read Unmarshal path :
  match LoadFrom getenv home read Unmarshal path with
  | Ok c => (0 < cr_HeartbeatTimeout (Raft c) →
             cr_LeaderLeaseTimeout (Raft c) ≤ cr_HeartbeatTimeout (Raft c))%Z
  | Fail _ => str_empty path = false ∧
      ((∃ e, read path = FileError e) ∨
       ∃ data e, read path = FileData data ∧ Unmarshal data (Defaults home) = Fail e)
  end.
Proof.
  unfold LoadFrom.
  assert (∀ c, match finishLoad (applyEnv getenv c) with
    | Ok c => (0 < cr_HeartbeatTimeout (Raft c) →
               cr_LeaderLeaseTimeout (Raft c) ≤ cr_HeartbeatTimeout (Raft c))%Z
    | Fail _ => False end) as Hfin.
  { intros c. unfold finishLoad. pose proof (clampRaft_valid (applyEnv getenv c)) as Hv. rewrite Hv.
    unfold Validate in Hv. destruct (_ && _) eqn:Hc; [done|]. apply andb_false_iff in Hc.
    rewrite !Z.ltb_ge in Hc. lia. }
  destruct (str_empty path) eqn:Hp.
  { specialize (Hfin (Defaults home)). by destruct (finishLoad _). }
  destruct (read path) as [data| |err] eqn:Hr; [|specialize (Hfin (Defaults home)); by destruct (finishLoad _)|eauto].
  destruct (Unmarshal data (Defaults home)) as [c|e] eqn:Hu; [|eauto 10].
  specialize (Hfin c). by destruct (finishLoad _).
Qed.

(** Environment variables win over the file, the file over the defaults, and
    an empty or unparsable variable leaves the value alone: the loaded Raft
    heartbeat is the parsed variable if it parses, else what the file gave, else
    the default; likewise for every string setting. *)
Theorem config_precedence getenv home read Unmarshal path c0 c :
  (if str_empty path then c0 = Defaults home else
   match read path with
   | FileData data => Unmarshal data (Defaults home) = Ok c0
   | FileMissing => c0 = Defaults home
   | FileError _ => False
   end) →
  LoadFrom getenv home read Unmarshal path = Ok c →
  cr_HeartbeatTimeout (Raft c) =
    (match ParseDuration (getenv "CLUSDR_RAFT_HEARTBEAT_TIMEOUT") with
     | Ok d => if str_empty (getenv "CLUSDR_RAFT_HEARTBEAT_TIMEOUT") then cr_HeartbeatTimeout (Raft c0) else d
     | Fail _ => cr_HeartbeatTimeout (Raft c0)
     end) ∧
  cn_ID (Node c) = (if str_empty (getenv "CLUSDR_NODE_ID") then cn_ID (Node c0) else getenv "CLUSDR_NODE_ID") ∧
  TLS_Mode c = (if str_empty (getenv "CLUSDR_TLS") then TLS_Mode c0 else getenv "CLUSDR_TLS").
Proof.
  intros H0 Hl. assert (finishLoad (applyEnv getenv c0) = Ok c) as Hf.
  { unfold LoadFrom in Hl. destruct (str_empty path); [by subst|].
    destruct (read path) as [data| |]; [|by subst|done]. by rewrite H0 in Hl. }
  unfold finishLoad in Hf. rewrite clampRaft_valid in Hf. injection Hf as <-.
  assert (∀ c, cr_HeartbeatTimeout (Raft (clampRaft c)) = cr_HeartbeatTimeout (Raft c) ∧
    Node (clampRaft c) = Node c ∧ TLS_Mode (clampRaft c) = TLS_Mode c) as Hc.
  { intros c. unfold clampRaft. by repeat case_match. }
  destruct (Hc (applyEnv getenv c0)) as (-> & -> & ->). simpl. unfold envDuration, envString.
  split_and!; try done. by repeat case_match.
Qed.

End config.

(** ** A concrete load *)
Module ConfigExamples.
#[export] Existing Instance latin1.
Definition parse (s : string) : result error Duration :=
  if String.eqb s "50ms" then Ok (50 * Millisecond)%Z else Fail (Errorf "time: invalid duration" []).
Definition env (k : string) : string :=
  if String.eqb k "CLUSDR_RAFT_HEARTBEAT_TIMEOUT" then "50ms" else
  if String.eqb k "CLUSDR_NODE_ID" then "n1" else "".
Definition no_home : result error string := Ok "/root".
Definition loaded : Config :=
  match LoadFrom parse env no_home (λ _, FileMissing) (λ _ c, Ok c) "" with
  | Ok c => c | Fail _ => Defaults no_home end.

Lemma config_precedence_witness :
  cr_HeartbeatTimeout (Raft loaded) = (50 * Millisecond)%Z ∧ cn_ID (Node loaded) = "n1" ∧ TLS_Mode loaded = "enabled".
Proof.
  exact (config_precedence parse env no_home (λ _, FileMissing) (λ _ c, Ok c) "" (Defaults no_home) loaded
    eq_refl eq_refl).
Defined.
End ConfigExamples.
