(* ===== verification/Store.v ===== *)
(** * Store: the local state database ([internal/store/store.go]) and the join
    security built on it ([internal/app/joinsec.go])

    The database is bbolt, not code of the repository: [Bolt] is its interface,
    with the documented behaviour the store relies on (a failed or panicking
    [Update] rolls back, a successful one commits the body's result).  The PKI
    and the TLS file writer are parameters too. *)
From S2P Require Import Prelude JoinService.

Definition bucketNode : string := "node".
Definition bucketRaft : string := "raft".
Definition bucketCerts : string := "certs".
Definition keyNodeID : string := "node.id".
Definition keyClusterID : string := "cluster.id".
Definition keyCACert : string := "ca.crt".
Definition keyCAKey : string := "ca.key".
Definition keyNodeCert : string := "node.crt".
Definition keyNodeKey : string := "node.key".
Definition keyJoinTokenHash : string := "join_token.sha256".
Definition dbFileName : string := "state.db".
Definition dbOpenTimeout : Duration := (5 * Second)%Z.
Definition dbBriefTimeout : Duration := (200 * Millisecond)%Z.

Definition ErrNotInitialized : error := Errorf "node not initialized: run 'clusdr init'" [].

Abbreviation bucket := (gmap string (list Z)).
Abbreviation buckets := (gmap string bucket).

(** What a transaction body, or a call on the store, ends with: a value, an
    error, or the panic of a method call on a bucket that does not exist. *)
Inductive tx (A : Type) : Type := TxOk (a : A) | TxErr (e : error) | TxPanic.
Arguments TxOk {A}.
Arguments TxErr {A}.
Arguments TxPanic {A}.
#[export] Instance tx_bind : MBind tx := λ A B f m,
  match m with TxOk a => f a | TxErr e => TxErr e | TxPanic => TxPanic end.

Class Bolt (DB : Type) := {
  db_contents : DB → buckets;
  db_Update : DB → (buckets → tx buckets) → DB * tx unit;
  db_Put : bucket → string → list Z → result error bucket;
  db_Delete : bucket → string → result error bucket;
  db_CreateBucketIfNotExists : buckets → string → result error buckets;
  db_Update_ok db f db' : db_Update db f = (db', TxOk ()) → f (db_contents db) = TxOk (db_contents db');
  db_Update_rollback db f db' r : db_Update db f = (db', r) → r ≠ TxOk () → db_contents db' = db_contents db;
  db_Update_panic db f db' : db_Update db f = (db', TxPanic) → f (db_contents db) = TxPanic;
  db_Put_ok b k v b' : db_Put b k v = Ok b' → b' = <[k := v]> b;
  db_Delete_ok b k b' : db_Delete b k = Ok b' → b' = delete k b;
  db_Create_ok bs n bs' : db_CreateBucketIfNotExists bs n = Ok bs' →
    bs' = match bs !! n with Some _ => bs | None => <[n := ∅]> bs end;
}.

Record Certs_ := MkCertsRec {
  CACert : list Z; CAKey : list Z; NodeCert : list Z; NodeKey : list Z; JoinTokenHash : list Z;
}.

Section store.
Context `{Bolt DB}.

(** [b := tx.Bucket(name)] followed by a method call on [b]. *)
Definition with_bucket {A} (bs : buckets) (name : string) (k : bucket → tx A) : tx A :=
  match bs !! name with
  | Some b => k b
  | None => TxPanic
  end.

Definition put (b : bucket) (k : string) (v : list Z) : tx bucket :=
  match db_Put b k v with
  | Ok b => TxOk b
  | Fail err => TxErr (Errorf "put %s: %w" [AStr k; AErr err])
  end.

(** [b.Get(k)], nil when absent; [clone] copies. *)
Definition get (b : bucket) (k : string) : list Z := default [] (b !! k).
Definition clone (b : list Z) : list Z := if bool_decide (length b = 0) then [] else b.

(** ** Opening *)

Fixpoint create_buckets (bs : buckets) (names : list string) : tx buckets :=
  match names with
  | [] => TxOk bs
  | n :: names =>
    match db_CreateBucketIfNotExists bs n with
    | Ok bs => create_buckets bs names
    | Fail err => TxErr (Errorf "create bucket %q: %w" [AStr n; AErr err])
    end
  end.

Definition initBuckets (db : DB) : DB * tx unit :=
  db_Update db (λ bs, create_buckets bs [bucketNode; bucketRaft; bucketCerts]).

(** [open] with the results of [os.MkdirAll] and [bolt.Open]; on failure the
    database is closed again. *)
Definition open (MkdirAll : string → option error) (bolt_Open : string → Duration → result error DB)
    (Join : string → string → string) (dataDir : string) (timeout : Duration) : tx DB :=
  match MkdirAll dataDir with
  | Some err => TxErr (Errorf "create data dir %q: %w" [AStr dataDir; AErr err])
  | None =>
    let path := Join dataDir dbFileName in
    match bolt_Open path timeout with
    | Fail err => TxErr (Errorf "open %q: %w" [AStr path; AErr err])
    | Ok db =>
      match initBuckets db with
      | (db, TxOk _) => TxOk db
      | (_, TxErr e) => TxErr e
      | (_, TxPanic) => TxPanic
      end
    end
  end.

Definition Open MkdirAll bolt_Open Join dataDir := open MkdirAll bolt_Open Join dataDir dbOpenTimeout.
Definition OpenBrief MkdirAll bolt_Open Join dataDir := open MkdirAll bolt_Open Join dataDir dbBriefTimeout.

(** [Close] of a store that may be nil, with the result of [db.Close()]. *)
Definition Close (s : option DB) (db_Close : DB → option error) : option error :=
  match s with
  | None => None
  | Some db => db_Close db
  end.

(** ** Identity *)

Definition SaveIdentity (db : DB) (nodeID clusterID : string) : DB * tx unit :=
  db_Update db (λ bs, with_bucket bs bucketNode (λ b,
    b ← match db_Put b keyNodeID (bytes_of nodeID) with
        | Ok b => TxOk b | Fail err => TxErr (Errorf "put node.id: %w" [AErr err]) end;
    b ← match db_Put b keyClusterID (bytes_of clusterID) with
        | Ok b => TxOk b | Fail err => TxErr (Errorf "put cluster.id: %w" [AErr err]) end;
    TxOk (<[bucketNode := b]> bs))).

Definition Identity (db : DB) : tx (string * string) :=
  with_bucket (db_contents db) bucketNode (λ b,
    let nid := get b keyNodeID in
    let cid := get b keyClusterID in
    if bool_decide (length nid = 0) || bool_decide (length cid = 0) then TxErr ErrNotInitialized
    else TxOk (string_of nid, string_of cid)).

(** ** Certificates *)

(** [for _, p := range pairs { if len(p.v) == 0 { continue }; Put }] *)
Fixpoint put_pairs (b : bucket) (pairs : list (string * list Z)) : tx bucket :=
  match pairs with
  | [] => TxOk b
  | (k, v) :: pairs =>
    if bool_decide (length v = 0) then put_pairs b pairs else
    b ← put b k v; put_pairs b pairs
  end.

Definition SaveCerts (db : DB) (c : Certs_) : DB * tx unit :=
  db_Update db (λ bs, with_bucket bs bucketCerts (λ b,
    b ← put_pairs b [(keyCACert, CACert c); (keyCAKey, CAKey c); (keyNodeCert, NodeCert c);
                     (keyNodeKey, NodeKey c); (keyJoinTokenHash, JoinTokenHash c)];
    TxOk (<[bucketCerts := b]> bs))).

Definition SaveJoinCerts (db : DB) (caCert nodeCert nodeKey tokenHash : list Z) : DB * tx unit :=
  db_Update db (λ bs, with_bucket bs bucketCerts (λ b,
    b ← put_pairs b [(keyCACert, caCert); (keyNodeCert, nodeCert); (keyNodeKey, nodeKey);
                     (keyJoinTokenHash, tokenHash)];
    b ← match db_Delete b keyCAKey with
        | Ok b => TxOk b | Fail err => TxErr (Errorf "delete ca.key: %w" [AErr err]) end;
    TxOk (<[bucketCerts := b]> bs))).

Definition Certs (db : DB) : tx Certs_ :=
  with_bucket (db_contents db) bucketCerts (λ b,
    let c := MkCertsRec (clone (get b keyCACert)) (clone (get b keyCAKey)) (clone (get b keyNodeCert))
               (clone (get b keyNodeKey)) (clone (get b keyJoinTokenHash)) in
    if bool_decide (length (CACert c) = 0) then TxErr ErrNotInitialized else TxOk c).

(** ** [joinSec] and [joinBoot] over the store *)

Context (pki_CheckToken : list Z → string → bool).
Context (pki_IssueNodeCert : list Z → list Z → string → result error (list Z * list Z)).
Context (mtls_WriteFiles : string → list Z → list Z → list Z → option error).

(** A store error means no token to check. *)
Definition CheckToken (db : DB) (token : string) : tx unit :=
  match Certs db with
  | TxPanic => TxPanic
  | TxErr _ => TxOk ()
  | TxOk c =>
    if bool_decide (length (JoinTokenHash c) = 0) then TxOk () else
    if negb (pki_CheckToken (JoinTokenHash c) token) then TxErr (Errorf "unauthorized" []) else TxOk ()
  end.

Definition IssueNode (db : DB) (nodeID : string) : tx certs :=
  c ← Certs db;
  if bool_decide (length (CAKey c) = 0)
  then TxErr (Errorf "this node has no CA key; join via a seed node" []) else
  match pki_IssueNodeCert (CACert c) (CAKey c) nodeID with
  | Fail err => TxErr err
  | Ok (nodeCert, nodeKey) => TxOk (MkCerts nodeCert nodeKey (CACert c) (JoinTokenHash c))
  end.

(** [joinBoot.SaveJoinCerts] *)
Definition boot_SaveJoinCerts (dataDir : string) (db : DB) (c : certs) : DB * tx unit :=
  match SaveJoinCerts db (ct_CaCert c) (ct_NodeCert c) (ct_NodeKey c) (ct_TokenHash c) with
  | (db, TxOk _) =>
    if str_empty dataDir then (db, TxOk ()) else
    match mtls_WriteFiles dataDir (ct_CaCert c) (ct_NodeCert c) (ct_NodeKey c) with
    | Some err => (db, TxErr err)
    | None => (db, TxOk ())
    end
  | r => r
  end.

End store.

(** ** Bytes and strings *)

Lemma bytes_of_empty s : bool_decide (length (bytes_of s) = 0) = str_empty s.
Proof. by destruct s. Qed.

Lemma clone_id b : clone b = b.
Proof. unfold clone. case_bool_decide as Hb; [|done]. by apply nil_length_inv in Hb. Qed.

(** ** The state of an opened store *)

Section props.
Context `{HB : Bolt DB}.
Implicit Types db : DB.

Definition opened (bs : buckets) : Prop := Forall (λ n, is_Some (bs !! n)) [bucketNode; bucketRaft; bucketCerts].

Lemma create_buckets_keeps bs names bs' n :
  create_buckets bs names = TxOk bs' → is_Some (bs !! n) → is_Some (bs' !! n).
Proof.
  revert bs; induction names as [|n' names IH]; intros bs Hc Hn; simplify_eq/=; [done|].
  destruct (db_CreateBucketIfNotExists bs n') as [bs1|] eqn:Hcr; [|done].
  apply (IH _ Hc). rewrite (db_Create_ok _ _ _ Hcr). destruct (bs !! n') eqn:Hn'; [done|].
  destruct (decide (n' = n)) as [->|]; [by rewrite lookup_insert_eq|by rewrite lookup_insert_ne].
Qed.

Lemma create_buckets_all bs names bs' :
  create_buckets bs names = TxOk bs' → Forall (λ n, is_Some (bs' !! n)) names.
Proof.
  revert bs; induction names as [|n names IH]; intros bs Hc; simplify_eq/=; [constructor|].
  destruct (db_CreateBucketIfNotExists bs n) as [bs1|] eqn:Hcr; [|done]. constructor; [|by eapply IH].
  apply (create_buckets_keeps _ _ _ _ Hc). rewrite (db_Create_ok _ _ _ Hcr).
  destruct (bs !! n) eqn:Hn; [by eauto|by rewrite lookup_insert_eq].
Qed.

Lemma open_opened mk bo jn dir t db : open mk bo jn dir t = TxOk db → opened (db_contents db).
Proof.
  unfold open. intros Ho. repeat case_match; simplify_eq. unfold initBuckets in *.
  match goal with u : unit |- _ => destruct u end.
  match goal with H : db_Update _ _ = _ |- _ => apply db_Update_ok in H; exact (create_buckets_all _ _ _ H) end.
Qed.

(** The effect of [put_pairs]: the non-empty values are written, in order. *)
Lemma put_pairs_lookup b pairs b' k :
  put_pairs b pairs = TxOk b' → NoDup pairs.*1 →
  b' !! k = match list_find (λ p : string * list Z, p.1 = k ∧ length p.2 ≠ 0) pairs with
            | Some (_, (_, v)) => Some v
            | None => b !! k
            end.
Proof.
  revert b; induction pairs as [|[k1 v1] pairs IH]; intros b Hp Hnd; simplify_eq/=; [done|].
  apply NoDup_cons in Hnd as [Hk1 Hnd].
  assert (k1 = k → list_find (λ p : string * list Z, p.1 = k ∧ length p.2 ≠ 0) pairs = None) as Hno.
  { intros ->. apply list_find_None, Forall_forall. intros [k2 v2] Hin [Heq _]. simpl in Heq. subst k2.
    apply Hk1, list_elem_of_fmap. by exists (k, v2). }
  case_bool_decide as Hv.
  - rewrite (IH _ Hp Hnd). destruct (decide (_ ∧ _)) as [[_ ?]|_]; [done|].
    by destruct (list_find _ pairs) as [[i [k2 v2]]|].
  - unfold put in Hp. destruct (db_Put b k1 v1) as [b1|] eqn:Hput; [|done]. simpl in Hp.
    rewrite (IH _ Hp Hnd), (db_Put_ok _ _ _ _ Hput).
    destruct (decide (_ ∧ _)) as [[Heq _]|Hne].
    + rewrite (Hno Heq). subst k1. by rewrite lookup_insert_eq.
    + assert (k1 ≠ k) as Hkk by (intros ->; by apply Hne).
      rewrite lookup_insert_ne by done. by destruct (list_find _ pairs) as [[i [k2 v2]]|].
Qed.

Lemma put_pairs_no_panic b pairs : put_pairs b pairs ≠ TxPanic.
Proof.
  revert b; induction pairs as [|[k v] pairs IH]; intros b; simpl; [done|]. case_bool_decide; [apply IH|].
  unfold put. destruct (db_Put b k v); simpl; [apply IH|done].
Qed.

#[local] Arguments put_pairs : simpl never.

(** Every operation is one transaction on one bucket of an opened store: it
    commits a new value of that bucket or leaves the database as it was. *)
Inductive sop : Type :=
  | OpSaveIdentity (nodeID clusterID : string)
  | OpSaveCerts (c : Certs_)
  | OpSaveJoinCerts (caCert nodeCert nodeKey tokenHash : list Z).

Definition sapply db (o : sop) : DB * tx unit :=
  match o with
  | OpSaveIdentity n c => SaveIdentity db n c
  | OpSaveCerts c => SaveCerts db c
  | OpSaveJoinCerts ca cert key h => SaveJoinCerts db ca cert key h
  end.
Fixpoint srun db (ops : list sop) : DB * list (tx unit) :=
  match ops with
  | [] => (db, [])
  | o :: ops => let (db, r) := sapply db o in let (db', rs) := srun db ops in (db', r :: rs)
  end.

Definition sop_bucket (o : sop) : string :=
  match o with OpSaveIdentity _ _ => bucketNode | _ => bucketCerts end.
Definition sop_body (o : sop) (b : bucket) : tx bucket :=
  match o with
  | OpSaveIdentity n c =>
    b ← match db_Put b keyNodeID (bytes_of n) with
        | Ok b => TxOk b | Fail err => TxErr (Errorf "put node.id: %w" [AErr err]) end;
    match db_Put b keyClusterID (bytes_of c) with
    | Ok b => TxOk b | Fail err => TxErr (Errorf "put cluster.id: %w" [AErr err]) end
  | OpSaveCerts c =>
    put_pairs b [(keyCACert, CACert c); (keyCAKey, CAKey c); (keyNodeCert, NodeCert c);
                 (keyNodeKey, NodeKey c); (keyJoinTokenHash, JoinTokenHash c)]
  | OpSaveJoinCerts ca cert key h =>
    b ← put_pairs b [(keyCACert, ca); (keyNodeCert, cert); (keyNodeKey, key); (keyJoinTokenHash, h)];
    match db_Delete b keyCAKey with
    | Ok b => TxOk b | Fail err => TxErr (Errorf "delete ca.key: %w" [AErr err]) end
  end.

Lemma sop_body_no_panic o b : sop_body o b ≠ TxPanic.
Proof.
  destruct o as [n c|c|ca cert key h]; simpl.
  - destruct (db_Put b _ _) as [b1|]; simpl; [|done]. by destruct (db_Put b1 _ _).
  - apply put_pairs_no_panic.
  - pose proof (put_pairs_no_panic b [(keyCACert, ca); (keyNodeCert, cert); (keyNodeKey, key); (keyJoinTokenHash, h)]).
    destruct (put_pairs b _) as [b1| |]; simpl; [|done..]. by destruct (db_Delete b1 _).
Qed.

Lemma sapply_spec db o db' r :
  opened (db_contents db) → sapply db o = (db', r) →
  r ≠ TxPanic ∧
  match r with
  | TxOk _ => ∃ b b', db_contents db !! sop_bucket o = Some b ∧ sop_body o b = TxOk b' ∧
      db_contents db' = <[sop_bucket o := b']> (db_contents db)
  | _ => db_contents db' = db_contents db
  end.
Proof.
  intros Hop Hs. assert (is_Some (db_contents db !! sop_bucket o)) as [b Hb].
  { unfold opened in Hop. rewrite Forall_forall in Hop. apply Hop. destruct o; set_solver. }
  assert (∃ f, db_Update db f = (db', r) ∧
    f (db_contents db) = (b' ← sop_body o b; TxOk (<[sop_bucket o := b']> (db_contents db)))) as (f & Hu & Hf).
  { destruct o; (eexists; split; [exact Hs|]); simpl in Hb |- *; unfold with_bucket; rewrite Hb; simpl; try done.
    - destruct (db_Put b _ _) as [b1|]; simpl; [|done]. by destruct (db_Put b1 _ _).
    - destruct (put_pairs b _) as [b1| |]; simpl; [|done..]. by destruct (db_Delete b1 _). }
  pose proof (sop_body_no_panic o b) as Hnp.
  destruct r as [[]|e|].
  - split; [done|]. apply db_Update_ok in Hu. rewrite Hf in Hu.
    destruct (sop_body o b) as [b'| |] eqn:Hbody; simplify_eq/=. by exists b, b'.
  - split; [done|]. by eapply db_Update_rollback.
  - exfalso. apply db_Update_panic in Hu. rewrite Hf in Hu. by destruct (sop_body o b).
Qed.

Lemma opened_insert bs n b : opened bs → opened (<[n := b]> bs).
Proof.
  unfold opened. rewrite !Forall_forall. intros Ho n' Hn'. rewrite lookup_insert. case_decide; [done|by apply Ho].
Qed.

Lemma sapply_opened db o : opened (db_contents db) → opened (db_contents (sapply db o).1).
Proof.
  intros Ho. destruct (sapply db o) as [db' r] eqn:Hs. destruct (sapply_spec _ _ _ _ Ho Hs) as [_ Hr].
  destruct r; simpl; [|by rewrite Hr..]. destruct Hr as (b & b' & _ & _ & ->). by apply opened_insert.
Qed.

(** An opened store stays usable: whatever sequence of saves runs against it,
    and whichever of them fail, none hits a missing bucket, the three buckets
    stay, and a database whose saves all failed is the one it was. *)
Theorem store_stays_open mk bo jn dir t db ops :
  open mk bo jn dir t = TxOk db →
  opened (db_contents (srun db ops).1) ∧ Forall (λ r, r ≠ TxPanic) (srun db ops).2 ∧
  (Forall (λ r, r ≠ TxOk ()) (srun db ops).2 → db_contents (srun db ops).1 = db_contents db).
Proof.
  intros Ho%open_opened. clear mk bo jn dir t.
  revert db Ho; induction ops as [|o ops IH]; intros db Ho; [split; [done|split; [apply Forall_nil_2|done]]|].
  simpl. destruct (sapply db o) as [db1 r] eqn:Hs. pose proof (sapply_opened db o Ho) as Ho1. rewrite Hs in Ho1.
  destruct (sapply_spec _ _ _ _ Ho Hs) as [Hnp Hr]. destruct (IH db1 Ho1) as (IH1 & IH2 & IH3).
  destruct (srun db1 ops) as [db2 rs]. simpl in *. split_and!; [done|by constructor|].
  intros Hall. apply Forall_cons in Hall as [Hne Hall]. rewrite (IH3 Hall).
  destruct r as [[]| |]; [done|exact Hr..].
Qed.

(** Identity round trip: after a successful [SaveIdentity] the store returns
    exactly the saved node and cluster ids, and reports the node as not
    initialized if one of them is empty; a [SaveIdentity] that fails leaves the
    identity as it was, never half written; saving certificates never changes it. *)
Theorem store_identity_roundtrip db o :
  opened (db_contents db) →
  let r := sapply db o in
  Identity r.1 =
    match o, r.2 with
    | OpSaveIdentity n c, TxOk _ =>
      if str_empty n || str_empty c then TxErr ErrNotInitialized else TxOk (n, c)
    | _, _ => Identity db
    end.
Proof.
  intros Ho r. destruct (sapply db o) as [db' res] eqn:Hs. subst r. cbn [fst snd].
  destruct (sapply_spec _ _ _ _ Ho Hs) as [_ Hr]. unfold Identity.
  destruct res as [[]| |]; [|rewrite Hr; by destruct o..].
  destruct Hr as (b & b' & Hb & Hbody & ->). unfold with_bucket.
  destruct o as [n c|c|ca cert key h]; simpl in Hb, Hbody |- *;
    [|by rewrite lookup_insert_ne..].
  rewrite lookup_insert_eq.
  destruct (db_Put b keyNodeID (bytes_of n)) as [b1|] eqn:H1; [|done]. simpl in Hbody.
  destruct (db_Put b1 keyClusterID (bytes_of c)) as [b2|] eqn:H2; [|done]. simplify_eq.
  rewrite (db_Put_ok _ _ _ _ H2), (db_Put_ok _ _ _ _ H1). unfold get.
  rewrite lookup_insert_ne, lookup_insert_eq, lookup_insert_eq by done. simpl.
  by rewrite !string_of_bytes_of, !bytes_of_empty.
Qed.

(** Reading one key of the certificates after a save. *)
Lemma get_after b pairs b' k :
  put_pairs b pairs = TxOk b' → NoDup pairs.*1 →
  get b' k = match list_find (λ p : string * list Z, p.1 = k ∧ length p.2 ≠ 0) pairs with
             | Some (_, (_, v)) => v
             | None => get b k
             end.
Proof.
  intros Hp Hnd. unfold get. rewrite (put_pairs_lookup _ _ _ k Hp Hnd).
  by destruct (list_find _ pairs) as [[? [? ?]]|].
Qed.

Context (pki_CheckToken : list Z → string → bool).
Context (pki_IssueNodeCert : list Z → list Z → string → result error (list Z * list Z)).

Definition ca_key db : list Z := from_option (λ b, get b keyCAKey) [] (db_contents db !! bucketCerts).

Lemma IssueNode_needs_key db id :
  opened (db_contents db) → ca_key db = [] → ∃ e, IssueNode pki_IssueNodeCert db id = TxErr e.
Proof.
  intros Ho Hk. unfold IssueNode, Certs, with_bucket, ca_key in *.
  destruct (db_contents db !! bucketCerts) as [b|] eqn:Hb; simpl in *.
  - case_bool_decide; simpl; [by eauto|]. rewrite clone_id, Hk. simpl. by eauto.
  - unfold opened in Ho. rewrite !Forall_cons, Hb in Ho. by destruct Ho as (_ & _ & [? ?] & _).
Qed.

(** An operation that does not bring a CA key of its own. *)
Definition keyless (o : sop) : Prop := match o with OpSaveCerts c => CAKey c = [] | _ => True end.

Lemma sapply_keyless db o :
  opened (db_contents db) → keyless o → ca_key db = [] → ca_key (sapply db o).1 = [].
Proof.
  intros Ho Hk Hc. destruct (sapply db o) as [db' r] eqn:Hs. destruct (sapply_spec _ _ _ _ Ho Hs) as [_ Hr].
  unfold ca_key in *. destruct r; simpl; [|by rewrite Hr..]. destruct Hr as (b & b' & Hb & Hbody & ->).
  destruct o as [n c|c|ca cert key h]; simpl in Hb, Hbody, Hk |- *.
  - by rewrite lookup_insert_ne.
  - rewrite lookup_insert_eq. simpl. rewrite Hb in Hc. simpl in Hc.
    rewrite (get_after _ _ _ keyCAKey Hbody ltac:(by apply (bool_decide_unpack _))). simpl. rewrite Hk. exact Hc.
  - rewrite lookup_insert_eq. simpl. destruct (put_pairs b _) as [b1| |]; [|done..]. simpl in Hbody.
    destruct (db_Delete b1 keyCAKey) as [b2|] eqn:Hd; simplify_eq. rewrite (db_Delete_ok _ _ _ Hd).
    unfold get. by rewrite lookup_delete_eq.
Qed.

(** A joined node cannot mint certificates: once a join has saved its
    certificates, issuing a node certificate fails for every node id, after any
    further saves but those that install a CA key, whether they succeed or not. *)
Theorem joined_node_cannot_issue db ca cert key h db1 ops id :
  opened (db_contents db) → SaveJoinCerts db ca cert key h = (db1, TxOk ()) → Forall keyless ops →
  ∃ e, IssueNode pki_IssueNodeCert (srun db1 ops).1 id = TxErr e.
Proof.
  intros Ho Hs Hops. assert (opened (db_contents db1) ∧ ca_key db1 = []) as [Ho1 Hk1].
  { pose proof (sapply_opened db (OpSaveJoinCerts ca cert key h) Ho) as Ho1. simpl in Ho1. rewrite Hs in Ho1.
    split; [done|]. destruct (sapply_spec db (OpSaveJoinCerts ca cert key h) db1 _ Ho Hs) as [_ (b & b' & _ & Hb & Hc)].
    simpl in Hb. destruct (put_pairs b _) as [b1| |]; [|done..]. simpl in Hb.
    destruct (db_Delete b1 keyCAKey) as [b2|] eqn:Hd; simplify_eq. unfold ca_key. rewrite Hc. simpl.
    rewrite (db_Delete_ok _ _ _ Hd), lookup_insert_eq. unfold get; simpl. by rewrite lookup_delete_eq. }
  clear Hs. revert db1 Ho1 Hk1; induction Hops as [|o ops Hk Hops IH]; intros db1 Ho1 Hk1; simpl.
  { by apply IssueNode_needs_key. }
  pose proof (sapply_opened db1 o Ho1). pose proof (sapply_keyless db1 o Ho1 Hk Hk1).
  destruct (sapply db1 o) as [db2 r]. simpl in *. specialize (IH db2 ltac:(done) ltac:(done)).
  by destruct (srun db2 ops).
Qed.

(** The join token spreads with the certificates: when a seed with a token
    issues a certificate and the joining node saves what it received, the joined
    node accepts exactly the tokens the seed accepts. *)
Theorem join_token_propagates seed id c joiner joiner' token :
  opened (db_contents seed) → opened (db_contents joiner) →
  IssueNode pki_IssueNodeCert seed id = TxOk c → ct_TokenHash c ≠ [] →
  SaveJoinCerts joiner (ct_CaCert c) (ct_NodeCert c) (ct_NodeKey c) (ct_TokenHash c) = (joiner', TxOk ()) →
  CheckToken pki_CheckToken joiner' token = CheckToken pki_CheckToken seed token.
Proof.
  intros Hos Hoj Hi Hh Hs. unfold IssueNode in Hi. destruct (Certs seed) as [cs| |] eqn:Hcs; [|done..].
  simpl in Hi. case_bool_decide; [done|]. destruct (pki_IssueNodeCert _ _ _) as [[nc nk]|]; simplify_eq/=.
  assert (CACert cs ≠ []) as Hca.
  { unfold Certs, with_bucket in Hcs. repeat case_match; simplify_eq. case_bool_decide as Hl; simplify_eq/=.
    intros Hnil. by rewrite Hnil in Hl. }
  destruct (sapply_spec joiner (OpSaveJoinCerts (CACert cs) nc nk (JoinTokenHash cs)) joiner' _ Hoj Hs)
    as [_ (b & b' & _ & Hb & Hc)]. simpl in Hb, Hc.
  destruct (put_pairs b _) as [b1| |] eqn:Hp; [|done..]. simpl in Hb.
  destruct (db_Delete b1 keyCAKey) as [b2|] eqn:Hd; simplify_eq.
  assert (∀ k, k ≠ keyCAKey → get b' k = get b1 k) as Hget.
  { intros k Hk. rewrite (db_Delete_ok _ _ _ Hd). unfold get. by rewrite lookup_delete_ne. }
  unfold CheckToken. rewrite Hcs. unfold Certs, with_bucket. rewrite Hc, lookup_insert_eq. simpl.
  rewrite !clone_id, (Hget keyCACert), (Hget keyJoinTokenHash) by done.
  rewrite (get_after _ _ _ keyCACert Hp ltac:(by apply (bool_decide_unpack _))).
  rewrite (get_after _ _ _ keyJoinTokenHash Hp ltac:(by apply (bool_decide_unpack _))). simpl.
  rewrite !decide_True by (split; [done|]; by intros ?%nil_length_inv). simpl.
  rewrite (bool_decide_eq_false_2 (length (CACert cs) = 0)) by (by intros ?%nil_length_inv).
  done.
Qed.

End props.

(** ** A database in memory that refuses empty keys *)
Module StoreExamples.
Definition upd (db : buckets) (f : buckets → tx buckets) : buckets * tx unit :=
  match f db with
  | TxOk db' => (db', TxOk ())
  | TxErr e => (db, TxErr e)
  | TxPanic => (db, TxPanic)
  end.
Definition ErrKeyRequired : error := Errorf "key required" [].
#[export] Instance mem_bolt : Bolt buckets.
Proof.
  refine {|
    db_contents db := db; db_Update := upd;
    db_Put b k v := if str_empty k then Fail ErrKeyRequired else Ok (<[k := v]> b);
    db_Delete b k := Ok (delete k b);
    db_CreateBucketIfNotExists bs n := Ok (match bs !! n with Some _ => bs | None => <[n := ∅]> bs end);
  |}; unfold upd.
  - intros db f db' Hu. destruct (f db); by simplify_eq.
  - intros db f db' r Hu Hr. destruct (f db); by simplify_eq.
  - intros db f db' Hu. destruct (f db); by simplify_eq.
  - intros b k v b' Hp. destruct (str_empty k); by simplify_eq.
  - intros b k b' Hd. by simplify_eq.
  - intros bs n bs' Hc. by simplify_eq.
Defined.

Definition fresh : buckets := <[bucketCerts := ∅]> (<[bucketRaft := ∅]> (<[bucketNode := ∅]> ∅)).
Lemma fresh_opened : opened fresh.
Proof. apply (bool_decide_unpack _). by vm_compute. Qed.
Definition join_path (a b : string) : string := a +:+ "/" +:+ b.

Lemma store_stays_open_witness :
  opened (srun fresh [OpSaveIdentity "n1" "c1"; OpSaveJoinCerts [1] [2] [3] []]%Z).1.
Proof.
  refine (proj1 (store_stays_open (λ _, None) (λ _ _, Ok ∅) join_path "/var/lib/clusdr" dbOpenTimeout fresh
    [OpSaveIdentity "n1" "c1"; OpSaveJoinCerts [1] [2] [3] []]%Z _)).
  by vm_compute.
Defined.

Lemma store_identity_roundtrip_witness : Identity (SaveIdentity fresh "n1" "c1").1 = TxOk ("n1", "c1").
Proof. exact (store_identity_roundtrip fresh (OpSaveIdentity "n1" "c1") fresh_opened). Defined.

Definition issue (_ _ : list Z) (id : string) : result error (list Z * list Z) := Ok ([10%Z], [11%Z]).
Definition check (h : list Z) (token : string) : bool := bool_decide (h = bytes_of token).
Definition seed : buckets := (SaveCerts fresh (MkCertsRec [1%Z] [2%Z] [3%Z] [4%Z] (bytes_of "tok"))).1.
Definition issued : certs := MkCerts [10%Z] [11%Z] [1%Z] (bytes_of "tok").
Definition joined : buckets := (SaveJoinCerts fresh [1%Z] [10%Z] [11%Z] (bytes_of "tok")).1.

Lemma joined_node_cannot_issue_witness :
  ∃ e, IssueNode issue (srun joined [OpSaveIdentity "n2" "c1"]).1 "n3" = TxErr e.
Proof.
  apply (joined_node_cannot_issue issue fresh [1%Z] [10%Z] [11%Z] (bytes_of "tok") joined
    [OpSaveIdentity "n2" "c1"] "n3");
    [apply fresh_opened|reflexivity|repeat constructor].
Defined.

Lemma seed_opened : opened seed.
Proof. apply (bool_decide_unpack _). by vm_compute. Qed.
Lemma join_token_propagates_witness : CheckToken check joined "tok" = CheckToken check seed "tok".
Proof.
  apply (join_token_propagates check issue seed "n2" issued fresh joined "tok");
    [apply seed_opened|apply fresh_opened|by vm_compute|done|reflexivity].
Defined.
End StoreExamples.
