(* ===== verification/App.v ===== *)
(** * App: the start and stop of the daemon ([internal/app/app.go], [lifecycle.go])

    A daemon is a list of named units.  [InitApp] runs their init functions in
    order over the collaborators [W], [Close] their close functions in reverse,
    [Wait] ties both to the serve goroutines.  A serve goroutine sends one result
    on the channel [serveErr] when its server returns; the results arrive in some
    order, which is an input. *)
From S2P Require Import Prelude.

Section app.
Context {W : Type}.

(** [Fn]: an init or close step over the collaborators, with the number of
    [StartServe] calls it makes; the context only bounds how long it may take. *)
Definition Fn : Type := W → W * nat * option error.

Record Unit_ := MkUnit { u_Name : string; u_InitFn : option Fn; u_CloseFn : option Fn }.
Record namedClose := MkClose { nc_name : string; nc_fn : Fn }.

Record App := MkApp {
  a_world : W;
  closeFns : list namedClose;
  serveCount : nat;
  serveTaken : bool;
  stopped : bool;               (* stopCh is closed *)
  closeDone : bool;             (* closeOnce *)
  waitDone : bool;              (* waitOnce *)
  waitErr : option error;
}.

(** [for i := len(a.closeFns) - 1; i >= 0; i--]; close errors are logged. *)
Definition run_closes (w : W) (fns : list namedClose) : W := foldl (λ w c, (nc_fn c w).1.1) w fns.
Definition close_serves (w : W) (fns : list namedClose) : nat :=
  (foldl (λ s c, let r := nc_fn c s.1 in (r.1.1, s.2 + r.1.2)) (w, 0) fns).2.

Definition Close (a : App) : App :=
  if closeDone a then a else
  let fns := reverse (closeFns a) in
  MkApp (run_closes (a_world a) fns) [] (serveCount a + close_serves (a_world a) fns) (serveTaken a) (stopped a) true
    (waitDone a) (waitErr a).

(** The grace period of [closeWithTimeout]. *)
Definition fallbackShutdown : Duration := (15 * Second)%Z.
Definition shutdown_grace (ShutdownTimeout : Duration) : Duration :=
  if (0 <? ShutdownTimeout)%Z then ShutdownTimeout else fallbackShutdown.
Definition closeWithTimeout (a : App) : App := Close a.

Definition Stop (a : App) : App :=
  MkApp (a_world a) (closeFns a) (serveCount a) (serveTaken a) true (closeDone a) (waitDone a) (waitErr a).

(** [WatchShutdown] on a signal: the context of [NotifyContext] ends with SIGINT and
    SIGTERM, SIGHUP is not asked for. *)
Inductive signal : Type := SIGINT | SIGTERM | SIGHUP.
Definition WatchShutdown (a : App) (s : signal) : App :=
  match s with
  | SIGINT | SIGTERM => Stop a
  | SIGHUP => a
  end.

Definition set_world (a : App) (w : W) : App :=
  MkApp w (closeFns a) (serveCount a) (serveTaken a) (stopped a) (closeDone a) (waitDone a) (waitErr a).
Definition add_close (a : App) (c : namedClose) : App :=
  MkApp (a_world a) (closeFns a ++ [c]) (serveCount a) (serveTaken a) (stopped a) (closeDone a) (waitDone a) (waitErr a).

(** [a.serveCount++] of [StartServe]. *)
Definition StartServe (a : App) : App :=
  MkApp (a_world a) (closeFns a) (S (serveCount a)) (serveTaken a) (stopped a) (closeDone a) (waitDone a) (waitErr a).

(** The loop of [InitApp]. *)
Fixpoint init_units (a : App) (units : list Unit_) : App * option error :=
  match units with
  | [] => (a, None)
  | u :: units =>
    match u_InitFn u with
    | None => (closeWithTimeout a, Some (Errorf "unit %q has nil InitFn" [AStr (u_Name u)]))
    | Some init =>
      let '(w, serves, err) := init (a_world a) in
      let a := Nat.iter serves StartServe (set_world a w) in
      match err with
      | Some err => (closeWithTimeout a, Some (Errorf "%s: %w" [AStr (u_Name u); AErr err]))
      | None =>
        let a := match u_CloseFn u with
                 | Some fn => add_close a (MkClose (u_Name u) fn)
                 | None => a end in
        init_units a units
      end
    end
  end.

Definition new_app (w : W) : App := MkApp w [] 0 false false false false None.
Definition InitApp (w : W) (units : list Unit_) : App * option error :=
  init_units (new_app w) units.

(** [n] receives from [serveErr]: [None] if the channel never delivers that many. *)
Fixpoint drain (n : nat) (results : list (option error)) (err : option error)
    : option (option error * list (option error)) :=
  match n with
  | O => Some (err, results)
  | S n =>
    match results with
    | [] => None
    | se :: results => drain n results (match err with None => se | Some _ => err end)
    end
  end.

Definition drainServeErr (a : App) (already : option error) (results : list (option error))
    : option (option error * list (option error)) :=
  drain (if serveTaken a then Nat.pred (serveCount a) else serveCount a) results already.

(** What woke [Wait]: the stop channel or the first serve result. *)
Inductive wake : Type := ByStop | ByServe.

(** [Wait] with the results the serve goroutines send, in channel order; [None]
    is a [Wait] that blocks forever. *)
Definition Wait (a : App) (by_ : wake) (results : list (option error)) : option (App * option error) :=
  let answer a := (a, (λ e, Errorf "serve: %w" [AErr e]) <$> waitErr a) in
  if waitDone a then Some (answer a) else
  let woken :=
    match by_, serveCount a, results with
    | ByServe, S _, err :: results =>
      Some (MkApp (a_world a) (closeFns a) (serveCount a) true (stopped a) (closeDone a) true err, results)
    | ByStop, _, _ =>
      if stopped a
      then Some (MkApp (a_world a) (closeFns a) (serveCount a) (serveTaken a) true (closeDone a) true (waitErr a), results)
      else None
    | _, _, _ => None
    end in
  match woken with
  | None => None
  | Some (a, results) =>
    let a := closeWithTimeout a in
    match drainServeErr a (waitErr a) results with
    | None => None
    | Some (err, _) =>
      Some (answer (MkApp (a_world a) (closeFns a) (serveCount a) (serveTaken a) (stopped a) (closeDone a) true err))
    end
  end.

(** ** Start and stop *)

(** Every unit of [units] starts: the collaborators after their init functions,
    and the number of serve goroutines. *)
Fixpoint starts (w : W) (units : list Unit_) : option (W * nat) :=
  match units with
  | [] => Some (w, 0)
  | u :: units =>
    match u_InitFn u with
    | None => None
    | Some init =>
      match init w with
      | (_, _, Some _) => None
      | (w, n, None) => prod_map id (Nat.add n) <$> starts w units
      end
    end
  end.
Definition closers (units : list Unit_) : list namedClose :=
  omap (λ u, MkClose (u_Name u) <$> u_CloseFn u) units.

Lemma iter_StartServe n a :
  Nat.iter n StartServe a =
  MkApp (a_world a) (closeFns a) (n + serveCount a) (serveTaken a) (stopped a) (closeDone a) (waitDone a) (waitErr a).
Proof. induction n as [|n IH]; simpl; [by destruct a|]. by rewrite IH. Qed.

Lemma init_units_app a units rest w n :
  starts (a_world a) units = Some (w, n) →
  init_units a (units ++ rest) =
  init_units (MkApp w (closeFns a ++ closers units) (n + serveCount a) (serveTaken a) (stopped a) (closeDone a)
    (waitDone a) (waitErr a)) rest.
Proof.
  revert a n; induction units as [|u units IH]; intros a n Hs; simplify_eq/=.
  { rewrite app_nil_r. by destruct a. }
  destruct (u_InitFn u) as [init|]; [|done]. destruct (init (a_world a)) as [[w1 m] [err|]]; [done|].
  apply fmap_Some in Hs as ([w2 k] & Hs & Heq). simplify_eq/=. rewrite iter_StartServe. simpl.
  destruct (u_CloseFn u) as [fn|]; simpl.
  - erewrite IH by exact Hs. simpl. rewrite <-app_assoc. simpl. do 2 f_equal. lia.
  - erewrite IH by exact Hs. simpl. do 2 f_equal. lia.
Qed.

(** One unit of the list. *)
Lemma init_units_fail a u post init w k err :
  u_InitFn u = Some init → init (a_world a) = (w, k, Some err) →
  init_units a (u :: post) =
  (closeWithTimeout (Nat.iter k StartServe (set_world a w)), Some (Errorf "%s: %w" [AStr (u_Name u); AErr err])).
Proof. intros Hu Hi. simpl. by rewrite Hu, Hi. Qed.
Lemma init_units_step a u post init w k :
  u_InitFn u = Some init → init (a_world a) = (w, k, None) →
  init_units a (u :: post) =
  init_units (match u_CloseFn u with
              | Some fn => add_close (Nat.iter k StartServe (set_world a w)) (MkClose (u_Name u) fn)
              | None => Nat.iter k StartServe (set_world a w) end) post.
Proof. intros Hu Hi. simpl. by rewrite Hu, Hi. Qed.

(** The daemon stops what it started, in reverse order, once.  If every unit
    starts, [Close] runs the close functions of all units last to first, and a
    second [Close] does nothing; if a unit fails, the start fails, the units after
    it are never started, and exactly the close functions of the units before it
    run, last to first. *)
Theorem app_unwinds_in_reverse w pre w1 n :
  starts w pre = Some (w1, n) →
  (let r := InitApp w pre in
   r.2 = None ∧ a_world r.1 = w1 ∧ serveCount r.1 = n ∧
   a_world (Close r.1) = run_closes w1 (reverse (closers pre)) ∧ Close (Close r.1) = Close r.1) ∧
  (∀ u post w2,
    (u_InitFn u = None ∧ w2 = w1 ∨ ∃ init k err, u_InitFn u = Some init ∧ init w1 = (w2, k, Some err)) →
    let r := InitApp w (pre ++ u :: post) in
    is_Some r.2 ∧ a_world r.1 = run_closes w2 (reverse (closers pre)) ∧ Close r.1 = r.1).
Proof.
  intros Hs. split.
  - intros r. unfold r, InitApp. rewrite <-(app_nil_r pre). erewrite init_units_app by exact Hs. simpl.
    rewrite app_nil_r. by split_and!.
  - intros u post w2 Hu r. unfold r, InitApp. erewrite init_units_app by exact Hs. simpl.
    destruct Hu as [[-> ->]|(init & k & err & -> & Hi)]; simpl.
    + split_and!; [by eauto|done..].
    + rewrite Hi, iter_StartServe. simpl. split_and!; [by eauto|done..].
Qed.

(** ** Waiting *)

(** The first serve error, [nil] results aside. *)
Definition first_err (results : list (option error)) : option error := head (omap id results).

Lemma drain_spec n results err :
  n ≤ length results →
  drain n results err = Some (match err with Some _ => err | None => first_err (take n results) end, drop n results).
Proof.
  revert results err; induction n as [|n IH]; intros results err Hn; simpl.
  { by destruct err. }
  destruct results as [|se results]; simpl in *; [lia|]. rewrite IH by lia.
  unfold first_err. by destruct err, se.
Qed.

(** [Wait] loses no serve error and always closes: woken by [Stop] or by the
    first server to return, it closes every unit once, last to first, waits for
    all serve goroutines, and reports the first non-nil error they sent (and no
    error if they all returned nil); a second [Wait] gives the same answer and
    closes nothing. *)
Theorem wait_collects_all a by_ results :
  waitDone a = false → serveTaken a = false → waitErr a = None → closeDone a = false →
  close_serves (a_world a) (reverse (closeFns a)) = 0 → serveCount a ≤ length results →
  match by_ with ByStop => stopped a = true | ByServe => serveCount a ≠ 0 end →
  ∃ a', Wait a by_ results =
      Some (a', (λ e, Errorf "serve: %w" [AErr e]) <$> first_err (take (serveCount a) results)) ∧
    a_world a' = run_closes (a_world a) (reverse (closeFns a)) ∧
    ∀ by' results', Wait a' by' results' =
      Some (a', (λ e, Errorf "serve: %w" [AErr e]) <$> first_err (take (serveCount a) results)).
Proof.
  intros Hw Ht He Hc Hcs Hn Hby. unfold Wait at 1. rewrite Hw. destruct by_.
  - rewrite Hby. unfold closeWithTimeout, Close. simpl. rewrite Hc. simpl. rewrite Hcs.
    unfold drainServeErr. simpl. rewrite Ht, Nat.add_0_r, He, drain_spec by done. simpl.
    eexists. split_and!; try done.
  - destruct (serveCount a) as [|k] eqn:Hk; [done|]. destruct results as [|r results]; simpl in Hn; [lia|].
    unfold closeWithTimeout, Close. simpl. rewrite Hc. simpl. rewrite Hcs.
    unfold drainServeErr. simpl. rewrite Nat.add_0_r, drain_spec by lia. simpl.
    unfold first_err. destruct r; (eexists; split_and!; [done|done|intros; unfold Wait; simpl; done]).
Qed.
End app.
Arguments Fn : clear implicits.
Arguments Unit_ : clear implicits.
Arguments namedClose : clear implicits.
Arguments App : clear implicits.

(** ** A daemon of three units that records what runs *)
Module AppExamples.
Definition log (s : string) (serves : nat) (err : option error) : Fn (list string) :=
  λ w, (w ++ [s], serves, err).
Definition unit_ (n : string) (serves : nat) : Unit_ (list string) :=
  MkUnit n (Some (log ("+" +:+ n) serves None)) (Some (log ("-" +:+ n) 0 None)).
Definition broken : Unit_ (list string) :=
  MkUnit "grpc" (Some (log "+grpc" 0 (Some (Errorf "listen" [])))) (Some (log "-grpc" 0 None)).

Lemma app_unwinds_in_reverse_witness :
  a_world (InitApp [] [unit_ "store" 0; unit_ "raft" 0; broken]).1 = ["+store"; "+raft"; "+grpc"; "-raft"; "-store"].
Proof.
  refine (proj1 (proj2 (proj2 (app_unwinds_in_reverse [] [unit_ "store" 0; unit_ "raft" 0] ["+store"; "+raft"] 0
    eq_refl) broken [] ["+store"; "+raft"; "+grpc"] _))).
  right. by eexists _, _, _.
Defined.

Definition running : App (list string) := Stop (InitApp [] [unit_ "store" 0; unit_ "grpc" 2]).1.
Lemma wait_collects_all_witness :
  ∃ a', Wait running ByStop [None; Some (Errorf "accept" [])] =
    Some (a', Some (Errorf "serve: %w" [AErr (Errorf "accept" [])])).
Proof.
  destruct (wait_collects_all running ByStop [None; Some (Errorf "accept" [])]) as (a' & Hw & _);
    try reflexivity.
  exists a'. exact Hw.
Defined.
End AppExamples.
