(* ===== verification/Units.v ===== *)
(** * Units: what the daemon wires together ([internal/app/units.go])

    The pieces of the start units that decide something: the identity merge of
    [InitStore], the log level of [InitLogger], the TLS material, the callback on
    a leader change, marking dead peers, and announcing this node after a restart.
    [node_locks] and [node_leases] are [consensus.Node] seen through the
    interfaces of the gRPC services. *)
From S2P Require Import Prelude Events GrantSpec Locks Leases Membership FSM.
From Stdlib Require Import Ascii.
From stdpp Require Import pretty.
From S2P Require Import Node LockService LeaseService JoinService Presence Config Store.

(** ** Rendering errors

    [Error()] of the errors that reach [isNotRaftMember]: verbs take the next
    argument; [%q] quotes text without characters to escape; no rune reaches it. *)

Definition quote : string := String (Ascii.ascii_of_N 34) "".

Fixpoint fill (format : string) (args : list string) : string :=
  match format with
  | String "%"%char (String v rest) =>
    match args with
    | [] => "%!" +:+ String v ("(MISSING)" +:+ fill rest [])
    | a :: args => (if Ascii.eqb v "q"%char then quote +:+ a +:+ quote else a) +:+ fill rest args
    end
  | String c rest => String c (fill rest args)
  | EmptyString => EmptyString
  end.

Fixpoint render (e : error) : string :=
  match e with
  | Errorf format args =>
    fill format ((fix go (l : list arg) : list string :=
      match l with
      | [] => []
      | AStr s :: l => s :: go l
      | ANum z :: l => pretty z :: go l
      | ARune r :: l => pretty r :: go l
      | AErr e :: l => render e :: go l
      end) args)
  end.

Fixpoint Contains (s sub : string) : bool :=
  HasPrefix s sub || match s with String _ s' => Contains s' sub | EmptyString => false end.

Definition code_name (c : code) : string :=
  match c with
  | OKCode => "OK" | Canceled => "Canceled" | InvalidArgument => "InvalidArgument"
  | DeadlineExceeded => "DeadlineExceeded" | NotFound => "NotFound" | PermissionDenied => "PermissionDenied"
  | ResourceExhausted => "ResourceExhausted" | FailedPrecondition => "FailedPrecondition" | Aborted => "Aborted"
  | Internal => "Internal" | Unavailable => "Unavailable" | Unauthenticated => "Unauthenticated"
  end.

(** An error of the announcement: of this process, or the status of an RPC. *)
Inductive announce_error : Type := Plain (e : error) | Rpc (st : status).
Definition Error_ (e : announce_error) : string :=
  match e with
  | Plain e => render e
  | Rpc st => "rpc error: code = " +:+ code_name (st_code st) +:+ " desc = " +:+ render (st_msg st)
  end.

Definition isNotRaftMember (e : announce_error) : bool :=
  match e with
  | Rpc st =>
    (if decide (st_code st = FailedPrecondition) then Contains (render (st_msg st)) "not a raft member" else false) ||
    Contains (Error_ e) "not a cluster member"
  | Plain _ => Contains (Error_ e) "not a cluster member"
  end.

(** ** Configuration-driven choices *)

Definition set_identity (c : Config.Config) (nodeID clusterID : string) : Config.Config :=
  let n := Config.Node c in
  Config.MkCfg
    (Config.MkNodeConfig (if str_empty (Config.cn_ID n) then nodeID else Config.cn_ID n) (Config.cn_Addr n))
    (if str_empty (Config.Cluster_ID c) then clusterID else Config.Cluster_ID c)
    (Config.Data_Dir c) (Config.Log c) (Config.GRPC c) (Config.ShutdownTimeout c) (Config.Heartbeat c)
    (Config.Raft c) (Config.TLS_Mode c) (Config.Lock c) (Config.Lease c).

(** [InitStore] on the opened store: an identity that cannot be read is logged. *)
Definition InitStore `{Bolt DB} (open_ : tx DB) (c : Config.Config) : tx (DB * Config.Config) :=
  match open_ with
  | TxErr err => TxErr (Errorf "open store: %w" [AErr err])
  | TxPanic => TxPanic
  | TxOk s =>
    match Identity s with
    | TxPanic => TxPanic
    | TxErr _ => TxOk (s, c)
    | TxOk (nodeID, clusterID) => TxOk (s, set_identity c nodeID clusterID)
    end
  end.

Inductive log_level : Type := LevelDebug | LevelInfo | LevelWarn | LevelError.
Inductive log_handler : Type := JSONHandler (l : log_level) | TextHandler (l : log_level).
Definition InitLogger (c : Config.Config) : log_handler :=
  let lv := Config.cl_Level (Config.Log c) in
  let level := if String.eqb lv "debug" then LevelDebug else
               if String.eqb lv "warn" then LevelWarn else
               if String.eqb lv "error" then LevelError else LevelInfo in
  if String.eqb (Config.cl_Format (Config.Log c)) "json" then JSONHandler level else TextHandler level.

Definition loadTLSMaterial `{Bolt DB} (store : option DB) : tx (list Z * list Z * list Z) :=
  match store with
  | None => TxErr (Errorf "no store" [])
  | Some s =>
    c ← Certs s;
    if bool_decide (length (CACert c) = 0) || bool_decide (length (NodeCert c) = 0) ||
       bool_decide (length (NodeKey c) = 0)
    then TxErr (Errorf "incomplete certificates" [])
    else TxOk (CACert c, NodeCert c, NodeKey c)
  end.

(** [ClientTLS] builds credentials [K] from certificates. *)
Definition peerTransportCreds `{Unicode} `{Bolt DB} {K} (ClientTLS : list Z → list Z → list Z → result error K)
    (c : Config.Config) (store : option DB) : tx (option K) :=
  if negb (TLSEnabled c) then TxOk None else
  match loadTLSMaterial store with
  | TxPanic => TxPanic
  | TxErr _ => TxOk None
  | TxOk (ca, cert, key) =>
    match ClientTLS ca cert key with
    | Fail _ => TxOk None
    | Ok tc => TxOk (Some tc)
    end
  end.

Definition credentialsOrNil {K} (BootstrapTLS : K) (tlsOn : bool) : option K :=
  if negb tlsOn then None else Some BootstrapTLS.

(** [presenceCtl.stop]: what it does, in order; a field may be nil. *)
Inductive stop_action : Type := CancelWatch | Unsubscribe | AwaitWatch | StopKeeper.
Definition presence_stop (cancel sub done_ keeper : bool) : list stop_action :=
  (if cancel then [CancelWatch] else []) ++ (if sub then [Unsubscribe] else []) ++
  (if done_ then [AwaitWatch] else []) ++ (if keeper then [StopKeeper] else []).

(** ** The consensus node in use *)

Section units.
Context `{RL : RaftLib W D}.
Context (clock : W → Time).

Definition engine (w : W) : Engine := applier (raft_fsm w).
Definition locks_of (w : W) : option Locks.Table := fsm_locks (raft_fsm w).

Definition node_locks : LockRaft W := MkLockRaft W IsLeader
  (λ w name holder ttl, ApplyLockAcquire (clock w) w name holder ttl)
  ApplyLockRelease
  (λ w name holder token ttl, ApplyLockRenew (clock w) w name holder token ttl).

Definition node_leases : LeaseRaft W := MkLeaseRaft W IsLeader
  (λ w name owner ttl, ApplyLeaseGrant (clock w) w name owner ttl)
  (λ w name owner token ttl, ApplyLeaseRenew (clock w) w name owner token ttl)
  ApplyLeaseRevoke.

Definition node_voter : VoterAdder W := MkVoterAdder W AddVoter AddNonvoter PromoteToVoter RemoveVoter
  ApplyAddMemberAs ApplyDropMember HasServer IsLeader.

(** The callback of [WatchLeaderChange] that [InitConsensus] installs; [setLeader]
    is [mem.SetLeader], which changes the local member list only. *)
Definition onLeaderChange (setLeader : W → string → W) (cfg : Config.Config) (w : W) (leaderID : string) : W :=
  if str_empty leaderID then w else
  let w := setLeader w leaderID in
  let selfID := Config.cn_ID (Config.Node cfg) in
  let selfAddr := Config.cg_Addr (Config.GRPC cfg) in
  if String.eqb leaderID selfID then (ApplyAddMember w selfID selfAddr).1 else w.

(** [cons] and [mem]: [a.Consensus] and [a.Membership] are set. *)
Definition removeDeadMember (cons mem : bool) (w : W) (id : string) : W :=
  if str_empty id || negb cons || negb (IsLeader w) then w else
  if mem && String.eqb id (SelfID (engine w)) then w else
  (ApplyRemoveMember w id).1.

(** ** Announcing this node *)

Definition not_member (id : string) : error :=
  Errorf "node %s is not a cluster member; run clusdr join" [AStr id].
Definition waiting : announce_error := Plain (Errorf "waiting for leader" []).

Definition announceSelfOnce (peers : JoinPeers W) (cfg : Config.Config) (cons mem : bool) (w : W)
    : W * option announce_error :=
  let id := Config.cn_ID (Config.Node cfg) in
  if negb cons || negb (HasServer w id) then
    if cons && bool_decide (0 < ServerCount w) then (w, Some (Plain (not_member id))) else (w, None)
  else
  let addr := if negb (str_empty (Config.cn_Addr (Config.Node cfg)))
              then Config.cn_Addr (Config.Node cfg) else Config.cg_Addr (Config.GRPC cfg) in
  let role := if mem then
      match memberByID (engine w) id with Some m => NormalizeRole (m_Role m) | None => RoleVoter end
    else RoleVoter in
  if IsLeader w then (let r := ApplyAddMemberAs w id addr role in (r.1, Plain <$> r.2)) else
  if negb mem then (w, Some waiting) else
  match Leader (engine w) with
  | None => (w, Some waiting)
  | Some leader =>
    if str_empty (m_Address leader) || String.eqb (m_ID leader) id then (w, Some waiting) else
    match jp_Dial peers w (m_Address leader) with
    | Some err => (w, Some (Plain (Errorf "dial leader %s: %w" [AStr (m_ID leader); AErr err])))
    | None =>
      match jp_Rejoin peers w (m_Address leader) (MkRejoinRequest id addr role true) with
      | (w, Fail st) => (w, Some (Rpc st))
      | (w, Ok resp) =>
        if negb (dr_Done resp) then (w, Some (Plain (Errorf "rejoin rejected: %s" [AStr (dr_Message resp)]))) else (w, None)
      end
    end
  end.

Definition announceWait : Duration := (10 * Second)%Z.

Inductive announced : Type := Announced | InBackground | NotMember (e : error).

(** The loop of [InitAnnounce]: [now i] is the [i]-th clock reading, [env i] what
    the rest of the system does during the [i]-th sleep.  [None]: out of fuel. *)
Fixpoint announce_loop (peers : JoinPeers W) (cfg : Config.Config) (mem : bool) (now : nat → Time)
    (env : nat → W → W) (deadline : Time) (fuel i : nat) (w : W) : option (W * announced) :=
  match fuel with
  | O => None
  | S fuel =>
    if negb (Before (now i) deadline) then Some (w, InBackground) else
    match announceSelfOnce peers cfg true mem w with
    | (w, None) => Some (w, Announced)
    | (w, Some err) =>
      if isNotRaftMember err then Some (w, NotMember (not_member (Config.cn_ID (Config.Node cfg))))
      else announce_loop peers cfg mem now env deadline fuel (S i) (env i w)
    end
  end.

Definition InitAnnounce (peers : JoinPeers W) (cfg : Config.Config) (cons mem : bool) (now : nat → Time)
    (env : nat → W → W) (fuel : nat) (w : W) : option (W * announced) :=
  let id := Config.cn_ID (Config.Node cfg) in
  if negb cons then Some (w, Announced) else
  if negb (HasServer w id) then
    Some (w, if bool_decide (0 < ServerCount w) then NotMember (not_member id) else Announced)
  else announce_loop peers cfg mem now env (Prelude.Add (now 0) announceWait) fuel 1 w.

(** [announceUntil], in the background: [stop i] says whether the context is done
    at the [i]-th attempt. *)
Fixpoint announceUntil (peers : JoinPeers W) (cfg : Config.Config) (mem : bool) (stop : nat → bool)
    (env : nat → W → W) (fuel i : nat) (w : W) : option W :=
  match fuel with
  | O => None
  | S fuel =>
    if stop i then Some w else
    match announceSelfOnce peers cfg true mem w with
    | (w, None) => Some w
    | (w, Some err) =>
      if isNotRaftMember err then Some w else announceUntil peers cfg mem stop env fuel (S i) (env i w)
    end
  end.
End units.

(** ** Properties *)

Section props.
Context `{RL : RaftLib W D}.
Context (clock : W → Time).

(** C7: A granted lock is in the replicated table: when the leader's [TryLock]
    answers that the lock is acquired, then in a state its FSM went through the
    lock table holds that name for the response's holder (the requested one, or
    this node if the request left it empty) under the response's fencing token,
    for the requested lifetime (the clamped one) rounded down to a millisecond,
    until the leader's clock plus that lifetime, rounded down likewise. *)
Theorem trylock_end_to_end set_table peers d now w req w' resp :
  let h := LockService.holder engine w (lq_Holder req) in
  let ttl := Locks.ClampTTL (LockService.ttlFromMs d (lq_TtlMs req) 0) 0 in
  codec_dom (timed CmdLockAcquire h (lq_Name req) 0 (clock w) ttl) →
  fsm_full (raft_fsm w) → (0 ≤ clock w)%Z → (clock w + ttl < two63 * Millisecond)%Z → IsLeader w = true →
  LockService.TryLock locks_of set_table engine (Some (node_locks clock)) peers d now w req = (w', Ok resp) →
  lp_Acquired resp = true →
  lp_Holder resp = h ∧
  ∃ f1 t1 rec post, raft_fsm w' = apply_entries f1 post ∧ fsm_locks f1 = Some t1 ∧
    Locks.Get t1 (lq_Name req) = Some rec ∧ lk_Holder rec = h ∧ lk_Token rec = lp_FencingToken resp ∧
    (lk_Deadline rec ≤ clock w + ttl < lk_Deadline rec + Millisecond)%Z ∧
    (lk_TTL rec ≤ ttl < lk_TTL rec + Millisecond)%Z.
Proof.
  intros h ttl Hdom Hfull Hnow Hmax Hl Ht Hacq. unfold TryLock, LockService.guarded in Ht.
  destruct (Locks.ValidName _); [done|]. destruct (LockService.rejectIfObserver _); [done|].
  unfold LockService.follower in Ht. simpl in Ht. rewrite Hl in Ht. simpl in Ht. fold h in Ht.
  destruct (ApplyLockAcquire (clock w) w (lq_Name req) h (LockService.ttlFromMs d (lq_TtlMs req) 0))
    as [w1 [[tok []]|]] eqn:Ha; simplify_eq/=. split; [done|].
  destruct (acquire_commits (clock w) w (lq_Name req) h (LockService.ttlFromMs d (lq_TtlMs req) 0) w' tok
    Hdom Hfull Hnow Hmax Ha) as (f1 & t1 & rec & post & ? & ? & ? & ? & ? & ? & ? & _).
  by exists f1, t1, rec, post.
Qed.

(** A dead peer is marked, never removed: a follower, or a report about this
    node itself, changes nothing; on the leader a committed report turns that peer
    from alive to dead in the member list, leaves a dead, unknown or departed peer
    as it was, and touches nobody else. *)
Theorem dead_peer_marked w id :
  let w' := removeDeadMember true true w id in
  codec_dom (MkCommand CmdRemoveMember id "" "" "" 0 0 0) → fsm_full (raft_fsm w) →
  (IsLeader w = false ∨ id = SelfID (engine w) → w' = w) ∧
  (IsLeader w = true → id ≠ "" → id ≠ SelfID (engine w) → (ApplyRemoveMember w id).2 = None →
   ∃ f0 f1 post, raft_fsm w' = apply_entries f1 post ∧
     live (applier f1) id = (if decide (live (applier f0) id = Alive) then Dead else live (applier f0) id) ∧
     (∀ id', id' ≠ id → members (applier f1) !! id' = members (applier f0) !! id') ∧
     fsm_locks f1 = fsm_locks f0 ∧ fsm_leases f1 = fsm_leases f0).
Proof.
  intros w' Hdom Hf. unfold w', removeDeadMember. split.
  - intros [Hl|Hs]; [by rewrite Hl, orb_true_r|]. destruct (_ || _); [done|].
    by rewrite Hs, String.eqb_refl.
  - intros Hl Hne Hns Hok. apply str_empty_false in Hne. apply String.eqb_neq in Hns.
    rewrite Hne, Hl, Hns. simpl. unfold ApplyRemoveMember in *.
    destruct (apply_member _ _ _) as [w1 r] eqn:Ha. simpl in Hok. subst r.
    destruct (apply_member_applied _ _ _ _ Hdom Hf Ha) as (f0 & now & post & [Hwf _ _] & Hfsm).
    exists f0, (applyCommand now f0 (MkCommand CmdRemoveMember id "" "" "" 0 0 0)).1.1, post.
    split; [done|]. apply fwf_members in Hwf. unfold applyCommand. cbn -[live]. unfold MarkDead, live.
    destruct (members (applier f0) !! id) as [m|] eqn:Hm; simpl;
      [|rewrite Hm; split; [destruct (bool_decide _); by case_decide|done]].
    destruct (Hwf _ _ Hm) as [_ _ Hs _ _]. rewrite NormalizeStatus_dead by done.
    destruct (String.eqb (m_Status m) StatusAlive) eqn:Hal; simpl; [|by rewrite Hm, Hal].
    rewrite lookup_insert_eq. split_and!; try done. intros id' Hid'. by rewrite lookup_insert_ne.
Qed.

(** The member a committed [add_member] leaves. *)
Lemma add_member_committed w id addr role w' :
  codec_dom (MkCommand CmdAddMember id addr (NormalizeRole role) "" 0 0 0) → fsm_full (raft_fsm w) →
  id ≠ "" → ApplyAddMemberAs w id addr role = (w', None) →
  ∃ f1 post m, raft_fsm w' = apply_entries f1 post ∧ members (applier f1) !! id = Some m ∧
    m_Address m = addr ∧ m_Role m = NormalizeRole role ∧ m_Status m = StatusAlive.
Proof.
  intros Hdom Hf Hid Ha. apply str_empty_false in Hid.
  destruct (apply_member_applied _ _ _ _ Hdom Hf Ha) as (f0 & now & post & _ & Hfsm).
  eexists (applyCommand now f0 _).1.1, post, _. split; [exact Hfsm|]. unfold applyCommand. simpl.
  unfold JoinAs. rewrite Hid. simpl. rewrite lookup_insert_eq. split; [done|]. simpl.
  by rewrite !NormalizeRole_idemp.
Qed.

(** The address peers reach a leader at depends on who wrote it last: the
    callback of an election writes this node as a voter at the address its gRPC
    server binds, whatever address the node advertises, while the announcement
    after a restart writes the advertised address and keeps the listed role. *)
Theorem leader_address_sources setLeader peers cfg w :
  let id := Config.cn_ID (Config.Node cfg) in
  let bind := Config.cg_Addr (Config.GRPC cfg) in
  let adv := Config.cn_Addr (Config.Node cfg) in
  id ≠ "" → adv ≠ "" → (∀ addr role, codec_dom (MkCommand CmdAddMember id addr role "" 0 0 0)) →
  (fsm_full (raft_fsm (setLeader w id)) → (ApplyAddMember (setLeader w id) id bind).2 = None →
   ∃ f1 post m, raft_fsm (onLeaderChange setLeader cfg w id) = apply_entries f1 post ∧
     members (applier f1) !! id = Some m ∧ m_Address m = bind ∧ m_Role m = RoleVoter) ∧
  (fsm_full (raft_fsm w) → HasServer w id = true → IsLeader w = true →
   ∀ w' m0, memberByID (engine w) id = Some m0 → announceSelfOnce peers cfg true true w = (w', None) →
   ∃ f1 post m, raft_fsm w' = apply_entries f1 post ∧
     members (applier f1) !! id = Some m ∧ m_Address m = adv ∧ m_Role m = NormalizeRole (m_Role m0)).
Proof.
  intros id bind adv Hid Hadv Hdom. pose proof Hid as Hne. apply str_empty_false in Hne. split.
  - intros Hf Hok. unfold onLeaderChange. fold id bind. rewrite Hne, String.eqb_refl.
    unfold ApplyAddMember in *. destruct (ApplyAddMemberAs _ id bind RoleVoter) as [w1 r] eqn:Ha.
    simpl in Hok |- *. subst r.
    destruct (add_member_committed _ _ _ _ _ (Hdom _ _) Hf Hid Ha) as (f1 & post & m & ? & ? & ? & ? & _).
    by exists f1, post, m.
  - intros Hf Hs Hl w' m0 Hm0 Ha. unfold announceSelfOnce in Ha. fold id bind adv in Ha.
    rewrite Hs, Hl, Hm0 in Ha. apply str_empty_false in Hadv. rewrite Hadv in Ha. simpl in Ha.
    destruct (ApplyAddMemberAs w id adv _) as [w1 r] eqn:Hr. destruct r; simplify_eq/=.
    destruct (add_member_committed _ _ _ _ _ (Hdom _ _) Hf Hid Hr) as (f1 & post & m & ? & ? & ? & ? & _).
    exists f1, post, m. by rewrite <-(NormalizeRole_idemp (m_Role m0)).
Qed.

(** A node that was removed while it was down does not come back by itself:
    when its own copy of the Raft configuration still lists it but the leader's
    does not, the leader refuses the rejoin, the restarting node recognises the
    refusal, and the start fails at once with the hint to join again; nothing in
    the cluster has changed.  A [NOT_LEADER] answer is not mistaken for it. *)
Theorem announce_refused_after_leave eng (set_eng : W → Engine → W) v peers peers' (cfg : Config.Config)
    (now : nat → Time) env fuel w leader (t : Time) :
  let id := Config.cn_ID (Config.Node cfg) in
  id ≠ "" → Config.cn_Addr (Config.Node cfg) ≠ "" →
  HasServer w id = true → IsLeader w = false →
  Leader (engine w) = Some leader → m_Address leader ≠ "" → m_ID leader ≠ id →
  jp_Dial peers w (m_Address leader) = None →
  (∀ req, jp_Rejoin peers w (m_Address leader) req = Rejoin eng set_eng (Some v) peers' t w req) →
  va_IsLeader v w = true → va_HasServer v w id = false →
  (now 1%nat < now 0%nat + announceWait)%Z →
  InitAnnounce peers cfg true true now env (S fuel) w = Some (w, NotMember (not_member id)) ∧
  isNotRaftMember (Rpc not_leader) = false.
Proof.
  intros id Hid Hadv Hs Hl Hlead Hla Hli Hdial Hrj Hvl Hvs Hnow. split; [|by vm_compute].
  apply str_empty_false in Hid, Hadv, Hla. apply String.eqb_neq in Hli. apply Z.ltb_lt in Hnow.
  unfold InitAnnounce. fold id. rewrite Hs. simpl. unfold Before, Prelude.Add. rewrite Hnow. simpl.
  unfold announceSelfOnce. fold id. rewrite Hs, Hl, Hlead, Hla, Hli, Hdial, Hrj, Hadv. simpl.
  unfold Rejoin. simpl. rewrite Hid, Hadv. unfold on_leader, rejoinMember. rewrite Hvl. simpl. by rewrite Hvs.
Qed.

(** The start waits a bounded time for the announcement: since every retry
    sleeps at least 100ms, [InitAnnounce] makes at most 99 attempts and returns,
    whatever the leader answers and however the cluster changes meanwhile. *)
Theorem announce_terminates peers cfg cons mem (now : nat → Time) env w :
  (∀ i, now i + 100 * Millisecond ≤ now (S i))%Z →
  is_Some (InitAnnounce peers cfg cons mem now env 100 w).
Proof.
  intros Hnow. assert (∀ i, now 0%nat + Z.of_nat i * (100 * Millisecond) ≤ now i)%Z as Hlin.
  { induction i as [|i IH]; [lia|]. specialize (Hnow i). lia. }
  unfold InitAnnounce. destruct cons; [|by eauto]. destruct (HasServer _ _); [|by eauto]. simpl negb. cbv iota.
  assert (∀ fuel i w, (i + fuel = 101)%nat → 0 < fuel →
    is_Some (announce_loop peers cfg mem now env (Prelude.Add (now 0%nat) announceWait) fuel i w)) as Hloop;
    [|apply Hloop; lia].
  induction fuel as [|fuel IH]; intros i w0 Hi Hpos; [lia|]. simpl.
  destruct (Before (now i) _) eqn:Hb; simpl; [|by eauto].
  destruct (announceSelfOnce _ _ _ _ _) as [w1 [err|]]; [|by eauto]. destruct (isNotRaftMember err); [by eauto|].
  apply IH; [lia|]. apply Z.ltb_lt in Hb. specialize (Hlin i).
  unfold Prelude.Add, announceWait, Second, Millisecond in *. lia.
Qed.
End props.

(** ** Concrete daemons *)
Module UnitsExamples.
Import SoloRaft.
Definition at_ (_ : solo) : Time := 1000%Z.
Definition no_locks : LockPeers solo :=
  let down {R} : result status R := Fail (Status Unavailable (Errorf "down" [])) in
  MkLockPeers solo (λ _ _, None) (λ w _ _, (w, down)) (λ w _ _, (w, down)) (λ w _ _, (w, down)) (λ w _ _, (w, down)).
Definition keep (w : solo) (_ : Locks.Table) : solo := w.
Definition req : LockRequest := MkLockRequest "a" "" 5000.
Definition answer : solo * result status LockResponse :=
  LockService.TryLock locks_of keep engine (Some (node_locks at_)) no_locks Second 0 start req.
Definition granted : LockResponse := MkLockResponse true "" 1 "n1" 5000.

Lemma trylock_end_to_end_witness :
  ∃ f1 t1 rec post, raft_fsm answer.1 = apply_entries f1 post ∧ fsm_locks f1 = Some t1 ∧
    Locks.Get t1 "a" = Some rec ∧ lk_Holder rec = "n1".
Proof.
  destruct (trylock_end_to_end (RL := solo_raft) at_ keep no_locks Second 0 start req answer.1 granted I start_full)
    as (_ & f1 & t1 & rec & post & ? & ? & ? & ? & _);
    [done|by vm_compute|done|apply pair_equal_spec; split; [reflexivity|by vm_compute]|done|].
  by exists f1, t1, rec, post.
Defined.

Definition with_n2 : solo := (ApplyAddMemberAs start "n2" "10.0.0.2:7" "voter").1.
Lemma with_n2_full : fsm_full (raft_fsm with_n2).
Proof.
  assert (ApplyAddMemberAs start "n2" "10.0.0.2:7" "voter" = (with_n2, None)) as Ha by reflexivity.
  destruct (apply_member_applied (RL := solo_raft) start (MkCommand CmdAddMember "n2" "10.0.0.2:7" "voter" "" 0 0 0)
    "raft apply add_member %s: %w" with_n2 I start_full Ha) as (f0 & now & post & Hf & ->).
  apply fsm_full_entries. exact (fsm_full_Apply now f0 (MkLog 1 LogCommand
    (MkCommand CmdAddMember "n2" "10.0.0.2:7" "voter" "" 0 0 0)) Hf).
Qed.

Lemma dead_peer_marked_witness :
  ∃ (f0 f1 : node_fsm) post, raft_fsm (removeDeadMember true true with_n2 "n2") = apply_entries f1 post ∧
    live (applier f1) "n2" = (if decide (live (applier f0) "n2" = Alive) then Dead else live (applier f0) "n2").
Proof.
  destruct (proj2 (dead_peer_marked (RL := solo_raft) with_n2 "n2" I with_n2_full))
    as (f0 & f1 & post & ? & ? & _); [reflexivity|done|by vm_compute|by vm_compute|].
  by exists f0, f1, post.
Defined.

Definition home : result error string := Ok "/root".
Definition cfg : Config.Config := set_identity (Config.Defaults home) "n1" "c1".
Definition no_joins : JoinPeers solo :=
  let down {R} : result status R := Fail (Status Unavailable (Errorf "down" [])) in
  MkJoinPeers solo (λ _ _, None) (λ w _ _, (w, down)) (λ w _ _, (w, down)) (λ w _ _, (w, down)) (λ w _ _, (w, down)).
Lemma leader_address_sources_witness :
  ∃ f1 post m, raft_fsm (onLeaderChange (λ w _, w) cfg start "n1") = apply_entries f1 post ∧
    members (applier f1) !! "n1" = Some m ∧ m_Address m = "127.0.0.1:7947" ∧ m_Role m = RoleVoter.
Proof.
  apply (proj1 (leader_address_sources (RL := solo_raft) (λ w _, w) no_joins cfg start
    ltac:(done) ltac:(done) ltac:(done)) start_full).
  by vm_compute.
Defined.

(** A follower [n1] that knows the leader [n2], whose configuration lacks [n1]. *)
Definition follower : solo :=
  MkSolo (set_applier (so_fsm with_n2) (Membership.SetLeader (applier (so_fsm with_n2)) "n2").1)
    (so_servers with_n2) false.
Definition n2_member : Member := default (MkMember "" "" "" false "" 0) (Leader (engine follower)).
Definition n2_voter : VoterAdder solo := MkVoterAdder solo AddVoter AddNonvoter PromoteToVoter RemoveVoter
  ApplyAddMemberAs ApplyDropMember (λ _ id, String.eqb id "n2") (λ _, true).
Definition to_n2 : JoinPeers solo :=
  let down {R} : result status R := Fail (Status Unavailable (Errorf "down" [])) in
  MkJoinPeers solo (λ _ _, None) (λ w _ _, (w, down)) (λ w _ _, (w, down)) (λ w _ _, (w, down))
    (λ w _ req, Rejoin engine (λ w _, w) (Some n2_voter) no_joins 0 w req).
Lemma announce_refused_after_leave_witness :
  InitAnnounce to_n2 cfg true true (λ i, Z.of_nat i * Second)%Z (λ _ w, w) 5 follower =
  Some (follower, NotMember (not_member "n1")).
Proof.
  refine (proj1 (announce_refused_after_leave (RL := solo_raft) engine (λ w _, w) n2_voter to_n2 no_joins cfg
    (λ i, Z.of_nat i * Second)%Z (λ _ w, w) 4 follower n2_member 0 _ _ _ _ _ _ _ _ _ _ _ _));
    try done; by vm_compute.
Defined.

Lemma announce_terminates_witness :
  is_Some (InitAnnounce to_n2 cfg true true (λ i, Z.of_nat i * Second)%Z (λ _ w, w) 100 follower).
Proof.
  apply (announce_terminates (RL := solo_raft)). intros i. unfold Second, Millisecond. lia.
Defined.
End UnitsExamples.
