(* ===== verification/Daemon.v ===== *)
(** * Daemon: the background activities of a daemon, put together

    [InitConsensus], [InitHeartbeat] and [InitPresence] of [internal/app/units.go]
    connect the loops of [locks.RunExpirer], [leases.RunExpirer],
    [heartbeat.Monitor], [presence.WatchExpired] and [presence.Keeper] to the Raft
    node, the member list and the event bus.  One turn of each loop is a function
    of the daemon's state; [node] is the state of a leader whose commits take
    effect at once, with the bus its tables and its member list publish to.

    The theorems follow a lock, a lease and a node over many turns: a lock that
    is renewed in time survives, an abandoned one is freed, a crashed node is
    found, and a node once dead stays dead. *)
From S2P Require Import Prelude Events GrantSpec Locks Leases Membership FSM Bus Node.
From S2P Require Import LockService LeaseService Heartbeat Presence Units Ticker.

(** ** The loops over a Raft node *)

Section wiring.
Context `{RL : RaftLib W D}.

(** [locks.RunExpirer(node.Ctx(), a.Locks, node.IsLeader, node.ApplyLockExpire, ...)]:
    one tick; without a table the loop was never entered. *)
Definition lock_expirer (now : Time) (w : W) : W :=
  match fsm_locks (raft_fsm w) with
  | None => w
  | Some t => Locks.RunExpirer_tick t (Some (IsLeader w)) (λ w n k, (ApplyLockExpire w n k).1) now w
  end.
Definition lease_expirer (now : Time) (w : W) : W :=
  match fsm_leases (raft_fsm w) with
  | None => w
  | Some t => Leases.RunExpirer_tick t (Some (IsLeader w)) (λ w n k, (ApplyLeaseExpire w n k).1) now w
  end.

(** A tick of the monitor with [SetReportDead(a.removeDeadMember)]. *)
Definition heartbeat_turn (cfg : Heartbeat.Config) (ping : string → bool) (s : W * gmap string Z) : W * gmap string Z :=
  let r := tick cfg ping (engine s.1) s.2 in (foldl (removeDeadMember true true) s.1 r.2, r.1).

(** [WatchExpired(ctx, ctl.sub, a.Cfg.Node.ID, a.Consensus.IsLeader, a.removeDeadMember)]
    on an event it received. *)
Definition presence_handle (selfID : string) (w : W) (e : Event) : W :=
  foldl (removeDeadMember true true) w (OnExpired e selfID (IsLeader w) true).

(** The keeper over [presence.RaftHolder]. *)
Definition keeper_turn (clock : W → Time) (peers : LeasePeers W) (cfg : Presence.Config) (s : W * Z) : W * Z :=
  ensure (Some (RaftHolder engine (Some (node_leases clock)) peers)) cfg s.1 s.2.
End wiring.

(** ** A node that commits at once *)

Record node := MkNode {
  nd_fsm : node_fsm;
  nd_bus : Bus;       (* [a.Bus], the [Emit] of the tables and the member list *)
  nd_leads : bool;
  nd_now : Time;
}.

Definition publish_all (now : Time) (b : Bus) (es : list Event) : Bus := foldl (Publish now) b es.

Section node.
Context `{Unicode}.
#[local] Existing Instance LogExamples.id_codec.

Definition apply_cmd (w : node) (c : Command) : node * response :=
  let r := applyCommand (nd_now w) (nd_fsm w) c in
  (MkNode r.1.1 (publish_all (nd_now w) (nd_bus w) (events_of r.2)) (nd_leads w) (nd_now w), r.1.2).
Definition node_Apply (w : node) (c : Command) : node * result error response :=
  if nd_leads w then (let r := apply_cmd w c in (r.1, Ok r.2))
  else (w, Fail (Errorf "node is not the leader" [])).

#[export, refine] Instance node_raft : RaftLib node Command := {|
  raft_fsm := nd_fsm;
  raft_Apply := node_Apply;
  raft_GetConfiguration _ := Ok [];
  raft_AddVoter w _ _ := (w, None);
  raft_AddNonvoter w _ _ := (w, None);
  raft_RemoveServer w _ := (w, None);
  raft_State_leader := nd_leads;
  raft_LeaderWithID _ := ("", "");
  raft_Shutdown w := (w, None);
|}.
Proof.
  intros w d w' resp Ha. unfold node_Apply in Ha. destruct (nd_leads w); simplify_eq.
  exists [], (nd_now w), 1%Z, []. done.
Defined.

(** One receive of the presence watcher. *)
Definition presence_turn (selfID : string) (sub : Z) (w : node) : node :=
  match Recv (nd_bus w) sub with
  | (b, Some e) => presence_handle selfID (MkNode (nd_fsm w) b (nd_leads w) (nd_now w)) e
  | (_, None) => w
  end.

(** ** One command *)

Lemma member_cmd w c format :
  (apply_member w c format).1 = if nd_leads w then (apply_cmd w c).1 else w.
Proof.
  unfold apply_member. cbn -[apply_cmd]. unfold node_Apply. destruct (nd_leads w); [|done].
  by destruct (apply_cmd w c).
Qed.
Lemma commit_cmd w c op : (commit w c op).1 = if nd_leads w then (apply_cmd w c).1 else w.
Proof.
  unfold commit, applyLock. cbn -[apply_cmd]. unfold node_Apply. destruct (nd_leads w); [|done].
  destruct (apply_cmd w c) as [w' [|e|r]]; simpl; [done..|]. by destruct (Err r).
Qed.
Lemma ApplyLeaseExpire_cmd w n k :
  (ApplyLeaseExpire w n k).1 =
  if nd_leads w then (apply_cmd w (MkCommand CmdLeaseExpire "" "" "" n k 0 0)).1 else w.
Proof. rewrite <-(commit_cmd w _ "lease_expire"). unfold ApplyLeaseExpire. by destruct (commit _ _ _) as [w' [|]]. Qed.
Lemma ApplyLockExpire_cmd w n k :
  (ApplyLockExpire w n k).1 =
  if nd_leads w then (apply_cmd w (MkCommand CmdLockExpire "" "" "" n k 0 0)).1 else w.
Proof. rewrite <-(commit_cmd w _ "lock_expire"). unfold ApplyLockExpire. by destruct (commit _ _ _) as [w' [|]]. Qed.

Lemma removeDead_cmd w id :
  removeDeadMember true true w id =
  if str_empty id || negb (nd_leads w) || String.eqb id (SelfID (engine w)) then w
  else (apply_cmd w (MkCommand CmdRemoveMember id "" "" "" 0 0 0)).1.
Proof.
  unfold removeDeadMember, ApplyRemoveMember. rewrite member_cmd. change (IsLeader w) with (nd_leads w).
  by destruct (str_empty id), (nd_leads w), (String.eqb id (SelfID (engine w))).
Qed.

(** ** Dead members stay dead *)

(** A command that may bring [id] back. *)
Definition readds (id : string) (c : Command) : Prop := Kind c = CmdAddMember ∧ ID c = id.

Record dead_inv (id : string) (w : node) : Prop := {
  di_wf : fsm_wf (nd_fsm w);
  di_dead : ∀ v, views (applier (nd_fsm w)) !! id = Some v → v.1.2 ≠ StatusAlive;
}.

Lemma dead_inv_live id w : dead_inv id w → live (engine w) id ≠ Alive.
Proof.
  intros [_ Hd]. unfold live, engine. cbn [raft_fsm node_raft].
  destruct (members _ !! id) as [m|] eqn:Hm; [|by case_bool_decide].
  destruct (String.eqb_spec (m_Status m) StatusAlive) as [Hs|]; [|done].
  exfalso. apply (Hd (m_Address m, m_Status m, m_Role m)); [|done]. unfold views. by rewrite lookup_fmap, Hm.
Qed.

Lemma dead_inv_cmd id w c : dead_inv id w → ¬ readds id c → dead_inv id (apply_cmd w c).1.
Proof.
  intros [Hwf Hd] Hc. split; [by apply applyCommand_wf|]. intros v.
  pose proof (applyCommand_view (nd_now w) (nd_fsm w) c (fwf_members _ Hwf)) as Hv.
  cbn [ml_view Engine_MemberLaws] in Hv. cbn [apply_cmd fst nd_fsm]. rewrite Hv. clear Hv.
  unfold member_step. destruct (Kind c) eqn:Hk; try apply Hd.
  - destruct (str_empty (ID c)); [apply Hd|]. rewrite lookup_insert_ne; [apply Hd|]. intros Hid. by apply Hc.
  - rewrite lookup_alter. case_decide; [|apply Hd].
    intros (x & _ & ->)%fmap_Some. done.
  - intros [_ Hl]%lookup_delete_Some. by apply Hd.
Qed.

Lemma dead_inv_maybe id w c (b : bool) : dead_inv id w → ¬ readds id c → dead_inv id (if b then (apply_cmd w c).1 else w).
Proof. destruct b; eauto using dead_inv_cmd. Qed.

Lemma dead_inv_foldl {A} (f : node → A → node) id l w :
  (∀ w x, dead_inv id w → dead_inv id (f w x)) → dead_inv id w → dead_inv id (foldl f w l).
Proof. intros Hf. revert w; induction l as [|x l IH]; intros w Hw; simpl; eauto. Qed.

Lemma dead_inv_remove id w id' : dead_inv id w → dead_inv id (removeDeadMember true true w id').
Proof. intros Hw. rewrite removeDead_cmd. destruct (_ || _); [done|]. apply dead_inv_cmd; [done|]. by intros [? _]. Qed.

Lemma dead_inv_grant id now w n o ttl : dead_inv id w → dead_inv id (ApplyLeaseGrant now w n o ttl).1.
Proof.
  intros Hw. set (c := timed CmdLeaseGrant o n 0 now (Leases.ClampTTL ttl 0)).
  replace (ApplyLeaseGrant now w n o ttl).1 with (commit w c "lease_grant").1.
  - rewrite commit_cmd. apply dead_inv_maybe; [done|]. by intros [? _].
  - unfold ApplyLeaseGrant. fold c. by destruct (commit _ _ _) as [w' [|]].
Qed.
Lemma dead_inv_renew id now w n o k ttl : dead_inv id w → dead_inv id (ApplyLeaseRenew now w n o k ttl).1.
Proof.
  intros Hw. set (c := timed CmdLeaseRenew o n k now (Leases.ClampTTL ttl 0)).
  replace (ApplyLeaseRenew now w n o k ttl).1 with (commit w c "lease_renew").1.
  - rewrite commit_cmd. apply dead_inv_maybe; [done|]. by intros [? _].
  - unfold ApplyLeaseRenew. fold c. by destruct (commit _ _ _) as [w' [|]].
Qed.

(** A call to the leader does not change this process: what it causes comes back
    through the log. *)
Definition calls_only (peers : LeasePeers node) : Prop :=
  (∀ w a r, (ep_Grant peers w a r).1 = w) ∧ (∀ w a r, (ep_Renew peers w a r).1 = w).

Lemma dead_inv_holder id clock peers w n o k ttl :
  calls_only peers → dead_inv id w →
  let h := RaftHolder engine (Some (node_leases clock)) peers in
  dead_inv id (ho_Grant h w n o ttl).1 ∧ dead_inv id (ho_Renew h w n o k ttl).1.
Proof.
  intros [Hg Hr] Hw h.
  unfold h, RaftHolder, RaftHolder_Grant, RaftHolder_Renew, ho_Grant, ho_Renew, node_leases, er_IsLeader,
    er_ApplyLeaseGrant, er_ApplyLeaseRenew.
  pose proof (dead_inv_grant id (clock w) w n o ttl Hw) as Hd1.
  pose proof (dead_inv_renew id (clock w) w n o k ttl Hw) as Hd2.
  destruct (IsLeader w); [|destruct (dialLeader _ _ _) as [a|]; [|done]]; split.
  - by destruct (ApplyLeaseGrant _ _ _ _ _) as [w1 [[? []]|]].
  - by destruct (ApplyLeaseRenew _ _ _ _ _ _) as [w1 [|]].
  - pose proof (Hg w a (MkGrantRequest n o (Milliseconds ttl))) as Hp.
    by destruct (ep_Grant _ _ _ _) as [w1 [|]]; simpl in Hp |- *; subst w1.
  - pose proof (Hr w a (LockService.MkRenewRequest n o k (Milliseconds ttl))) as Hp.
    by destruct (ep_Renew _ _ _ _) as [w1 [|]]; simpl in Hp |- *; subst w1.
Qed.

Lemma dead_inv_keeper id clock peers cfg w tok :
  calls_only peers → dead_inv id w → dead_inv id (keeper_turn clock peers cfg (w, tok)).1.
Proof.
  intros Hp Hw. unfold keeper_turn, ensure. destruct (str_empty _); [done|].
  pose proof (λ w n o k ttl, dead_inv_holder id clock peers w n o k ttl Hp) as Hh.
  set (h := RaftHolder _ _ _) in *. clearbody h. cbn zeta. cbn [fst snd]. set (nm := LeaseName _).
  assert (∀ w, dead_inv id w → dead_inv id
    (match ho_Grant h w nm (cf_NodeID cfg) (cf_TTL cfg) with (w, Fail _) => (w, tok) | (w, Ok tok) => (w, tok) end).1) as Hgr.
  { intros w0 Hw0. destruct (Hh w0 nm (cf_NodeID cfg) 0%Z (cf_TTL cfg) Hw0) as [Hd _].
    by destruct (ho_Grant h w0 _ _ _) as [w1 [|]]. }
  destruct (tok =? 0)%Z; [by apply Hgr|].
  destruct (Hh w nm (cf_NodeID cfg) tok (cf_TTL cfg) Hw) as [_ Hd].
  destruct (ho_Renew h w _ _ _ _) as [w1 [e|]]; [by apply Hgr|done].
Qed.

(** Everything a daemon does in the background, and every command of the log that
    does not add [id]: a clock reading, a change of leadership as [WatchLeaderChange]
    notes it, a published event, a turn of each loop. *)
Record sys := MkSys { y_node : node; y_misses : gmap string Z; y_token : Z }.

Inductive background (id : string) (peers : LeasePeers node) : sys → sys → Prop :=
  | bg_clock w ms tok now :
      background id peers (MkSys w ms tok) (MkSys (MkNode (nd_fsm w) (nd_bus w) (nd_leads w) now) ms tok)
  | bg_leadership w ms tok l leads :
      background id peers (MkSys w ms tok)
        (MkSys (MkNode (set_applier (nd_fsm w) (Membership.SetLeader (applier (nd_fsm w)) l).1) (nd_bus w) leads (nd_now w)) ms tok)
  | bg_publish w ms tok e :
      background id peers (MkSys w ms tok) (MkSys (MkNode (nd_fsm w) (Publish (nd_now w) (nd_bus w) e) (nd_leads w) (nd_now w)) ms tok)
  | bg_entry w ms tok c : ¬ readds id c → background id peers (MkSys w ms tok) (MkSys (apply_cmd w c).1 ms tok)
  | bg_locks w ms tok : background id peers (MkSys w ms tok) (MkSys (lock_expirer (nd_now w) w) ms tok)
  | bg_leases w ms tok : background id peers (MkSys w ms tok) (MkSys (lease_expirer (nd_now w) w) ms tok)
  | bg_heartbeat w ms tok cfg ping :
      let r := heartbeat_turn cfg ping (w, ms) in background id peers (MkSys w ms tok) (MkSys r.1 r.2 tok)
  | bg_watch w ms tok selfID sub : background id peers (MkSys w ms tok) (MkSys (presence_turn selfID sub w) ms tok)
  | bg_keeper w ms tok cfg :
      let r := keeper_turn nd_now peers cfg (w, tok) in background id peers (MkSys w ms tok) (MkSys r.1 ms r.2).

Lemma dead_inv_background id peers s s' :
  calls_only peers → background id peers s s' → dead_inv id (y_node s) → dead_inv id (y_node s').
Proof.
  intros Hp Hb Hw. destruct Hb; simpl in *; try (by destruct Hw; split).
  - destruct Hw as [[Hm Hl Hs] Hd]. split.
    + split; [|done..]. exact (engine_wf_step (applier (nd_fsm w)) (OpSetLeader l) Hm).
    + intros v. simpl. unfold Membership.SetLeader. destruct (String.eqb _ _); [apply Hd|]. unfold views. simpl.
      rewrite lookup_fmap, map_lookup_imap. specialize (Hd (v.1.1, v.1.2, v.2)). unfold views in Hd.
      rewrite lookup_fmap in Hd. destruct (members _ !! id) as [m|]; [|done]. simpl in *.
      intros [= <-]. by apply Hd.
  - by apply dead_inv_cmd.
  - unfold lock_expirer. destruct (fsm_locks _) as [t|]; [|done]. unfold Locks.RunExpirer_tick.
    destruct (IsLeader w); [|done]. apply dead_inv_foldl; [|done]. intros w0 r Hw0. rewrite ApplyLockExpire_cmd.
    apply dead_inv_maybe; [done|]. by intros [? _].
  - unfold lease_expirer. destruct (fsm_leases _) as [t|]; [|done]. unfold Leases.RunExpirer_tick.
    destruct (IsLeader w); [|done]. apply dead_inv_foldl; [|done]. intros w0 r Hw0. rewrite ApplyLeaseExpire_cmd.
    apply dead_inv_maybe; [done|]. by intros [? _].
  - apply dead_inv_foldl; [|done]. intros. by apply dead_inv_remove.
  - unfold presence_turn. destruct (Recv _ _) as [b [e|]]; [|done]. apply dead_inv_foldl.
    + intros. by apply dead_inv_remove.
    + by destruct Hw; split.
  - by apply dead_inv_keeper.
Qed.


(** ** The way of an expired lease: table, bus, watcher, log, member list *)

Definition tag (e : Event) : string * string := (ev_Type e, ev_Source e).
Definition expired_event (r : LeaseRecord) : Event :=
  new_event TypeLeaseExpired (ls_Name r) (JsonObject [("owner", JStr (ls_Owner r)); ("token", JNum (ls_Token r))]).

(** The subscription [sub] is on the bus. *)
Definition subscribed (b : Bus) (sub : Z) (s : subscription) : Prop := chans b !! sub = Some s ∧ sub ∈ active b.

Lemma Publish_subscribed now b e sub s :
  subscribed b sub s → ∃ e', tag e' = tag e ∧ subscribed (Publish now b e) sub (offer e' s).
Proof.
  intros [Hs Ha]. exists (publish_seq now b e).2. split; [done|]. split; [|done].
  unfold Publish, publish_fanout, publish_seq. simpl. rewrite map_lookup_imap, Hs. simpl.
  by rewrite bool_decide_eq_true_2.
Qed.

(** What a subscriber finds after [es] were published: all of them with room for
    all, a part of them otherwise, after what was there. *)
Lemma publish_all_subscribed now b es sub s :
  subscribed b sub s →
  ∃ s' more, subscribed (publish_all now b es) sub s' ∧ ch s' = ch s ++ more ∧ ch_cap s' = ch_cap s ∧
    tag <$> more ⊆ tag <$> es ∧
    (length (ch s) + length es ≤ ch_cap s → tag <$> more = tag <$> es) ∧
    (ch_cap s ≤ length (ch s) → more = []).
Proof.
  revert b s; induction es as [|e es IH]; intros b s Hs; simpl.
  { exists s, []. rewrite app_nil_r. split_and!; done. }
  destruct (Publish_subscribed now b e sub s Hs) as (e' & He & Hs').
  destruct (IH _ _ Hs') as (s' & more & Hs1 & Hch & Hcap & Hsub & Hroom & Hfull). unfold offer in *.
  case_bool_decide as Hlt; simpl in *.
  - exists s', (e' :: more). rewrite Hch, <-app_assoc. split_and!; try done.
    + csimpl. rewrite He. set_solver.
    + intros Hr. csimpl. rewrite He. f_equal. apply Hroom. rewrite length_app. simpl. lia.
    + lia.
  - exists s', more. split_and!; try done; [csimpl; set_solver|lia].
Qed.

Lemma expire_one w t r :
  nd_leads w = true → fsm_leases (nd_fsm w) = Some t → lease_wf t → Leases.Emit t = true → leases t !! ls_Name r = Some r →
  (ApplyLeaseExpire w (ls_Name r) (ls_Token r)).1 =
  MkNode (set_lease_table (nd_fsm w) (Leases.set_leases t (delete (ls_Name r) (leases t))))
    (publish_all (nd_now w) (nd_bus w) [expired_event r]) (nd_leads w) (nd_now w).
Proof.
  intros Hl Ht Hwf Hem Hr. rewrite ApplyLeaseExpire_cmd, Hl. unfold apply_cmd, applyCommand. simpl. rewrite Ht. simpl.
  unfold Leases.Expire. destruct (lease_wf_entry _ _ _ Hwf Hr) as (_ & -> & _). rewrite Hr, Z.eqb_refl, Hem, Hl. done.
Qed.

Lemma lease_wf_delete t n : lease_wf t → lease_wf (Leases.set_leases t (delete n (leases t))).
Proof. unfold lease_wf. rewrite as_lock_delete. apply lock_wf_delete. Qed.

Lemma expire_all w t l :
  nd_leads w = true → fsm_leases (nd_fsm w) = Some t → lease_wf t → Leases.Emit t = true →
  NoDup (ls_Name <$> l) → (∀ r, r ∈ l → leases t !! ls_Name r = Some r) →
  foldl (λ w r, (ApplyLeaseExpire w (ls_Name r) (ls_Token r)).1) w l =
  MkNode (set_lease_table (nd_fsm w) (Leases.set_leases t (drop_all (leases t) (ls_Name <$> l))))
    (publish_all (nd_now w) (nd_bus w) (expired_event <$> l)) (nd_leads w) (nd_now w).
Proof.
  revert w t; induction l as [|r l IH]; intros w t Hl Ht Hwf Hem Hnd Hin; simpl.
  { destruct w as [f b ld now], f, t. simpl in *. by subst. }
  apply NoDup_cons in Hnd as [Hr Hnd]. rewrite (expire_one w t r) by (try done; apply Hin; left).
  erewrite IH; [|done|reflexivity|by apply lease_wf_delete|done|done|]; [done|].
  intros r' Hr'. simpl. rewrite lookup_delete_ne; [by apply Hin; right|].
  intros Hn. apply Hr. rewrite Hn. by apply list_elem_of_fmap_2.
Qed.

Lemma lease_expirer_eq w t :
  nd_leads w = true → fsm_leases (nd_fsm w) = Some t → lease_wf t → Leases.Emit t = true →
  let l := Leases.Due t (nd_now w) in
  lease_expirer (nd_now w) w =
  MkNode (set_lease_table (nd_fsm w) (Leases.set_leases t (drop_all (leases t) (ls_Name <$> l))))
    (publish_all (nd_now w) (nd_bus w) (expired_event <$> l)) (nd_leads w) (nd_now w).
Proof.
  intros Hl Ht Hwf Hem l. unfold lease_expirer. cbn [raft_fsm node_raft]. rewrite Ht. unfold Leases.RunExpirer_tick.
  change (IsLeader w) with (nd_leads w). rewrite Hl. rewrite <-Hl. apply expire_all; try done.
  - unfold l, Leases.Due, Leases.records. rewrite sort_by_perm. apply NoDup_filter_names, keyed_NoDup, lease_keyed, Hwf.
  - by intros r [? _]%lease_Due_elem.
Qed.

Lemma OnExpired_tag e self :
  OnExpired e self true true =
  (if decide (ev_Type e = TypeLeaseExpired) then
     match NodeID (ev_Source e) with
     | (id, true) => if str_empty id || String.eqb id self then [] else [id]
     | _ => []
     end else []).
Proof.
  unfold OnExpired. destruct (String.eqb_spec (ev_Type e) TypeLeaseExpired); case_decide; try done. simpl.
  destruct (NodeID _) as [id []]; simpl; [|done]. by destruct (str_empty id), (String.eqb id self).
Qed.
Lemma OnExpired_hit e self id :
  tag e = (TypeLeaseExpired, LeaseName id) → id ≠ "" → id ≠ self → OnExpired e self true true = [id].
Proof.
  intros [= Ht Hs] Hne Hns. rewrite OnExpired_tag, Ht, Hs, NodeID_LeaseName. apply str_empty_false in Hne.
  apply String.eqb_neq in Hns. by rewrite decide_True, Hne, Hne, Hns by done.
Qed.
Lemma OnExpired_miss e self id :
  tag e ≠ (TypeLeaseExpired, LeaseName id) → id ∉ OnExpired e self true true.
Proof.
  intros Ht. rewrite OnExpired_tag. case_decide as Hty; [|set_solver].
  destruct (NodeID (ev_Source e)) as [id' []] eqn:Hn; [|set_solver]. apply NodeID_Some in Hn as [Hn _].
  destruct (_ || _); [set_solver|]. intros ->%list_elem_of_singleton. apply Ht. unfold tag. by rewrite Hty, Hn.
Qed.
Lemma OnExpired_short e self : length (OnExpired e self true true) ≤ 1.
Proof. rewrite OnExpired_tag. case_decide; [|simpl; lia]. destruct (NodeID _) as [? []]; simpl; [|lia]. case_match; simpl; lia. Qed.

(** The leader's watcher with [q] waiting in its channel. *)
Record watching (self : string) (sub : Z) (w : node) (q : list Event) : Prop := {
  wa_wf : fsm_wf (nd_fsm w);
  wa_leads : nd_leads w = true;
  wa_self : SelfID (engine w) = self;
  wa_queue : ∃ s, subscribed (nd_bus w) sub s ∧ ch s = q;
}.

Definition view_of (w : node) (id : string) : option (string * string * string) := views (applier (nd_fsm w)) !! id.

Lemma selfID_MarkDead e id : SelfID (MarkDead e id).1 = SelfID e.
Proof. unfold MarkDead. by repeat case_match. Qed.
Lemma MarkDead_events e id ev : ev ∈ events_of (MarkDead e id).2 → ev_Type ev = TypeMemberDead.
Proof.
  unfold MarkDead. destruct (members e !! id) as [m|]; [|set_solver].
  destruct (String.eqb (NormalizeStatus (m_Status m)) StatusDead); simpl; [set_solver|].
  destruct (Membership.Emit e); simpl; [|set_solver]. by intros ->%list_elem_of_singleton.
Qed.

(** A report to the leader: the member is dead in the list, nobody else changes,
    the watcher may find one event more. *)
Lemma watching_remove self sub w q id :
  watching self sub w q → id ≠ self →
  let w' := removeDeadMember true true w id in
  ∃ more, watching self sub w' (q ++ more) ∧ Forall (λ e, ev_Type e = TypeMemberDead) more ∧
    fsm_leases (nd_fsm w') = fsm_leases (nd_fsm w) ∧ nd_now w' = nd_now w ∧
    (∀ id', id' ≠ id → view_of w' id' = view_of w id') ∧
    (∀ v, id ≠ "" → view_of w id = Some v → view_of w' id = Some (v.1.1, StatusDead, v.2)).
Proof.
  intros [Hwf Hl Hs (s & Hsub & Hq)] Hne w'. unfold w'. rewrite removeDead_cmd, Hl, Hs.
  apply String.eqb_neq in Hne. rewrite Hne, orb_false_r, orb_false_r.
  destruct (str_empty id) eqn:Hid.
  { apply str_empty_true in Hid. exists []. rewrite app_nil_r. split_and!; try done.
    split; try done. by exists s. }
  set (c := MkCommand CmdRemoveMember id "" "" "" 0 0 0). pose proof (fwf_members _ Hwf) as Hm.
  pose proof (applyCommand_view (nd_now w) (nd_fsm w) c Hm) as Hv. cbn [ml_view Engine_MemberLaws] in Hv.
  destruct (publish_all_subscribed (nd_now w) (nd_bus w) (events_of (applyCommand (nd_now w) (nd_fsm w) c).2) sub s Hsub)
    as (s' & more & Hs' & Hch & _ & Hsubset & _).
  exists more. split_and!.
  - split; [by apply applyCommand_wf|done| |exists s'; by rewrite Hch, Hq].
    rewrite <-Hs. exact (selfID_MarkDead _ _).
  - apply Forall_forall. intros e He. assert (tag e ∈ tag <$> more) as Hin by by apply list_elem_of_fmap_2.
    apply Hsubset in Hin. apply list_elem_of_fmap in Hin as (e' & Ht & He'). injection Ht as -> _.
    by apply (MarkDead_events (applier (nd_fsm w)) id).
  - done.
  - done.
  - intros id' Hne'. unfold view_of. cbn [apply_cmd fst nd_fsm]. rewrite Hv. unfold member_step. simpl.
    by rewrite lookup_alter_ne.
  - intros v _ Hvw. unfold view_of in *. cbn [apply_cmd fst nd_fsm]. rewrite Hv. unfold member_step. simpl.
    by rewrite lookup_alter_eq, Hvw.
Qed.

(** One turn of the watcher on the event [e]. *)
Lemma watching_turn self sub w e q :
  watching self sub w (e :: q) →
  let w' := presence_turn self sub w in
  ∃ more, watching self sub w' (q ++ more) ∧ Forall (λ e, ev_Type e = TypeMemberDead) more ∧
    fsm_leases (nd_fsm w') = fsm_leases (nd_fsm w) ∧ nd_now w' = nd_now w ∧
    (∀ id v, id ≠ "" → id ≠ self → view_of w id = Some v →
       view_of w' id = Some (if decide (tag e = (TypeLeaseExpired, LeaseName id)) then (v.1.1, StatusDead, v.2) else v)).
Proof.
  intros [Hwf Hl Hs (s & [Hch Ha] & Hq)] w'. unfold w', presence_turn.
  destruct s as [l cap dr dn]. simpl in Hq. subst l. unfold Recv. rewrite Hch.
  set (w1 := MkNode _ _ _ _). assert (watching self sub w1 q) as Hw1.
  { split; try done. exists (MkSub q cap dr dn). split; [|done]. split; [|done]. simpl. by rewrite lookup_insert_eq. }
  unfold presence_handle. change (IsLeader w1) with (nd_leads w). rewrite Hl.
  pose proof (OnExpired_short e self) as Hlen. pose proof (OnExpired_hit e self) as Hhit.
  pose proof (OnExpired_miss e self) as Hmiss. pose proof (OnExpired_tag e self) as Htag.
  destruct (OnExpired e self true true) as [|id [|]] eqn:Ho; [| |simpl in Hlen; lia].
  - clear Htag. exists []. rewrite app_nil_r. simpl. split_and!; try done. intros id v Hne Hns Hv.
    case_decide as Ht; [by specialize (Hhit id Ht Hne Hns)|done].
  - assert (id ≠ self) as Hns.
    { clear Hhit Hmiss. intros ->. case_decide; [|done]. destruct (NodeID _) as [id' []]; [|done].
      destruct (str_empty id' || String.eqb id' self) eqn:Hd; [done|]. simplify_eq. breflect. done. }
    destruct (watching_remove self sub w1 q id Hw1 Hns) as (more & Hw' & Hty & Hle & Hnow & Hoth & Hthis).
    clear Htag. exists more. split_and!; try done. intros id' v Hne' Hns' Hv. simpl.
    destruct (decide (id' = id)) as [->|Hd].
    + case_decide as Ht; [by apply Hthis|]. exfalso. apply (Hmiss id Ht). by left.
    + rewrite Hoth by done. case_decide as Ht; [|done]. specialize (Hhit id' Ht Hne' Hns'). congruence.
Qed.

Lemma watching_reaches self sub id w pre e post v :
  watching self sub w (pre ++ e :: post) → tag e = (TypeLeaseExpired, LeaseName id) →
  id ≠ "" → id ≠ self → view_of w id = Some v →
  ∃ v', view_of (Nat.iter (S (length pre)) (presence_turn self sub) w) id = Some v' ∧ v'.1.2 = StatusDead.
Proof.
  intros Hw Ht Hne Hns. revert w v post Hw. induction pre as [|e0 pre IH]; intros w v post Hw Hv.
  - destruct (watching_turn self sub w e post Hw) as (more & _ & _ & _ & _ & Hview). simpl.
    rewrite (Hview id v Hne Hns Hv), decide_True by done. by eexists.
  - destruct (watching_turn self sub w e0 _ Hw) as (more & Hw' & _ & _ & _ & Hview).
    rewrite Nat.iter_succ_r. cbn [length]. eapply IH; [|by apply Hview].
    by rewrite <-app_assoc in Hw'.
Qed.

Lemma view_of_alive w id : live (engine w) id = Alive → ∃ v, view_of w id = Some v ∧ v.1.2 = StatusAlive.
Proof.
  unfold live, view_of, views, engine. cbn [raft_fsm node_raft]. rewrite lookup_fmap.
  destruct (members _ !! id) as [m|]; [|by case_bool_decide].
  destruct (String.eqb_spec (m_Status m) StatusAlive); [|done]. intros _. by eexists.
Qed.
Lemma view_of_live w id v : view_of w id = Some v → live (engine w) id = if decide (v.1.2 = StatusAlive) then Alive else Dead.
Proof.
  unfold live, view_of, views, engine. cbn [raft_fsm node_raft]. rewrite lookup_fmap.
  destruct (members _ !! id) as [m|]; [|done]. intros [= <-]. simpl.
  destruct (String.eqb_spec (m_Status m) StatusAlive); by case_decide.
Qed.

Lemma lease_wf_drop_all t l : lease_wf t → lease_wf (Leases.set_leases t (drop_all (leases t) l)).
Proof.
  revert t; induction l as [|n l IH]; intros t Hwf; simpl; [by destruct t|].
  exact (IH _ (lease_wf_delete t n Hwf)).
Qed.

(** The tick of the lease expirer, as the watcher finds it. *)
Lemma lease_expirer_watching self sub w s t id :
  fsm_wf (nd_fsm w) → nd_leads w = true → SelfID (engine w) = self →
  fsm_leases (nd_fsm w) = Some t → Leases.Emit t = true → subscribed (nd_bus w) sub s →
  let w1 := lease_expirer (nd_now w) w in
  view_of w1 id = view_of w id ∧ nd_now w1 = nd_now w ∧
  (∃ t1, fsm_leases (nd_fsm w1) = Some t1 ∧ Leases.Emit t1 = true ∧
     ∀ n, leases t1 !! n =
       match leases t !! n with Some r => if due_at (nd_now w) r then None else Some r | None => None end) ∧
  ∃ more, watching self sub w1 (ch s ++ more) ∧
    (∀ n, (TypeLeaseExpired, n) ∈ tag <$> more → ∃ r, leases t !! n = Some r) ∧
    (ch_cap s ≤ length (ch s) → more = []) ∧
    (length (ch s) + length (Leases.Due t (nd_now w)) ≤ ch_cap s → length more = length (Leases.Due t (nd_now w)) ∧
     ∀ n r, leases t !! n = Some r → due_at (nd_now w) r = true → (TypeLeaseExpired, n) ∈ tag <$> more).
Proof.
  intros Hwf Hl Hself Ht Hem Hs w1. pose proof (fwf_leases _ Hwf) as Hlw. rewrite Ht in Hlw. simpl in Hlw.
  unfold w1. rewrite (lease_expirer_eq w t Hl Ht Hlw Hem). cbn [nd_now nd_fsm nd_leads nd_bus].
  set (l := Leases.Due t (nd_now w)).
  assert (∀ n, n ∈ ls_Name <$> l ↔ ∃ r, leases t !! n = Some r ∧ due_at (nd_now w) r = true) as Hl_names.
  { intros n. rewrite list_elem_of_fmap. split.
    - intros (r & -> & [? ?]%lease_Due_elem); [by exists r|done].
    - intros (r & Hr & Hd). destruct (lease_wf_entry _ _ _ Hlw Hr) as (<- & _). exists r. split; [done|].
      by apply lease_Due_elem. }
  destruct (publish_all_subscribed (nd_now w) (nd_bus w) (expired_event <$> l) sub s Hs)
    as (s' & more & Hs' & Hch & _ & Hsub & Hroom & Hfull).
  assert (tag <$> (expired_event <$> l) = (λ n, (TypeLeaseExpired, n)) <$> (ls_Name <$> l)) as Htags.
  { by rewrite <-!list_fmap_compose. }
  split_and!; [done..| |].
  - eexists. split; [done|]. split; [done|]. intros n. simpl. rewrite drop_all_lookup. specialize (Hl_names n).
    case_bool_decide as Hin.
    + by apply Hl_names in Hin as (r & -> & ->).
    + destruct (leases t !! n) as [r|]; [|done]. destruct (due_at (nd_now w) r) eqn:Hd; [|done].
      exfalso. apply Hin, Hl_names. by exists r.
  - exists more. split_and!; [|intros n Hn|done|].
    + split; [|done|done|by exists s'; rewrite Hch]. destruct Hwf as [Hm Hlo _]. split; [done|done|].
      by apply lease_wf_drop_all.
    + assert ((TypeLeaseExpired, n) ∈ tag <$> (expired_event <$> l)) as Hn' by by apply Hsub.
      rewrite Htags in Hn'. apply list_elem_of_fmap in Hn' as (n' & [= <-] & Hn').
      apply Hl_names in Hn' as (r & Hr & _). by exists r.
    + rewrite length_fmap in Hroom. intros Hle. specialize (Hroom Hle). split.
      * by rewrite <-(length_fmap tag more), Hroom, !length_fmap.
      * intros n r Hr Hd. rewrite Hroom, Htags. apply list_elem_of_fmap_2, Hl_names. by exists r.
Qed.

(** C9: A node that crashed is found dead.  On the leader, when the presence lease of
    an alive member is past its deadline and the watcher's queue has room for the
    events of the tick, the next tick of the lease expirer removes the lease, and
    the watcher marks the member dead after at most as many turns as its queue then
    holds events. *)
Theorem crashed_node_detected w sub s t r id :
  fsm_wf (nd_fsm w) → nd_leads w = true → live (engine w) id = Alive → id ≠ "" → id ≠ SelfID (engine w) →
  fsm_leases (nd_fsm w) = Some t → Leases.Emit t = true → subscribed (nd_bus w) sub s →
  leases t !! LeaseName id = Some r → due_at (nd_now w) r = true →
  length (ch s) + length (Leases.Due t (nd_now w)) ≤ ch_cap s →
  let w1 := lease_expirer (nd_now w) w in
  (∃ t1, fsm_leases (nd_fsm w1) = Some t1 ∧ Leases.Get t1 (LeaseName id) = None) ∧
  ∃ k, k ≤ length (ch s) + length (Leases.Due t (nd_now w)) ∧
    live (engine (Nat.iter k (presence_turn (SelfID (engine w)) sub) w1)) id = Dead.
Proof.
  intros Hwf Hl Halive Hne Hns Ht Hem Hs Hr Hd Hroom w1.
  destruct (lease_expirer_watching (SelfID (engine w)) sub w s t id Hwf Hl eq_refl Ht Hem Hs)
    as (Hview & _ & (t1 & Ht1 & _ & Hlk) & more & Hw & _ & _ & Hall). fold w1 in Hview, Ht1, Hw. split.
  { exists t1. split; [done|]. unfold Leases.Get. by rewrite Hlk, Hr, Hd. }
  destruct (Hall Hroom) as [Hlen Hin]. specialize (Hin _ _ Hr Hd).
  apply list_elem_of_fmap in Hin as (e & He & (pre & post & ->)%list_elem_of_split).
  destruct (view_of_alive _ _ Halive) as (v & Hv & _). rewrite <-Hview in Hv.
  rewrite app_assoc in Hw.
  destruct (watching_reaches _ _ id w1 (ch s ++ pre) e post v Hw (eq_sym He) Hne Hns Hv) as (v' & Hv' & Hdead).
  exists (S (length (ch s ++ pre))). split.
  - rewrite <-Hlen, !length_app. simpl. lia.
  - by rewrite (view_of_live _ _ _ Hv'), Hdead.
Qed.

(** What goes on when no peer is pinged: time, the lease expirer, the watcher. *)
Inductive quiet (self : string) (sub : Z) : node → node → Prop :=
  | quiet_clock w now : quiet self sub w (MkNode (nd_fsm w) (nd_bus w) (nd_leads w) now)
  | quiet_leases w : quiet self sub w (lease_expirer (nd_now w) w)
  | quiet_watch w : quiet self sub w (presence_turn self sub w).

(** The expiry of [id]'s presence lease is past and did not reach the watcher. *)
Record missed (self : string) (sub : Z) (id : string) (w : node) : Prop := {
  ms_queue : ∃ q, watching self sub w q ∧ (TypeLeaseExpired, LeaseName id) ∉ tag <$> q;
  ms_lease : ∃ t, fsm_leases (nd_fsm w) = Some t ∧ Leases.Emit t = true ∧ leases t !! LeaseName id = None;
  ms_view : ∃ v, view_of w id = Some v ∧ v.1.2 = StatusAlive;
}.

Lemma missed_step self sub id w w' :
  id ≠ "" → id ≠ self → quiet self sub w w' → missed self sub id w → missed self sub id w'.
Proof.
  intros Hne Hns Hq [(q & Hw & Hq0) (t & Ht & Hem & Hn) (v & Hv & Hst)]. destruct Hq as [w now|w|w].
  - split; [|by exists t|by exists v]. exists q. split; [|done]. destruct Hw as [? ? ? ?]. by split.
  - pose proof Hw as [Hwf Hl Hself (s & Hs & <-)].
    destruct (lease_expirer_watching self sub w s t id Hwf Hl Hself Ht Hem Hs)
      as (Hview & _ & (t1 & Ht1 & Hem1 & Hlk) & more & Hw1 & Hnew & _).
    split; [|exists t1; by rewrite Hlk, Hn|exists v; by rewrite Hview].
    exists (ch s ++ more). split; [done|]. rewrite fmap_app. intros [?|Hin]%elem_of_app; [done|].
    apply Hnew in Hin as (r & Hr). congruence.
  - destruct q as [|e q].
    + assert (presence_turn self sub w = w) as ->.
      { destruct Hw as [_ _ _ (s & [Hc _] & Hs)]. unfold presence_turn, Recv. rewrite Hc.
        destruct s as [[] ? ? ?]; done. }
      split; [by exists []|by exists t|by exists v].
    + destruct (watching_turn self sub w e q Hw) as (more & Hw1 & Hty & Hle & _ & Hview).
      split; [|exists t; by rewrite Hle|].
      * exists (q ++ more). split; [done|]. rewrite fmap_app. intros [Hin|Hin]%elem_of_app; [by apply Hq0; right|].
        apply list_elem_of_fmap in Hin as (e' & [= He' _] & Hin'). rewrite Forall_forall in Hty.
        by rewrite (Hty _ Hin') in He'.
      * exists v. rewrite (Hview id v Hne Hns Hv). rewrite decide_False; [done|]. intros He. apply Hq0. rewrite <-He. by left.
Qed.

(** C13: The expiry can be lost.  If the watcher's queue (64 events) is full when the
    presence lease of a crashed member runs out, the event is dropped, and nobody
    looks at the drop mark: the lease is gone, and however long the expirer and the
    watcher go on, the member is listed as alive (until the heartbeat reports it). *)
Theorem presence_expiry_lost w sub s t r id w2 :
  fsm_wf (nd_fsm w) → nd_leads w = true → live (engine w) id = Alive → id ≠ "" → id ≠ SelfID (engine w) →
  fsm_leases (nd_fsm w) = Some t → Leases.Emit t = true → subscribed (nd_bus w) sub s →
  leases t !! LeaseName id = Some r → due_at (nd_now w) r = true →
  ch_cap s ≤ length (ch s) → (TypeLeaseExpired, LeaseName id) ∉ tag <$> ch s →
  let w1 := lease_expirer (nd_now w) w in
  (∃ t1, fsm_leases (nd_fsm w1) = Some t1 ∧ Leases.Get t1 (LeaseName id) = None) ∧
  (rtc (quiet (SelfID (engine w)) sub) w1 w2 → live (engine w2) id = Alive).
Proof.
  intros Hwf Hl Halive Hne Hns Ht Hem Hs Hr Hd Hfull Hno w1. set (self := SelfID (engine w)) in *.
  destruct (lease_expirer_watching self sub w s t id Hwf Hl eq_refl Ht Hem Hs)
    as (Hview & _ & (t1 & Ht1 & Hem1 & Hlk) & more & Hw & _ & Hnone & _). fold w1 in Hview, Ht1, Hw.
  assert (leases t1 !! LeaseName id = None) as Hgone by (by rewrite Hlk, Hr, Hd).
  split; [by exists t1|]. rewrite (Hnone Hfull), app_nil_r in Hw.
  destruct (view_of_alive _ _ Halive) as (v & Hv & Hst). rewrite <-Hview in Hv.
  assert (missed self sub id w1) as Hm.
  { split; [by exists (ch s)|by exists t1|by exists v]. }
  intros Hrtc. clearbody w1. clear -Hm Hrtc Hne Hns.
  induction Hrtc as [w3|w3 w4 w2 Hq _ IH]; [|by apply IH; eapply missed_step].
  destruct Hm as [_ _ (v & Hv & Hst)]. by rewrite (view_of_live _ _ _ Hv), decide_True.
Qed.
End node.

(** ** A leader [n1] whose peer [n2] stops renewing *)
Module DaemonExamples.
#[export] Existing Instance latin1.
#[export] Existing Instance LogExamples.id_codec.
#[export] Existing Instance node_raft.
Definition members0 : Engine := (mapply MemberExamples.self (OpJoinAs 5 "n2" "h:2" "")).1.
Definition leases0 : Leases.Table := (Leases.Grant 1 (Leases.MkTable ∅ 0 true) "presence.n2" "n2" 50 10).1.1.
Definition fsm0 : node_fsm := MkFSM members0 (Some Locks.New) (Some leases0).
Lemma fsm0_wf : fsm_wf fsm0.
Proof.
  split.
  - apply engine_wf_reachable, mreach_op, MemberExamples.self_reachable.
  - apply lock_wf_New.
  - apply lease_Grant_wf. unfold lease_wf, as_lock; simpl. rewrite fmap_empty.
    split; simpl; [intros n r; by rewrite lookup_empty|]. rewrite map_size_empty. lia.
Qed.
Definition bus0 : Bus := (Subscribe Bus.New 64).1.
Definition leader : node := MkNode fsm0 bus0 true 60.
Definition lease : LeaseRecord := MkLease "presence.n2" "n2" 1 1 50 10.

Lemma bus0_sub : subscribed bus0 1 (MkSub [] 64 false false).
Proof. split; [done|]. simpl. set_solver. Qed.

Lemma crashed_node_detected_witness :
  ∃ k, live (engine (Nat.iter k (presence_turn "n1" 1) (lease_expirer 60 leader))) "n2" = Dead.
Proof.
  destruct (proj2 (crashed_node_detected leader 1 (MkSub [] 64 false false) leases0 lease "n2" fsm0_wf
    eq_refl eq_refl ltac:(done) ltac:(done) eq_refl eq_refl bus0_sub eq_refl eq_refl
    ltac:(vm_compute; lia))) as (k & _ & Hk).
  by exists k.
Defined.

(** The same leader with its queue full of other events. *)
Definition flooded : Bus :=
  MkBus {[ 1%Z := MkSub (replicate 64 (new_event "custom.x" "n3" NoPayload)) 64 false false ]} {[ 1%Z ]} 1 64.
Definition busy : node := MkNode fsm0 flooded true 60.
Definition others : list Event := replicate 64 (new_event "custom.x" "n3" NoPayload).
Lemma flooded_sub : subscribed flooded 1 (MkSub others 64 false false).
Proof. split; [done|]. simpl. set_solver. Qed.
Lemma others_no_expiry n : (TypeLeaseExpired, n) ∉ tag <$> others.
Proof. unfold others. rewrite fmap_replicate. intros Hin%elem_of_replicate_inv. done. Qed.

Lemma presence_expiry_lost_witness :
  live (engine (presence_turn "n1" 1 (lease_expirer 60 busy))) "n2" = Alive.
Proof.
  refine (proj2 (presence_expiry_lost busy 1 (MkSub others 64 false false) leases0 lease "n2"
    (presence_turn "n1" 1 (lease_expirer 60 busy)) fsm0_wf eq_refl eq_refl _ _ eq_refl eq_refl flooded_sub eq_refl eq_refl
    _ (others_no_expiry _)) _); [done..|].
  apply rtc_once, quiet_watch.
Defined.

(** [n2], marked dead, renews its lease and answers pings. *)
Definition gone : node := (apply_cmd leader (MkCommand CmdRemoveMember "n2" "" "" "" 0 0 0)).1.
Definition back : node := (apply_cmd gone (timed CmdLeaseGrant "n2" "presence.n2" 0 60 Second)).1.
Definition no_peers : LeasePeers node :=
  let refused {R} : result status R := Fail (Status Unavailable (Errorf "down" [])) in
  MkLeasePeers node (λ _ _, None) (λ w _ _, (w, refused)) (λ w _ _, (w, refused)) (λ w _ _, (w, refused)).
End DaemonExamples.
