(* ===== verification/Sdk.v ===== *)
(** * Sdk: the Go client library, its calls and connection ([sdk/retry.go],
    [sdk/options.go], [sdk/tls.go] and the first half of [sdk/client.go])

    An RPC runs in a world [W] (the daemon, the network, the clock).  A [Ctx] is a
    Go context in that world: whether it is done, and a timer that either fires or
    is cut short by the context. *)
From S2P Require Import Prelude Events Membership Heartbeat EventService LockService.

(** What an RPC stub or a context reports. *)
Inductive rpc_error : Type := RpcStatus (st : status) | CtxError (e : ctx_error).
Definition rpc_msg (e : rpc_error) : error :=
  match e with RpcStatus st => st_msg st | CtxError c => st_msg (FromContextError c) end.
(** [status.Code]: an error that is not a status has code [Unknown], [None] here. *)
Definition status_Code (e : rpc_error) : option code :=
  match e with RpcStatus st => Some (st_code st) | CtxError _ => None end.

Record Ctx (W : Type) := MkCtx {
  ctx_Err : W → option ctx_error;
  ctx_sleep : W → Duration → W * bool;   (* [true]: the timer fired *)
}.
Arguments MkCtx {W}.
Arguments ctx_Err {W}.
Arguments ctx_sleep {W}.

Definition transient (e : rpc_error) : bool :=
  match status_Code e with
  | Some c => bool_decide (c ∈ [Unavailable; ResourceExhausted; Aborted])
  | None => false
  end.

Definition minBackoff : Duration := (50 * Millisecond)%Z.
Definition maxBackoff : Duration := (2 * Second)%Z.

Definition nextBackoff (d : Duration) : Duration :=
  let d := (d * 2)%Z in if (2 * Second <? d)%Z then (2 * Second)%Z else d.

Section retry.
Context {W R : Type} (ctx : Ctx W) (fn : W → W * result rpc_error R).

(** The loop of [retry]; [last] is the error of the previous attempt.  [None]:
    not finished after [fuel] rounds. *)
Fixpoint retry_loop (fuel : nat) (w : W) (backoff : Duration) (last : option rpc_error)
    : W * option (result rpc_error R) :=
  match fuel with
  | O => (w, None)
  | S fuel =>
    match ctx_Err ctx w with
    | Some err => (w, Some (Fail (match last with Some l => l | None => CtxError err end)))
    | None =>
      match fn w with
      | (w, Ok r) => (w, Some (Ok r))
      | (w, Fail e) =>
        if negb (transient e) then (w, Some (Fail e)) else
        match ctx_sleep ctx w backoff with
        | (w, false) => (w, Some (Fail e))
        | (w, true) => retry_loop fuel w (nextBackoff backoff) (Some e)
        end
      end
    end
  end.

Definition retry (fuel : nat) (w : W) : W * option (result rpc_error R) :=
  retry_loop fuel w minBackoff None.
End retry.

(** ** Options *)

Definition defaultAddr : string := "127.0.0.1:7947".
Definition defaultRequestTimeout : Duration := (10 * Second)%Z.
Definition defaultReadyTimeout : Duration := (10 * Second)%Z.
Definition defaultWatchBuffer : nat := 64.

Record options := MkOptions {
  o_addr : string; o_insecure : bool; o_dataDir : string; o_holder : string;
  o_requestTimeout : Duration; o_readyTimeout : Duration;
}.
Definition defaultOptions : options := MkOptions "" false "" "" defaultRequestTimeout defaultReadyTimeout.

Inductive Option_ : Type :=
  | WithInsecure | WithDataDir (dir : string) | WithHolder (id : string) | WithRequestTimeout (d : Duration)
  | NilOption.

Section opts.
Context `{Unicode} (getenv : string → string) (home : result error string).

Definition apply_option (o : options) (opt : Option_) : options :=
  match opt with
  | WithInsecure => MkOptions (o_addr o) true (o_dataDir o) (o_holder o) (o_requestTimeout o) (o_readyTimeout o)
  | WithDataDir dir => MkOptions (o_addr o) (o_insecure o) dir (o_holder o) (o_requestTimeout o) (o_readyTimeout o)
  | WithHolder id =>
    MkOptions (o_addr o) (o_insecure o) (o_dataDir o) (TrimSpaceS id) (o_requestTimeout o) (o_readyTimeout o)
  | WithRequestTimeout d =>
    if (0 <? d)%Z then MkOptions (o_addr o) (o_insecure o) (o_dataDir o) (o_holder o) d (o_readyTimeout o) else o
  | NilOption => o
  end.
Definition apply (o : options) (opts : list Option_) : options := foldl apply_option o opts.

Definition set_addr (o : options) (addr : string) : options :=
  MkOptions addr (o_insecure o) (o_dataDir o) (o_holder o) (o_requestTimeout o) (o_readyTimeout o).
Definition set_insecure (o : options) : options :=
  MkOptions (o_addr o) true (o_dataDir o) (o_holder o) (o_requestTimeout o) (o_readyTimeout o).

Definition localAddr : string :=
  let v := TrimSpaceS (getenv "CLUSDR_GRPC_ADDR") in
  if negb (str_empty v) then v else defaultAddr.

Definition envInsecure : bool :=
  bool_decide (lower_trim (getenv "CLUSDR_TLS") ∈ [runes "disabled"; runes "off"; runes "false"; runes "0"]).

Definition envDataDir : string :=
  let v := TrimSpaceS (getenv "CLUSDR_DATA_DIR") in
  if negb (str_empty v) then v else
  match home with Fail _ => "" | Ok h => h +:+ "/.clusdr" end.

(** ** Transport credentials

    [stat path] is [Some regular] for an existing file; [clientTLS] builds
    credentials [K] from certificates. *)
Context {K : Type} (insecureCreds : K) (stat : string → option bool) (ReadFile : string → result error (list Z)).
Context (clientTLS : list Z → list Z → list Z → result error K) (join_path : string → string → string).

Definition caFile : string := "ca.crt".
Definition certFile : string := "node.crt".
Definition keyFile : string := "node.key".

Definition pemFilesPresent (dir : string) : bool :=
  forallb (λ name, match stat (join_path dir name) with Some true => true | _ => false end) [caFile; certFile; keyFile].

Definition clientFromDir (dir : string) : result error K :=
  ca ← ReadFile (join_path dir caFile);
  certPEM ← ReadFile (join_path dir certFile);
  keyPEM ← ReadFile (join_path dir keyFile);
  clientTLS ca certPEM keyPEM.

Definition transportCreds (o : options) : result error K :=
  if o_insecure o then Ok insecureCreds else
  let dir := if str_empty (o_dataDir o) then envDataDir else o_dataDir o in
  if str_empty dir || negb (pemFilesPresent dir) then
    let dir := if str_empty dir then "(no data dir)" else dir in
    Fail (Errorf "clusdr: TLS enabled but %s/%s/%s missing in %s; set CLUSDR_TLS=disabled or pass WithInsecure()"
      [AStr caFile; AStr certFile; AStr keyFile; AStr dir])
  else clientFromDir dir.

(** ** Dialling *)

Definition newHolderID (rand : result error (list Z)) : result error string :=
  match rand with
  | Fail err => Fail err
  | Ok b => Ok ("sdk-" +:+ hex b)
  end.

Context {W : Type} (NewClient : W → string → K → W * option error) (ctx : Duration → W → Ctx W)
  (health : W → W * result rpc_error unit) (close : W → W).

(** The holder of the connection, once it is dialled and the daemon answers; a
    connection that is given up is closed. *)
Definition dial (fuel : nat) (rand : result error (list Z)) (w : W) (o : options)
    : W * option (result error (options * string)) :=
  if str_empty (o_addr o) then (w, Some (Fail (Errorf "clusdr: empty dial address" []))) else
  let o := if negb (o_insecure o) && envInsecure && str_empty (o_dataDir o) then set_insecure o else o in
  match transportCreds o with
  | Fail err => (w, Some (Fail err))
  | Ok creds =>
    match NewClient w (o_addr o) creds with
    | (w, Some err) => (w, Some (Fail (Errorf "clusdr: dial %s: %w" [AStr (o_addr o); AErr err])))
    | (w, None) =>
      match (if str_empty (o_holder o) then newHolderID rand else Ok (o_holder o)) with
      | Fail err => (close w, Some (Fail (Errorf "clusdr: holder: %w" [AErr err])))
      | Ok holder =>
        if (0 <? o_readyTimeout o)%Z then
          match retry (ctx (o_readyTimeout o) w) health fuel w with
          | (w, None) => (w, None)
          | (w, Some (Fail err)) =>
            (close w, Some (Fail (Errorf "clusdr: daemon not ready at %s: %w" [AStr (o_addr o); AErr (rpc_msg err)])))
          | (w, Some (Ok _)) => (w, Some (Ok (o, holder)))
          end
        else (w, Some (Ok (o, holder)))
      end
    end
  end.

Definition Local (fuel : nat) (rand : result error (list Z)) (w : W) (opts : list Option_) :=
  let o := apply defaultOptions opts in
  dial fuel rand w (if str_empty (o_addr o) then set_addr o localAddr else o).

Definition Dial (fuel : nat) (rand : result error (list Z)) (w : W) (addr : string) (opts : list Option_) :=
  dial fuel rand w (set_addr (apply defaultOptions opts) addr).
End opts.

(** ** Reading the cluster and publishing *)

(** [withRPC]: a context with a deadline is used as it is. *)
Definition withRPC {W} (hasDeadline : bool) (ctx timed : Ctx W) : Ctx W := if hasDeadline then ctx else timed.

Record SdkMember := MkSdkMember {
  sm_ID : string; sm_Address : string; sm_Status : string; sm_Leader : bool; sm_Role : string;
}.

Section calls.
Context {W : Type} (ctx : Ctx W) (fuel : nat).

Definition Members_ (list_members : W → W * result rpc_error (list ProtoMember)) (w : W)
    : W * option (result error (list SdkMember)) :=
  match retry ctx list_members fuel w with
  | (w, None) => (w, None)
  | (w, Some (Fail err)) => (w, Some (Fail (Errorf "clusdr: members: %w" [AErr (rpc_msg err)])))
  | (w, Some (Ok ms)) =>
    (w, Some (Ok ((λ m, MkSdkMember (pm_Id m) (pm_Address m) (pm_Status m) (pm_Leader m)
                          (if str_empty (pm_Role m) then "voter" else pm_Role m)) <$> ms)))
  end.

Definition Leader_ (get_leader : W → W * result rpc_error (string * string)) (w : W)
    : W * option (result error SdkMember) :=
  match retry ctx get_leader fuel w with
  | (w, None) => (w, None)
  | (w, Some (Fail err)) => (w, Some (Fail (Errorf "clusdr: leader: %w" [AErr (rpc_msg err)])))
  | (w, Some (Ok (id, addr))) => (w, Some (Ok (MkSdkMember id addr "alive" true "voter")))
  end.

Definition Publish_ (publish : W → PublishEventRequest → W * result rpc_error PublishEventResponse) (w : W)
    (topic : string) (payload : list Z) : W * option (option error) :=
  match retry ctx (λ w, publish w (MkPublish topic payload "" "" false)) fuel w with
  | (w, None) => (w, None)
  | (w, Some (Fail err)) => (w, Some (Some (Errorf "clusdr: publish: %w" [AErr (rpc_msg err)])))
  | (w, Some (Ok resp)) =>
    (w, Some (if negb (pr_Accepted resp) then Some (Errorf "clusdr: publish rejected: %s" [AStr (pr_Message resp)])
              else None))
  end.
End calls.

(** ** Retrying ends *)

Lemma nextBackoff_bounds d : (minBackoff ≤ d ≤ maxBackoff)%Z → (minBackoff ≤ nextBackoff d ≤ maxBackoff)%Z.
Proof. unfold minBackoff, maxBackoff, nextBackoff, Millisecond, Second. case_match; breflect; lia. Qed.

(** A context with a deadline on a clock that sleeping and calling never turn back. *)
Record timed_ctx {W R} (clock : W → Time) (deadline : Time) (ctx : Ctx W) (fn : W → W * result rpc_error R) : Prop := {
  tc_done w : (deadline ≤ clock w)%Z → is_Some (ctx_Err ctx w);
  tc_sleep w d w' : ctx_sleep ctx w d = (w', true) → (clock w + d ≤ clock w')%Z;
  tc_fn w : (clock w ≤ clock (fn w).1)%Z;
}.

(** What [retry] may end with. *)
Definition retry_answer {W R} (ctx : Ctx W) (fn : W → W * result rpc_error R) (w' : W) (r : result rpc_error R) : Prop :=
  match r with
  | Ok a => ∃ w0, ctx_Err ctx w0 = None ∧ fn w0 = (w', Ok a)
  | Fail e => (transient e = false ∧ ∃ w0, fn w0 = (w', Fail e)) ∨
              is_Some (ctx_Err ctx w') ∨ (∃ w0 d, ctx_sleep ctx w0 d = (w', false))
  end.

Lemma retry_loop_ends {W R} (clock : W → Time) deadline (ctx : Ctx W) (fn : W → W * result rpc_error R) w b last fuel :
  timed_ctx clock deadline ctx fn → (minBackoff ≤ b ≤ maxBackoff)%Z →
  Z.to_nat ((deadline - clock w) / minBackoff + 1) + 1 ≤ fuel →
  ∃ w' r, retry_loop ctx fn fuel w b last = (w', Some r) ∧ retry_answer ctx fn w' r.
Proof.
  intros Ht. revert w b last; induction fuel as [|fuel IH]; intros w b last Hb Hf; [lia|]. simpl.
  destruct (ctx_Err ctx w) as [err|] eqn:Herr.
  { eexists w, _. split; [done|]. simpl. right; left. by rewrite Herr. }
  assert (clock w < deadline)%Z as Hlt.
  { destruct (Z.lt_ge_cases (clock w) deadline); [done|]. destruct (tc_done _ _ _ _ Ht w) as [? ?]; [done|congruence]. }
  pose proof (tc_fn _ _ _ _ Ht w) as Hmono. destruct (fn w) as [w1 [a|e]] eqn:Hfn.
  { eexists w1, _. split; [done|]. by exists w. }
  destruct (transient e) eqn:Htr; simpl; [|eexists w1, _; split; [done|]; left; by eauto].
  destruct (ctx_sleep ctx w1 b) as [w2 []] eqn:Hs; [|eexists w2, _; split; [reflexivity|]; right; right; by eauto].
  apply IH; [by apply nextBackoff_bounds|]. pose proof (tc_sleep _ _ _ _ Ht _ _ _ Hs) as Hadv. simpl in Hmono.
  assert ((deadline - clock w2) / minBackoff ≤ (deadline - clock w) / minBackoff - 1)%Z as Hdiv.
  { trans ((deadline - clock w + -1 * minBackoff) / minBackoff)%Z; [apply Z.div_le_mono; [done|lia]|].
    rewrite Z.div_add by done. lia. }
  assert (0 ≤ (deadline - clock w) / minBackoff)%Z by (apply Z.div_pos; [lia|done]).
  unfold ge in *. lia.
Qed.

(** A call of the SDK returns: with a deadline [rest] away, [retry] ends within
    [rest / 50ms + 2] rounds whatever the daemon answers, since every backoff is
    between 50ms and 2s; what it returns is the answer of one of its attempts, an
    error is only returned if it is not transient or the context is done, and no
    attempt is made once the context is done. *)
Theorem sdk_retry_terminates {W R} (clock : W → Time) deadline (ctx : Ctx W) (fn : W → W * result rpc_error R) w fuel :
  timed_ctx clock deadline ctx fn →
  Z.to_nat ((deadline - clock w) / minBackoff + 1) + 1 ≤ fuel →
  ∃ w' r, retry ctx fn fuel w = (w', Some r) ∧ retry_answer ctx fn w' r.
Proof. intros Ht Hf. by apply (retry_loop_ends clock deadline). Qed.

Module SdkExamples.
(** A daemon that is down; the world is the clock. *)
Definition ctx_until (deadline : Time) : Ctx Time :=
  MkCtx (λ now, if (deadline <=? now)%Z then Some CtxDeadlineExceeded else None) (λ now d, ((now + d)%Z, true)).
Definition down (now : Time) : Time * result rpc_error unit :=
  (now, Fail (RpcStatus (Status Unavailable (Errorf "connection refused" [])))).

Lemma sdk_retry_terminates_witness : ∃ w' r, retry (ctx_until Second) down 22 0%Z = (w', Some r).
Proof.
  destruct (sdk_retry_terminates (λ t, t) Second (ctx_until Second) down 0%Z 22) as (w' & r & Hr & _).
  - split; simpl.
    + intros w Hw. apply Z.leb_le in Hw. rewrite Hw. by eexists.
    + intros w d w' Hs. injection Hs as <-. lia.
    + intros w. lia.
  - vm_compute. lia.
  - by exists w', r.
Defined.
End SdkExamples.
