(* ===== verification/SdkGrants.v ===== *)
(** * SdkGrants: locks and leases held by the Go client ([sdk/lock.go], [sdk/lease.go])

    A client keeps the handles it returned: [held] and [leased] map names to
    pointers into a heap of handles, which the application and the renewing
    goroutine of each handle share.  Locks and leases are the same machine over
    different tables and RPCs, so the steps are given once for a table [kind]. *)
From S2P Require Import Prelude Events GrantSpec Locks Leases Membership LockService LeaseService Sdk.

Record Handle := MkHandle {
  h_Name : string;
  h_Who : string;         (* Holder of a lock, Owner of a lease *)
  h_Token : Z;
  h_Deadline : Time;
  h_Stop : bool;          (* the cancel function is set *)
  h_Renewing : bool;      (* the goroutine runs and its context is not cancelled *)
}.

Inductive kind : Type := KLock | KLease.
#[export] Instance kind_eq_dec : EqDecision kind.
Proof. solve_decision. Defined.

Record client := MkClient {
  c_holder : string;
  c_heap : gmap nat Handle;
  c_next : nat;
  c_held : gmap string nat;
  c_leased : gmap string nat;
}.

Definition tab (k : kind) (c : client) : gmap string nat :=
  match k with KLock => c_held c | KLease => c_leased c end.
Definition set_tab (k : kind) (c : client) (m : gmap string nat) : client :=
  match k with
  | KLock => MkClient (c_holder c) (c_heap c) (c_next c) m (c_leased c)
  | KLease => MkClient (c_holder c) (c_heap c) (c_next c) (c_held c) m
  end.
Definition set_handle (c : client) (l : nat) (h : Handle) : client :=
  MkClient (c_holder c) (<[l := h]> (c_heap c)) (c_next c) (c_held c) (c_leased c).
Definition alloc (c : client) (h : Handle) : client * nat :=
  (MkClient (c_holder c) (<[c_next c := h]> (c_heap c)) (S (c_next c)) (c_held c) (c_leased c), c_next c).

Definition new_client (holder : string) : client := MkClient holder ∅ 0 ∅ ∅.

(** The daemon's RPCs; [Unlock] and [Revoke] answer [(released, message)], the
    message of a lease renewal comes beside the fields both renewals have. *)
Record Daemon (W : Type) := MkDaemon {
  d_Lock : W → LockRequest → W * result rpc_error LockResponse;
  d_TryLock : W → LockRequest → W * result rpc_error LockResponse;
  d_Unlock : W → UnlockRequest → W * result rpc_error (bool * string);
  d_LockRenew : W → RenewRequest → W * result rpc_error RenewResponse;
  d_Grant : W → GrantRequest → W * result rpc_error GrantResponse;
  d_LeaseRenew : W → RenewRequest → W * result rpc_error (RenewResponse * string);
  d_Revoke : W → RevokeRequest → W * result rpc_error (bool * string);
}.
Arguments MkDaemon {W}.
Arguments d_Lock {W}.
Arguments d_TryLock {W}.
Arguments d_Unlock {W}.
Arguments d_LockRenew {W}.
Arguments d_Grant {W}.
Arguments d_LeaseRenew {W}.
Arguments d_Revoke {W}.

(** ** Lifetimes and handles *)

Definition ttlMs (d : Duration) : Z := if (d <=? 0)%Z then 0%Z else Milliseconds d.

(** [time.Until(deadline)] at [now]. *)
Definition renewInterval (now : Time) (deadline : Time) (ttl : Duration) : Duration :=
  let d := ttl in
  let d := if (d <=? 0)%Z then (deadline - now)%Z else d in
  let d := if (d <=? 0)%Z then (15 * Second)%Z else d in
  let iv := (d `quot` 3)%Z in
  if (iv <? 50 * Millisecond)%Z then (50 * Millisecond)%Z else iv.

Definition handleFrom (name who : string) (token deadlineMs : Z) : Handle :=
  MkHandle name who token (if (0 <? deadlineMs)%Z then FromUnixMilli deadlineMs else zeroTime) false false.
Definition lockFromResp (resp : LockResponse) (name : string) : Handle :=
  handleFrom name (lp_Holder resp) (lp_FencingToken resp) (lp_DeadlineUnixMs resp).
Definition leaseFromResp (resp : GrantResponse) (name : string) : Handle :=
  handleFrom name (gp_Owner resp) (gp_FencingToken resp) (gp_DeadlineUnixMs resp).

(** ** Steps on a table *)

Definition held_in (k : kind) (c : client) (name : string) : option nat := tab k c !! name.
Definition heldLock := held_in KLock.
Definition heldLease := held_in KLease.

Definition forget_in (k : kind) (c : client) (name : string) (token : Z) : client :=
  match tab k c !! name ≫= λ l, c_heap c !! l with
  | Some h => if (h_Token h =? token)%Z then set_tab k c (delete name (tab k c)) else c
  | None => c
  end.
Definition forget := forget_in KLock.
Definition forgetLease := forget_in KLease.

(** [startRenew]: the goroutine runs until its context is cancelled. *)
Definition startRenew (c : client) (l : nat) : client :=
  match c_heap c !! l with
  | Some h => set_handle c l (MkHandle (h_Name h) (h_Who h) (h_Token h) (h_Deadline h) true true)
  | None => c
  end.

Definition adopt_in (k : kind) (c : client) (h : Handle) (name : string) : client * nat :=
  match tab k c !! name ≫= λ l, (λ h', (l, h')) <$> c_heap c !! l with
  | Some (l, h') => if (h_Token h' =? h_Token h)%Z then (c, l) else
      let (c, l) := alloc c h in (startRenew (set_tab k c (<[name := l]> (tab k c))) l, l)
  | None => let (c, l) := alloc c h in (startRenew (set_tab k c (<[name := l]> (tab k c))) l, l)
  end.
Definition adopt (c : client) (resp : LockResponse) (name : string) := adopt_in KLock c (lockFromResp resp name) name.
Definition adoptLease (c : client) (resp : GrantResponse) (name : string) :=
  adopt_in KLease c (leaseFromResp resp name) name.

Definition stopRenew (c : client) (l : nat) : client :=
  match c_heap c !! l with
  | Some h =>
    if h_Stop h then set_handle c l (MkHandle (h_Name h) (h_Who h) (h_Token h) (h_Deadline h) false false) else c
  | None => c
  end.

Definition set_deadline (c : client) (l : nat) (ms : Z) : client :=
  match c_heap c !! l with
  | Some h =>
    if (0 <? ms)%Z
    then set_handle c l (MkHandle (h_Name h) (h_Who h) (h_Token h) (FromUnixMilli ms) (h_Stop h) (h_Renewing h)) else c
  | None => c
  end.

(** A lease is renewed under the context it was asked with: once that is done the
    goroutine returns at its [select]. *)
Definition life_done (c : client) (l : nat) : client :=
  match c_heap c !! l with
  | Some h => set_handle c l (MkHandle (h_Name h) (h_Who h) (h_Token h) (h_Deadline h) (h_Stop h) false)
  | None => c
  end.

Section client_ops.
Context {W : Type} (d : Daemon W) (ctx : Ctx W) (fuel : nat).
Abbreviation st := (client * W)%type.

(** One tick of the renewing goroutine of [l]; [ctxDone] is its [ctx.Err() != nil]
    after the call. *)
Definition renew_tick (call : W → RenewRequest → W * result rpc_error RenewResponse) (ctxDone : bool)
    (s : st) (l : nat) : st :=
  match c_heap s.1 !! l with
  | Some h =>
    if negb (h_Renewing h) then s else
    match call s.2 (MkRenewRequest (h_Name h) (h_Who h) (h_Token h) 0) with
    | (w, Fail err) =>
      if ctxDone then (life_done s.1 l, w) else
      if decide (status_Code err = Some FailedPrecondition ∨ status_Code err = Some Canceled) then (life_done s.1 l, w)
      else (s.1, w)
    | (w, Ok resp) => (set_deadline s.1 l (np_DeadlineUnixMs resp), w)
    end
  | None => s
  end.
Definition lock_tick := renew_tick (d_LockRenew d).
Definition lease_tick :=
  renew_tick (λ w req, let r := d_LeaseRenew d w req in
    (r.1, match r.2 with Ok (resp, _) => Ok resp | Fail e => Fail e end)).

(** ** Locks *)

Definition Lock (s : st) (name : string) (ttl : Duration) : st * option (result error nat) :=
  match heldLock s.1 name with
  | Some l => (s, Some (Ok l))
  | None =>
    match retry ctx (λ w, d_Lock d w (MkLockRequest name (c_holder s.1) (ttlMs ttl))) fuel s.2 with
    | (w, None) => ((s.1, w), None)
    | (w, Some (Fail err)) => ((s.1, w), Some (Fail (Errorf "clusdr: lock %q: %w" [AStr name; AErr (rpc_msg err)])))
    | (w, Some (Ok resp)) =>
      if negb (lp_Acquired resp) then
        let msg := if str_empty (lp_Message resp) then "not acquired" else lp_Message resp in
        ((s.1, w), Some (Fail (Errorf "clusdr: lock %q: %s" [AStr name; AStr msg])))
      else let (c, l) := adopt s.1 resp name in ((c, w), Some (Ok l))
    end
  end.

(** The lock that is returned: one the client holds, or a description of another's. *)
Inductive lock_ref : Type := Mine (l : nat) | Theirs (h : Handle).

Definition TryLock (s : st) (name : string) (ttl : Duration) : st * option (result error (lock_ref * bool)) :=
  match heldLock s.1 name with
  | Some l => (s, Some (Ok (Mine l, true)))
  | None =>
    match retry ctx (λ w, d_TryLock d w (MkLockRequest name (c_holder s.1) (ttlMs ttl))) fuel s.2 with
    | (w, None) => ((s.1, w), None)
    | (w, Some (Fail err)) => ((s.1, w), Some (Fail (Errorf "clusdr: trylock %q: %w" [AStr name; AErr (rpc_msg err)])))
    | (w, Some (Ok resp)) =>
      if negb (lp_Acquired resp) then ((s.1, w), Some (Ok (Theirs (lockFromResp resp name), false)))
      else let (c, l) := adopt s.1 resp name in ((c, w), Some (Ok (Mine l, true)))
    end
  end.

(** [release] and [drop]: the call that gives the grant back, and the names of
    the two error formats. *)
Definition give_back (k : kind) (call : W → Handle → W * result rpc_error (bool * string)) (op invalid : string)
    (s : st) (l : nat) : st * option (option error) :=
  match c_heap s.1 !! l with
  | None => (s, Some (Some (Errorf invalid [])))
  | Some h =>
    let c := stopRenew s.1 l in
    match retry ctx (λ w, call w h) fuel s.2 with
    | (w, None) => ((c, w), None)
    | (w, Some (Fail err)) =>
      let e := Errorf "clusdr: %s %q: %w" [AStr op; AStr (h_Name h); AErr (rpc_msg err)] in
      if decide (status_Code err = Some FailedPrecondition)
      then ((forget_in k c (h_Name h) (h_Token h), w), Some (Some e)) else ((c, w), Some (Some e))
    | (w, Some (Ok (released, msg))) =>
      if negb released then ((c, w), Some (Some (Errorf "clusdr: %s %q: %s" [AStr op; AStr (h_Name h); AStr msg])))
      else ((forget_in k c (h_Name h) (h_Token h), w), Some None)
    end
  end.
Definition release := give_back KLock
  (λ w h, d_Unlock d w (MkUnlockRequest (h_Name h) (h_Who h) (h_Token h))) "unlock" "clusdr: invalid lock".
Definition drop_lease := give_back KLease
  (λ w h, d_Revoke d w (MkRevokeRequest (h_Name h) (h_Who h) (h_Token h))) "revoke" "clusdr: invalid lease".

Definition Unlock (s : st) (name : string) : st * option (option error) :=
  match heldLock s.1 name with
  | None => (s, Some (Some (Errorf "clusdr: lock %q is not held by this client" [AStr name])))
  | Some l => release s l
  end.

(** ** Leases *)

Definition Lease (s : st) (name : string) (ttl : Duration) : st * option (result error nat) :=
  match heldLease s.1 name with
  | Some l => (s, Some (Ok l))
  | None =>
    match retry ctx (λ w, d_Grant d w (MkGrantRequest name (c_holder s.1) (ttlMs ttl))) fuel s.2 with
    | (w, None) => ((s.1, w), None)
    | (w, Some (Fail err)) => ((s.1, w), Some (Fail (Errorf "clusdr: lease %q: %w" [AStr name; AErr (rpc_msg err)])))
    | (w, Some (Ok resp)) =>
      if negb (gp_Granted resp) then
        let msg := if str_empty (gp_Message resp) then "not granted" else gp_Message resp in
        ((s.1, w), Some (Fail (
          if negb (str_empty (gp_Owner resp))
          then Errorf "clusdr: lease %q: %s (owner %s)" [AStr name; AStr msg; AStr (gp_Owner resp)]
          else Errorf "clusdr: lease %q: %s" [AStr name; AStr msg])))
      else let (c, l) := adoptLease s.1 resp name in ((c, w), Some (Ok l))
    end
  end.

Definition Renew (s : st) (name : string) : st * option (option error) :=
  match heldLease s.1 name ≫= λ l, (λ h, (l, h)) <$> c_heap s.1 !! l with
  | None => (s, Some (Some (Errorf "clusdr: lease %q is not held by this client" [AStr name])))
  | Some (l, h) =>
    match retry ctx (λ w, d_LeaseRenew d w (MkRenewRequest (h_Name h) (h_Who h) (h_Token h) 0)) fuel s.2 with
    | (w, None) => ((s.1, w), None)
    | (w, Some (Fail err)) => ((s.1, w), Some (Some (Errorf "clusdr: renew %q: %w" [AStr name; AErr (rpc_msg err)])))
    | (w, Some (Ok (resp, msg))) =>
      if negb (np_Renewed resp) then ((s.1, w), Some (Some (Errorf "clusdr: renew %q: %s" [AStr name; AStr msg])))
      else ((set_deadline s.1 l (np_DeadlineUnixMs resp), w), Some None)
    end
  end.

Definition Revoke (s : st) (name : string) : st * option (option error) :=
  match heldLease s.1 name with
  | None => (s, Some (Some (Errorf "clusdr: lease %q is not held by this client" [AStr name])))
  | Some l => drop_lease s l
  end.

(** ** Closing

    The maps are copied in some order, then each handle is given back and its
    error ignored. *)
Fixpoint give_all (f : st → nat → st * option (option error)) (s : st) (ls : list nat) : st * bool :=
  match ls with
  | [] => (s, true)
  | l :: ls =>
    match f s l with
    | (s, None) => (s, false)
    | (s, Some _) => give_all f s ls
    end
  end.
Definition releaseHeld (s : st) (order : list nat) : st * bool := give_all release s order.
Definition releaseLeases (s : st) (order : list nat) : st * bool := give_all drop_lease s order.

Definition Close (connClose : W → W * option error) (s : st) (locks_order leases_order : list nat)
    : st * option (option error) :=
  match releaseHeld s locks_order with
  | (s, false) => (s, None)
  | (s, true) =>
    match releaseLeases s leases_order with
    | (s, false) => (s, None)
    | (s, true) => let (w, e) := connClose s.2 in ((s.1, w), Some e)
    end
  end.
End client_ops.

(** ** The client against the lock service

    The RPCs of [LockService] behind the stubs of a client. *)
Definition rpc {W R} (x : W * result status R) : W * result rpc_error R :=
  (x.1, match x.2 with Ok r => Ok r | Fail st => Fail (RpcStatus st) end).

Section against_service.
Context `{Unicode} {W : Type}.
Context (table : W → option Locks.Table) (set_table : W → Locks.Table → W).
Context (engine : W → Engine) (raft : option (LockRaft W)) (peers : LockPeers W) (defaultTTL : Duration).

Definition lock_daemon (now : Time) (base : Daemon W) : Daemon W :=
  MkDaemon (d_Lock base)
    (λ w req, rpc (LockService.TryLock table set_table engine raft peers defaultTTL now w req))
    (λ w req, let r := rpc (LockService.Unlock table set_table engine raft peers w req) in
       (r.1, match r.2 with Ok b => Ok (b, "") | Fail e => Fail e end))
    (λ w req, rpc (LockService.Renew table set_table engine raft peers defaultTTL now w req))
    (d_Grant base) (d_LeaseRenew base) (d_Revoke base).

Lemma held_no_rpc (d : Daemon W) ctx fuel c w name l ttl :
  c_held c !! name = Some l →
  TryLock d ctx fuel (c, w) name ttl = ((c, w), Some (Ok (Mine l, true))) ∧
  Lock d ctx fuel (c, w) name ttl = ((c, w), Some (Ok l)).
Proof. intros Hl. unfold TryLock, Lock, heldLock, held_in. simpl. by rewrite Hl. Qed.

(** C22: One renewal during an election ends the renewing for good: a follower
    that knows no leader answers [FailedPrecondition], which the goroutine takes
    for a lost lock and returns.  The handle stays in [held], so [TryLock] and
    [Lock] go on to return it, at any later time and whatever became of the lock,
    without asking the daemon, and no further tick renews it. *)
Theorem sdk_renewal_dies_in_election r now base c w name l h :
  raft = Some r → lr_IsLeader r w = false → mreachable (engine w) →
  SelfRole (engine w) = RoleVoter → Locks.ValidName name = None →
  Leader (engine w) = None ∨ LeaderID (engine w) = SelfID (engine w) →
  c_held c !! name = Some l → c_heap c !! l = Some h → h_Name h = name → h_Renewing h = true →
  let d := lock_daemon now base in
  let s := lock_tick d false (c, w) l in
  s.2 = w ∧
  (∀ (d' : Daemon W) done w', lock_tick d' done (s.1, w') l = (s.1, w')) ∧
  (∀ (d' : Daemon W) ctx fuel w' ttl,
     TryLock d' ctx fuel (s.1, w') name ttl = ((s.1, w'), Some (Ok (Mine l, true))) ∧
     Lock d' ctx fuel (s.1, w') name ttl = ((s.1, w'), Some (Ok l))).
Proof.
  intros Hraft Hl Hr Ho Hv Hlead Hheld Hh Hn Hren d s.
  assert (s = (life_done c l, w)) as ->.
  { unfold s, lock_tick, renew_tick. simpl. rewrite Hh, Hren. simpl.
    unfold LockService.Renew. by rewrite (guarded_without_leader engine raft peers r) by by subst name. }
  split; [done|]. simpl. unfold life_done. rewrite Hh. split.
  - intros d' done w'. unfold lock_tick, renew_tick. simpl. by rewrite lookup_insert_eq.
  - intros. apply held_no_rpc. done.
Qed.
End against_service.

(** ** The table of handles

    Every held name points to a handle with that name, and the heap is fresh from
    [c_next] on. *)
Record client_ok (c : client) : Prop := {
  co_tab k n l : tab k c !! n = Some l → ∃ h, c_heap c !! l = Some h ∧ h_Name h = n;
  co_fresh l : is_Some (c_heap c !! l) → l < c_next c;
}.

Lemma new_client_ok holder : client_ok (new_client holder).
Proof.
  split; simpl; [intros [] n l; simpl; by rewrite lookup_empty|].
  intros l [? Hl]. by rewrite lookup_empty in Hl.
Qed.

Lemma tab_set_tab k k' c m : tab k' (set_tab k c m) = if decide (k = k') then m else tab k' c.
Proof. by destruct k, k'. Qed.
Lemma heap_set_tab k c m : c_heap (set_tab k c m) = c_heap c.
Proof. by destruct k. Qed.
Lemma next_set_tab k c m : c_next (set_tab k c m) = c_next c.
Proof. by destruct k. Qed.

(** A step that keeps the names of handles, or drops entries of a table. *)
Lemma set_handle_ok c l h h' :
  client_ok c → c_heap c !! l = Some h → h_Name h' = h_Name h → client_ok (set_handle c l h').
Proof.
  intros [Ht Hf] Hl Hn. split; simpl.
  - intros k n l' Hk. assert (tab k c !! n = Some l') as Hk' by by destruct k.
    apply Ht in Hk' as (h0 & Hh0 & <-). destruct (decide (l = l')) as [->|Hne].
    + exists h'. rewrite lookup_insert_eq. naive_solver.
    + exists h0. by rewrite lookup_insert_ne.
  - intros l' [h0 [[<- _]|[_ Hh]]%lookup_insert_Some]; eauto.
Qed.

Lemma drop_ok k c n : client_ok c → client_ok (set_tab k c (delete n (tab k c))).
Proof.
  intros [Ht Hf]. split.
  - intros k' n' l'. rewrite tab_set_tab, heap_set_tab. case_decide as Hk; [|apply Ht].
    intros [_ ?]%lookup_delete_Some. by eapply Ht.
  - rewrite heap_set_tab, next_set_tab. apply Hf.
Qed.

Lemma adopt_fresh_ok k c h n :
  client_ok c → h_Name h = n →
  let a := alloc c h in client_ok (startRenew (set_tab k a.1 (<[n := a.2]> (tab k a.1))) a.2).
Proof.
  intros [Ht Hf] Hn a. unfold startRenew. rewrite heap_set_tab. simpl. rewrite lookup_insert_eq.
  eapply set_handle_ok; [|by rewrite heap_set_tab; simpl; rewrite lookup_insert_eq|done]. split.
  - intros k' n' l'. rewrite tab_set_tab, heap_set_tab. simpl.
    assert (tab k' c !! n' = Some l' → ∃ h0, <[c_next c := h]> (c_heap c) !! l' = Some h0 ∧ h_Name h0 = n') as Hold.
    { intros (h0 & Hh0 & <-)%Ht. exists h0. rewrite lookup_insert_ne; [done|].
      assert (l' < c_next c) by eauto. lia. }
    assert (∀ m, tab m a.1 = tab m c) as Heq by by intros [].
    case_decide as Hk; [|rewrite Heq; apply Hold]. subst k'. rewrite Heq.
    intros [[<- <-]|[_ ?]]%lookup_insert_Some; [exists h; by rewrite lookup_insert_eq|by apply Hold].
  - rewrite heap_set_tab, next_set_tab. simpl. intros l' [h0 [[<- _]|[_ Hh]]%lookup_insert_Some]; [lia|].
    assert (l' < c_next c) by eauto. lia.
Qed.

Lemma adopt_in_ok k c h n : client_ok c → h_Name h = n → client_ok (adopt_in k c h n).1.
Proof.
  intros Hc Hn. pose proof (adopt_fresh_ok k c h n Hc Hn) as Ha. unfold adopt_in.
  repeat case_match; simplify_eq/=; done.
Qed.

Lemma forget_in_ok k c n tok : client_ok c → client_ok (forget_in k c n tok).
Proof. intros Hc. unfold forget_in. go_cases; [by apply drop_ok|done..]. Qed.

Lemma stopRenew_ok c l : client_ok c → client_ok (stopRenew c l).
Proof. intros Hc. unfold stopRenew. go_cases; [by eapply set_handle_ok|done..]. Qed.
Lemma life_done_ok c l : client_ok c → client_ok (life_done c l).
Proof. intros Hc. unfold life_done. go_cases; [by eapply set_handle_ok|done..]. Qed.
Lemma set_deadline_ok c l ms : client_ok c → client_ok (set_deadline c l ms).
Proof. intros Hc. unfold set_deadline. go_cases; [by eapply set_handle_ok|done..]. Qed.
#[export] Hint Resolve new_client_ok adopt_in_ok forget_in_ok stopRenew_ok life_done_ok set_deadline_ok : clusdr.

(** Whatever an application calls, and whatever the renewing goroutines and the
    daemon do. *)
Inductive sdk_op : Type :=
  | SLock (name : string) (ttl : Duration) | STryLock (name : string) (ttl : Duration) | SUnlock (name : string)
  | SLease (name : string) (ttl : Duration) | SRenew (name : string) | SRevoke (name : string)
  | SLockTick (done : bool) (l : nat) | SLeaseTick (done : bool) (l : nat) | SLifeDone (l : nat)
  | SReleaseHeld (order : list nat) | SReleaseLeases (order : list nat).

Section runs.
Context {W : Type} (d : Daemon W) (ctx : Ctx W) (fuel : nat).

Definition sdk_step (s : client * W) (o : sdk_op) : client * W :=
  match o with
  | SLock n ttl => (Lock d ctx fuel s n ttl).1
  | STryLock n ttl => (TryLock d ctx fuel s n ttl).1
  | SUnlock n => (Unlock d ctx fuel s n).1
  | SLease n ttl => (Lease d ctx fuel s n ttl).1
  | SRenew n => (Renew d ctx fuel s n).1
  | SRevoke n => (Revoke d ctx fuel s n).1
  | SLockTick dn l => lock_tick d dn s l
  | SLeaseTick dn l => lease_tick d dn s l
  | SLifeDone l => (life_done s.1 l, s.2)
  | SReleaseHeld ls => (releaseHeld d ctx fuel s ls).1
  | SReleaseLeases ls => (releaseLeases d ctx fuel s ls).1
  end.

Lemma give_back_ok k call op inv (s : client * W) l : client_ok s.1 → client_ok (give_back ctx fuel k call op inv s l).1.1.
Proof. intros Hc. unfold give_back. go_cases; auto with clusdr. Qed.

Lemma give_all_ok (f : client * W → nat → client * W * option (option error)) s ls :
  (∀ s l, client_ok s.1 → client_ok (f s l).1.1) → client_ok s.1 → client_ok (give_all f s ls).1.1.
Proof.
  intros Hf. revert s; induction ls as [|l ls IH]; intros s Hc; simpl; [done|].
  pose proof (Hf s l Hc) as Hs. destruct (f s l) as [s' [e|]]; [by apply IH|done].
Qed.

Lemma renew_tick_ok call dn s l : client_ok s.1 → client_ok (renew_tick (W:=W) call dn s l).1.
Proof. intros Hc. unfold renew_tick. go_cases; auto with clusdr. Qed.

Lemma adopt_eq_ok k c h n c' l : client_ok c → h_Name h = n → adopt_in k c h n = (c', l) → client_ok c'.
Proof. intros Hc Hn Ha. pose proof (adopt_in_ok k c h n Hc Hn) as Ho. by rewrite Ha in Ho. Qed.

Lemma sdk_step_ok s o : client_ok s.1 → client_ok (sdk_step s o).1.
Proof.
  intros Hc. destruct o; simpl.
  - unfold Lock, adopt. repeat (case_match; try done). by eapply adopt_eq_ok; [| |eassumption].
  - unfold TryLock, adopt. repeat (case_match; try done). by eapply adopt_eq_ok; [| |eassumption].
  - unfold Unlock. case_match; [by apply give_back_ok|done].
  - unfold Lease, adoptLease. repeat (case_match; try done). all: by eapply adopt_eq_ok; [| |eassumption].
  - unfold Renew. repeat (case_match; try done). by apply set_deadline_ok.
  - unfold Revoke. case_match; [by apply give_back_ok|done].
  - by apply renew_tick_ok.
  - by apply renew_tick_ok.
  - by apply life_done_ok.
  - apply give_all_ok; [|done]. intros. by apply give_back_ok.
  - apply give_all_ok; [|done]. intros. by apply give_back_ok.
Qed.
End runs.

(** ** Closing gives everything back

    The daemon is the leader, its commits take effect at once; the world is its
    lock table. *)
Section closing.
Context `{Unicode} (e : Engine) (now : Time) (dflt : Duration) (base : Daemon Locks.Table).
Context (ctx : Ctx Locks.Table) (fuel : nat).
Hypothesis Hvoter : rejectIfObserver e = None.
Hypothesis Hlive : ∀ t, ctx_Err ctx t = None.

Definition leader_daemon : Daemon Locks.Table :=
  lock_daemon Some (λ _ t, t) (λ _, e) (Some (direct_locks now true)) unreachable dflt now base.

Definition grant_of (h : Handle) : string * string * Z := (h_Name h, h_Who h, h_Token h).

(** The handles the client gives back can be given back. *)
Definition givable (c : client) (n : string) (l : nat) : Prop :=
  c_held c !! n = Some l ∧ ∃ h, c_heap c !! l = Some h ∧ h_Name h = n ∧ Locks.ValidName n = None ∧ h_Who h ≠ "".

Lemma leader_Unlock t n h k :
  Locks.ValidName n = None → h ≠ "" →
  d_Unlock leader_daemon t (MkUnlockRequest n h k) =
    let r := Locks.Release t n h k in
    (r.1.1, match r.1.2 with
            | None => Ok (true, "")
            | Some err => Fail (RpcStatus (Status FailedPrecondition err)) end).
Proof.
  intros Hv Hh. apply str_empty_false in Hh.
  unfold leader_daemon, lock_daemon, rpc, LockService.Unlock, LockService.guarded, LockService.holder, LockService.follower.
  cbn [d_Unlock uq_Name uq_Holder uq_FencingToken]. rewrite Hv, Hvoter, Hh. cbn -[Locks.Release].
  destruct (Locks.Release t n h k) as [[t' [err|]] es]; done.
Qed.

Lemma release_one c t n l :
  0 < fuel → givable c n l →
  ∃ c' t' r, release leader_daemon ctx fuel (c, t) l = ((c', t'), Some r) ∧
    c_held c' = delete n (c_held c) ∧
    (∀ l', grant_of <$> c_heap c' !! l' = grant_of <$> c_heap c !! l') ∧
    (∀ h, c_heap c !! l = Some h → held (lock_abs t') !! n ≠ Some (h_Who h, h_Token h)) ∧
    (∀ n', n' ≠ n → locks t' !! n' = locks t !! n').
Proof.
  intros Hf (Hheld & h & Hh & Hn & Hv & Hw). destruct fuel as [|fuel']; [lia|]. unfold release, give_back. cbn [fst snd].
  rewrite Hh. unfold retry. cbn [retry_loop]. rewrite Hlive, Hn, leader_Unlock by done.
  set (c1 := stopRenew c l).
  assert (c_held c1 = c_held c ∧ (∀ l', grant_of <$> c_heap c1 !! l' = grant_of <$> c_heap c !! l')) as [Hc1 Hg1].
  { unfold c1, stopRenew. rewrite Hh. destruct (h_Stop h); [|done]. split; [done|]. intros l'. simpl.
    destruct (decide (l = l')) as [<-|Hne]; [by rewrite lookup_insert_eq, Hh|by rewrite lookup_insert_ne]. }
  assert (forget_in KLock c1 n (h_Token h) = set_tab KLock c1 (delete n (c_held c))) as Hforget.
  { unfold forget_in. simpl. rewrite Hc1, Hheld. simpl. pose proof (Hg1 l) as Hl. rewrite Hh in Hl.
    destruct (c_heap c1 !! l) as [h1|]; [|done]. injection Hl as _ _ ->. by rewrite Z.eqb_refl. }
  assert (held (lock_abs (Locks.Release t n (h_Who h) (h_Token h)).1.1) !! n ≠ Some (h_Who h, h_Token h) ∧
    ∀ n', n' ≠ n → locks (Locks.Release t n (h_Who h) (h_Token h)).1.1 !! n' = locks t !! n') as [Hgone Hothers].
  { unfold Release. rewrite Hv. destruct (locks t !! n) as [rec|] eqn:Hrec; [case_match eqn:Hm|].
    - cbn [fst snd]. rewrite lock_abs_lookup, Hrec. split; [|done]. simpl. intros [= Hgh Hgt].
      apply not_false_iff_true in Hm. rewrite lock_match_iff in Hm. congruence.
    - cbn [fst snd]. rewrite lock_abs_lookup. simpl. rewrite lookup_delete_eq. split; [done|]. intros. by rewrite lookup_delete_ne by done.
    - cbn [fst snd]. by rewrite lock_abs_lookup, Hrec. }
  destruct (Locks.Release t n (h_Who h) (h_Token h)) as [[t' [err|]] es]; simpl in *;
    rewrite ?Hn, Hforget; eexists _, _, _; (split; [reflexivity|]); simpl; (split; [done|]); (split; [done|]);
    split; [intros h' [= <-]; done|done|intros h' [= <-]; done|done].
Qed.

Lemma release_many ls ns c t :
  0 < fuel → NoDup ns → Forall2 (λ l n, givable c n l) ls ns →
  ∃ c' t', give_all (release leader_daemon ctx fuel) (c, t) ls = ((c', t'), true) ∧
    (∀ n, c_held c' !! n = if decide (n ∈ ns) then None else c_held c !! n) ∧
    (∀ n l h, n ∈ ns → c_held c !! n = Some l → c_heap c !! l = Some h →
       held (lock_abs t') !! n ≠ Some (h_Who h, h_Token h)) ∧
    (∀ n, n ∉ ns → locks t' !! n = locks t !! n).
Proof.
  intros Hf Hnd Hall. revert c t Hall Hnd. induction ls as [|l ls IH] in ns |- *; intros c t Hall Hnd.
  - apply Forall2_nil_inv_l in Hall as ->. exists c, t. split_and!; [done| |set_solver|done].
    intros n. by rewrite decide_False by set_solver.
  - apply Forall2_cons_inv_l in Hall as (n & ns' & Hl & Hall & ->). apply NoDup_cons in Hnd as [Hni Hnd].
    destruct (release_one c t n l Hf Hl) as (c1 & t1 & r & Hrel & Hheld1 & Hg1 & Hgone & Hoth).
    destruct (IH ns' c1 t1) as (c' & t' & Hga & Hheld & Hgn & Ho); [|done|].
    { eapply Forall2_impl_r; [exact Hall|]. intros l2 n2 Hn2 (Hh2 & h2 & Hhp & Hnm & Hv & Hw). split.
      - rewrite Hheld1, lookup_delete_ne; [done|]. by intros ->.
      - pose proof (Hg1 l2) as Hg. rewrite Hhp in Hg. destruct (c_heap c1 !! l2) as [h3|]; [|done].
        injection Hg as Ha Hb _. exists h3. split_and!; congruence. }
    exists c', t'. cbn [give_all]. rewrite Hrel. split; [done|]. split_and!.
    + intros n0. rewrite Hheld, Hheld1. destruct (decide (n0 = n)) as [->|Hne].
      * rewrite lookup_delete_eq. rewrite (decide_True (P := n ∈ n :: ns')) by set_solver. by case_decide.
      * rewrite lookup_delete_ne by done. repeat case_decide; set_solver.
    + intros n0 l0 h0 [->|Hin]%elem_of_cons Hl0 Hh0.
      * rewrite lock_abs_lookup, Ho, <-lock_abs_lookup by done. apply Hgone.
        destruct Hl as [Hl _]. congruence.
      * pose proof (Hg1 l0) as Hg. rewrite Hh0 in Hg. destruct (c_heap c1 !! l0) as [h3|] eqn:Hh3; [|done].
        injection Hg as _ <- <-. apply (Hgn n0 l0 h3); [done| |done].
        rewrite Hheld1, lookup_delete_ne; [done|]. by intros ->.
    + intros n0 Hn0. rewrite Ho, Hoth by set_solver. done.
Qed.

End closing.

(** ** A call that is sent again

    The network loses answers: an attempt is the handler of the leader at its own
    clock reading, and whether its answer is lost.  The client sees a lost answer as
    [Unavailable]. *)
Section lossy.
Context `{Unicode} (e : Engine) (dflt : Duration).

Abbreviation lossy_world := (Locks.Table * list (Time * bool))%type.
Definition lost : rpc_error := RpcStatus (Status Unavailable (Errorf "connection reset" [])).

Definition lossy_TryLock (w : lossy_world) (req : LockRequest) : lossy_world * result rpc_error LockResponse :=
  match w with
  | (t, []) => ((t, []), Fail lost)
  | (t, (now, b) :: rest) =>
    let r := rpc (lock_node now e true unreachable dflt t req) in
    ((r.1, rest), if b then Fail lost else r.2)
  end.
Definition patient : Ctx lossy_world := MkCtx (λ _, None) (λ w _, (w, true)).

(** What a caller is told, the deadline apart. *)
Definition told (r : result rpc_error LockResponse) : result rpc_error (bool * string * Z * string) :=
  match r with
  | Ok p => Ok (lp_Acquired p, lp_Message p, lp_FencingToken p, lp_Holder p)
  | Fail x => Fail x
  end.

(** An acquire that is applied again says the same and leaves the same grants. *)
Lemma acquire_twice now now' t n h d d' ttl ttl' :
  let x := Locks.Acquire now t n h d ttl in
  let y := Locks.Acquire now' x.1.1 n h d' ttl' in
  y.1.2 = x.1.2 ∧ lock_abs y.1.1 = lock_abs x.1.1.
Proof.
  intros x. destruct (Locks.ValidName n) as [err|] eqn:Hv; [by unfold x, Locks.Acquire; rewrite Hv|].
  destruct (str_empty h) eqn:Hh; [by unfold x, Locks.Acquire; rewrite Hv, Hh|].
  assert (∀ tok, x.1.2 = Ok (tok, true) →
    ∃ rec, locks x.1.1 !! n = Some rec ∧ lk_Holder rec = h ∧ lk_Token rec = tok) as Hgr.
  { intros tok (r & ? & ? & ? & _)%lock_Acquire_granted. by exists r. }
  assert ((∃ tok, x.1.2 = Ok (tok, true)) ∨ x.1.1 = t ∧ Locks.Acquire now' t n h d' ttl' = x)
    as [[tok Htok]|[Heq Hy]]; [| |by rewrite Heq, Hy; simpl; rewrite Heq].
  { unfold x, Locks.Acquire. rewrite Hv, Hh. go_cases; eauto. }
  destruct (Hgr tok Htok) as (rec & Hrec & Hrh & Hrt). rewrite Htok. clearbody x. unfold Locks.Acquire.
  rewrite Hv, Hh, Hrec, Hrh, String.eqb_refl. cbn [fst snd]. rewrite Hrt. by rewrite lock_abs_refresh.
Qed.

(** What the leader answers is a function of the result and the grants. *)
Definition answer (g : Grants) (n h : string) (r : result error (Z * bool))
    : result rpc_error (bool * string * Z * string) :=
  match r with
  | Fail err => Fail (RpcStatus (Status Internal (Errorf "trylock: %v" [AErr err])))
  | Ok (_, false) => let x := default ("", 0%Z) (held g !! n) in Ok (false, "held", x.2, x.1)
  | Ok (tok, true) => Ok (true, "", tok, h)
  end.

Lemma leader_told now t req :
  Locks.ValidName (lq_Name req) = None → rejectIfObserver e = None →
  let ttl := Locks.ClampTTL (LockService.ttlFromMs dflt (lq_TtlMs req) 0) 0 in
  let h := LockService.holder (λ _ : Locks.Table, e) t (lq_Holder req) in
  let x := Locks.Acquire now t (lq_Name req) h (Add now ttl) ttl in
  let r := lock_node now e true unreachable dflt t req in
  r.1 = x.1.1 ∧ told (rpc r).2 = answer (lock_abs x.1.1) (lq_Name req) h x.1.2.
Proof.
  intros Hv Ho ttl h x r. unfold r. rewrite leader_acquires by done. cbn -[Locks.Acquire].
  fold ttl. fold h. fold x. destruct x as [[t' [[tok []]|err]] es]; [done| |done]. split; [done|].
  cbn -[lock_abs]. rewrite lock_abs_lookup. unfold Locks.Get. by destruct (locks t' !! _).
Qed.

Lemma reacquire now now' t req :
  let r := lock_node now e true unreachable dflt t req in
  let r' := lock_node now' e true unreachable dflt r.1 req in
  told (rpc r').2 = told (rpc r).2 ∧ lock_abs r'.1 = lock_abs r.1.
Proof.
  intros r r'.
  destruct (Locks.ValidName (lq_Name req)) as [err|] eqn:Hv;
    [|destruct (rejectIfObserver e) as [st|] eqn:Ho].
  1-2: by unfold r', r, lock_node, LockService.TryLock, LockService.guarded; rewrite Hv, ?Ho.
  destruct (leader_told now t req Hv Ho) as [Hr Ht]. destruct (leader_told now' r.1 req Hv Ho) as [Hr' Ht'].
  fold r in Hr, Ht. fold r' in Hr', Ht'. rewrite Ht, Ht', Hr', Hr. unfold LockService.holder.
  match goal with |- answer (lock_abs ?y.1.1) _ _ _ = answer (lock_abs ?x.1.1) _ _ _ ∧ _ =>
    assert (y.1.2 = x.1.2 ∧ lock_abs y.1.1 = lock_abs x.1.1) as [-> ->] by apply acquire_twice end.
  done.
Qed.

Lemma leader_final now t req err :
  (rpc (lock_node now e true unreachable dflt t req)).2 = Fail err → transient err = false.
Proof.
  destruct (Locks.ValidName (lq_Name req)) as [v|] eqn:Hv;
    [|destruct (rejectIfObserver e) as [st|] eqn:Ho].
  1: unfold lock_node, LockService.TryLock, LockService.guarded; rewrite Hv; by intros [= <-].
  - unfold lock_node, LockService.TryLock, LockService.guarded; rewrite Hv, Ho.
    unfold rejectIfObserver in Ho. case_match; [|done]. injection Ho as <-. by intros [= <-].
  - rewrite leader_acquires by done. cbn -[Locks.Acquire].
    destruct (Locks.Acquire _ _ _ _ _ _) as [[t' [[tok []]|x]] es]; simpl; [done..|]. by intros [= <-].
Qed.

Lemma attempt_lost t now rest req fuel b last :
  retry_loop patient (λ w, lossy_TryLock w req) (S fuel) (t, (now, true) :: rest) b last =
  retry_loop patient (λ w, lossy_TryLock w req) fuel
    ((lock_node now e true unreachable dflt t req).1, rest) (nextBackoff b) (Some lost).
Proof. done. Qed.
Lemma attempt_final t now rest req fuel b last :
  retry_loop patient (λ w, lossy_TryLock w req) (S fuel) (t, (now, false) :: rest) b last =
  let r := rpc (lock_node now e true unreachable dflt t req) in ((r.1, rest), Some r.2).
Proof.
  pose proof (leader_final now t req) as Hf. cbn [retry_loop]. cbn -[lock_node rpc transient].
  destruct (rpc (lock_node now e true unreachable dflt t req)) as [t' [p|x]]; [done|].
  cbn -[transient] in *. by rewrite (Hf x).
Qed.

(** The attempts after one that was applied. *)
Lemma retried now t req lates final fuel b last :
  length lates < fuel →
  let first := lock_node now e true unreachable dflt t req in
  ∃ w r, retry_loop patient (λ w, lossy_TryLock w req) fuel
           (first.1, ((λ n, (n, true)) <$> lates) ++ [(final, false)]) b last = (w, Some r) ∧
    told r = told (rpc first).2 ∧ lock_abs w.1 = lock_abs first.1.
Proof.
  revert now t fuel b last. induction lates as [|n lates IH]; intros now t fuel b last Hf first;
    (destruct fuel as [|fuel]; [simpl in Hf; lia|]).
  - simpl app. rewrite attempt_final. eexists _, _. split; [reflexivity|]. apply (reacquire now final t req).
  - simpl app. rewrite attempt_lost. simpl in Hf.
    destruct (IH n first.1 fuel (nextBackoff b) (Some lost)) as (w & r & Hr & Ht & Ha); [lia|].
    exists w, r. split; [exact Hr|]. destruct (reacquire now n t req) as [Ht' Ha'].
    split; [rewrite Ht; exact Ht'|rewrite Ha; exact Ha'].
Qed.

End lossy.

Module SdkGrantExamples.
#[export] Existing Instance latin1.
(** A client that holds the lock [a] under token 1. *)
Definition ha : Handle := MkHandle "a" "sdk-1" 1 100 true true.
Definition holder_of_a : client := MkClient "sdk-1" {[0 := ha]} 1 {["a" := 0]} ∅.
Definition table_a : Locks.Table := Locks.MkTable {["a" := MkLock "a" "sdk-1" 1 5 100 95]} 1 false.
Definition down {W} : Daemon W :=
  MkDaemon (λ w _, (w, Fail lost)) (λ w _, (w, Fail lost)) (λ w _, (w, Fail lost)) (λ w _, (w, Fail lost))
    (λ w _, (w, Fail lost)) (λ w _, (w, Fail lost)) (λ w _, (w, Fail lost)).
Definition always {W} : Ctx W := MkCtx (λ _, None) (λ w _, (w, true)).

Lemma holder_of_a_ok : client_ok holder_of_a.
Proof.
  split.
  - intros [] n l; simpl; [|by rewrite lookup_empty].
    intros [<- <-]%lookup_singleton_Some. by exists ha.
  - intros l [h Hh]. change (({[0 := ha]} : gmap nat Handle) !! l = Some h) in Hh.
    apply lookup_singleton_Some in Hh as [<- _]. simpl. lia.
Qed.

Lemma sdk_renewal_dies_in_election_witness :
  let w := (table_a, MemberExamples.self) in
  let s := lock_tick (lock_daemon LockServiceExamples.table LockServiceExamples.set_table snd
             (Some LockServiceExamples.not_leading) LockServiceExamples.no_peers Second 7 down) false (holder_of_a, w) 0 in
  TryLock down always 1 (s.1, (Locks.New, MemberExamples.self)) "a" Second =
    ((s.1, (Locks.New, MemberExamples.self)), Some (Ok (Mine 0, true))).
Proof.
  intros w s.
  destruct (sdk_renewal_dies_in_election LockServiceExamples.table LockServiceExamples.set_table snd
    (Some LockServiceExamples.not_leading) LockServiceExamples.no_peers Second LockServiceExamples.not_leading 7 down
    holder_of_a w "a" 0 ha) as (_ & _ & Hheld); [reflexivity|reflexivity|apply MemberExamples.self_reachable|
    reflexivity|reflexivity|right; reflexivity|reflexivity..|].
  apply Hheld.
Defined.


End SdkGrantExamples.
