(* ===== verification/Timeline.v ===== *)
(** * Timeline: a lock under the clock

    The lock table of the leader over time: operations of its clients, ticks of
    [locks.RunExpirer] ([internal/locks/expirer.go]), and the renewals of the Go
    client ([startRenew] of [sdk/lock.go]), whose goroutine works as [Ticker]
    says.  The theorems say when a held lock survives and when an abandoned one is
    free. *)
From S2P Require Import Prelude Events GrantSpec Ticker Locks Leases Membership FSM Node LockService Presence Config Sdk SdkGrants.
Import LockService.LockWait.

Inductive tevent : Type := EOp (o : top) | ETick.

Section timeline.
Context `{Unicode}.

Definition tstep (t : Locks.Table) (e : Time * tevent) : Locks.Table :=
  match e.2 with
  | EOp o => (tapply t o).1
  | ETick => Locks.RunExpirer_tick t (Some true) (λ s n k, (Locks.Expire s n k).1.1) e.1 t
  end.
Definition trun (t : Locks.Table) (l : list (Time * tevent)) : Locks.Table := foldl tstep t l.

(** Operations that leave the grant [(n, k)] of [h] alone. *)
Definition foreign (n h : string) (k : Z) (o : top) : Prop :=
  match o with
  | TAcquire _ n' h' _ _ => (n', h') ≠ (n, h)
  | TRelease n' h' k' => (n', h', k') ≠ (n, h, k)
  | TRenew n' h' k' _ _ => (n', h', k') ≠ (n, h, k)
  | TExpire n' k' => (n', k') ≠ (n, k)
  | TRestore _ => False
  end.

Lemma tapply_wf t o : match o with TRestore _ => False | _ => True end → lock_wf t → lock_wf (tapply t o).1.
Proof.
  intros Ho Hwf. destruct o as [now n h d u|n h k|n h k d u|n k|s]; [..|done]; simpl.
  - destruct (Locks.Acquire _ _ _ _ _ _) as [[t' r] es] eqn:Ha. by eapply lock_Acquire_wf.
  - destruct (Locks.Release _ _ _ _) as [[t' r] es] eqn:Ha. by eapply lock_Release_wf.
  - destruct (Locks.Renew _ _ _ _ _ _) as [[t' r] es] eqn:Ha. by eapply lock_Renew_wf.
  - destruct (Locks.Expire _ _ _) as [[t' r] es] eqn:Ha. by eapply lock_Expire_wf.
Qed.

Lemma foreign_keeps t n h k r o :
  locks t !! n = Some r → lk_Holder r = h → lk_Token r = k → foreign n h k o → locks (tapply t o).1 !! n = Some r.
Proof.
  intros Hn Hh Hk Hf. destruct o as [now n' h' d u|n' h' k'|n' h' k' d u|n' k'|s]; simpl in *; [..|done].
  - unfold Locks.Acquire. destruct (Locks.ValidName n'); [done|]. destruct (str_empty h'); [done|].
    destruct (decide (n' = n)) as [->|Hne].
    + rewrite Hn. destruct (String.eqb_spec (lk_Holder r) h'); [exfalso; apply Hf; congruence|done].
    + repeat case_match; simpl; rewrite ?lookup_insert_ne by done; done.
  - unfold Locks.Release. repeat case_match; simpl; try done.
    destruct (decide (n' = n)) as [->|]; [|by rewrite lookup_delete_ne]. exfalso.
    match goal with H : negb _ || negb _ = false |- _ => apply lock_match_iff in H end. apply Hf. congruence.
  - unfold Locks.Renew. repeat case_match; simpl; try done.
    destruct (decide (n' = n)) as [->|]; [|by rewrite lookup_insert_ne]. exfalso.
    match goal with H : negb _ || negb _ = false |- _ => apply lock_match_iff in H end. apply Hf. congruence.
  - unfold Locks.Expire. repeat case_match; simpl; try done; breflect;
      (destruct (decide (n' = n)) as [->|]; [|by rewrite lookup_delete_ne]); exfalso; apply Hf; congruence.
Qed.

(** The renewal of the grant that the leader commits at [now]. *)
Definition renewal (n h : string) (k : Z) (ttl : Duration) (now : Time) : top :=
  let c := timed CmdLockRenew h n k now ttl in TRenew n h k (deadlineOf c) (ttlOf c).

(** A trace whose last event is a renewal: [rs] are the times of the renewals,
    everything else leaves the grant alone, times do not go back. *)
Inductive renewed (n h : string) (k : Z) (ttl : Duration) : Time → list Time → list (Time * tevent) → Prop :=
  | renewed_last now τ : (now ≤ τ)%Z → renewed n h k ttl now [τ] [(τ, EOp (renewal n h k ttl τ))]
  | renewed_own now τ rs l : (now ≤ τ)%Z → renewed n h k ttl τ rs l →
      renewed n h k ttl now (τ :: rs) ((τ, EOp (renewal n h k ttl τ)) :: l)
  | renewed_tick now τ rs l : (now ≤ τ)%Z → renewed n h k ttl τ rs l → renewed n h k ttl now rs ((τ, ETick) :: l)
  | renewed_op now τ o rs l : (now ≤ τ)%Z → foreign n h k o → renewed n h k ttl τ rs l →
      renewed n h k ttl now rs ((τ, EOp o) :: l).

Lemma renewed_head n h k ttl now rs l : renewed n h k ttl now rs l → ∃ τ rs', rs = τ :: rs' ∧ (now ≤ τ)%Z.
Proof. induction 1; naive_solver lia. Qed.

(** The grant is held with a deadline less than a millisecond before [τ + ttl]. *)
Definition held_from (t : Locks.Table) (n h : string) (k : Z) (ttl : Duration) (τ : Time) : Prop :=
  ∃ r, locks t !! n = Some r ∧ lk_Holder r = h ∧ lk_Token r = k ∧ (τ + ttl < lk_Deadline r + Millisecond)%Z.

Lemma Renew_held t n h k ttl τ now :
  (0 ≤ now)%Z → (now + ttl < two63 * Millisecond)%Z → (Millisecond ≤ ttl ≤ 24 * Hour)%Z →
  lock_wf t → held_from t n h k ttl τ →
  held_from (tapply t (renewal n h k ttl now)).1 n h k ttl now ∧
  ∀ d u, (Locks.Renew t n h k d u).1.2 = None.
Proof.
  intros Hnow Hmax Httl Hwf (r & Hr & Hh & Hk & _). destruct (timed_bounds CmdLockRenew h n k now ttl Hnow Hmax Httl) as (Hd & _).
  destruct (lwf_entry _ Hwf _ _ Hr) as (_ & Hv & _).
  assert (negb (String.eqb (lk_Holder r) h) || negb (lk_Token r =? k)%Z = false) as Hm by (apply lock_match_iff; congruence).
  unfold renewal. simpl. unfold Locks.Renew. rewrite Hv, Hr, Hm. split; [|done].
  unfold held_from. cbn -[deadlineOf ttlOf timed]. rewrite lookup_insert_eq. eexists. split; [done|].
  cbn -[deadlineOf ttlOf timed]. split_and!; [done..|]. lia.
Qed.

Lemma renewed_survives n h k ttl now rs l t τ0 :
  renewed n h k ttl now rs l → lock_wf t → held_from t n h k ttl τ0 →
  (0 ≤ now)%Z → Forall (λ τ, τ + ttl < two63 * Millisecond)%Z rs → (Millisecond ≤ ttl ≤ 24 * Hour)%Z →
  chain (λ x y, y - x + Millisecond ≤ ttl)%Z τ0 rs →
  ∀ pre τ post, l = pre ++ (τ, EOp (renewal n h k ttl τ)) :: post →
  ∃ r, locks (trun t pre) !! n = Some r ∧ lk_Holder r = h ∧ lk_Token r = k.
Proof.
  intros Hren Hwf Hheld Hnow Hmax Httl Hch. revert t τ0 Hwf Hheld Hnow Hmax Hch.
  induction Hren as [now τ Hle|now τ rs l Hle Hren IH|now τ rs l Hle Hren IH|now τ o rs l Hle Hf Hren IH];
    intros t τ0 Hwf Hheld Hnow Hmax Hch pre τ' post Heq.
  all: destruct pre as [|e pre]; simplify_eq/=; try by destruct Hheld as (r & ? & ? & ? & _); exists r.
  - by destruct pre.
  - apply Forall_cons in Hmax as [Hmx Hmax]. destruct Hch as [_ Hch].
    destruct (Renew_held t n h k ttl τ0 τ) as [Hh' _]; [lia|done..|].
    eapply (IH _ τ); [by apply tapply_wf|done|lia|done|done|done].
  - destruct (lock_tick_lookup t τ Hwf) as (_ & Hwf' & Hlk).
    eapply (IH _ τ0); [exact Hwf'| |lia|done|done|done].
    destruct Hheld as (r & Hr & Hh & Hk & Hd). exists r. rewrite Hlk, Hr. split; [|done].
    destruct (renewed_head _ _ _ _ _ _ _ Hren) as (τ1 & rs' & -> & Hτ1). destruct Hch as [Hg _].
    assert (After (lk_Deadline r) τ = true) as Ha by (apply Z.ltb_lt; lia).
    unfold Locks.due_at. by rewrite Ha, andb_false_r.
  - eapply (IH _ τ0); [|by destruct Hheld as (r & ? & ? & ? & ?); exists r; split; [by eapply foreign_keeps|]|lia|done|done|done].
    apply tapply_wf; [|done]. by destruct o.
Qed.

(** The lifetime the daemon grants a lock asked for with [ttl]. *)
Definition granted (defaultTTL ttl : Duration) : Duration :=
  Locks.ClampTTL (LockService.ttlFromMs defaultTTL (ttlMs ttl) 0) 0.

Lemma granted_ms d ttl :
  (Millisecond ≤ ttl < two63)%Z →
  granted d ttl = Z.min (ttl `div` Millisecond * Millisecond) Locks.MaxTTL.
Proof.
  intros Ht. unfold granted, ttlMs. rewrite (proj2 (Z.leb_gt ttl 0)) by (unfold Millisecond in *; lia).
  assert (Milliseconds ttl = ttl `div` Millisecond)%Z as Hm.
  { unfold Milliseconds. apply Z.quot_div_nonneg; unfold Millisecond in *; lia. }
  pose proof (Z.div_mod ttl Millisecond ltac:(done)) as Hdm. pose proof (Z.mod_pos_bound ttl Millisecond ltac:(done)).
  assert (1 ≤ ttl `div` Millisecond)%Z by (apply Z.div_le_lower_bound; unfold Millisecond in *; lia).
  rewrite Hm, LockService.ttlFromMs_min by (unfold Millisecond in *; lia).
  set (m := Z.min _ _). assert (Locks.MinTTL ≤ m ≤ Locks.MaxTTL)%Z.
  { unfold m, Locks.MinTTL, Locks.MaxTTL, Hour, Millisecond in *. lia. }
  unfold Locks.ClampTTL. unfold Locks.MinTTL, Locks.MaxTTL, Hour, Millisecond in *. repeat case_match; breflect; lia.
Qed.

(** Commits of renewals [rs] that fall into the works of the renewing goroutine. *)
Lemma chain_commits {A} (R : A → A → Prop) (S : Z → Z → Prop) (inside : Z → A → Prop) x y r rs ws :
  (∀ r w, inside r w → ∀ r' w', inside r' w' → R w w' → S r r') →
  inside r x → (∀ r1 w1, inside r1 w1 → R x w1 → S y r1) →
  Forall2 inside rs ws → chain R x ws → chain S y rs.
Proof.
  intros HS _ Hy Hf. revert x y Hy. induction Hf as [|r1 w1 rs ws Hin Hf IH]; intros x y Hy Hc; simpl in *; [done|].
  destruct Hc as [HR Hc]. split; [by eapply Hy|]. apply (IH w1 r1); [|done]. intros r2 w2 Hin2 HR2. by eapply HS.
Qed.

(** C10: A lock the Go client renews survives.  The goroutine of [startRenew] works
    every [renewInterval]; when a call takes at most [δ] and the longest gap,
    [max δ interval + 2 δ], is a millisecond less than the granted lifetime, then,
    whatever the other clients do to the table and whenever the leader's expirer
    ticks, every renewal finds the lock still held under its token.  But the
    interval comes from the lifetime that was asked for, at least 50 ms, not from
    the one granted: with a lifetime of up to 50 ms, or of 72 hours and more (of
    which 24 are granted), every renewal begins after the deadline. *)
Theorem sdk_lock_survives t n h k d ttl δ r0 t0 now0 dl durs rs l :
  let g := granted d ttl in
  let interval := renewInterval now0 dl ttl in
  let works := works_from interval t0 durs in
  (Millisecond ≤ ttl < two63)%Z → (0 ≤ r0 ≤ t0)%Z → (t0 - r0 ≤ δ)%Z → Forall (λ d, 0 ≤ d ≤ δ)%Z durs →
  lock_wf t → held_from t n h k g r0 →
  renewed n h k g r0 rs l → Forall2 (λ r (w : Time * Time), w.1 ≤ r ≤ w.2)%Z rs works →
  Forall (λ τ, τ + g < two63 * Millisecond)%Z rs →
  ((Z.max δ interval + 2 * δ + Millisecond ≤ g)%Z →
   ∀ pre τ post, l = pre ++ (τ, EOp (renewal n h k g τ)) :: post →
   ∃ r, locks (trun t pre) !! n = Some r ∧ lk_Holder r = h ∧ lk_Token r = k) ∧
  ((ttl ≤ 50 * Millisecond ∨ 72 * Hour ≤ ttl)%Z → Forall (λ w : Time * Time, r0 + g ≤ w.1)%Z works).
Proof.
  intros g interval works Httl Hr0 Hδ Hds Hwf Hheld Hren Hin Hmax.
  pose proof (granted_ms d ttl Httl) as Hg. fold g in Hg.
  pose proof (Z.div_mod ttl Millisecond ltac:(done)) as Hdm. pose proof (Z.mod_pos_bound ttl Millisecond ltac:(done)).
  assert (1 ≤ ttl `div` Millisecond)%Z by (apply Z.div_le_lower_bound; unfold Millisecond in *; lia).
  assert (interval = Z.max (50 * Millisecond) (ttl `quot` 3))%Z as Hiv.
  { unfold interval, renewInterval. rewrite (proj2 (Z.leb_gt ttl 0)) by (unfold Millisecond in *; lia).
    rewrite (proj2 (Z.leb_gt ttl 0)) by (unfold Millisecond in *; lia).
    destruct (Z.ltb_spec (ttl `quot` 3) (50 * Millisecond)); lia. }
  split.
  - intros Hgap. eapply renewed_survives; [exact Hren|done|exact Hheld|lia|done| |].
    { unfold Locks.MaxTTL, Hour, Millisecond in *. lia. }
    pose proof (works_from_gap interval δ t0 durs ltac:(unfold Millisecond in *; lia) ltac:(lia) Hds) as Hch.
    fold works in Hch.
    eapply (chain_commits _ _ (λ r (w : Time * Time), w.1 ≤ r ≤ w.2)%Z (t0, t0) r0 t0); [| | |exact Hin|exact Hch].
    + intros r w Hw r' w' Hw' HR. simpl in *. lia.
    + simpl. lia.
    + intros r1 w1 Hw1 HR. simpl in *. lia.
  - intros Hext. assert (g ≤ interval)%Z as Hle.
    { assert (3 * (ttl `quot` 3) ≤ ttl < 3 * (ttl `quot` 3) + 3)%Z as Hq.
      { pose proof (Z.quot_rem' ttl 3). pose proof (Z.rem_bound_pos ttl 3). unfold Millisecond in *. lia. }
      unfold Locks.MaxTTL, Hour, Millisecond in *. lia. }
    eapply Forall_impl; [apply (schedule_late interval t0 0 t0 durs); unfold Millisecond in *; lia|].
    intros w. simpl. lia.
Qed.

(** Everything but the grant's own client, and ticks before its deadline. *)
Definition abandoned (n h : string) (k : Z) (dl : Time) (e : Time * tevent) : Prop :=
  match e.2 with EOp o => foreign n h k o | ETick => (e.1 < dl)%Z end.

Lemma abandoned_keeps t n r l :
  lock_wf t → locks t !! n = Some r → Forall (abandoned n (lk_Holder r) (lk_Token r) (lk_Deadline r)) l →
  lock_wf (trun t l) ∧ locks (trun t l) !! n = Some r.
Proof.
  intros Hwf Hr Hl. revert t Hwf Hr. induction Hl as [|[τ e] l He _ IH]; intros t Hwf Hr; simpl; [done|].
  destruct e as [o|]; unfold abandoned in He; simpl in He; apply IH.
  - apply tapply_wf; [by destruct o|done].
  - by eapply foreign_keeps.
  - by apply lock_tick_lookup.
  - destruct (lock_tick_lookup t τ Hwf) as (_ & _ & Hlk). unfold tstep. simpl. rewrite Hlk, Hr.
    assert (After (lk_Deadline r) τ = true) as Ha by (apply Z.ltb_lt; lia).
    unfold Locks.due_at. by rewrite Ha, andb_false_r.
Qed.

Lemma first_after (gap D : Z) (x : Time * Time) ws :
  (x.1 ≤ D)%Z → chain (λ x y : Time * Time, y.1 - x.1 ≤ gap)%Z x ws → Exists (λ w : Time * Time, D ≤ w.1)%Z ws →
  ∃ w, w ∈ ws ∧ (D ≤ w.1 ≤ D + gap)%Z.
Proof.
  revert x; induction ws as [|w ws IH]; intros x Hx Hc He; simpl in *; [by inv He|].
  destruct Hc as [Hg Hc]. destruct (Z.leb_spec D w.1) as [Hle|Hlt].
  - exists w. split; [by left|lia].
  - destruct (IH w ltac:(lia) Hc) as (w' & Hin & Hw'); [inv He; [lia|done]|]. exists w'. split; [by right|done].
Qed.

(** C11: An abandoned lock is freed.  When the client of a lock neither renews nor
    releases it, the leader's expirer, whose ticks take at most [δ] each, has a tick
    no later than its interval (or [δ], if that is longer) after the deadline; that
    tick frees the lock, whatever the other clients did before, and from then on a
    client that asks gets it with the next token. *)
Theorem abandoned_lock_freed t n r interval δ t0 durs :
  let works := works_from (Locks.RunExpirer_interval interval) t0 durs in
  let D := lk_Deadline r in
  lock_wf t → locks t !! n = Some r → IsZero D = false → (0 ≤ δ)%Z → Forall (λ d, 0 ≤ d ≤ δ)%Z durs →
  (t0 ≤ D)%Z → Exists (λ w : Time * Time, D ≤ w.1)%Z works →
  ∃ w, w ∈ works ∧ (D ≤ w.1 ≤ D + Z.max δ (Locks.RunExpirer_interval interval))%Z ∧
    ∀ l, Forall (abandoned n (lk_Holder r) (lk_Token r) D) l →
      let t' := tstep (trun t l) (w.1, ETick) in
      Locks.Get t' n = None ∧
      ∀ now h dl ttl, h ≠ "" → size (locks t') < MaxLocks →
        (Locks.Acquire now t' n h dl ttl).1.2 = Ok (u64 (Locks.next t' + 1), true).
Proof.
  intros works D Hwf Hr Hz Hδ Hds Ht0 Hex.
  assert (0 < Locks.RunExpirer_interval interval)%Z as Hiv.
  { unfold Locks.RunExpirer_interval. destruct (Z.leb_spec interval 0); [done|lia]. }
  destruct (first_after (Z.max δ (Locks.RunExpirer_interval interval)) D (t0, t0) works) as (w & Hin & Hw); [done| |done|].
  { eapply chain_impl; [|by apply (works_from_gap _ δ)]. simpl. intros x y. lia. }
  exists w. split; [done|]. split; [done|]. intros l Hl t'.
  destruct (abandoned_keeps t n r l Hwf Hr Hl) as [Hwf' Hr'].
  destruct (lock_tick_lookup (trun t l) w.1 Hwf') as (_ & _ & Hlk).
  assert (locks t' !! n = None) as Hfree.
  { unfold t', tstep. simpl. rewrite Hlk, Hr'. unfold Locks.due_at. fold D. rewrite Hz.
    assert (After D w.1 = false) as -> by (apply Z.ltb_ge; lia). done. }
  split; [done|]. intros now h dl ttl Hh Hsz. destruct (lwf_entry _ Hwf _ _ Hr) as (_ & Hv & _).
  unfold Locks.Acquire. apply str_empty_false in Hh. rewrite Hv, Hh, Hfree, bool_decide_eq_false_2 by lia. done.
Qed.
End timeline.

(** ** The presence keeper's schedule *)

(** A node keeps its presence while the keeper's calls are quick: with calls of
    at most a third of the lifetime, a lease committed at one work is committed
    again before two thirds of it are over.  With the default configuration that
    bound is not enforced: a call may take the request timeout of 10 s, more than
    three times the presence lifetime of 3 s; a renewal that hangs (a leader that
    lost power, while its successor is elected) ends after the deadline, and the
    next work begins only then. *)
Theorem presence_keeper_gap cfg t0 durs home :
  let k := NewKeeper cfg in
  ((cf_RenewInterval cfg ≤ 0 → 3 ≤ cf_TTL k →
   Forall (λ d, 0 ≤ d ≤ cf_TTL k `quot` 3) durs →
   chain (λ x y : Time * Time, y.2 - x.1 ≤ 2 * (cf_TTL k `quot` 3) ∧ y.2 - x.1 < cf_TTL k) (t0, t0)
     (works_from (cf_RenewInterval k) t0 durs)) ∧
  (let c := Config.Defaults home in
   let kd := NewKeeper (Presence.MkConfig "n2" (Config.ce_PresenceTTL (Config.Lease c)) 0
               (Config.cg_RequestTimeout (Config.GRPC c))) in
   let r := cf_RenewInterval kd in
   r = Second ∧ works_from r t0 [0; cf_RequestTimeout kd; 0] =
     [(t0 + r, t0 + r); (t0 + 2 * r, t0 + 12 * r); (t0 + 12 * r, t0 + 12 * r)] ∧
   t0 + r + cf_TTL kd < t0 + 12 * r))%Z.
Proof.
  intros k. split.
  - intros Hi Httl Hds. assert (cf_RenewInterval k = cf_TTL k `quot` 3)%Z as ->.
    { unfold k, NewKeeper in *. simpl in *. rewrite (proj2 (Z.leb_le (cf_RenewInterval cfg) 0)) by done.
      destruct (Z.leb_spec ((if (cf_TTL cfg <=? 0)%Z then (3 * Second)%Z else cf_TTL cfg) `quot` 3) 0) as [Hle|]; [|done].
      exfalso. pose proof (Z.quot_le_mono 3 (if (cf_TTL cfg <=? 0)%Z then (3 * Second)%Z else cf_TTL cfg) 3 ltac:(lia) Httl).
      rewrite Z.quot_same in *; lia. }
    set (q := (cf_TTL k `quot` 3)%Z) in *.
    assert (1 ≤ q ∧ 3 * q ≤ cf_TTL k)%Z as [Hq1 Hq3].
    { pose proof (Z.quot_rem' (cf_TTL k) 3). pose proof (Z.rem_bound_pos (cf_TTL k) 3 ltac:(lia) ltac:(lia)).
      unfold q. lia. }
    eapply chain_impl; [|apply (works_from_gap q q t0 durs); [lia|lia|done]]. intros x y. cbv beta. lia.
  - intros c kd r. split; [done|]. assert (r = Second) as Hr by done. assert (cf_RequestTimeout kd = 10 * Second)%Z as ->.
    { done. }
    assert (cf_TTL kd = 3 * Second)%Z as -> by done. split; [|rewrite Hr; unfold Second; lia].
    unfold works_from. rewrite Hr. rewrite schedule_idle, schedule_idle, schedule_busy by (unfold Second; lia).
    unfold Second. cbn [schedule]. repeat (f_equal; try lia).
Qed.

(** ** A lock of 15 s, renewed twice, then abandoned *)
Module TimelineExamples.
#[export] Existing Instance latin1.
Definition sec (n : Z) : Z := (n * Second)%Z.
Definition table : Locks.Table := (Locks.Acquire 0 Locks.New "a" "n1" (sec 15) (sec 15)).1.1.
Definition rec : LockRecord := MkLock "a" "n1" 1 0 (sec 15) (sec 15).
Lemma table_wf : lock_wf table.
Proof. eapply lock_Acquire_wf; [by apply outcome_eta|]. apply lock_wf_New. Qed.
Lemma table_rec : locks table !! "a" = Some rec.
Proof. reflexivity. Qed.

Definition renew (s : Z) : Time * tevent := (sec s, EOp (renewal "a" "n1" 1 (granted 0 (sec 15)) (sec s))).
Definition trace : list (Time * tevent) := [(sec 3, ETick); renew 5; (sec 8, EOp (TAcquire (sec 8) "a" "n2" (sec 9) 5)); renew 10].

Lemma sdk_lock_survives_witness :
  ∃ r, locks (trun table (take 3 trace)) !! "a" = Some r ∧ lk_Holder r = "n1" ∧ lk_Token r = 1%Z.
Proof.
  refine (proj1 (sdk_lock_survives table "a" "n1" 1 0 (sec 15) 0 0 0 0 0 [0; 0]%Z [sec 5; sec 10] trace
    _ _ _ _ table_wf _ _ _ _) _ (take 3 trace) (sec 10) [] eq_refl);
    try (unfold sec, Second, Millisecond, two63; simpl; lia).
  - repeat constructor; lia.
  - exists rec. by vm_compute.
  - unfold trace, renew. apply renewed_tick; [done|]. apply renewed_own; [done|].
    apply renewed_op; [done|by intros [= ?]|]. apply renewed_last. done.
  - repeat constructor; done.
  - repeat constructor; done.
  - by vm_compute.
Defined.

Lemma abandoned_lock_freed_witness :
  ∃ w, (sec 15 ≤ w ≤ sec 15 + Z.max 0 (100 * Millisecond))%Z ∧
    Locks.Get (tstep (trun table [(sec 3, ETick)]) (w, ETick)) "a" = None.
Proof.
  destruct (abandoned_lock_freed table "a" rec 0 0 (sec 15 - 1)%Z [0]%Z) as (w & _ & Hw & Hfree);
    [apply table_wf|apply table_rec|done|done|by repeat constructor|by vm_compute|by left; vm_compute|].
  exists w.1. split; [exact Hw|]. apply (Hfree [(sec 3, ETick)]). by repeat constructor.
Defined.
End TimelineExamples.
