(* ===== verification/SdkWatch.v ===== *)
(** * SdkWatch: watching with the Go client ([sdk/watch.go], [watchLoop] of [sdk/client.go])

    [watchLoop] runs against a list of sessions, one per round of its outer loop:
    what opening the stream with the request of that round gives, the messages
    received, which of them lose the [select] against the context, and the error
    that ends the stream. *)
From S2P Require Import Prelude Events Membership Bus Watch LockService Sdk.

Definition maxWatchTopicLen : nat := 128.

Record watchOptions := MkWatchOptions { wo_topics : list string; wo_eventTypes : list string }.
Inductive WatchOption : Type := WithTopics (topics : list string) | WithEventTypes (types : list string) | NilWatchOption.

Definition apply_watch_option (o : watchOptions) (opt : WatchOption) : watchOptions :=
  match opt with
  | WithTopics ts => MkWatchOptions (wo_topics o ++ ts) (wo_eventTypes o)
  | WithEventTypes ts => MkWatchOptions (wo_topics o) (wo_eventTypes o ++ ts)
  | NilWatchOption => o
  end.

Section options.
Context `{Unicode}.

Definition validWatchTopic (topic : string) : option error :=
  if str_empty topic then Some (Errorf "topic is required" []) else
  if bool_decide (maxWatchTopicLen < String.length topic)
  then Some (Errorf "topic exceeds %d characters" [ANum (Z.of_nat maxWatchTopicLen)]) else
  match List.find (λ r, negb (IsLetter r) && negb (IsDigit r) && negb (r =? 46)%Z &&
                        negb (r =? 95)%Z && negb (r =? 45)%Z) (runes topic) with
  | Some r => Some (Errorf "topic contains invalid character %q" [ARune r])
  | None => None
  end.

(** The loops of the two normalisations: [seen] and [out]. *)
Fixpoint normalize_topics_loop (rest : list string) (seen : gset string) (out : list string) : result error (list string) :=
  match rest with
  | [] => Ok out
  | raw :: rest =>
    let t := TrimPrefix (TrimSpaceS raw) "custom." in
    if str_empty t then normalize_topics_loop rest seen out else
    match validWatchTopic t with
    | Some err => Fail (Errorf "clusdr: watch topic %q: %w" [AStr raw; AErr err])
    | None =>
      if decide (t ∈ seen) then normalize_topics_loop rest seen out
      else normalize_topics_loop rest ({[t]} ∪ seen) (out ++ [t])
    end
  end.
Definition normalizeWatchTopics (topics : list string) : result error (list string) :=
  normalize_topics_loop topics ∅ [].

Fixpoint normalize_types_loop (rest : list string) (seen : gset string) (out : list string) : list string :=
  match rest with
  | [] => out
  | raw :: rest =>
    let t := TrimSpaceS raw in
    if str_empty t then normalize_types_loop rest seen out else
    if decide (t ∈ seen) then normalize_types_loop rest seen out
    else normalize_types_loop rest ({[t]} ∪ seen) (out ++ [t])
  end.
Definition normalizeWatchTypes (types : list string) : list string := normalize_types_loop types ∅ [].

Definition applyWatchOptions (opts : list WatchOption) : result error watchOptions :=
  let o := foldl apply_watch_option (MkWatchOptions [] []) opts in
  topics ← normalizeWatchTopics (wo_topics o);
  Ok (MkWatchOptions topics (normalizeWatchTypes (wo_eventTypes o))).
End options.

(** ** The loop *)

Record session := MkSession {
  ss_ctxErr : bool;                        (* [ctx.Err() != nil] at the top of the round *)
  ss_open : option rpc_error;              (* the error of opening the stream *)
  ss_msgs : list (WatchResponse * bool);   (* received; [false]: the context is done first *)
  ss_err : rpc_error;                      (* what ends the stream *)
  ss_errDone : bool;                       (* [ctx.Err() != nil] when an error is looked at *)
  ss_slept : Duration → bool;              (* [sleepBackoff] *)
}.

Definition sdkEvent (resp : WatchResponse) : Event :=
  MkEvent (w_Type resp) (w_Source resp) (w_Payload resp) (FromUnixMilli (w_TimestampUnixMs resp)) (w_Seq resp).

Definition raise (lastSeq seq : Z) : Z := if (lastSeq <? seq)%Z then seq else lastSeq.

(** The receiving loop: the new [lastSeq], what reached the channel, and whether
    the stream's error was reached. *)
Fixpoint recv_loop (lastSeq : Z) (msgs : list (WatchResponse * bool)) : Z * list Event * bool :=
  match msgs with
  | [] => (lastSeq, [], true)
  | (resp, delivered) :: msgs =>
    let lastSeq := raise lastSeq (w_Seq resp) in
    if delivered then let '(l, out, go) := recv_loop lastSeq msgs in (l, sdkEvent resp :: out, go)
    else (lastSeq, [], false)
  end.

(** An error after which the loop returns. *)
Definition fatal (ctxDone : bool) (err : rpc_error) : bool :=
  ctxDone || bool_decide (status_Code err = Some Canceled) || bool_decide (status_Code err = Some InvalidArgument).

Definition watch_req (wo : watchOptions) (seq : Z) : WatchRequest :=
  MkWatchRequest (wo_eventTypes wo) (wo_topics wo) seq.

(** The requests sent, the events delivered, and whether the channel is closed. *)
Fixpoint watchLoop (wo : watchOptions) (lastSeq : Z) (backoff : Duration) (env : list (WatchRequest → session))
    : list WatchRequest * list Event * bool :=
  match env with
  | [] => ([], [], false)
  | serve :: env =>
    let req := watch_req wo lastSeq in
    let s := serve req in
    if ss_ctxErr s then ([], [], true) else
    match ss_open s with
    | Some err =>
      if fatal (ss_errDone s) err then ([req], [], true) else
      if negb (ss_slept s backoff) then ([req], [], true) else
      let '(rs, out, closed) := watchLoop wo lastSeq (nextBackoff backoff) env in (req :: rs, out, closed)
    | None =>
      let backoff := (50 * Millisecond)%Z in
      let '(lastSeq, evs, go) := recv_loop lastSeq (ss_msgs s) in
      if negb go then ([req], evs, true) else
      if fatal (ss_errDone s) (ss_err s) then ([req], evs, true) else
      if negb (ss_slept s backoff) then ([req], evs, true) else
      let '(rs, out, closed) := watchLoop wo lastSeq (nextBackoff backoff) env in (req :: rs, evs ++ out, closed)
    end
  end.

Definition Watch_ `{Unicode} (opts : list WatchOption) (env : list (WatchRequest → session))
    : result error (list WatchRequest * list Event * bool) :=
  wo ← applyWatchOptions opts; Ok (watchLoop wo 0 (50 * Millisecond)%Z env).

(** ** Topics: the client and the daemon agree *)

Section topics.
Context `{Unicode}.

Lemma validWatchTopic_ValidTopic topic : ValidTopic topic = validWatchTopic (NormalizeTopic topic).
Proof.
  unfold ValidTopic, validWatchTopic. change maxWatchTopicLen with MaxTopicLen. do 2 (case_match; [done|]).
  assert (∀ l, List.find (λ r, negb (isTopicChar r)) l =
    List.find (λ r, negb (IsLetter r) && negb (IsDigit r) && negb (r =? 46)%Z && negb (r =? 95)%Z && negb (r =? 45)%Z) l)
    as ->; [|done].
  intros l. induction l as [|r l IH]; simpl; [done|]. unfold isTopicChar in *. by rewrite !negb_orb, IH.
Qed.

(** The topics that are kept: each once, in the order they were first named. *)
Definition topic_key (raw : string) : string := TrimPrefix (TrimSpaceS raw) "custom.".

Lemma normalize_topics_loop_spec ins seen out res :
  (∀ t, t ∈ seen ↔ t ∈ out) → NoDup out → Forall (λ t, validWatchTopic t = None) out →
  normalize_topics_loop ins seen out = Ok res →
  NoDup res ∧ Forall (λ t, validWatchTopic t = None) res ∧
  ∀ t, t ∈ res ↔ t ∈ out ∨ (t ≠ "" ∧ t ∈ topic_key <$> ins).
Proof.
  revert seen out. induction ins as [|raw ins IH]; intros seen out Hseen Hnd Hall Hok; simpl in Hok.
  { injection Hok as <-. split_and!; [done..|]. set_solver. }
  fold (topic_key raw) in Hok. destruct (str_empty (topic_key raw)) eqn:He.
  { apply str_empty_true in He. destruct (IH seen out) as (? & ? & Ht); [done..|]. split_and!; [done..|].
    intros t. rewrite Ht, fmap_cons, elem_of_cons. naive_solver. }
  apply str_empty_false in He. destruct (validWatchTopic (topic_key raw)) eqn:Hv; [done|]. case_decide as Hs.
  - apply Hseen in Hs. destruct (IH seen out) as (? & ? & Ht); [done..|]. split_and!; [done..|].
    intros t. rewrite Ht, fmap_cons, elem_of_cons. naive_solver.
  - destruct (IH ({[topic_key raw]} ∪ seen) (out ++ [topic_key raw])) as (? & ? & Ht); [| | |done|].
    + intros t. rewrite elem_of_union, elem_of_singleton, elem_of_app, list_elem_of_singleton, Hseen. naive_solver.
    + apply NoDup_app. split_and!; [done| |apply NoDup_singleton]. rewrite Hseen in Hs. set_solver.
    + apply Forall_app. auto.
    + split_and!; [done..|]. intros t. rewrite Ht, elem_of_app, list_elem_of_singleton, fmap_cons, elem_of_cons. naive_solver.
Qed.

Lemma validate_ok req : Forall (λ t, ValidTopic t = None) (wr_Topics req) → validateWatchRequest req = None.
Proof.
  intros Hall. unfold validateWatchRequest.
  destruct (list_find _ _) as [[i t]|] eqn:Hf; [|done].
  apply list_find_Some in Hf as (Ht & Hne & _). eapply Forall_lookup_1 in Hall; [|done]. done.
Qed.

(** The topics the client accepts are the topics the daemon accepts and
    selects.  Both check a topic the same way; if no topic carries [custom.] twice,
    a filter the client accepts passes the daemon's validation, names each topic
    once, and with at least one topic selects exactly the events [custom.<t>] of
    the topics named (of the listed types).  A topic that carries the prefix twice
    is stripped twice, so it selects another topic, and [custom.custom.] is
    accepted by the client and refused by the daemon. *)
Theorem sdk_topics_agree ins types out seq :
  (∀ topic, ValidTopic topic = validWatchTopic (NormalizeTopic topic)) ∧
  (normalizeWatchTopics ins = Ok out →
   Forall (λ raw, HasPrefix (topic_key raw) TypeCustomPrefix = false) ins →
   let req := MkWatchRequest types out seq in
   validateWatchRequest req = None ∧ NoDup out ∧
   (out ≠ [] → ∀ typ, isProtocolEvent typ = false →
      matchesWatch req typ = true ↔
      (∃ raw, raw ∈ ins ∧ topic_key raw ≠ "" ∧ typ = CustomType (topic_key raw)) ∧ matchesType types typ = true)) ∧
  (normalizeWatchTopics ["custom.custom."] = Ok ["custom."] ∧
   isOk (normalizeWatchTopics ["custom.custom.x"]) = true ∧
   st_code <$> validateWatchRequest (MkWatchRequest types ["custom."] seq) = Some InvalidArgument).
Proof.
  split; [apply validWatchTopic_ValidTopic|]. split; [|split_and!; reflexivity]. intros Hok Hpre req.
  destruct (normalize_topics_loop_spec ins ∅ [] out) as (Hnd & Hval & Ht); [set_solver|constructor|constructor|done|].
  assert (∀ t, t ∈ out → HasPrefix t TypeCustomPrefix = false ∧ t ≠ "") as Hp.
  { intros t [?|[Hne (raw & -> & Hraw)%list_elem_of_fmap]]%Ht; [set_solver|].
    rewrite Forall_forall in Hpre. auto. }
  split_and!; [|done|].
  - apply validate_ok, Forall_forall. intros t Hin. rewrite validWatchTopic_ValidTopic.
    rewrite NormalizeTopic_plain by by apply Hp. rewrite Forall_forall in Hval. auto.
  - intros Hne typ Hproto. unfold matchesWatch. rewrite Hproto. cbn [wr_Topics wr_EventTypes req].
    destruct out as [|t0 out0] eqn:Hout; [done|]. rewrite <-Hout in *. clear Hout.
    assert (∀ topic, topicListed out topic = true ↔ topic ∈ out) as Hlisted.
    { intros topic. unfold topicListed. rewrite existsb_exists. split.
      - intros (t & Hin & Heq). apply list_elem_of_In in Hin. breflect. subst topic.
        rewrite NormalizeTopic_plain by by apply Hp. done.
      - intros Hin. exists topic. split; [by apply list_elem_of_In|].
        rewrite NormalizeTopic_plain by by apply Hp. apply String.eqb_refl. }
    destruct (TopicFromType typ) as [topic []] eqn:Htt; cbn [negb orb].
    + apply TopicFromType_Some in Htt as [-> Hnt]. destruct (topicListed out topic) eqn:Hl; cbn [negb].
      * apply Hlisted in Hl. split; [|by intros [_ ?]]. intros Hm. split; [|done].
        apply Ht in Hl as [?|[_ (raw & -> & ?)%list_elem_of_fmap]]; [set_solver|]. by exists raw.
      * apply not_true_iff_false in Hl. rewrite Hlisted in Hl. split; [done|].
        intros [(raw & Hraw & Hrne & Heq) _]. exfalso. apply Hl, Ht. right. split; [done|].
        apply list_elem_of_fmap. exists raw. split; [|done].
        rewrite <-(drop_custom topic), <-(drop_custom (topic_key raw)). by rewrite Heq.
    + split; [done|]. intros [(raw & _ & Hrne & ->) _]. exfalso.
      rewrite TopicFromType_CustomType in Htt. apply str_empty_false in Hrne. by rewrite Hrne in Htt.
Qed.
End topics.

(** ** Resuming *)

Definition top_seq (l : list Z) : Z := foldl raise 0%Z l.

Lemma raise_max a b : raise a b = Z.max a b.
Proof. unfold raise. case_match; breflect; lia. Qed.

(** A session in which the context stays alive and the stream breaks. *)
Definition plain_session (msgs : list WatchResponse) (err : rpc_error) : session :=
  MkSession false None ((λ m, (m, true)) <$> msgs) err false (λ _, true).
Definition broken : rpc_error := RpcStatus (Status Unavailable (Errorf "connection reset" [])).

Lemma recv_loop_plain l ms :
  recv_loop l ((λ m, (m, true)) <$> ms) = (foldl raise l (w_Seq <$> ms), sdkEvent <$> ms, true).
Proof. revert l. induction ms as [|m ms IH]; intros l; csimpl; [done|]. by rewrite IH. Qed.

Lemma watchLoop_plain wo l b serve env ms :
  serve (watch_req wo l) = plain_session ms broken →
  watchLoop wo l b (serve :: env) =
    let r := watchLoop wo (foldl raise l (w_Seq <$> ms)) (nextBackoff (50 * Millisecond)) env in
    (watch_req wo l :: r.1.1, (sdkEvent <$> ms) ++ r.1.2, r.2).
Proof.
  intros Hs. cbn [watchLoop]. rewrite Hs. cbn -[recv_loop watchLoop nextBackoff]. rewrite recv_loop_plain.
  cbn -[recv_loop watchLoop nextBackoff].
  by destruct (watchLoop wo _ _ env) as [[rs out] closed].
Qed.

(** What a new stream carries before the live events. *)
Definition snapshot_msgs (now : Time) (e : Engine) (req : WatchRequest) : list WatchResponse :=
  omap (snapshotMember now req) (Members e) ++ snapshotLeader now req (LeaderID e).

Lemma sendAll_until st ms :
  (∀ n, n < length (sent st) + length ms → send_error st n = None) →
  sendAll st ms = (MkStream (sent st ++ ms) (send_error st), None).
Proof.
  revert st. induction ms as [|m ms IH]; intros st Hn; simpl.
  { rewrite app_nil_r. by destruct st. }
  unfold Send. rewrite Hn by (simpl; lia). rewrite IH; simpl.
  - by rewrite <-(assoc_L (++)).
  - intros n. rewrite length_app. simpl. intros. apply Hn. simpl. lia.
Qed.

(** A stream that takes the snapshot and [watch.sync]. *)
Lemma prologue_sent now e req fails F :
  (∀ n, n ≤ length (snapshot_msgs now e req) → fails n = None) →
  let open := snapshot_msgs now e req ++ [syncMsg now F] in
  let gap := gapMsg now (u64 (wr_LastSeq req + 1)) F in
  prologue now e req (MkStream [] fails) F =
    if ((0 <? wr_LastSeq req) && (wr_LastSeq req <? F))%Z then
      match fails (length open) with
      | Some err => (MkStream open fails, Some err)
      | None => (MkStream (open ++ [gap]) fails, None)
      end
    else (MkStream open fails, None).
Proof.
  intros Hn open gap. unfold prologue, sendSnapshot. fold (snapshot_msgs now e req).
  rewrite sendAll_until by (simpl; intros; apply Hn; lia). simpl.
  unfold sendSync, Send. simpl. rewrite Hn by lia. fold open. done.
Qed.

Lemma snapshot_msgs_plain now e req :
  Forall (λ m, w_Seq m = 0%Z ∧ String.eqb (w_Type m) TypeWatchGap = false) (snapshot_msgs now e req).
Proof.
  apply Forall_app. split.
  - apply Forall_forall. intros m (x & _ & Hm)%list_elem_of_omap. unfold snapshotMember in Hm.
    repeat case_match; simplify_eq/=; done.
  - unfold snapshotLeader. case_match; [|constructor]. by constructor.
Qed.

Lemma raise_snapshot l now e req :
  (0 ≤ l)%Z → foldl raise l (w_Seq <$> snapshot_msgs now e req) = l.
Proof.
  intros Hl. pose proof (snapshot_msgs_plain now e req) as Hall. induction Hall as [|m ms [Hm _] _ IH]; csimpl; [done|].
  rewrite Hm, raise_max, Z.max_l by done. apply IH.
Qed.

Definition served (st : stream * option error) : session := plain_session (sent st.1) broken.
Definition gaps (evs : list Event) : list Event := List.filter (λ x, String.eqb (ev_Type x) TypeWatchGap) evs.

Lemma gaps_app a b : gaps (a ++ b) = gaps a ++ gaps b.
Proof. apply List.filter_app. Qed.
Lemma gaps_snapshot now e req : gaps (sdkEvent <$> snapshot_msgs now e req) = [].
Proof.
  pose proof (snapshot_msgs_plain now e req) as Hall. induction Hall as [|m ms [_ Hm] _ IH]; csimpl; [done|].
  unfold gaps in *. simpl. by rewrite Hm.
Qed.

(** C34: A watcher whose stream broke after sequence number [L] asks to resume
    from [L], and is told what it missed: if the bus is at [F] by then it
    receives one [watch.gap] from [L + 1] to [F] and nothing else of the kind,
    and [F] is where it resumes from next. *)
Theorem sdk_resume_reports_gap wo b now e L F rest :
  (0 < L < F)%Z → is_u64 F →
  let serve req := served (prologue now e req (MkStream [] (λ _, None)) F) in
  let r := watchLoop wo L b [serve; rest] in
  head r.1.1 = Some (watch_req wo L) ∧
  wr_LastSeq <$> (r.1.1 !! 1) = (if ss_ctxErr (rest (watch_req wo F)) then None else Some F) ∧
  ∃ tl, r.1.2 = (sdkEvent <$> snapshot_msgs now e (watch_req wo L) ++ [syncMsg now F; gapMsg now (L + 1) F]) ++ tl.
Proof.
  intros HL HF serve r.
  assert (serve (watch_req wo L) =
    plain_session (snapshot_msgs now e (watch_req wo L) ++ [syncMsg now F; gapMsg now (L + 1) F]) broken) as Hs.
  { unfold serve, served. rewrite prologue_sent by done. simpl wr_LastSeq.
    replace ((0 <? L) && (L <? F))%Z with true by (symmetry; apply andb_true_iff; rewrite !Z.ltb_lt; lia).
    simpl. rewrite u64_small by lia. by rewrite <-(assoc_L (++)). }
  unfold r. rewrite (watchLoop_plain _ _ _ _ _ _ Hs). cbn zeta.
  replace (foldl raise L _) with F.
  2: { rewrite fmap_app, foldl_app, raise_snapshot by lia. simpl. rewrite !raise_max. lia. }
  split_and!; [done| |by eexists]. cbn [fst snd lookup list_lookup]. cbn [watchLoop].
  repeat (case_match; simplify_eq/=; try done).
Qed.

(** C35: The gap is lost if the stream breaks between [watch.sync] and
    [watch.gap]: the client raises its sequence number at [watch.sync], so it
    resumes from [F], the daemon sees nothing missing, and the events from [L + 1]
    to [F] are neither delivered nor reported. *)
Theorem sdk_gap_lost_after_sync wo b now e L F err :
  (0 < L < F)%Z →
  let cut req := served (prologue now e req
    (MkStream [] (λ n, if decide (n = S (length (snapshot_msgs now e req))) then Some err else None)) F) in
  let again req := served (prologue now e req (MkStream [] (λ _, None)) F) in
  let r := watchLoop wo L b [cut; again] in
  wr_LastSeq <$> r.1.1 = [L; F] ∧ gaps r.1.2 = [].
Proof.
  intros HL cut again r.
  assert (cut (watch_req wo L) = plain_session (snapshot_msgs now e (watch_req wo L) ++ [syncMsg now F]) broken) as Hc.
  { unfold cut, served. rewrite prologue_sent by (intros n Hn; rewrite decide_False; [done|lia]). simpl wr_LastSeq.
    replace ((0 <? L) && (L <? F))%Z with true by (symmetry; apply andb_true_iff; rewrite !Z.ltb_lt; lia).
    rewrite decide_True; [done|]. rewrite length_app. simpl. lia. }
  assert (again (watch_req wo F) = plain_session (snapshot_msgs now e (watch_req wo F) ++ [syncMsg now F]) broken) as Ha.
  { unfold again, served. rewrite prologue_sent by done. simpl wr_LastSeq.
    replace ((0 <? F) && (F <? F))%Z with false; [done|]. rewrite Z.ltb_irrefl. by rewrite andb_false_r. }
  unfold r. rewrite (watchLoop_plain _ _ _ _ _ _ Hc). cbn zeta.
  replace (foldl raise L _) with F.
  2: { rewrite fmap_app, foldl_app, raise_snapshot by lia. simpl. rewrite !raise_max. lia. }
  rewrite (watchLoop_plain _ _ _ _ _ _ Ha). cbn [fst snd watchLoop]. split; [done|].
  by rewrite !fmap_app, !gaps_app, !gaps_snapshot.
Qed.

Module SdkWatchExamples.
#[export] Existing Instance latin1.
Definition all : watchOptions := MkWatchOptions [] [].

Lemma sdk_topics_agree_witness :
  normalizeWatchTopics [" deploy"; "custom.deploy"; ""; "db.fail"] = Ok ["deploy"; "db.fail"] ∧
  NoDup ["deploy"; "db.fail"].
Proof.
  split; [reflexivity|].
  apply (proj1 (proj2 (sdk_topics_agree [" deploy"; "custom.deploy"; ""; "db.fail"] [] ["deploy"; "db.fail"] 0)) eq_refl).
  repeat constructor.
Defined.

Lemma sdk_resume_reports_gap_witness :
  ∃ tl, (watchLoop all 3 Second
    [(λ req, served (prologue 7 MemberExamples.self req (MkStream [] (λ _, None)) 9)); (λ _, plain_session [] broken)]).1.2 =
    (sdkEvent <$> snapshot_msgs 7 MemberExamples.self (watch_req all 3) ++ [syncMsg 7 9; gapMsg 7 4 9]) ++ tl.
Proof. apply (sdk_resume_reports_gap all Second 7 MemberExamples.self 3 9 (λ _, plain_session [] broken)); by vm_compute. Defined.

Lemma sdk_gap_lost_after_sync_witness :
  let cut req := served (prologue 7 MemberExamples.self req
    (MkStream [] (λ n, if decide (n = S (length (snapshot_msgs 7 MemberExamples.self req)))
       then Some (Errorf "broken pipe" []) else None)) 9) in
  let again req := served (prologue 7 MemberExamples.self req (MkStream [] (λ _, None)) 9) in
  gaps (watchLoop all 3 Second [cut; again]).1.2 = [].
Proof. apply (sdk_gap_lost_after_sync all Second 7 MemberExamples.self 3 9 (Errorf "broken pipe" [])). lia. Defined.
End SdkWatchExamples.
