(* ===== verification/Examples.v ===== *)
(** * Examples: the sample applications of [examples/*/go]

    Programs written against the exported interface of the Go client,
    [clusdr.Cluster] ([sdk/clusdr.go]), as programs over a world: what they print
    and log, in order, and how they end.  [os.Exit] ends a process at once, so the
    deferred [Close] does not run; [Val] is a return, after which it does.

    [sdk_cluster] is the client of [SdkGrants] behind that interface, and the
    theorems about the scheduler hold for it against the lock service of a leading
    daemon. *)
From S2P Require Import Prelude Events GrantSpec Locks Leases Membership FSM EventService LockService LeaseService Heartbeat Sdk SdkGrants SdkWatch.
From stdpp Require Import pretty.

(** ** Programs *)

Definition out := error.
Definition line (format : string) (args : list arg) : out := Errorf format args.

Inductive ending (A : Type) : Type := Val (a : A) | ExitNow (status : Z) | Running.
Arguments Val {A}.
Arguments ExitNow {A}.
Arguments Running {A}.

Definition app (W A : Type) : Type := W → W * list out * ending A.
#[export] Instance app_ret W : MRet (app W) := λ A a w, (w, [], Val a).
#[export] Instance app_bind W : MBind (app W) := λ A B f m w,
  match m w with
  | (w, o, Val a) => let '(w, o', r) := f a w in (w, o ++ o', r)
  | (w, o, ExitNow s) => (w, o, ExitNow s)
  | (w, o, Running) => (w, o, Running)
  end.

Definition print {W} (format : string) (args : list arg) : app W unit := λ w, (w, [line format args], Val tt).
Definition os_Exit {W A} (status : Z) : app W A := λ w, (w, [], ExitNow status).
(** A call that may not return. *)
Definition call {W A} (f : W → W * option A) : app W A := λ w,
  match f w with
  | (w, Some a) => (w, [], Val a)
  | (w, None) => (w, [], Running)
  end.
(** [log.Error(what, "err", err)] and [os.Exit(1)]. *)
Definition fatal_error {W A} (what : string) (err : error) : app W A :=
  print what [AErr err] ;; os_Exit 1.

(** ** The interface *)

Record Grant := MkGrant { gr_Name : string; gr_Who : string; gr_Token : Z; gr_Deadline : Time }.
(** The results of [TryLock] without an error: the second result is [ok]. *)
Inductive tried : Type := Held (lk : Grant) | NotHeld (lk : option Grant).

(** [Watch] is given with the events its channel yields until it is closed. *)
Class Cluster (W : Type) := {
  cl_Members : Ctx W → W → W * option (result error (list SdkMember));
  cl_Leader : Ctx W → W → W * option (result error SdkMember);
  cl_Watch : Ctx W → list WatchOption → W → W * option (result error (list Event));
  cl_Publish : Ctx W → string → list Z → W → W * option (option error);
  cl_Lock : Ctx W → string → Duration → W → W * option (result error Grant);
  cl_TryLock : Ctx W → string → Duration → W → W * option (result error tried);
  cl_Unlock : Ctx W → string → W → W * option (option error);
  cl_Lease : Ctx W → string → Duration → W → W * option (result error Grant);
  cl_Renew : Ctx W → string → W → W * option (option error);
  cl_Revoke : Ctx W → string → W → W * option (option error);
  cl_Close : W → W * option (option error);
}.

(** [clusdr.Local], the contexts of the standard library, its formatting of times
    and its JSON. *)
Section programs.
Context {W : Type} {CL : Cluster W}.
Context (Local : list Option_ → W → W * option (result error unit)).
Context (Background : Ctx W) (WithTimeout : Ctx W → Duration → W → Ctx W) (Done : Ctx W → W → W * option unit).
Context (Format : string → Time → string) (show_payload : payload → string).
Context (Marshal : list (string * jval) → result error (list Z)).
Context (ctx : Ctx W).  (* cancelled by SIGINT or SIGTERM *)

(** [c, err := clusdr.Local(opts...)]; [defer c.Close()] around the rest. *)
Definition with_client (opts : list Option_) (body : app W unit) : app W unit :=
  r ← call (Local opts);
  match r with
  | Fail err => fatal_error "connect" err
  | Ok _ => body ;; call cl_Close ;; mret tt
  end.

(** *** [examples/scheduler] *)

Definition ctx_error_of (w : W) : option error := (λ e, rpc_msg (CtxError e)) <$> ctx_Err ctx w.

Definition ctx_Done : app W bool := λ w, (w, [], Val (bool_decide (is_Some (ctx_Err ctx w)))).
Definition timeout (d : Duration) : app W (Ctx W) := λ w, (w, [], Val (WithTimeout ctx d w)).

Definition sleep (d : Duration) : app W (option error) := λ w,
  match ctx_sleep ctx w d with
  | (w, true) => (w, [], Val None)
  | (w, false) => (w, [], Val (ctx_error_of w))
  end.

Definition dispatch (lk : Grant) : app W unit :=
  print "dispatch job=rollout fence=%d holder=%s\n" [ANum (gr_Token lk); AStr (gr_Who lk)].

Definition shift (name : string) (work wait : Duration) : app W (option error) :=
  try ← timeout (5 * Second);
  r ← call (cl_TryLock try name (15 * Second));
  match r with
  | Fail err => mret (Some err)
  | Ok (NotHeld lk) =>
    let who := from_option gr_Who "another replica" lk in
    let tok := from_option gr_Token 0%Z lk in
    print "waiting" [AStr who; ANum tok] ;;
    sleep wait
  | Ok (Held lk) =>
    print "held" [AStr (gr_Name lk); AStr (gr_Who lk); ANum (gr_Token lk); AStr (Format "RFC3339" (gr_Deadline lk))] ;;
    dispatch lk ;;
    e ← sleep work;
    match e with
    | Some _ => call (cl_Unlock Background name)
    | None =>
      e ← call (cl_Unlock ctx name);
      match e with
      | Some err => mret (Some err)
      | None => print "released" [AStr name] ;; sleep wait
      end
    end
  end.

(** The loop of [main]; [fuel] bounds the shifts. *)
Fixpoint scheduler_loop (fuel : nat) (name : string) (work wait : Duration) : app W unit :=
  match fuel with
  | O => λ w, (w, [], Running)
  | S fuel =>
    stopped ← ctx_Done;
    if (stopped : bool) then mret tt else
    e ← shift name work wait;
    match e with
    | None => scheduler_loop fuel name work wait
    | Some err =>
      stopped ← ctx_Done;
      if (stopped : bool) then mret tt else fatal_error "shift" err
    end
  end.

Definition holder_opts (id : string) : list Option_ := if str_empty id then [] else [WithHolder id].

Definition scheduler_main (fuel : nat) (name holder : string) (work wait : Duration) : app W unit :=
  with_client (holder_opts holder) (
    print "scheduler replica" [AStr name; ANum work] ;;
    scheduler_loop fuel name work wait).

(** *** [examples/worker] *)

Definition worker_main (name owner : string) (ttl : Duration) : app W unit :=
  with_client (holder_opts owner) (
    r ← call (cl_Lease ctx name ttl);
    match r with
    | Fail err => fatal_error "lease" err
    | Ok ls =>
      print "granted" [AStr (gr_Name ls); AStr (gr_Who ls); ANum (gr_Token ls); AStr (Format "RFC3339" (gr_Deadline ls))] ;;
      print "holding shard (Ctrl-C to stop; Close revokes)" [] ;;
      call (Done ctx)
    end).

(** *** [examples/who] and [examples/watch]: the listing and the events *)

Definition role (m : SdkMember) : string := if str_empty (sm_Role m) then "voter" else sm_Role m.
Definition show_bool (b : bool) : string := if b then "true" else "false".

(** [header] and [row] are the formats of the two programs. *)
Definition snapshot (header row : string) : app W (option error) :=
  q ← timeout (5 * Second);
  r ← call (cl_Members q);
  match r with
  | Fail err => mret (Some err)
  | Ok members =>
    print header [] ;;
    foldr (λ m k, print row [AStr (sm_ID m); AStr (sm_Address m); AStr (sm_Status m); AStr (role m);
                             AStr (show_bool (sm_Leader m))] ;; k) (mret tt) members ;;
    r ← call (cl_Leader q);
    match r with
    | Fail err => mret (Some (Errorf "leader: %w" [AErr err]))
    | Ok leader => print "leader %s at %s
" [AStr (sm_ID leader); AStr (sm_Address leader)] ;; mret None
    end
  end.
Definition who_snapshot : app W (option error) :=
  snapshot "ID\tADDRESS\tSTATUS\tROLE\tLEADER" "%s\t%s\t%s\t%s\t%v\n".
Definition watch_snapshot : app W (option error) :=
  snapshot "%-24s %-22s %-8s %-10s LEADER\n" "%-24s %-22s %-8s %-10s %v\n".

Definition event_kind (typ : string) : string :=
  if String.eqb typ "member.join" || String.eqb typ "leader.changed" then "cluster" else
  if String.eqb typ "member.dead" then "dead" else
  if String.eqb typ "member.left" then "left" else
  if HasPrefix typ "custom." then "gossip" else
  if String.eqb typ "watch.sync" || String.eqb typ "watch.gap" then "watch" else "bus".

(** The payload as text, [""] when it has no bytes. *)
Definition payload_text (sep : string) (p : payload) : string :=
  let s := show_payload p in if str_empty s then "" else sep +:+ s.
Definition clock_text (ts : Time) : string := if (ts =? zeroTime)%Z then "" else Format "15:04:05" ts.

Definition who_printEvent (ev : Event) : app W unit :=
  print "%s seq=%d %s src=%s%s\n" [AStr (event_kind (ev_Type ev)); ANum (ev_Seq ev); AStr (ev_Type ev);
    AStr (ev_Source ev); AStr (payload_text " " (ev_Payload ev))].
Definition watch_printEvent (ev : Event) : app W unit :=
  print "%s %s seq=%d %s src=%s%s\n" [AStr (event_kind (ev_Type ev)); AStr (clock_text (ev_Timestamp ev));
    ANum (ev_Seq ev); AStr (ev_Type ev); AStr (ev_Source ev); AStr (payload_text " " (ev_Payload ev))].

(** [for ev := range ch] *)
Definition range (body : Event → app W unit) (evs : list Event) : app W unit :=
  foldr (λ ev k, body ev ;; k) (mret tt) evs.

Definition follow (opts : list WatchOption) (body : Event → app W unit) : app W unit :=
  r ← call (cl_Watch ctx opts);
  match r with
  | Fail err => fatal_error "watch" err
  | Ok evs => range body evs
  end.

Definition who_main (once : bool) : app W unit :=
  with_client [] (
    e ← who_snapshot;
    match e with
    | Some err => fatal_error "snapshot" err
    | None =>
      if once then mret tt else
      print "watching cluster events (Ctrl-C to stop)" [] ;;
      follow [] who_printEvent
    end).

Definition watch_main (name : string) (pid : Z) (once : bool) : app W unit :=
  with_client [] (
    e ← watch_snapshot;
    match e with
    | Some err => fatal_error "snapshot" err
    | None =>
      if once then mret tt else
      let leaseName := "worker." +:+ name in
      r ← call (cl_Lease ctx leaseName (15 * Second));
      match r with
      | Fail err => fatal_error "lease" err
      | Ok ls =>
        let until := if (gr_Deadline ls =? zeroTime)%Z then "?" else Format "RFC3339" (gr_Deadline ls) in
        print "lease %s owner=%s token=%d until %s\n" [AStr (gr_Name ls); AStr (gr_Who ls); ANum (gr_Token ls); AStr until] ;;
        match Marshal [("lease", JStr leaseName); ("pid", JNum pid); ("worker", JStr name)] with
        | Fail err => fatal_error "payload" err
        | Ok data =>
          e ← call (cl_Publish ctx "hello" data);
          match e with
          | Some err => fatal_error "publish" err
          | None => print "watching (Ctrl-C to stop)" [] ;; follow [] watch_printEvent
          end
        end
      end
    end).

(** *** [examples/agent] *)

Definition topic : string := "agent.task".
Definition emits (mode : string) : bool := String.eqb mode "emit" || String.eqb mode "both".
Definition listens (mode : string) : bool := String.eqb mode "listen" || String.eqb mode "both".

Definition agent_printEvent (ev : Event) : app W unit :=
  print "%s seq=%d %s src=%s %s\n" [AStr (clock_text (ev_Timestamp ev)); ANum (ev_Seq ev); AStr (ev_Type ev);
    AStr (ev_Source ev); AStr (payload_text "" (ev_Payload ev))].

(** The goroutine of [main]: one round per tick, [fuel] of them. *)
Fixpoint emitLoop (fuel : nat) (source : string) (pid : Z) (every : Duration) (n : Z) : app W unit :=
  match fuel with
  | O => λ w, (w, [], Running)
  | S fuel =>
    e ← sleep every;
    match e with
    | Some _ => mret tt
    | None =>
      let n := i64 (n + 1) in
      match Marshal [("from", JStr source); ("n", JNum n); ("pid", JNum pid)] with
      | Fail err => print "payload" [AErr err]
      | Ok data =>
        e ← call (cl_Publish ctx topic data);
        match e with
        | Some err => print "publish" [AErr err]
        | None => print "sent n=%d from=%s
" [ANum n; AStr source] ;; emitLoop fuel source pid every n
        end
      end
    end
  end.

(** The main goroutine; [emitLoop] runs beside it when [emits mode]. *)
Definition agent_main (mode source : string) (every : Duration) : app W unit :=
  if negb (emits mode || listens mode) then print "mode must be listen, emit, or both" [] ;; os_Exit 2 else
  with_client [] (
    (if emits mode then print "emitting custom.%s every %s from=%s\n" [AStr topic; ANum every; AStr source] else mret tt) ;;
    if listens mode then
      print "listening for custom.%s (Ctrl-C to stop)\n" [AStr topic] ;;
      follow [WithTopics [topic]] agent_printEvent
    else print "emitting (Ctrl-C to stop)" [] ;; call (Done ctx)).
End programs.

(** ** The Go client behind the interface *)

(** What a process that runs the client has beside the locks and leases of its
    daemon: [withRPC], the other RPCs, the order in which [Close] walks its maps,
    the standard library's contexts and time formats, and the context that a signal
    cancels. *)
Record Host (W : Type) := MkHost {
  ho_with_rpc : Ctx (client * W) → Ctx (client * W);
  ho_members : W → W * result rpc_error (list ProtoMember);
  ho_leader : W → W * result rpc_error (string * string);
  ho_publish : W → EventService.PublishEventRequest → W * result rpc_error EventService.PublishEventResponse;
  ho_watch : Ctx (client * W) → list WatchOption → client * W → client * W * option (result error (list Event));
  ho_connClose : W → W * option error;
  ho_orders : client → list nat * list nat;
  ho_Background : Ctx (client * W);
  ho_WithTimeout : Ctx (client * W) → Duration → client * W → Ctx (client * W);
  ho_Format : string → Time → string;
  ho_ctx : Ctx (client * W);
}.
Arguments MkHost {W}.
Arguments ho_with_rpc {W}.
Arguments ho_members {W}.
Arguments ho_leader {W}.
Arguments ho_publish {W}.
Arguments ho_watch {W}.
Arguments ho_connClose {W}.
Arguments ho_orders {W}.
Arguments ho_Background {W}.
Arguments ho_WithTimeout {W}.
Arguments ho_Format {W}.
Arguments ho_ctx {W}.

Section sdk.
Context {W : Type} (d : Daemon W) (fuel : nat) (host : Host W).
Abbreviation with_rpc := (ho_with_rpc host).

(** A context of the application, at one call of the client [c]. *)
Definition at_client (c : client) (q : Ctx (client * W)) : Ctx W :=
  MkCtx (λ w, ctx_Err q (c, w)) (λ w dur, let r := ctx_sleep q (c, w) dur in (r.1.2, r.2)).

Definition grant_from (h : Handle) : Grant := MkGrant (h_Name h) (h_Who h) (h_Token h) (h_Deadline h).
Definition handle_at (c : client) (l : nat) : Grant :=
  from_option grant_from (MkGrant "" "" 0 zeroTime) (c_heap c !! l).

Definition with_handle {A} (f : client → A → Grant) (x : client * W * option (result error A))
    : client * W * option (result error Grant) :=
  (x.1, (λ r, match r with Ok a => Ok (f x.1.1 a) | Fail e => Fail e end) <$> x.2).
Definition with_world {A} (s : client * W) (x : W * option A) : client * W * option A := ((s.1, x.1), x.2).

Definition sdk_cluster : Cluster (client * W) := {|
  cl_Members q s := with_world s (Members_ (at_client s.1 (with_rpc q)) fuel (ho_members host) s.2);
  cl_Leader q s := with_world s (Leader_ (at_client s.1 (with_rpc q)) fuel (ho_leader host) s.2);
  cl_Watch := ho_watch host;
  cl_Publish q topic data s := with_world s (Publish_ (at_client s.1 (with_rpc q)) fuel (ho_publish host) s.2 topic data);
  cl_Lock q name ttl s := with_handle handle_at (Lock d (at_client s.1 (with_rpc q)) fuel s name ttl);
  cl_TryLock q name ttl s :=
    let r := TryLock d (at_client s.1 (with_rpc q)) fuel s name ttl in
    (r.1, (λ r', match r' with
                 | Ok (Mine l, _) => Ok (Held (handle_at r.1.1 l))
                 | Ok (Theirs h, _) => Ok (NotHeld (Some (grant_from h)))
                 | Fail e => Fail e
                 end) <$> r.2);
  cl_Unlock q name s := Unlock d (at_client s.1 (with_rpc q)) fuel s name;
  cl_Lease q name ttl s := with_handle handle_at (Lease d (at_client s.1 (with_rpc q)) fuel s name ttl);
  cl_Renew q name s := Renew d (at_client s.1 (with_rpc q)) fuel s name;
  cl_Revoke q name s := Revoke d (at_client s.1 (with_rpc q)) fuel s name;
  cl_Close s := Close d (MkCtx (λ _, None) (λ w _, (w, true))) fuel (ho_connClose host) s
    (ho_orders host s.1).1 (ho_orders host s.1).2;
|}.
End sdk.

(** ** The daemon that leads, at the clock of the world *)

Section leading.
Context `{Unicode} (e : Engine) (dflt : Duration) (base : Daemon Locks.Table).
Hypothesis Hvoter : rejectIfObserver e = None.

Abbreviation world := (Time * Locks.Table)%type.
Definition at_clock {R A} (f : Daemon Locks.Table → Locks.Table → R → Locks.Table * A) (w : world) (req : R) : world * A :=
  let r := f (leader_daemon e w.1 dflt base) w.2 req in ((w.1, r.1), r.2).
Definition timed_daemon : Daemon world :=
  MkDaemon (at_clock d_Lock) (at_clock d_TryLock) (at_clock d_Unlock) (at_clock d_LockRenew)
    (at_clock d_Grant) (at_clock d_LeaseRenew) (at_clock d_Revoke).

(** The table changes by at most [k] requests of anybody. *)
Definition evolves (k : nat) (t t' : Locks.Table) : Prop :=
  lock_wf t → lock_wf t' ∧ ∃ tr, length tr ≤ k ∧ grun lock_adm MaxLocks (lock_abs t) tr (lock_abs t').

Lemma evolves_refl t : evolves 0 t t.
Proof. intros Hwf. split; [done|]. exists []. split; [done|constructor]. Qed.
Lemma evolves_trans k1 k2 t1 t2 t3 : evolves k1 t1 t2 → evolves k2 t2 t3 → evolves (k1 + k2) t1 t3.
Proof.
  intros H1 H2 Hwf. destruct (H1 Hwf) as (Hwf2 & tr1 & Hl1 & Hr1). destruct (H2 Hwf2) as (Hwf3 & tr2 & Hl2 & Hr2).
  split; [done|]. exists (tr1 ++ tr2). rewrite length_app. split; [lia|]. apply grun_app. eauto.
Qed.
Lemma evolves_le k1 k2 t1 t2 : k1 ≤ k2 → evolves k1 t1 t2 → evolves k2 t1 t2.
Proof. intros Hk He Hwf. destruct (He Hwf) as (? & tr & ? & ?). split; [done|]. exists tr. split; [lia|done]. Qed.

Lemma retry_once {V R} (q : Ctx V) (fn : V → V * result rpc_error R) fuel v :
  0 < fuel → (∀ err, (fn v).2 = Fail err → transient err = false) →
  retry q fn fuel v = match ctx_Err q v with
                      | Some err => (v, Some (Fail (CtxError err)))
                      | None => ((fn v).1, Some (fn v).2)
                      end.
Proof.
  intros Hf Hfin. destruct fuel as [|fuel]; [lia|]. unfold retry. cbn [retry_loop].
  destruct (ctx_Err q v); [done|]. destruct (fn v) as [v' [r|err]]; simpl in *; [done|]. by rewrite Hfin.
Qed.

Lemma acquire_evolves now t n h dl ttl : evolves 1 t (Locks.Acquire now t n h dl ttl).1.1.
Proof.
  intros Hwf. destruct (Locks.Acquire now t n h dl ttl) as [[t' r] es] eqn:Ha. simpl.
  split; [by eapply lock_Acquire_wf|]. eexists [(_, _)]. split; [done|].
  econstructor; [by eapply lock_Acquire_refines|constructor].
Qed.
Lemma release_evolves t n h k : evolves 1 t (Locks.Release t n h k).1.1.
Proof.
  intros Hwf. destruct (Locks.Release t n h k) as [[t' r] es] eqn:Ha. simpl.
  split; [by eapply lock_Release_wf|]. eexists [(_, _)]. split; [done|].
  econstructor; [by eapply lock_Release_refines|constructor].
Qed.

Lemma leader_Unlock_once now t req :
  let r := d_Unlock (leader_daemon e now dflt base) t req in
  evolves 1 t r.1 ∧ ∀ err, r.2 = Fail err → transient err = false.
Proof.
  unfold leader_daemon, lock_daemon, rpc, LockService.Unlock, LockService.guarded, LockService.holder, LockService.follower.
  cbn [d_Unlock]. pose proof (evolves_le 0 1 t t (Nat.le_0_l 1) (evolves_refl t)).
  destruct (Locks.ValidName _); [by split; [|intros err [= <-]]|]. rewrite Hvoter. cbn -[Locks.Release].
  match goal with |- context [Locks.Release t ?n ?h ?k] => pose proof (release_evolves t n h k) as Hr;
    destruct (Locks.Release t n h k) as [[t' [x|]] es] end; simpl in *.
  - by split; [|intros err [= <-]].
  - by split.
Qed.

(** ** A shift of the scheduler against the leader *)

Context (fuel : nat) (host : Host world).
Hypothesis Hfuel : 0 < fuel.
Abbreviation ctx := (ho_ctx host).

Definition go_client : Cluster (client * world) := sdk_cluster timed_daemon fuel host.
#[local] Existing Instance go_client.

(** The table behind a state. *)
Definition tbl (s : client * world) : Locks.Table := s.2.2.

Lemma TryLock_leader q n ttl (s : client * world) :
  Locks.ValidName n = None → c_holder s.1 ≠ "" → c_held s.1 !! n = None →
  ∃ res, (cl_TryLock q n ttl s).2 = Some res ∧
    ∀ g, res = Ok (Held g) → gr_Who g = c_holder s.1 ∧
      gstep lock_adm MaxLocks (lock_abs (tbl s)) (GAcquire n (c_holder s.1)) (RGranted (gr_Token g))
        (lock_abs (tbl (cl_TryLock q n ttl s).1)) ∧
      (lock_wf (tbl s) → lock_wf (tbl (cl_TryLock q n ttl s).1)).
Proof.
  destruct s as [c [now t]]. cbn [fst snd tbl]. intros Hv Hh Hheld.
  cbn [cl_TryLock go_client sdk_cluster fst snd].
  unfold TryLock, heldLock, held_in. cbn [tab fst snd]. rewrite Hheld.
  rewrite (retry_once _ _ fuel _ Hfuel) by (intros err; apply leader_final).
  cbn [at_client ctx_Err]. destruct (ctx_Err (ho_with_rpc host q) (c, (now, t))).
  { eexists. split; [done|]. by intros g [=]. }
  set (req := MkLockRequest n (c_holder c) (ttlMs ttl)).
  change (d_TryLock timed_daemon (now, t) req) with
    (let r := rpc (lock_node now e true unreachable dflt t req) in ((now, r.1), r.2)).
  rewrite leader_acquires by done. cbn -[Locks.Acquire].
  assert (LockService.holder (λ _ : Locks.Table, e) t (c_holder c) = c_holder c) as ->.
  { unfold LockService.holder. apply str_empty_false in Hh. by rewrite Hh. }
  set (ttl' := Locks.ClampTTL _ 0).
  pose proof (acquire_evolves now t n (c_holder c) (Prelude.Add now ttl') ttl') as Hev.
  pose proof (lock_Acquire_refines now t n (c_holder c) (Prelude.Add now ttl') ttl') as Hst.
  destruct (Locks.Acquire now t n (c_holder c) (Prelude.Add now ttl') ttl') as [[t' [[tok []]|err]] es]; cbn in Hev |- *.
  - unfold adopt, adopt_in. cbn. rewrite Hheld. cbn.
    unfold startRenew. cbn [c_heap]. rewrite lookup_insert_eq. cbn.
    eexists. split; [done|]. intros g [= <-]. unfold handle_at. cbn.
    rewrite lookup_insert_eq. cbn. split; [done|]. split; [exact (Hst _ _ _ eq_refl)|]. intros Hwf. by apply Hev.
  - eexists. split; [done|]. by intros g [=].
  - eexists. split; [done|]. by intros g [=].
Qed.

Lemma Unlock_leader q n (s : client * world) : evolves 1 (tbl s) (tbl (cl_Unlock q n s).1).
Proof.
  destruct s as [c [now t]]. cbn [cl_Unlock go_client sdk_cluster tbl fst snd].
  assert (evolves 1 t t) as Hrefl by (apply (evolves_le 0); [lia|apply evolves_refl]).
  unfold Unlock, release, give_back. destruct (heldLock _ n) as [l|]; [|done]. cbn [fst snd].
  destruct (c_heap c !! l) as [h|]; [|done].
  set (req := MkUnlockRequest _ _ _).
  change (d_Unlock timed_daemon) with (at_clock d_Unlock).
  destruct (leader_Unlock_once now t req) as [Hev Hfin].
  rewrite (retry_once _ _ fuel _ Hfuel) by (cbn [at_clock fst snd]; exact Hfin).
  cbn [at_client ctx_Err]. destruct (ctx_Err _ _); [by case_decide|].
  cbn [at_clock fst snd]. fold req. destruct (d_Unlock (leader_daemon e now dflt base) t req) as [t' [[[] msg]|err]];
    cbn [fst snd] in *; [done|done|by case_decide].
Qed.

(** What the application waits for passes time, and lets others use the table: at
    most [k] of their requests are applied meanwhile. *)
Definition busy (k : nat) : Prop := ∀ s d, evolves k (tbl s) (tbl (ctx_sleep ctx s d).1).

(** A program that lets the table evolve by [k] requests and prints only what [P]
    allows; the rule of sequencing. *)
Definition keeps {A} (k : nat) (P : out → Prop) (m : app (client * world) A) : Prop :=
  ∀ s w o r, m s = (w, o, r) → evolves k (tbl s) (tbl w) ∧ Forall P o.

Lemma app_keeps_bind {A B} k1 k2 P (m : app (client * world) A) (f : A → app (client * world) B) :
  keeps k1 P m → (∀ a, keeps k2 P (f a)) → keeps (k1 + k2) P (m ≫= f).
Proof.
  intros Hm Hf s w o r. unfold mbind, app_bind. destruct (m s) as [[s1 o1] r1] eqn:E1.
  destruct (Hm _ _ _ _ E1) as [Hv1 Hp1].
  assert (evolves (k1 + k2) (tbl s) (tbl s1)) as Hv by (by eapply evolves_le, Hv1; lia).
  destruct r1; [|by intros [= <- <- <-]|by intros [= <- <- <-]].
  destruct (f a s1) as [[s2 o2] r2] eqn:E2. intros [= <- <- <-]. destruct (Hf a _ _ _ _ E2) as [Hv2 Hp2].
  split; [by eapply evolves_trans|by apply Forall_app].
Qed.
Lemma app_keeps_ret {A} P (a : A) : keeps 0 P (mret a).
Proof. intros s w o r [= <- <- _]. split; [apply evolves_refl|constructor]. Qed.
Lemma app_keeps_print P f args : P (line f args) → keeps 0 P (print f args).
Proof. intros Hp s w o r [= <- <- _]. split; [apply evolves_refl|by repeat constructor]. Qed.
Lemma app_keeps_call {A} k P (f : client * world → client * world * option A) :
  (∀ s, evolves k (tbl s) (tbl (f s).1)) → keeps k P (call f).
Proof.
  intros Hf s w o r. unfold call. pose proof (Hf s) as Hs. destruct (f s) as [s1 []]; intros [= <- <- _]; by split.
Qed.
Lemma app_keeps_sleep k P d : busy k → keeps k P (sleep ctx d).
Proof.
  intros Hb s w o r. unfold sleep. pose proof (Hb s d) as Hs.
  destruct (ctx_sleep ctx s d) as [w' []]; intros [= <- <- _]; by split.
Qed.
Lemma app_keeps_le {A} k1 k2 P (m : app (client * world) A) : k1 ≤ k2 → keeps k1 P m → keeps k2 P m.
Proof. intros Hk Hm s w o r Hr. destruct (Hm _ _ _ _ Hr). split; [by eapply evolves_le|done]. Qed.

Definition dispatched (fence : Z) (who : string) : out :=
  line "dispatch job=rollout fence=%d holder=%s\n" [ANum fence; AStr who].

(** What the shift does once it holds [lk]: it dispatches under that token only. *)
Definition only (lk : Grant) (x : out) : Prop :=
  ∀ fence who, x = dispatched fence who → fence = gr_Token lk ∧ who = gr_Who lk.

Lemma app_keeps_work k name work wait lk :
  busy k →
  keeps (1 + 2 * k) (only lk) (
    print "held" [AStr (gr_Name lk); AStr (gr_Who lk); ANum (gr_Token lk); AStr (ho_Format host "RFC3339" (gr_Deadline lk))] ;;
    dispatch lk ;;
    e ← sleep ctx work;
    match e with
    | Some _ => call (cl_Unlock (ho_Background host) name)
    | None =>
      e ← call (cl_Unlock ctx name);
      match e with
      | Some err => mret (Some err)
      | None => print "released" [AStr name] ;; sleep ctx wait
      end
    end).
Proof.
  intros Hb. apply (app_keeps_bind 0); [by apply app_keeps_print|intros _].
  apply (app_keeps_bind 0); [apply app_keeps_print; by intros ? ? [= -> ->]|intros _].
  apply (app_keeps_le (k + (1 + (0 + k)))); [lia|]. apply app_keeps_bind; [by apply app_keeps_sleep|].
  intros [|]; [apply (app_keeps_le 1); [lia|]; apply app_keeps_call; intros; apply Unlock_leader|].
  apply app_keeps_bind; [apply app_keeps_call; intros; apply Unlock_leader|].
  intros [err|]; [apply (app_keeps_le 0); [lia|]; apply app_keeps_ret|].
  apply app_keeps_bind; [by apply app_keeps_print|]. intros _. by apply app_keeps_sleep.
Qed.

Definition scheduler_shift : string → Duration → Duration → app (client * world) (option error) :=
  shift (ho_Background host) (ho_WithTimeout host) (ho_Format host) ctx.

Lemma shift_evolves k name work wait s w o r fence who :
  busy k → Locks.ValidName name = None → c_holder s.1 ≠ "" → c_held s.1 !! name = None →
  scheduler_shift name work wait s = (w, o, r) → dispatched fence who ∈ o →
  who = c_holder s.1 ∧ ∃ t1,
    gstep lock_adm MaxLocks (lock_abs (tbl s)) (GAcquire name (c_holder s.1)) (RGranted fence) (lock_abs t1) ∧
    (lock_wf (tbl s) → lock_wf t1) ∧ evolves (1 + 2 * k) t1 (tbl w).
Proof.
  intros Hb Hv Hh Hheld. unfold scheduler_shift, shift, timeout. unfold mbind at 1. unfold app_bind at 1.
  set (q := ho_WithTimeout host ctx (5 * Second)%Z s). unfold mbind at 1. unfold app_bind at 1. unfold call at 1.
  destruct (TryLock_leader q name (15 * Second)%Z s Hv Hh Hheld) as (res & Hres & Hg).
  destruct (cl_TryLock q name (15 * Second)%Z s) as [s1 res']. cbn [fst snd] in *. subst res'.
  destruct res as [[lk|lk]|err].
  - match goal with |- context [?m s1] => destruct (m s1) as [[w' o'] r'] eqn:E end.
    apply (app_keeps_work k) in E as [Hev Ho]; [|done]. intros [= <- <- _] Hin.
    rewrite Forall_forall in Ho. destruct (Ho _ Hin fence who eq_refl) as [-> ->].
    destruct (Hg _ eq_refl) as (-> & Hst & Hwf). split; [done|]. by exists (tbl s1).
  - match goal with |- context [?m s1] => destruct (m s1) as [[w' o'] r'] eqn:E end.
    assert (keeps (0 + k) (λ x, ∀ f h, x ≠ dispatched f h)
      (print "waiting" [AStr (from_option gr_Who "another replica" lk); ANum (from_option gr_Token 0%Z lk)] ;;
       sleep ctx wait)) as Hk by (apply app_keeps_bind; [by apply app_keeps_print|intros _; by apply app_keeps_sleep]).
    apply Hk in E as [_ Ho]. intros [= <- <- _] Hin. rewrite Forall_forall in Ho. by destruct (Ho _ Hin fence who).
  - intros [= <- <- _] Hin. by apply elem_of_nil in Hin.
Qed.
End leading.

(** ** Properties of the samples *)

Section fences.
Context `{Unicode} (e : Engine) (dflt : Duration) (base : Daemon Locks.Table) (fuel : nat).

(** C33: The fences the scheduler writes with increase from replica to replica: if
    one replica's shift dispatched under token [f1], and later, after anything
    others did to the lock table, a replica with another identity dispatches under
    [f2], then [f1 < f2], and the first replica no longer held the lock under [f1]
    when the second started its shift.  Each process has its own contexts and
    clock; at most [k] requests of others reach the table while one sleeps. *)
Theorem scheduler_fences_increase (A B : Host (Time * Locks.Table)) k name workA waitA workB waitB sA wA oA rA sB wB oB rB f1 f2 who1 who2 :
  rejectIfObserver e = None → 0 < fuel → busy A k → busy B k →
  Locks.ValidName name = None → c_holder sA.1 ≠ "" → c_holder sB.1 ≠ "" → c_holder sA.1 ≠ c_holder sB.1 →
  c_held sA.1 !! name = None → c_held sB.1 !! name = None →
  lock_wf (tbl sA) → grants_wf (lock_abs (tbl sA)) → room (lock_abs (tbl sA)) (3 + 3 * k) →
  scheduler_shift e dflt base fuel A name workA waitA sA = (wA, oA, rA) → dispatched f1 who1 ∈ oA →
  evolves k (tbl wA) (tbl sB) →
  scheduler_shift e dflt base fuel B name workB waitB sB = (wB, oB, rB) → dispatched f2 who2 ∈ oB →
  (f1 < f2)%Z ∧ held (lock_abs (tbl sB)) !! name ≠ Some (c_holder sA.1, f1).
Proof.
  intros Hv Hf HbA HbB Hn HhA HhB Hne HA HB Hwf Hg Hr HrunA HinA Hev HrunB HinB.
  destruct (shift_evolves e dflt base Hv fuel A Hf k _ _ _ _ _ _ _ _ _ HbA Hn HhA HA HrunA HinA)
    as (-> & t1 & Hs1 & Hwf1 & Hev1).
  destruct (shift_evolves e dflt base Hv fuel B Hf k _ _ _ _ _ _ _ _ _ HbB Hn HhB HB HrunB HinB)
    as (-> & t2 & Hs2 & Hwf2 & Hev2).
  destruct (evolves_trans _ _ _ _ _ Hev1 Hev (Hwf1 Hwf)) as (HwfB & tr & Hlen & Hrun). split.
  - eapply (spec_fencing lock_adm MaxLocks (lock_abs (tbl sA)) [] name (c_holder sA.1) f1 tr (c_holder sB.1) f2 [] (lock_abs t2)
      Hg); [|simpl; econstructor; [exact Hs1|]|done].
    + unfold room in *. rewrite !length_app. cbn [length]. rewrite length_app. cbn [length]. lia.
    + apply grun_app. eexists. split; [exact Hrun|]. econstructor; [exact Hs2|constructor].
  - intros Hheld. inversion Hs2; subst; congruence.
Qed.
End fences.

Module ScheduleExamples.
#[export] Existing Instance latin1.
Abbreviation world := (Time * Locks.Table)%type.

(** A process nobody interrupts; calls give up at the first [Unavailable]. *)
Definition running : Ctx (client * world) := MkCtx (λ _, None) (λ s _, (s, true)).
Definition impatient (q : Ctx (client * world)) : Ctx (client * world) := MkCtx (ctx_Err q) (λ s _, (s, false)).
Definition host : Host world :=
  MkHost impatient (λ w, (w, Fail SdkGrants.lost)) (λ w, (w, Fail SdkGrants.lost))
    (λ w _, (w, Fail SdkGrants.lost)) (λ _ _ s, (s, None)) (λ w, (w, None)) (λ c, ((map_to_list (c_held c)).*2, []))
    running (λ q _ _, q) (λ _ _, "12:00") running.

Definition replica (id : string) (t : Locks.Table) : client * world := (new_client id, (7%Z, t)).
Definition run (s : client * world) :=
  scheduler_shift MemberExamples.self Second SdkGrantExamples.down 1 host "scheduler" Second Second s.
Definition first := run (replica "replica-a" Locks.New).
Definition second := run (replica "replica-b" (tbl first.1.1)).

Lemma host_busy : busy host 0.
Proof. intros s d. apply evolves_refl. Qed.

Lemma dispatched_first : dispatched 1 "replica-a" ∈ first.1.2.
Proof. apply list_elem_of_lookup. exists 1. by vm_compute. Qed.
Lemma dispatched_second : dispatched 2 "replica-b" ∈ second.1.2.
Proof. apply list_elem_of_lookup. exists 1. by vm_compute. Qed.

Lemma scheduler_fences_increase_witness :
  (1 < 2)%Z ∧ held (lock_abs (tbl first.1.1)) !! "scheduler" ≠ Some ("replica-a", 1%Z).
Proof.
  apply (scheduler_fences_increase MemberExamples.self Second SdkGrantExamples.down 1 host host 0 "scheduler"
    Second Second Second Second (replica "replica-a" Locks.New) first.1.1 first.1.2 first.2
    (replica "replica-b" (tbl first.1.1)) second.1.1 second.1.2 second.2 1 2 "replica-a" "replica-b").
  - reflexivity.
  - lia.
  - apply host_busy.
  - apply host_busy.
  - reflexivity.
  - done.
  - done.
  - done.
  - reflexivity.
  - reflexivity.
  - apply lock_wf_New.
  - unfold tbl, lock_abs; simpl. rewrite fmap_empty. apply grants_wf_empty.
  - by vm_compute.
  - unfold first, run. by destruct (scheduler_shift _ _ _ _ _ _ _ _ _) as [[? ?] ?].
  - apply dispatched_first.
  - apply evolves_refl.
  - unfold second, run. by destruct (scheduler_shift _ _ _ _ _ _ _ _ _) as [[? ?] ?].
  - apply dispatched_second.
Defined.

(** A daemon that does not answer [Unlock], once. *)
Definition no_unlock : Daemon world :=
  let d := timed_daemon MemberExamples.self Second SdkGrantExamples.down in
  MkDaemon (d_Lock d) (d_TryLock d) (λ w _, (w, Fail SdkGrants.lost)) (d_LockRenew d) (d_Grant d)
    (d_LeaseRenew d) (d_Revoke d).

(** When [Unlock] fails at the end of a shift, the scheduler leaves through
    [os.Exit]: the deferred [Close], which says it unlocks, does not run, and the
    lock stays in the table under the name of a process that is gone. *)
Lemma scheduler_exit_keeps_lock :
  let r := scheduler_main (CL := sdk_cluster no_unlock 1 host) (λ _ s, (s, Some (Ok tt))) running (λ q _ _, q)
    (λ _ _, "12:00") running 5 "scheduler" "replica-a" Second Second (replica "replica-a" Locks.New) in
  r.2 = ExitNow 1 ∧ held (lock_abs (tbl r.1.1)) !! "scheduler" = Some ("replica-a", 1%Z).
Proof. by vm_compute. Qed.
End ScheduleExamples.
