(* ===== verification/Server.v ===== *)
(** * Server: the gRPC server, its interceptors and transport security
    ([internal/grpcserver/server.go], [tls.go], [internal/mtls/mtls.go], [InitGRPC]
    of [internal/app/units.go])

    A handler runs in a world [W] and answers or panics.  [crypto/tls] and
    [crypto/x509] are parameters: certificates, pools and key pairs are abstract. *)
From S2P Require Import Prelude Events Membership Config Store Units Sdk.

(** ** Calls through the interceptors *)

Inductive outcome (R : Type) : Type := Answers (r : result status R) | Panics.
Arguments Answers {R}.
Arguments Panics {R}.

(** What the server knows of a caller: whether there is a peer, whether it came
    over TLS, and how many certificates it showed. *)
Record Peer := MkPeer { pe_Known : bool; pe_TLS : bool; pe_Certs : nat }.

Definition JoinService_Join : string := "/clusdr.v1alpha1.JoinService/Join".
Definition HealthService_Health : string := "/clusdr.v1alpha1.HealthService/Health".

Definition publicRPC (method : string) : bool :=
  if String.eqb method JoinService_Join || String.eqb method HealthService_Health then true
  else HasPrefix method "/grpc.reflection.".

Definition mtls_required : status := Status Unauthenticated (Errorf "mtls required" []).

Definition requirePeerCert (p : Peer) (method : string) : option status :=
  if publicRPC method then None else
  if negb (pe_Known p) then Some mtls_required else
  if negb (pe_TLS p) || bool_decide (pe_Certs p = 0) then Some mtls_required else None.

Section interceptors.
Context {W R : Type}.
Abbreviation handler := (W → W * outcome R).
(** An interceptor gets the caller, the method and the rest of the chain; the
    handler of a stream answers when the stream ends. *)
Abbreviation interceptor := (Peer → string → handler → handler).

Definition peerCertInterceptor : interceptor := λ p method h w,
  match requirePeerCert p method with
  | Some st => (w, Answers (Fail st))
  | None => h w
  end.

(** Logging passes the answer on; a panic passes through it. *)
Definition loggingInterceptor : interceptor := λ _ _ h w, h w.

Definition internal_error : status := Status Internal (Errorf "internal error" []).
Definition recoveryInterceptor : interceptor := λ _ _ h w,
  match h w with
  | (w, Panics) => (w, Answers (Fail internal_error))
  | r => r
  end.

Definition streamLoggingInterceptor : interceptor := λ _ _ h w, h w.
Definition streamRecoveryInterceptor : interceptor := λ _ _ h w,
  match h w with
  | (w, Panics) => (w, Answers (Fail internal_error))
  | r => r
  end.

(** [grpc.ChainUnaryInterceptor] and its stream counterpart: the first is the outermost. *)
Definition chain (l : list interceptor) (p : Peer) (method : string) (h : handler) : handler :=
  foldr (λ i h, i p method h) h l.

(** The two chains of a server. *)
Definition unary_chain (tls : bool) : list interceptor :=
  let base := [loggingInterceptor; recoveryInterceptor] in
  if tls then peerCertInterceptor :: base else base.
Definition stream_chain (tls : bool) : list interceptor :=
  let base := [streamLoggingInterceptor; streamRecoveryInterceptor] in
  if tls then peerCertInterceptor :: base else base.

Inductive rpc_kind : Type := Unary | Stream.
Definition serve (kind : rpc_kind) (tls : bool) (p : Peer) (method : string) (h : handler) : handler :=
  chain (match kind with Unary => unary_chain tls | Stream => stream_chain tls end) p method h.
End interceptors.

Definition maxRecvMsgSize : Z := 4 * 1024 * 1024.
Definition maxSendMsgSize : Z := 16 * 1024 * 1024.

Record ServerConfig (T : Type) := MkServerConfig {
  sc_MaxConnectionIdle : Duration; sc_MaxConnectionAge : Duration;
  sc_KeepaliveTime : Duration; sc_KeepaliveTimeout : Duration; sc_TLS : option T;
}.
Arguments MkServerConfig {T}.
Arguments sc_MaxConnectionIdle {T}.
Arguments sc_MaxConnectionAge {T}.
Arguments sc_KeepaliveTime {T}.
Arguments sc_KeepaliveTimeout {T}.
Arguments sc_TLS {T}.
Definition Minute : Duration := (60 * Second)%Z.
Definition DefaultConfig {T} : ServerConfig T :=
  MkServerConfig (30 * Minute)%Z (1 * Hour)%Z (30 * Second)%Z (10 * Second)%Z None.

(** [New]: the options of the server, and how it answers a call. *)
Record Server (T : Type) := MkServer {
  sv_MaxRecvMsgSize : Z; sv_MaxSendMsgSize : Z;
  sv_Keepalive : Duration * Duration * Duration * Duration;
  sv_Creds : option T;
  sv_Reflection : bool;
  sv_Serve : ∀ W R, rpc_kind → Peer → string → (W → W * outcome R) → W → W * outcome R;
}.
Arguments MkServer {T}.
Arguments sv_Serve {T} _ {W R}.
Definition New {T} (cfg : ServerConfig T) : Server T :=
  let tls := match sc_TLS cfg with Some _ => true | None => false end in
  MkServer maxRecvMsgSize maxSendMsgSize
    (sc_MaxConnectionIdle cfg, sc_MaxConnectionAge cfg, sc_KeepaliveTime cfg, sc_KeepaliveTimeout cfg)
    (sc_TLS cfg) true (λ W R kind, serve kind tls).

(** [Shutdown]: [graceful] is whether [GracefulStop] finishes before the context
    is done; what was called, in order. *)
Inductive shutdown_act : Type := GracefulStop | Stop.
Definition Shutdown (graceful : bool) (ctx_Err : error) : list shutdown_act * option error :=
  if graceful then ([GracefulStop], None) else ([GracefulStop; Stop], Some ctx_Err).

(** [credsOf]: a function of credentials that may be nil. *)
Definition credsOf {K} (fn : option (option K)) : option K := match fn with None => None | Some k => k end.

(** ** [mtls] *)

Section mtls.
(** A key pair, a pool of CAs, a parsed certificate. *)
Context {KeyPair Pool Cert : Type}.
Context (X509KeyPair : list Z → list Z → result error KeyPair).
Context (AppendCertsFromPEM : list Z → option Pool).
Context (ParseCertificate : list Z → result error Cert).
Context (Verify : Pool → list Cert → Cert → option error).   (* roots, intermediates, leaf *)

Inductive client_auth : Type := VerifyClientCertIfGiven.

(** The server side of [tls.Config]. *)
Record server_tls := MkServerTLS { tls_Cert : KeyPair; tls_ClientCAs : Pool; tls_ClientAuth : client_auth }.

(** The client side: what it shows, and whom it accepts. *)
Record client_tls := MkClientTLS {
  ct_Shows : option KeyPair;
  ct_Accepts : list (list Z) → option error;
}.

Definition poolFromPEM (caPEM : list Z) : result error Pool :=
  match AppendCertsFromPEM caPEM with
  | Some pool => Ok pool
  | None => Fail (Errorf "mtls: invalid CA certificate" [])
  end.

Definition ServerTLS (caPEM certPEM keyPEM : list Z) : result error server_tls :=
  match X509KeyPair certPEM keyPEM with
  | Fail e => Fail (Errorf "mtls: server keypair: %w" [AErr e])
  | Ok cert => pool ← poolFromPEM caPEM; Ok (MkServerTLS cert pool VerifyClientCertIfGiven)
  end.

Fixpoint parse_intermediates (raw : list (list Z)) : result error (list Cert) :=
  match raw with
  | [] => Ok []
  | der :: raw =>
    match ParseCertificate der with
    | Fail e => Fail (Errorf "mtls: parse intermediate: %w" [AErr e])
    | Ok c => cs ← parse_intermediates raw; Ok (c :: cs)
    end
  end.

Definition verifyPeer (roots : Pool) (raw : list (list Z)) : option error :=
  match raw with
  | [] => Some (Errorf "mtls: no peer certificate" [])
  | der :: rest =>
    match ParseCertificate der with
    | Fail e => Some (Errorf "mtls: parse peer cert: %w" [AErr e])
    | Ok peer =>
      match parse_intermediates rest with
      | Fail e => Some e
      | Ok inter =>
        match Verify roots inter peer with
        | Some e => Some (Errorf "mtls: peer cert not signed by cluster CA: %w" [AErr e])
        | None => None
        end
      end
    end
  end.

Definition clientConfig (caPEM certPEM keyPEM : list Z) : result error client_tls :=
  pool ← poolFromPEM caPEM;
  match X509KeyPair certPEM keyPEM with
  | Fail e => Fail (Errorf "mtls: client keypair: %w" [AErr e])
  | Ok cert => Ok (MkClientTLS (Some cert) (verifyPeer pool))
  end.
Definition ClientTLS := clientConfig.

(** No certificate is shown and any server is accepted. *)
Definition BootstrapTLS : client_tls := MkClientTLS None (λ _, None).

(** [ReloadableServerTLS]: the material is checked once, then loaded at each handshake. *)
Definition ReloadableServerTLS (load : option (unit → result error (list Z * list Z * list Z)))
    : result error (unit → result error server_tls) :=
  match load with
  | None => Fail (Errorf "mtls: nil certificate loader" [])
  | Some load =>
    match load tt with
    | Fail e => Fail e
    | Ok (ca, cert, key) =>
      match ServerTLS ca cert key with
      | Fail e => Fail e
      | Ok _ => Ok (λ _, match load tt with Fail e => Fail e | Ok (ca, cert, key) => ServerTLS ca cert key end)
      end
    end
  end.
End mtls.

(** ** Certificate files *)

Definition CAFile : string := "ca.crt".
Definition CertFile : string := "node.crt".
Definition KeyFile : string := "node.key".

Section files.
Context {W : Type} (join_path : string → string → string).
Context (MkdirAll : W → string → W * option error) (write : W → string → list Z → W * option error).
Context (read : W → string → result error (list Z)).

(** Each file with bytes is written; the first error ends it. *)
Fixpoint write_present (w : W) (dir : string) (files : list (string * list Z)) : W * option error :=
  match files with
  | [] => (w, None)
  | (name, b) :: files =>
    if bool_decide (0 < length b) then
      match write w (join_path dir name) b with
      | (w, Some e) => (w, Some e)
      | (w, None) => write_present w dir files
      end
    else write_present w dir files
  end.

Definition WriteFiles (w : W) (dir : string) (caCert nodeCert nodeKey : list Z) : W * option error :=
  match MkdirAll w dir with
  | (w, Some e) => (w, Some e)
  | (w, None) => write_present w dir [(CAFile, caCert); (CertFile, nodeCert); (KeyFile, nodeKey)]
  end.

Definition LoadFiles (w : W) (dir : string) : result error (list Z * list Z * list Z) :=
  ca ← read w (join_path dir CAFile);
  cert ← read w (join_path dir CertFile);
  key ← read w (join_path dir KeyFile);
  Ok (ca, cert, key).
End files.

(** ** Starting the server *)

Section init.
Context `{Unicode} `{Bolt DB}.
Context {T K : Type}.
(** [mtls.ReloadableServerTLS(a.loadTLSMaterial)] with the material it finds. *)
Context (ReloadableTLS : list Z * list Z * list Z → result error T) (BootstrapCreds : K).

(** The transport of [InitGRPC]: no TLS if it is off or there are no certificates. *)
Definition init_tls (c : Config.Config) (store : option DB) : result error (option T) :=
  if TLSEnabled c then
    match loadTLSMaterial store with
    | TxOk m =>
      match ReloadableTLS m with
      | Fail e => Fail (Errorf "tls: %w" [AErr e])
      | Ok t => Ok (Some t)
      end
    | _ => Ok None
    end
  else Ok None.

(** The credentials with which this node asks to join another. *)
Definition init_joinCreds (tls : option T) : option K :=
  credentialsOrNil BootstrapCreds (match tls with Some _ => true | None => false end).

(** The services, in the order of registration. *)
Definition init_services (bus locks leases membership : bool) : list string :=
  ["Health"; "Membership"; "Join"; "Control"; "Heartbeat"] ++
  (if bus then ["Watch"; "Event"] else []) ++
  (if locks && membership then ["Lock"] else []) ++
  (if leases && membership then ["Lease"] else []).

(** The listeners: a runtime listener that fails is fatal, the control socket is
    not. *)
Context {W L : Type} (listen_tcp : W → string → W * result error L) (listen_unix : W → string → W * result error L).
Context (MkdirAll : W → string → W * option error) (Remove : W → string → W) (dir_of : string → string).

Definition init_control (w : W) (given : option L) (sock : string) : W * option L :=
  match given with
  | Some l => (w, Some l)
  | None =>
    match MkdirAll w (dir_of sock) with
    | (w, Some _) => (w, None)
    | (w, None) =>
      match listen_unix (Remove w sock) sock with
      | (w, Ok l) => (w, Some l)
      | (w, Fail _) => (w, None)
      end
    end
  end.

Definition init_runtime (w : W) (given : option L) (addr : string) : W * result error L :=
  match given with
  | Some l => (w, Ok l)
  | None =>
    match listen_tcp w addr with
    | (w, Ok l) => (w, Ok l)
    | (w, Fail e) => (w, Fail (Errorf "listen grpc runtime %s: %w" [AStr addr; AErr e]))
    end
  end.

(** [WriteFiles] next to the store only warns. *)
Definition InitGRPC (write_files : W → W) (w : W) (c : Config.Config) (store : option DB)
    (bus locks leases membership : bool) (runtimeLn controlLn : option L) (grpcAddr sock : string)
    : W * result error (option T * option K * list string * list L) :=
  match init_tls c store with
  | Fail e => (w, Fail e)
  | Ok tls =>
    let w := match tls with Some _ => write_files w | None => w end in
    match init_runtime w runtimeLn grpcAddr with
    | (w, Fail e) => (w, Fail e)
    | (w, Ok rt) =>
      let (w, ctl) := init_control w controlLn sock in
      (w, Ok (tls, init_joinCreds tls, init_services bus locks leases membership, rt :: option_list ctl))
    end
  end.
End init.

(** ** Who gets through *)

Definition certified (p : Peer) : bool := pe_Known p && pe_TLS p && negb (bool_decide (pe_Certs p = 0)).

Definition recovered {W R} (r : W * outcome R) : W * outcome R :=
  match r with (w, Panics) => (w, Answers (Fail internal_error)) | r => r end.

Lemma requirePeerCert_iff p method :
  requirePeerCert p method = if publicRPC method || certified p then None else Some mtls_required.
Proof.
  unfold requirePeerCert, certified. destruct (publicRPC method); [done|].
  by destruct (pe_Known p), (pe_TLS p), (bool_decide _).
Qed.

Lemma serve_eq {W R} kind tls p method (h : W → W * outcome R) w :
  serve kind tls p method h w =
    if tls && negb (publicRPC method || certified p) then (w, Answers (Fail mtls_required)) else recovered (h w).
Proof.
  unfold serve, unary_chain, stream_chain, chain.
  destruct kind, tls; cbn -[publicRPC]; unfold peerCertInterceptor, loggingInterceptor, recoveryInterceptor,
    streamLoggingInterceptor, streamRecoveryInterceptor, recovered;
    try (rewrite requirePeerCert_iff; destruct (publicRPC method || certified p); [|done]); by destruct (h w) as [w' []].
Qed.

(** C21: Over TLS only [Join], [Health] and reflection answer a caller without a
    certificate: every other method is refused with [Unauthenticated] before its
    handler runs.  In all other cases the caller gets what the handler answers, and
    a handler that panics answers [Internal]; no panic leaves the server. *)
Theorem server_requires_certificate {T W R} (cfg : ServerConfig T) kind p method (h : W → W * outcome R) w :
  let tls := match sc_TLS cfg with Some _ => true | None => false end in
  sv_Serve (New cfg) kind p method h w =
    (if tls && negb (publicRPC method || certified p) then (w, Answers (Fail mtls_required)) else recovered (h w)) ∧
  (sv_Serve (New cfg) kind p method h w).2 ≠ Panics ∧
  (publicRPC method = true ↔
     method = JoinService_Join ∨ method = HealthService_Health ∨ HasPrefix method "/grpc.reflection." = true).
Proof.
  intros tls. change (sv_Serve (New cfg) kind p method h w) with (serve kind tls p method h w). rewrite serve_eq.
  split; [done|]. split.
  - destruct (tls && _); [done|]. by destruct (h w) as [w' []].
  - unfold publicRPC. destruct (String.eqb_spec method JoinService_Join); [cbn [orb]; naive_solver|].
    destruct (String.eqb_spec method HealthService_Health); cbn [orb]; naive_solver.
Qed.

(** ** A node that has no certificates yet *)

(** A node without certificates cannot join a node that has them.  With TLS
    enabled on both, the node whose store holds certificates serves mTLS, and the
    new node, whose store holds none, is given no credentials for its [Join] call:
    it dials in plaintext.  Once it holds certificates itself its peers reach for
    it with TLS, while the server it started with still has none. *)
Theorem fresh_joiner_plaintext `{Unicode} `{Bolt DB} {T K}
    (reload : list Z * list Z * list Z → result error T) (boot : K)
    (client : list Z → list Z → list Z → result error K) c (member fresh : DB) m t k e :
  TLSEnabled c = true → loadTLSMaterial (Some member) = TxOk m → reload m = Ok t →
  client m.1.1 m.1.2 m.2 = Ok k → loadTLSMaterial (Some fresh) = TxErr e →
  init_tls reload c (Some member) = Ok (Some t) ∧ peerTransportCreds client c (Some member) = TxOk (Some k) ∧
  init_tls reload c (Some fresh) = Ok None ∧ init_joinCreds (T := T) boot None = None.
Proof.
  intros Hc Hm Hr Hk Hf. unfold init_tls, peerTransportCreds. rewrite Hc, Hm, Hr, Hf.
  destruct m as [[ca cert] key]. simpl in *. by rewrite Hk.
Qed.

(** ** Certificate files are read where they are written *)

(** What the daemon writes next to its store is what the Go client reads: after
    [WriteFiles] succeeded with three non-empty parts, on a file system that gives
    back what was written, [LoadFiles] returns them, the SDK finds its three files
    in that directory and builds its credentials from the same bytes. *)
Theorem cert_files_roundtrip {K} (join_path : string → string → string)
    (clientTLS : list Z → list Z → list Z → result error K) (fs : gmap string (list Z)) dir ca cert key :
  (∀ a b, join_path dir a = join_path dir b → a = b) → ca ≠ [] → cert ≠ [] → key ≠ [] →
  let w := WriteFiles join_path (λ fs _, (fs, None)) (λ fs p b, (<[p := b]> fs, None)) fs dir ca cert key in
  let read fs p := match (fs : gmap string (list Z)) !! p with Some b => Ok b | None => Fail (Errorf "no such file" []) end in
  w.2 = None ∧ LoadFiles join_path read w.1 dir = Ok (ca, cert, key) ∧
  pemFilesPresent (λ p, (λ _, true) <$> (w.1 !! p)) join_path dir = true ∧
  clientFromDir (read w.1) clientTLS join_path dir = clientTLS ca cert key.
Proof.
  intros Hj Hca Hcert Hkey w read.
  assert (∀ b : list Z, b ≠ [] → 0 < length b) as Hlen by (intros [|? ?] ?; simpl; [done|lia]).
  assert (w = (<[join_path dir KeyFile := key]> (<[join_path dir CertFile := cert]> (<[join_path dir CAFile := ca]> fs)), None)) as ->.
  { unfold w, WriteFiles. cbn [write_present]. by rewrite !bool_decide_eq_true_2 by auto. }
  assert (join_path dir KeyFile ≠ join_path dir CertFile) by (intros ?%Hj; done).
  assert (join_path dir KeyFile ≠ join_path dir CAFile) by (intros ?%Hj; done).
  assert (join_path dir CertFile ≠ join_path dir CAFile) by (intros ?%Hj; done).
  cbn [fst snd]. split; [done|].
  set (fs' := <[join_path dir KeyFile := key]> _).
  assert (fs' !! join_path dir CAFile = Some ca) as Hf1 by (unfold fs'; by rewrite !lookup_insert_ne, lookup_insert_eq by congruence).
  assert (fs' !! join_path dir CertFile = Some cert) as Hf2 by (unfold fs'; by rewrite lookup_insert_ne, lookup_insert_eq by congruence).
  assert (fs' !! join_path dir KeyFile = Some key) as Hf3 by (unfold fs'; by rewrite lookup_insert_eq).
  change CAFile with caFile in *. change CertFile with certFile in *. change KeyFile with keyFile in *.
  unfold LoadFiles, pemFilesPresent, clientFromDir, read. simpl.
  change CAFile with caFile. change CertFile with certFile. change KeyFile with keyFile. by rewrite Hf1, Hf2, Hf3.
Qed.

Module ServerExamples.
#[export] Existing Instance latin1.
#[export] Existing Instance StoreExamples.mem_bolt.
Definition cfg : Config.Config := Config.Defaults (Ok "/root").
Definition reload (_ : list Z * list Z * list Z) : result error unit := Ok tt.
Definition client (_ _ _ : list Z) : result error unit := Ok tt.

Lemma fresh_joiner_plaintext_witness :
  init_tls reload cfg (Some StoreExamples.seed) = Ok (Some tt) ∧
  init_tls reload cfg (Some StoreExamples.fresh) = Ok None.
Proof.
  destruct (fresh_joiner_plaintext reload tt client cfg StoreExamples.seed StoreExamples.fresh ([1%Z], [3%Z], [4%Z]) tt tt
    ErrNotInitialized) as (H1 & _ & H3 & _); [vm_compute; reflexivity..|done].
Defined.

Lemma cert_files_roundtrip_witness :
  LoadFiles StoreExamples.join_path
    (λ fs p, match (fs : gmap string (list Z)) !! p with Some b => Ok b | None => Fail (Errorf "no such file" []) end)
    (WriteFiles StoreExamples.join_path (λ fs _, (fs, None)) (λ fs p b, (<[p := b]> fs, None)) ∅ "d" [1%Z] [2%Z] [3%Z]).1 "d" =
  Ok ([1%Z], [2%Z], [3%Z]).
Proof.
  apply (cert_files_roundtrip StoreExamples.join_path client ∅ "d" [1%Z] [2%Z] [3%Z]); [|done..].
  intros a b He. by simplify_eq/=.
Defined.
End ServerExamples.
