(* ===== verification/Pki.v ===== *)
(** * Pki: the cluster CA, node certificates and join tokens ([internal/pki/pki.go])

    [crypto/x509], [encoding/pem] and [crypto/sha256] are behind the class [X509],
    with what their documentation promises of certificates they create, parse and
    verify.  What [crypto/rand] yields, and the clock, are arguments: a [draw] per
    certificate. *)
From S2P Require Import Prelude EventService JoinService Store Server.

(** The fields of [x509.Certificate] the code sets. *)
Inductive ExtKeyUsage_ : Type := ExtKeyUsageServerAuth | ExtKeyUsageClientAuth.
#[export] Instance ext_usage_eq_dec : EqDecision ExtKeyUsage_.
Proof. solve_decision. Defined.
Definition KeyUsageDigitalSignature : Z := 1.
Definition KeyUsageCertSign : Z := 32.
Definition KeyUsageCRLSign : Z := 64.

Record Template := MkTemplate {
  x_SerialNumber : Z;
  x_Organization : list string; x_CommonName : string;
  x_NotBefore : Time; x_NotAfter : Time;
  x_KeyUsage : Z; x_ExtKeyUsage : list ExtKeyUsage_;
  x_IsCA : bool; x_MaxPathLen : Z;
  x_DNSNames : list string;
}.
Definition subject (t : Template) : list string * string := (x_Organization t, x_CommonName t).

(** Certificates have times of whole seconds. *)
Definition to_second (t : Time) : Time := (t - t `mod` Second)%Z.

(** [x509.ParsePKCS8PrivateKey] gives a key of any algorithm. *)
Inductive any_key (Key : Type) : Type := ECDSA (k : Key) | OtherKey.
Arguments ECDSA {Key}.
Arguments OtherKey {Key}.

Definition valid_at (t : Template) (now : Time) : Prop := (x_NotBefore t ≤ now ≤ x_NotAfter t)%Z.

Class X509 (Key Pub Cert : Type) := {
  PublicKey : Key → Pub;
  cert_of : Cert → Template;
  cert_Raw : Cert → list Z;
  cert_PublicKey : Cert → Pub;
  cert_Issuer : Cert → list string * string;
  cert_signed : Cert → Pub → Prop;
  (** [sign]: the randomness of the signature. *)
  x509_CreateCertificate (sign : list Z) (tmpl parent : Template) (pub : Pub) (priv : Key) : result error (list Z);
  x509_ParseCertificate : list Z → result error Cert;
  x509_MarshalPKCS8PrivateKey : Key → result error (list Z);
  x509_ParsePKCS8PrivateKey : list Z → result error (any_key Key);
  x509_Verify (now : Time) (roots inter : list Cert) (leaf : Cert) : option error;
  pem_Decode : list Z → option (string * list Z);
  pem_EncodeToMemory : string → list Z → list Z;
  sha256_Sum256 : list Z → list Z;
  create_parses sign tmpl parent pub priv der :
    x509_CreateCertificate sign tmpl parent pub priv = Ok der →
    ∃ c, x509_ParseCertificate der = Ok c ∧ cert_Raw c = der ∧ cert_PublicKey c = pub ∧
      cert_signed c (PublicKey priv) ∧ cert_Issuer c = subject parent ∧
      subject (cert_of c) = subject tmpl ∧ x_DNSNames (cert_of c) = x_DNSNames tmpl ∧
      x_IsCA (cert_of c) = x_IsCA tmpl ∧ x_KeyUsage (cert_of c) = x_KeyUsage tmpl ∧
      x_ExtKeyUsage (cert_of c) = x_ExtKeyUsage tmpl ∧
      x_NotBefore (cert_of c) = to_second (x_NotBefore tmpl) ∧ x_NotAfter (cert_of c) = to_second (x_NotAfter tmpl);
  marshal_parses k b : x509_MarshalPKCS8PrivateKey k = Ok b → x509_ParsePKCS8PrivateKey b = Ok (ECDSA k);
  pem_decodes t b : pem_Decode (pem_EncodeToMemory t b) = Some (t, b);
  pem_nonempty t b : pem_EncodeToMemory t b ≠ [];
  sha256_length b : length (sha256_Sum256 b) = 32;
  sha256_bytes b : Forall (λ x, 0 ≤ x < 256)%Z (sha256_Sum256 b);
  (** A leaf signed by a root that may sign certificates is accepted while both
      are valid, if it may be used by a server. *)
  verify_accepts now roots inter leaf ca :
    ca ∈ roots → x_IsCA (cert_of ca) = true → Z.land (x_KeyUsage (cert_of ca)) KeyUsageCertSign ≠ 0%Z →
    cert_Issuer leaf = subject (cert_of ca) → cert_signed leaf (cert_PublicKey ca) →
    ExtKeyUsageServerAuth ∈ x_ExtKeyUsage (cert_of leaf) → x_ExtKeyUsage (cert_of ca) = [] →
    valid_at (cert_of ca) now → valid_at (cert_of leaf) now →
    x509_Verify now roots inter leaf = None;
  (** What is accepted is valid, and is a root or signed by a root or by an
      intermediate of the connection. *)
  verify_valid now roots inter leaf :
    x509_Verify now roots inter leaf = None → valid_at (cert_of leaf) now;
  verify_chain now roots inter leaf :
    x509_Verify now roots inter leaf = None →
    leaf ∈ roots ∨ ∃ c, c ∈ roots ++ inter ∧ cert_signed leaf (cert_PublicKey c);
}.

Definition caValidity : Duration := (10 * 365 * 24 * Hour)%Z.
Definition nodeValidity : Duration := (365 * 24 * Hour)%Z.
Definition tokenBytes : nat := 32.

Record Bundle := MkBundle {
  bd_CACert : list Z; bd_CAKey : list Z; bd_NodeCert : list Z; bd_NodeKey : list Z; bd_JoinTokenHash : list Z;
}.

(** What is drawn for one certificate: [ecdsa.GenerateKey], [rand.Int], the two
    readings of the clock and the randomness of the signature. *)
Record draw (Key : Type) := MkDraw {
  dw_Key : result error Key; dw_Serial : result error Z;
  dw_Before : Time; dw_After : Time; dw_Sign : list Z;
}.
Arguments MkDraw {Key}.
Arguments dw_Key {Key}.
Arguments dw_Serial {Key}.
Arguments dw_Before {Key}.
Arguments dw_After {Key}.
Arguments dw_Sign {Key}.

Section pki.
Context `{X509 Key Pub Cert}.

Definition ParseCertificate (certPEM : list Z) : result error Cert :=
  match pem_Decode certPEM with
  | None => Fail (Errorf "pki: no certificate PEM block" [])
  | Some (ty, b) =>
    if negb (String.eqb ty "CERTIFICATE") then Fail (Errorf "pki: no certificate PEM block" []) else
    match x509_ParseCertificate b with
    | Fail err => Fail (Errorf "pki: parse certificate: %w" [AErr err])
    | Ok cert => Ok cert
    end
  end.

Definition Fingerprint (certPEM : list Z) : result error string :=
  cert ← ParseCertificate certPEM;
  Ok ("sha256:" +:+ hex (sha256_Sum256 (cert_Raw cert))).

Definition HashToken (token : string) : list Z := sha256_Sum256 (bytes_of token).

(** [subtle.ConstantTimeCompare] of slices of one length. *)
Definition CheckToken (wantHash : list Z) (token : string) : bool :=
  if bool_decide (length wantHash = 0) then true else
  let got := HashToken token in
  if negb (bool_decide (length got = length wantHash)) then false else
  bool_decide (wantHash = got).

Definition parseCAKey (keyPEM : list Z) : result error Key :=
  match pem_Decode keyPEM with
  | None => Fail (Errorf "pki: no private key PEM block" [])
  | Some (_, b) =>
    match x509_ParsePKCS8PrivateKey b with
    | Fail err => Fail (Errorf "pki: parse ca key: %w" [AErr err])
    | Ok OtherKey => Fail (Errorf "pki: ca key is not ECDSA" [])
    | Ok (ECDSA ec) => Ok ec
    end
  end.

Definition encodePEM (certDER : list Z) (key : Key) : result error (list Z * list Z) :=
  let certPEM := pem_EncodeToMemory "CERTIFICATE" certDER in
  match x509_MarshalPKCS8PrivateKey key with
  | Fail err => Fail (Errorf "pki: marshal key: %w" [AErr err])
  | Ok keyBytes => Ok (certPEM, pem_EncodeToMemory "PRIVATE KEY" keyBytes)
  end.

Definition randomSerial (rand : result error Z) : result error Z :=
  match rand with
  | Fail err => Fail (Errorf "pki: serial: %w" [AErr err])
  | Ok serial => Ok serial
  end.

Definition ca_template (d : draw Key) (serial : Z) (clusterID : string) : Template :=
  MkTemplate serial ["clusdr"] ("clusdr-ca-" +:+ clusterID) (Add (dw_Before d) (- Minute)) (Add (dw_After d) caValidity)
    (Z.lor KeyUsageCertSign KeyUsageCRLSign) [] true 1 [].

Definition generateCA (d : draw Key) (clusterID : string) : result error (Cert * Key * list Z * list Z) :=
  match dw_Key d with
  | Fail err => Fail (Errorf "pki: generate ca key: %w" [AErr err])
  | Ok key =>
    serial ← randomSerial (dw_Serial d);
    let tmpl := ca_template d serial clusterID in
    match x509_CreateCertificate (dw_Sign d) tmpl tmpl (PublicKey key) key with
    | Fail err => Fail (Errorf "pki: create ca cert: %w" [AErr err])
    | Ok der =>
      match x509_ParseCertificate der with
      | Fail err => Fail (Errorf "pki: parse ca cert: %w" [AErr err])
      | Ok cert => pems ← encodePEM der key; Ok (cert, key, pems.1, pems.2)
      end
    end
  end.

Definition node_template (d : draw Key) (serial : Z) (nodeID : string) : Template :=
  MkTemplate serial ["clusdr"] nodeID (Add (dw_Before d) (- Minute)) (Add (dw_After d) nodeValidity)
    KeyUsageDigitalSignature [ExtKeyUsageServerAuth; ExtKeyUsageClientAuth] false 0 [nodeID].

Definition issueNode (d : draw Key) (ca : Cert) (caKey : Key) (nodeID : string) : result error (list Z * list Z) :=
  match dw_Key d with
  | Fail err => Fail (Errorf "pki: generate node key: %w" [AErr err])
  | Ok key =>
    serial ← randomSerial (dw_Serial d);
    match x509_CreateCertificate (dw_Sign d) (node_template d serial nodeID) (cert_of ca) (PublicKey key) caKey with
    | Fail err => Fail (Errorf "pki: create node cert: %w" [AErr err])
    | Ok der => encodePEM der key
    end
  end.

Definition IssueNodeCert (d : draw Key) (caCertPEM caKeyPEM : list Z) (nodeID : string) : result error (list Z * list Z) :=
  if str_empty nodeID then Fail (Errorf "pki: node id is required" []) else
  ca ← ParseCertificate caCertPEM;
  caKey ← parseCAKey caKeyPEM;
  issueNode d ca caKey nodeID.

(** [rand] is what [rand.Read] fills the 32 bytes with. *)
Definition newJoinToken (rand : result error (list Z)) : result error (string * list Z) :=
  match rand with
  | Fail err => Fail (Errorf "pki: join token: %w" [AErr err])
  | Ok b => let token := hex b in Ok (token, HashToken token)
  end.

Definition Generate (dca dnode : draw Key) (rand : result error (list Z)) (clusterID nodeID : string)
    : result error (Bundle * string) :=
  if str_empty clusterID || str_empty nodeID
  then Fail (Errorf "pki: cluster id and node id are required" []) else
  ca ← generateCA dca clusterID;
  let '(caCert, caKey, caCertPEM, caKeyPEM) := ca in
  node ← issueNode dnode caCert caKey nodeID;
  token ← newJoinToken rand;
  Ok (MkBundle caCertPEM caKeyPEM node.1 node.2 token.2, token.1).

End pki.

(** ** What the certificates are *)

Section facts.
Context `{X : X509 Key Pub Cert}.

(** A PEM pair: a certificate and the private key of the key it certifies. *)
Definition pem_pair (certPEM keyPEM der : list Z) (c : Cert) (k : Key) : Prop :=
  certPEM = pem_EncodeToMemory "CERTIFICATE" der ∧ x509_ParseCertificate der = Ok c ∧ cert_Raw c = der ∧
  cert_PublicKey c = PublicKey k ∧
  ∃ kb, keyPEM = pem_EncodeToMemory "PRIVATE KEY" kb ∧ x509_ParsePKCS8PrivateKey kb = Ok (ECDSA k).

(** A CA of this cluster, and a certificate of a node under it. *)
Definition is_ca (clusterID : string) (c : Cert) : Prop :=
  subject (cert_of c) = (["clusdr"], "clusdr-ca-" +:+ clusterID) ∧ x_IsCA (cert_of c) = true ∧
  Z.land (x_KeyUsage (cert_of c)) KeyUsageCertSign ≠ 0%Z ∧ x_ExtKeyUsage (cert_of c) = [].
Definition lifetime (d : draw Key) (now : Time) : Prop :=
  (to_second (Add (dw_Before d) (- Minute)) ≤ now ≤ to_second (Add (dw_After d) nodeValidity))%Z.
Definition is_node (d : draw Key) (ca : Cert) (caKey : Key) (nodeID : string) (c : Cert) : Prop :=
  subject (cert_of c) = (["clusdr"], nodeID) ∧ x_DNSNames (cert_of c) = [nodeID] ∧ x_IsCA (cert_of c) = false ∧
  cert_Issuer c = subject (cert_of ca) ∧ cert_signed c (PublicKey caKey) ∧
  ExtKeyUsageServerAuth ∈ x_ExtKeyUsage (cert_of c) ∧ ExtKeyUsageClientAuth ∈ x_ExtKeyUsage (cert_of c) ∧
  ∀ now, valid_at (cert_of c) now ↔ lifetime d now.

Lemma encodePEM_pair der c k pems :
  x509_ParseCertificate der = Ok c → cert_Raw c = der → cert_PublicKey c = PublicKey k →
  encodePEM der k = Ok pems → pem_pair pems.1 pems.2 der c k.
Proof.
  intros Hp Hr Hk He. unfold encodePEM in He. destruct (x509_MarshalPKCS8PrivateKey k) as [kb|] eqn:Hm; simplify_eq/=.
  split_and!; [done..|]. exists kb. split; [done|]. by apply marshal_parses.
Qed.

Lemma generateCA_spec d clusterID cert key cp kp :
  generateCA d clusterID = Ok (cert, key, cp, kp) → is_ca clusterID cert ∧ ∃ der, pem_pair cp kp der cert key.
Proof.
  unfold generateCA. intros Hg. destruct (dw_Key d) as [k|]; [|done]. destruct (dw_Serial d) as [s|]; [|done].
  cbn -[ca_template encodePEM] in Hg.
  destruct (x509_CreateCertificate _ _ _ _ _) as [der|] eqn:Hc; [|done].
  destruct (create_parses _ _ _ _ _ _ Hc) as (c & Hp & Hr & Hk & _ & _ & Hs & _ & Hca & Hu & Hx & _).
  rewrite Hp in Hg. destruct (encodePEM der k) as [pems|] eqn:He; [|done].
  cbn in Hg. injection Hg as <- <- <- <-. split; [|exists der; by apply encodePEM_pair]. split_and!; [done..| |done]. by rewrite Hu.
Qed.

Lemma issueNode_spec d ca caKey nodeID cp kp :
  issueNode d ca caKey nodeID = Ok (cp, kp) → ∃ c k der, is_node d ca caKey nodeID c ∧ pem_pair cp kp der c k.
Proof.
  unfold issueNode. intros Hg. destruct (dw_Key d) as [k|]; [|done]. destruct (dw_Serial d) as [s|]; [|done].
  cbn -[node_template encodePEM] in Hg.
  destruct (x509_CreateCertificate _ _ _ _ _) as [der|] eqn:Hc; [|done].
  destruct (create_parses _ _ _ _ _ _ Hc) as (c & Hp & Hr & Hk & Hsg & Hi & Hs & Hd & Hca & _ & Hx & Hb & Ha).
  exists c, k, der. split; [|by apply (encodePEM_pair der c k (cp, kp))].
  split_and!; [done..|rewrite Hx; simpl; set_solver|rewrite Hx; simpl; set_solver|].
  intros now. unfold valid_at. by rewrite Hb, Ha.
Qed.

Lemma pem_pair_cert cp kp der c k : pem_pair cp kp der c k → ParseCertificate cp = Ok c.
Proof. intros (-> & Hp & _). unfold ParseCertificate. by rewrite pem_decodes, Hp. Qed.
Lemma pem_pair_key cp kp der c k : pem_pair cp kp der c k → parseCAKey kp = Ok k.
Proof. intros (_ & _ & _ & _ & kb & -> & Hk). unfold parseCAKey. by rewrite pem_decodes, Hk. Qed.

Lemma pem_pair_nonempty cp kp der c k : pem_pair cp kp der c k → cp ≠ [] ∧ kp ≠ [].
Proof. intros (-> & _ & _ & _ & kb & -> & _). split; apply pem_nonempty. Qed.

Lemma IssueNodeCert_under d ca caKey cp kp der nodeID :
  pem_pair cp kp der ca caKey → nodeID ≠ "" → IssueNodeCert d cp kp nodeID = issueNode d ca caKey nodeID.
Proof.
  intros Hp Hid. unfold IssueNodeCert. apply str_empty_false in Hid. rewrite Hid.
  by rewrite (pem_pair_cert _ _ _ _ _ Hp), (pem_pair_key _ _ _ _ _ Hp).
Qed.

Lemma Generate_spec dca dnode rand cid nid b tok :
  Generate dca dnode rand cid nid = Ok (b, tok) →
  ∃ ca caKey der c k der', is_ca cid ca ∧ pem_pair (bd_CACert b) (bd_CAKey b) der ca caKey ∧
    is_node dnode ca caKey nid c ∧ pem_pair (bd_NodeCert b) (bd_NodeKey b) der' c k ∧
    (∃ bytes, rand = Ok bytes ∧ tok = hex bytes) ∧ bd_JoinTokenHash b = HashToken tok.
Proof.
  unfold Generate. destruct (_ || _); [done|]. intros Hg.
  destruct (generateCA dca cid) as [[[[ca caKey] cp] kp]|] eqn:Hca; [|done]. cbn -[issueNode newJoinToken] in Hg.
  destruct (issueNode dnode ca caKey nid) as [[ncp nkp]|] eqn:Hn; [|done]. cbn -[newJoinToken] in Hg.
  destruct rand as [bytes|]; [|done]. cbn in Hg. injection Hg as <- <-. cbn [bd_CACert bd_CAKey bd_NodeCert bd_NodeKey bd_JoinTokenHash fst snd].
  destruct (generateCA_spec _ _ _ _ _ _ Hca) as (Hisca & der & Hpca).
  destruct (issueNode_spec _ _ _ _ _ _ Hn) as (c & k & der' & Hisn & Hpn).
  exists ca, caKey, der, c, k, der'. split_and!; [done..| |done]. by exists bytes.
Qed.

(** A node certificate under a CA is accepted for its lifetime. *)
Lemma node_accepted d cid ca caKey nid c now :
  is_ca cid ca → cert_PublicKey ca = PublicKey caKey → is_node d ca caKey nid c → valid_at (cert_of ca) now →
  x509_Verify now [ca] [] c = None ↔ lifetime d now.
Proof.
  intros (_ & Hca & Hu & Hx) Hk (_ & _ & _ & Hi & Hs & Hsrv & _ & Hv) Hval. rewrite <-Hv. split; [apply verify_valid|].
  intros Hnow. apply (verify_accepts now [ca] [] c ca); try done; [set_solver|by rewrite Hk].
Qed.

Lemma HashToken_nonempty token : HashToken token ≠ [].
Proof. intros He. pose proof (sha256_length (bytes_of token)) as Hl. unfold HashToken in He. by rewrite He in Hl. Qed.

Lemma CheckToken_iff wantHash token :
  CheckToken wantHash token = true ↔ wantHash = [] ∨ HashToken token = wantHash.
Proof.
  unfold CheckToken. destruct wantHash as [|x l]; [simpl; naive_solver|]. rewrite bool_decide_eq_false_2 by done.
  case_bool_decide as Hl; simpl; [rewrite bool_decide_eq_true; naive_solver|].
  split; [done|]. intros [?|He]; [done|]. by rewrite He in Hl.
Qed.

(** The token check of a store that has the hash of a token. *)
Lemma store_checks_token `{Bolt DB} (db : DB) c tok t :
  Certs db = TxOk c → JoinTokenHash c = HashToken tok →
  Store.CheckToken CheckToken db t =
    if decide (HashToken t = HashToken tok) then TxOk () else TxErr (Errorf "unauthorized" []).
Proof.
  intros Hc Hh. unfold Store.CheckToken. rewrite Hc, Hh.
  rewrite bool_decide_eq_false_2 by (intros ?%nil_length_inv; by eapply HashToken_nonempty).
  pose proof (CheckToken_iff (HashToken tok) t) as Hiff. case_decide as Ht.
  - by rewrite (proj2 Hiff (or_intror Ht)).
  - destruct (CheckToken _ t); [|done]. by destruct (proj1 Hiff eq_refl) as [He|]; [apply HashToken_nonempty in He|].
Qed.
End facts.

(** ** Peers of a cluster trust each other *)

(** [tls.X509KeyPair] and [CertPool.AppendCertsFromPEM]: a key pair is the
    certificates it shows and its key. *)
Class TLSLib (Key Pub Cert : Type) `{X509 Key Pub Cert} := {
  tls_X509KeyPair : list Z → list Z → result error (list (list Z) * Key);
  pool_AppendCertsFromPEM : list Z → option (list Cert);
  keypair_loads cp kp der c k : pem_pair cp kp der c k → tls_X509KeyPair cp kp = Ok ([der], k);
  pool_loads cp kp der c k : pem_pair cp kp der c k → pool_AppendCertsFromPEM cp = Some [c];
}.

Section trust.
Context `{TLSLib Key Pub Cert}.
(** [mtls.clientConfig], used at a time. *)
Definition client_at (now : Time) :=
  clientConfig tls_X509KeyPair pool_AppendCertsFromPEM x509_ParseCertificate (x509_Verify now).

Lemma client_at_pair now cacp cakp cader ca caKey cp kp der c k :
  pem_pair cacp cakp cader ca caKey → pem_pair cp kp der c k →
  client_at now cacp cp kp = Ok (MkClientTLS (Some ([der], k)) (verifyPeer x509_ParseCertificate (x509_Verify now) [ca])).
Proof.
  intros Hca Hp. unfold client_at, clientConfig, poolFromPEM.
  by rewrite (pool_loads _ _ _ _ _ Hca), (keypair_loads _ _ _ _ _ Hp).
Qed.

Lemma verifyPeer_one now ca der c :
  x509_ParseCertificate der = Ok c →
  verifyPeer x509_ParseCertificate (x509_Verify now) [ca] [der] = None ↔ x509_Verify now [ca] [] c = None.
Proof. intros Hp. unfold verifyPeer. rewrite Hp. simpl. by destruct (x509_Verify now [ca] [] c). Qed.

(** C26: Nodes of one cluster trust each other, for a year.  When [Generate] made the
    material of a seed and [IssueNodeCert] a certificate for a joiner, both can
    build their client configuration from them; while the CA is valid, each accepts
    what the other shows exactly during the lifetime of the other's certificate,
    one minute before it was issued to 365 days after.  A single certificate is
    accepted by either only if it is the CA's or signed with the CA's key. *)
Theorem issued_nodes_trusted dca dnode rand cid nid b tok dj id cert key now :
  Generate dca dnode rand cid nid = Ok (b, tok) →
  IssueNodeCert dj (bd_CACert b) (bd_CAKey b) id = Ok (cert, key) →
  ∃ ca seed joiner sder jder sk jk,
    ParseCertificate (bd_CACert b) = Ok ca ∧
    client_at now (bd_CACert b) (bd_NodeCert b) (bd_NodeKey b) = Ok seed ∧ ct_Shows seed = Some ([sder], sk) ∧
    client_at now (bd_CACert b) cert key = Ok joiner ∧ ct_Shows joiner = Some ([jder], jk) ∧
    (valid_at (cert_of ca) now →
       (ct_Accepts joiner [sder] = None ↔ lifetime dnode now) ∧
       (ct_Accepts seed [jder] = None ↔ lifetime dj now)) ∧
    (∀ der c, x509_ParseCertificate der = Ok c → ct_Accepts seed [der] = None ∨ ct_Accepts joiner [der] = None →
       c = ca ∨ cert_signed c (cert_PublicKey ca)).
Proof.
  intros Hg Hi. destruct (Generate_spec _ _ _ _ _ _ _ Hg) as (ca & caKey & der & c & k & sder & Hca & Hpca & Hn & Hpn & _ & _).
  assert (id ≠ "") as Hid by (intros ->; done). rewrite (IssueNodeCert_under _ _ _ _ _ _ _ Hpca Hid) in Hi.
  destruct (issueNode_spec _ _ _ _ _ _ Hi) as (cj & kj & jder & Hnj & Hpj).
  assert (cert_PublicKey ca = PublicKey caKey) as Hk by apply Hpca.
  eexists ca, _, _, sder, jder, k, kj. split; [by eapply pem_pair_cert|].
  split; [by apply (client_at_pair _ _ _ _ _ _ _ _ _ _ _ Hpca Hpn)|]. split; [done|].
  split; [by apply (client_at_pair _ _ _ _ _ _ _ _ _ _ _ Hpca Hpj)|]. split; [done|]. cbn [ct_Accepts]. split.
  - intros Hv. rewrite (verifyPeer_one _ _ sder c) by apply Hpn. rewrite (verifyPeer_one _ _ jder cj) by apply Hpj.
    split; by eapply node_accepted.
  - intros der' c' Hp'. rewrite (verifyPeer_one _ _ der' c') by done. intros Hv.
    assert (x509_Verify now [ca] [] c' = None) as [Hr|(r & Hr & Hs)]%verify_chain by tauto; set_solver.
Qed.
End trust.

(** ** Cryptography on paper

    Keys are numbers, a certificate is its own encoding, with the key that signed
    it. *)
Module PkiExamples.
Record cert := MkCert {
  pc_Nums : list Z;                  (* serial, not before, not after, usage, CA, path length, key, signer *)
  pc_Strings : list (list string);   (* organization, name, DNS names, issuer organization and name *)
  pc_Ext : list Z;
}.
Definition cert_tuple (c : cert) := (pc_Nums c, pc_Strings c, pc_Ext c).
#[export] Instance cert_eq_dec : EqDecision cert.
Proof. solve_decision. Defined.
#[export] Instance cert_countable : Countable cert.
Proof. refine (inj_countable' cert_tuple (λ t, MkCert t.1.1 t.1.2 t.2) _). by intros []. Defined.

Definition num (c : cert) (i : nat) : Z := default 0%Z (pc_Nums c !! i).
Definition strs (c : cert) (i : nat) : list string := default [] (pc_Strings c !! i).
Definition ext_of (z : Z) : ExtKeyUsage_ := if (z =? 1)%Z then ExtKeyUsageServerAuth else ExtKeyUsageClientAuth.
Definition ext_num (e : ExtKeyUsage_) : Z := match e with ExtKeyUsageServerAuth => 1 | ExtKeyUsageClientAuth => 2 end.
Definition fields (c : cert) : Template :=
  MkTemplate (num c 0) (strs c 0) (default "" (head (strs c 1))) (num c 1) (num c 2) (num c 3) (ext_of <$> pc_Ext c)
    (num c 4 =? 1)%Z (num c 5) (strs c 2).
Definition make (t p : Template) (pub priv : Z) : cert :=
  MkCert [x_SerialNumber t; to_second (x_NotBefore t); to_second (x_NotAfter t); x_KeyUsage t;
          if x_IsCA t then 1 else 0; x_MaxPathLen t; pub; priv]%Z
    [x_Organization t; [x_CommonName t]; x_DNSNames t; x_Organization p; [x_CommonName p]]
    (ext_num <$> x_ExtKeyUsage t).
Definition der_of (c : cert) : list Z := [Z.pos (encode c)].
Definition parse (b : list Z) : result error cert :=
  match b with
  | [Z.pos p] => match decode p with Some c => Ok c | None => Fail (Errorf "malformed" []) end
  | _ => Fail (Errorf "malformed" [])
  end.
Lemma parse_der c : parse (der_of c) = Ok c.
Proof. unfold der_of, parse. by rewrite decode_encode. Qed.
Lemma ext_of_num (l : list ExtKeyUsage_) : ext_of <$> (ext_num <$> l) = l.
Proof. induction l as [|[] l IH]; csimpl; by rewrite ?IH. Qed.

Definition in_time (t : Template) (now : Time) : bool := ((x_NotBefore t <=? now) && (now <=? x_NotAfter t))%Z.
Definition signs (leaf ca : cert) : bool :=
  x_IsCA (fields ca) && bool_decide (num leaf 7 = num ca 6) &&
  bool_decide ((strs leaf 3, default "" (head (strs leaf 4))) = subject (fields ca)).
Definition verify (now : Time) (roots inter : list cert) (leaf : cert) : option error :=
  if in_time (fields leaf) now && existsb (λ ca, in_time (fields ca) now && signs leaf ca) roots
  then None else Some (Errorf "certificate signed by unknown authority" []).

#[export] Instance paper_x509 : X509 Z Z cert.
Proof.
  refine {|
    PublicKey k := k; cert_of := fields; cert_Raw := der_of; cert_PublicKey c := num c 6;
    cert_Issuer c := (strs c 3, default "" (head (strs c 4))); cert_signed c p := num c 7 = p;
    x509_CreateCertificate sign t p pub priv := Ok (der_of (make t p pub priv));
    x509_ParseCertificate := parse;
    x509_MarshalPKCS8PrivateKey k := Ok [k];
    x509_ParsePKCS8PrivateKey b := match b with [k] => Ok (ECDSA k) | _ => Fail (Errorf "malformed" []) end;
    x509_Verify := verify;
    pem_Decode b := match b with Z.pos t :: b => t ← decode t; Some (t, b) | _ => None end;
    pem_EncodeToMemory t b := Z.pos (encode t) :: b;
    sha256_Sum256 b := take 32 (((λ x, x `mod` 256)%Z <$> b) ++ replicate 32 0%Z);
  |}.
  - intros sign t p pub priv der Hd. injection Hd as <-. exists (make t p pub priv). rewrite parse_der.
    split_and!; try done; try (unfold subject; by destruct t, p).
    + destruct t as [? ? ? ? ? ? ? [] ? ?]; reflexivity.
    + apply ext_of_num.
  - intros k b Hb. by injection Hb as <-.
  - intros t b. by rewrite decode_encode.
  - done.
  - intros b. rewrite length_take, length_app, length_replicate. lia.
  - intros b. apply Forall_take, Forall_app. split; [|by apply Forall_replicate].
    apply Forall_fmap, Forall_true. intros x. by apply Z.mod_pos_bound.
  - intros now roots inter leaf ca Hin Hca _ Hi Hs _ _ Hvc Hvl. unfold verify.
    assert (∀ t, valid_at t now → in_time t now = true) as Ht.
    { intros t [H1 H2]. unfold in_time. by rewrite (proj2 (Z.leb_le _ _) H1), (proj2 (Z.leb_le _ _) H2). }
    rewrite (Ht _ Hvl). simpl. rewrite (proj2 (existsb_exists _ _)); [done|].
    exists ca. split; [by apply list_elem_of_In|]. rewrite (Ht _ Hvc). unfold signs.
    rewrite Hca. by rewrite !bool_decide_eq_true_2 by done.
  - intros now roots inter leaf Hv. unfold verify in Hv. destruct (_ && _) eqn:Hb; [|done].
    apply andb_true_iff in Hb as [Hb _]. unfold in_time in Hb. rewrite andb_true_iff, !Z.leb_le in Hb. done.
  - intros now roots inter leaf Hv. right. unfold verify in Hv. destruct (_ && _) eqn:Hb; [|done].
    apply andb_true_iff in Hb as [_ Hb]. apply existsb_exists in Hb as (ca & Hin & Hb).
    unfold signs in Hb. rewrite !andb_true_iff, !bool_decide_eq_true in Hb.
    exists ca. split; [|naive_solver]. apply elem_of_app. left. by apply list_elem_of_In.
Defined.

#[export] Instance paper_tls : TLSLib Z Z cert.
Proof.
  refine {|
    tls_X509KeyPair cp kp := match cp, kp with _ :: der, [_; k] => Ok ([der], k) | _, _ => Fail (Errorf "malformed" []) end;
    pool_AppendCertsFromPEM cp := match cp with _ :: der => match parse der with Ok c => Some [c] | Fail _ => None end | [] => None end;
  |}.
  - intros cp kp der c k (-> & _ & _ & _ & kb & -> & Hk). simpl in *. destruct kb as [|? []]; by simplify_eq.
  - intros cp kp der c k (-> & Hp & _). simpl in *. by rewrite Hp.
Defined.

Definition at_ (now : Time) (key : Z) : draw Z := MkDraw (Ok key) (Ok 7%Z) now now [].
Definition day : Time := (24 * Hour)%Z.
Definition made : Bundle * string :=
  match Generate (at_ 0 1) (at_ 0 2) (Ok (replicate 32 171%Z)) "c1" "n1" with
  | Ok r => r | Fail _ => (MkBundle [] [] [] [] [], "") end.
Definition issued2 : list Z * list Z :=
  match IssueNodeCert (at_ day 3) (bd_CACert made.1) (bd_CAKey made.1) "n2" with Ok r => r | Fail _ => ([], []) end.

Lemma issued_nodes_trusted_witness :
  ∃ seed joiner sder sk, client_at (400 * day) (bd_CACert made.1) (bd_NodeCert made.1) (bd_NodeKey made.1) = Ok seed ∧
    ct_Shows seed = Some ([sder], sk) ∧ client_at (400 * day) (bd_CACert made.1) issued2.1 issued2.2 = Ok joiner ∧
    ct_Accepts joiner [sder] ≠ None.
Proof.
  destruct (issued_nodes_trusted (at_ 0 1) (at_ 0 2) (Ok (replicate 32 171%Z)) "c1" "n1" made.1 made.2
    (at_ day 3) "n2" issued2.1 issued2.2 (400 * day))
    as (ca & seed & joiner & sder & jder & sk & jk & Hca & Hs & Hsh & Hj & _ & Hv & _); [vm_compute; reflexivity..|].
  exists seed, joiner, sder, sk. split_and!; [done..|].
  assert (valid_at (cert_of ca) (400 * day)) as Hval.
  { vm_compute in Hca. injection Hca as <-. by split; apply Z.leb_le; vm_compute. }
  rewrite (proj1 (Hv Hval)). intros [_ Hl]. vm_compute in Hl. by apply Hl.
Defined.
End PkiExamples.
