(* ===== verification/JoinFlow.v ===== *)
(** * JoinFlow: a node joins, from the CLI's request to both stores

    Two daemons: the seed, which leads and has the cluster's certificates, and a
    node that asks to join.  The services are wired as [InitGRPC] wires them
    ([internal/app/units.go]): the join service of the seed over its consensus
    node and [joinSec], the control service of the other over [joinBoot]. *)
From S2P Require Import Prelude Events Membership FSM Node LockService JoinService Config Store Units Server Pki.

Record joining (W DB : Type) := MkJoining {
  jn_seed : W;          (* the seed's consensus node with its FSM *)
  jn_store : DB;        (* the seed's store *)
  jn_engine : Engine;   (* the member list of the joining node *)
  jn_db : DB;           (* its store *)
}.
Arguments MkJoining {W DB}.
Arguments jn_seed {W DB}.
Arguments jn_store {W DB}.
Arguments jn_engine {W DB}.
Arguments jn_db {W DB}.

Section flow.
Context `{RL : RaftLib W D} `{HB : Bolt DB} `{TL : TLSLib Key Pub Cert}.
Abbreviation pair := (joining W DB).

Definition on_seed {A} (f : W → W * A) (p : pair) : pair * A :=
  let r := f (jn_seed p) in (MkJoining r.1 (jn_store p) (jn_engine p) (jn_db p), r.2).
Definition seed_engine (p : pair) : Engine := engine (jn_seed p).

(** [a.Consensus] as the seed's [VoterAdder]. *)
Definition seed_voter : VoterAdder pair := MkVoterAdder pair
  (λ p id addr, on_seed (λ w, AddVoter w id addr) p)
  (λ p id addr, on_seed (λ w, AddNonvoter w id addr) p)
  (λ p id, on_seed (λ w, PromoteToVoter w id) p)
  (λ p id, on_seed (λ w, RemoveVoter w id) p)
  (λ p id addr role, on_seed (λ w, ApplyAddMemberAs w id addr role) p)
  (λ p id, on_seed (λ w, ApplyDropMember w id) p)
  (λ p id, HasServer (jn_seed p) id)
  (λ p, IsLeader (jn_seed p)).

(** A call on a store as the handler sees it; a panic is answered by the
    recovering interceptor. *)
Definition as_error (r : tx unit) : option error :=
  match r with TxOk _ => None | TxErr e => Some e | TxPanic => Some (Errorf "internal error" []) end.
Definition as_answer {A} (r : tx A) : result error A :=
  match r with TxOk a => Ok a | TxErr e => Fail e | TxPanic => Fail (Errorf "internal error" []) end.

(** [joinSec]; [d] is drawn for the certificate of the node. *)
Definition seed_security (d : draw Key) : JoinSecurity pair := MkJoinSecurity pair
  (λ p token, as_error (Store.CheckToken CheckToken (jn_store p) token))
  (λ p id, (p, as_answer (Store.IssueNode (IssueNodeCert d) (jn_store p) id))).

Definition seed_Join (others : JoinPeers pair) (clusterID : string) (d : draw Key) (now : Time) (p : pair)
    (req : JoinRequest) : pair * result status JoinResponse :=
  JoinService.Join seed_engine (λ p _, p) (Some seed_voter) (Some (seed_security d)) others clusterID now p req.

(** [joinBoot] *)
Definition joiner_boot (write : string → list Z → list Z → list Z → option error) (dataDir : string) (p : pair)
    (c : certs) : pair * option error :=
  let r := boot_SaveJoinCerts write dataDir (jn_db p) c in
  (MkJoining (jn_seed p) (jn_store p) (jn_engine p) r.1, as_error r.2).

(** The joining node reaches the seed's handler at the addresses it can dial. *)
Definition joiner_peers (others : JoinPeers pair) (dial : string → option error) (clusterID : string) (d : draw Key)
    (now : Time) : JoinPeers pair :=
  MkJoinPeers pair (λ _ addr, dial addr) (λ p _ req, seed_Join others clusterID d now p req)
    (jp_Promote others) (jp_Leave others) (jp_Rejoin others).

Context (others : JoinPeers pair) (dial : string → option error) (write : string → list Z → list Z → list Z → option error).
Context (clusterID myCluster raftAddr dataDir : string) (dj : draw Key) (now : Time).

(** [clusdr join addr] on the joining node. *)
Definition request_join (p : pair) (addr token : string) (observer : bool) :=
  RequestJoin jn_engine (joiner_peers others dial clusterID dj now) myCluster raftAddr
    (Some (joiner_boot write dataDir)) p addr token observer.
End flow.

Section props.
Context `{RL : RaftLib W D} `{HB : Bolt DB} `{TL : TLSLib Key Pub Cert}.
Abbreviation pair := (joining W DB).

(** What the joining node's store has after it saved its certificates. *)
Lemma certs_after_join (db : DB) ca cert key h db' :
  opened (db_contents db) → SaveJoinCerts db ca cert key h = (db', TxOk ()) →
  ca ≠ [] → cert ≠ [] → key ≠ [] → h ≠ [] → Certs db' = TxOk (MkCertsRec ca [] cert key h).
Proof.
  intros Ho Hs Hca Hcert Hkey Hh.
  destruct (sapply_spec db (OpSaveJoinCerts ca cert key h) db' _ Ho Hs) as [_ (b & b' & _ & Hb & Hc)].
  cbn [sop_body] in Hb. destruct (put_pairs b _) as [b1| |] eqn:Hp; [|done..]. simpl in Hb.
  destruct (db_Delete b1 keyCAKey) as [b2|] eqn:Hd; [|done]. injection Hb as <-.
  assert (NoDup [keyCACert; keyNodeCert; keyNodeKey; keyJoinTokenHash]) as Hnd
    by (apply (bool_decide_unpack _); by vm_compute).
  assert (∀ k, k ≠ keyCAKey → get b2 k = get b1 k) as Hget.
  { intros k Hk. rewrite (db_Delete_ok _ _ _ Hd). unfold get. by rewrite lookup_delete_ne. }
  assert (get b2 keyCAKey = []) as Hk by (rewrite (db_Delete_ok _ _ _ Hd); unfold get; by rewrite lookup_delete_eq).
  pose proof (λ k, get_after _ _ _ k Hp Hnd) as Hg.
  unfold Certs, with_bucket. rewrite Hc. cbn [sop_bucket]. rewrite lookup_insert_eq.
  rewrite Hk, !Hget, !Hg, !clone_id by done. destruct ca, cert, key, h; done.
Qed.

Definition material (b : Bundle) : Certs_ :=
  MkCertsRec (bd_CACert b) (bd_CAKey b) (bd_NodeCert b) (bd_NodeKey b) (bd_JoinTokenHash b).
Definition unauthorized : status := Status Unauthenticated (Errorf "UNAUTHORIZED: invalid join token" []).

(** The change of the Raft configuration that a join begins with, and the role it
    ends with. *)
Definition configure (observer : bool) (w : W) (id addr : string) : W * option error :=
  if observer then AddNonvoter w id addr else AddVoter w id addr.
Definition role_of (observer : bool) : string := if observer then RoleObserver else RoleVoter.

Context (others : JoinPeers pair) (clusterID : string) (dj : draw Key) (now : Time).

(** The seed's answer, step by step. *)
Lemma seed_Join_steps p req b tok :
  raft_State_leader (jn_seed p) = true → jq_NodeId req ≠ "" → jq_Address req ≠ "" → jq_RaftAddr req ≠ "" →
  clusterID = "" ∨ jq_ClusterId req = "" ∨ jq_ClusterId req = clusterID →
  Certs (jn_store p) = TxOk (material b) → bd_JoinTokenHash b = HashToken tok → bd_CAKey b ≠ [] →
  seed_Join others clusterID dj now p req =
    if decide (HashToken (jq_JoinToken req) = HashToken tok) then
      match configure (jq_Observer req) (jn_seed p) (jq_NodeId req) (jq_RaftAddr req) with
      | (w1, Some err) => (MkJoining w1 (jn_store p) (jn_engine p) (jn_db p),
          Fail (Status Internal (Errorf "add raft %s: %v" [AStr (if jq_Observer req then "nonvoter" else "voter"); AErr err])))
      | (w1, None) =>
        match ApplyAddMemberAs w1 (jq_NodeId req) (jq_Address req) (role_of (jq_Observer req)) with
        | (w2, Some err) => (MkJoining w2 (jn_store p) (jn_engine p) (jn_db p), Fail (internal "apply add_member: %v" err))
        | (w2, None) =>
          (MkJoining w2 (jn_store p) (jn_engine p) (jn_db p),
           match IssueNodeCert dj (bd_CACert b) (bd_CAKey b) (jq_NodeId req) with
           | Fail err => Fail (internal "issue node cert: %v" err)
           | Ok (cert, key) => Ok (MkJoinResponse true None (Members (engine w2))
               (MkCerts cert key (bd_CACert b) (bd_JoinTokenHash b)))
           end)
        end
      end
    else (p, Fail unauthorized).
Proof.
  intros Hl Hid%str_empty_false Ha%str_empty_false Hr%str_empty_false Hcl Hc Hh Hk.
  unfold seed_Join, Join. rewrite Hid, Ha.
  assert (negb (str_empty clusterID) && negb (str_empty (jq_ClusterId req)) &&
    negb (String.eqb (jq_ClusterId req) clusterID) = false) as ->.
  { destruct Hcl as [->|[->| ->]]; [done|by rewrite andb_false_r|by rewrite String.eqb_refl, andb_false_r]. }
  cbn [sc_CheckToken seed_security]. rewrite (store_checks_token _ _ _ _ Hc Hh).
  case_decide; [|done]. cbn [as_error]. unfold on_leader. cbn [va_IsLeader seed_voter]. unfold IsLeader. rewrite Hl. cbn [negb].
  unfold enrol, addToRaft. rewrite Hr.
  assert (∀ q : pair, jn_store q = jn_store p → as_answer (Store.IssueNode (IssueNodeCert dj) (jn_store q) (jq_NodeId req)) =
    match IssueNodeCert dj (bd_CACert b) (bd_CAKey b) (jq_NodeId req) with
    | Fail err => Fail err
    | Ok (cert, key) => Ok (MkCerts cert key (bd_CACert b) (bd_JoinTokenHash b))
    end) as Hissue.
  { intros q ->. unfold Store.IssueNode. rewrite Hc. cbn [mbind tx_bind material CAKey CACert JoinTokenHash].
    rewrite bool_decide_eq_false_2 by (by intros ?%nil_length_inv). by destruct (IssueNodeCert _ _ _ _) as [[]|]. }
  unfold configure, role_of. destruct (jq_Observer req); cbn [va_AddNonvoter va_AddVoter va_ApplyAddMemberAs seed_voter];
    unfold on_seed; cbn zeta.
  - destruct (AddNonvoter (jn_seed p) _ _) as [w1 [e|]]; cbn [fst snd jn_seed]; [done|].
    destruct (ApplyAddMemberAs w1 _ _ _) as [w2 [e|]]; cbn [fst snd]; [done|].
    unfold issue; cbn [sc_IssueNode seed_security]. rewrite Hissue by done. by destruct (IssueNodeCert _ _ _ _) as [[]|].
  - destruct (AddVoter (jn_seed p) _ _) as [w1 [e|]]; cbn [fst snd jn_seed]; [done|].
    destruct (ApplyAddMemberAs w1 _ _ _) as [w2 [e|]]; cbn [fst snd]; [done|].
    unfold issue; cbn [sc_IssueNode seed_security]. rewrite Hissue by done. by destruct (IssueNodeCert _ _ _ _) as [[]|].
Qed.

Context (dial : string → option error) (write : string → list Z → list Z → list Z → option error).
Context (myCluster raftAddr dataDir : string).
Abbreviation request := (request_join others dial write clusterID myCluster raftAddr dataDir dj now).
(** A configuration change may let other entries of the log be applied. *)
Context (change_applies : ∀ o w id a, ∃ es, raft_fsm (configure o w id a).1 = apply_entries (raft_fsm w) es).

End props.

(** ** A seed that commits at once, and an empty node *)
Module JoinFlowExamples.
Import SoloRaft PkiExamples.
#[local] Existing Instance StoreExamples.mem_bolt.

Definition no_others : JoinPeers (joining solo buckets) :=
  let down {R} : result status R := Fail (Status Unavailable (Errorf "down" [])) in
  MkJoinPeers _ (λ _ _, None) (λ w _ _, (w, down)) (λ w _ _, (w, down)) (λ w _ _, (w, down)) (λ w _ _, (w, down)).
Definition seed_db : buckets := (SaveCerts StoreExamples.fresh (material made.1)).1.
Definition two : joining solo buckets :=
  MkJoining start seed_db (Membership.New 0 "n2" "10.0.0.2:7") StoreExamples.fresh.
Definition asked (token : string) :=
  request_join no_others (λ _, None) (λ _ _ _ _, None) "c1" "" "10.0.0.2:8" "" (at_ day 3) 7 two "10.0.0.1:7" token true.
Definition told : result status (bool * option error * list Member * bool) → bool :=
  λ r, match r with Ok (true, None, _, true) => true | _ => false end.

Lemma told_joined r : told r = true → ∃ ms, r = Ok (true, None, ms, true).
Proof. destruct r as [[[[[] [e|]] ms] []]|]; simpl; try done. by exists ms. Qed.
Lemma solo_change_applies o (w : solo) id a : ∃ es, raft_fsm (configure o w id a).1 = apply_entries (raft_fsm w) es.
Proof. exists []. by destruct o. Qed.

End JoinFlowExamples.
