(* ===== verification/Startup.v ===== *)
(** * Startup: the daemon's units put together ([New] of [internal/consensus/node.go],
    the init and close functions of [internal/app/units.go])

    A daemon is the set of collaborators on [App] and what it has open: files,
    sockets and goroutines, as [handle]s.  The outcome of every call that can fail
    is an argument ([env]): an error, or none.  The listeners of [Options], which
    tests inject, are nil. *)
From S2P Require Import Prelude Events Locks Leases Membership Bus Node Heartbeat Presence Config Store App Units Server.

Inductive handle : Type :=
  | HStore | HTransport | HRaftStore | HRaft | HLeaderWatch | HLockExpirer | HLeaseExpirer
  | HRuntime | HControl | HHeartbeat | HPresenceWatch | HSubscription | HKeeper | HAnnounce.
#[export] Instance handle_eq_dec : EqDecision handle.
Proof. solve_decision. Defined.

Definition release (hs open : list handle) : list handle := List.filter (λ h, negb (bool_decide (h ∈ hs))) open.

(** ** The Raft node *)

Record timeouts := MkTimeouts { to_Heartbeat : Duration; to_Election : Duration; to_LeaderLease : Duration }.
(** [consensus.Config]; [cc_Transport] is the local address of an injected transport. *)
Record RaftNodeConfig := MkRaftNodeConfig {
  cc_Addr : string; cc_Bootstrap : bool; cc_Timeouts : timeouts; cc_Transport : option string;
}.
Record RaftNode := MkRaftNode { rn_LocalID : string; rn_Timeouts : timeouts; rn_Bootstrapped : option (list Node.Server) }.

(** [errors.Is(err, raftlib.ErrCantBootstrap)] or another error. *)
Inductive bootstrap_error : Type := ErrCantBootstrap | BootstrapFailed (e : error).

(** The answers of the operating system and of hashicorp/raft. *)
Record raft_env := MkRaftEnv {
  re_MkdirAll : option error; re_ResolveTCPAddr : option error; re_NewTCPTransport : option error;
  re_BoltNew : option error; re_NewFileSnapshotStore : option error; re_NewRaft : option error;
  re_BootstrapCluster : option bootstrap_error; re_Shutdown : option error; re_StoreClose : option error;
}.

Definition override (dflt d : Duration) : Duration := if (0 <? d)%Z then d else dflt.
Definition raft_timeouts (dflt t : timeouts) : timeouts :=
  MkTimeouts (override (to_Heartbeat dflt) (to_Heartbeat t)) (override (to_Election dflt) (to_Election t))
    (override (to_LeaderLease dflt) (to_LeaderLease t)).

Section node.
(** The timeouts of [raftlib.DefaultConfig]. *)
Context (DefaultTimeouts : timeouts) (re : raft_env).

Definition raftTransport (cfg : RaftNodeConfig) (open : list handle) : list handle * result error string :=
  match cc_Transport cfg with
  | Some local => (open, Ok local)
  | None =>
    match re_ResolveTCPAddr re with
    | Some err => (open, Fail (Errorf "resolve raft addr %q: %w" [AStr (cc_Addr cfg); AErr err]))
    | None =>
      match re_NewTCPTransport re with
      | Some err => (open, Fail (Errorf "raft tcp transport: %w" [AErr err]))
      | None => (HTransport :: open, Ok (cc_Addr cfg))
      end
    end
  end.

(** [r.Shutdown().Error()] also closes the transport. *)
Definition shutdown_raft (open : list handle) : list handle := release [HRaft; HTransport] open.

Definition NewNode (cfg : RaftNodeConfig) (nodeID : string) (open : list handle) : list handle * result error RaftNode :=
  match re_MkdirAll re with
  | Some err => (open, Fail (Errorf "mkdir raft dir: %w" [AErr err]))
  | None =>
    match raftTransport cfg open with
    | (open, Fail err) => (open, Fail err)
    | (open, Ok raftAddr) =>
      match re_BoltNew re with
      | Some err => (open, Fail (Errorf "raft bolt store: %w" [AErr err]))
      | None =>
        let open := HRaftStore :: open in
        match re_NewFileSnapshotStore re with
        | Some err => (open, Fail (Errorf "raft snapshot store: %w" [AErr err]))
        | None =>
          match re_NewRaft re with
          | Some err => (release [HRaftStore] open, Fail (Errorf "new raft: %w" [AErr err]))
          | None =>
            let open := HRaft :: open in
            let node servers := MkRaftNode nodeID (raft_timeouts DefaultTimeouts (cc_Timeouts cfg)) servers in
            if cc_Bootstrap cfg then
              let servers := [Node.MkServer Voter nodeID raftAddr] in
              match re_BootstrapCluster re with
              | Some (BootstrapFailed err) =>
                (release [HRaftStore] (shutdown_raft open), Fail (Errorf "raft bootstrap: %w" [AErr err]))
              | Some ErrCantBootstrap => (open, Ok (node None))
              | None => (open, Ok (node (Some servers)))
              end
            else (open, Ok (node None))
          end
        end
      end
    end
  end.
End node.

(** ** The collaborators *)

Record daemon (DB : Type) := MkDaemon {
  d_Cfg : Config.Config; d_Log : option log_handler; d_Store : option DB;
  d_Membership : option Engine; d_Bus : bool; d_Locks : option Locks.Table; d_Leases : option Leases.Table;
  d_Consensus : option RaftNode; d_GRPC : option (list string);
  d_Heartbeat : option Heartbeat.Config; d_presence : option Presence.Config;
  d_open : list handle;
}.
Arguments MkDaemon {DB}.
Arguments d_Cfg {DB}.
Arguments d_Log {DB}.
Arguments d_Store {DB}.
Arguments d_Membership {DB}.
Arguments d_Bus {DB}.
Arguments d_Locks {DB}.
Arguments d_Leases {DB}.
Arguments d_Consensus {DB}.
Arguments d_GRPC {DB}.
Arguments d_Heartbeat {DB}.
Arguments d_presence {DB}.
Arguments d_open {DB}.

(** What the rest of the world answers while the daemon starts and stops. *)
Record env (DB : Type) := MkEnv {
  en_LoadFrom : result error Config.Config;
  en_Open : tx DB;
  en_now : Time;
  en_raft : raft_env;
  en_ReloadableTLS : list Z * list Z * list Z → result error unit;
  en_ListenTCP : option error;
  en_MkdirSocket : option error; en_ListenUnix : option error;
  en_Announce : announced;
  en_StoreClose : option error;
  en_Graceful : bool; en_CtxErr : error;
}.
Arguments MkEnv {DB}.
Arguments en_LoadFrom {DB}.
Arguments en_Open {DB}.
Arguments en_now {DB}.
Arguments en_raft {DB}.
Arguments en_ReloadableTLS {DB}.
Arguments en_ListenTCP {DB}.
Arguments en_MkdirSocket {DB}.
Arguments en_ListenUnix {DB}.
Arguments en_Announce {DB}.
Arguments en_StoreClose {DB}.
Arguments en_Graceful {DB}.
Arguments en_CtxErr {DB}.

Section units.
Context `{U : Unicode} `{B : Bolt DB}.
Context (DefaultTimeouts : timeouts) (en : env DB).
Abbreviation Fn := (@Fn (daemon DB)).
Implicit Types a : daemon DB.

Definition set_open a open : daemon DB :=
  MkDaemon (d_Cfg a) (d_Log a) (d_Store a) (d_Membership a) (d_Bus a) (d_Locks a) (d_Leases a) (d_Consensus a)
    (d_GRPC a) (d_Heartbeat a) (d_presence a) open.

Definition u_Config : Fn := λ a,
  match en_LoadFrom en with
  | Fail err => (a, 0, Some err)
  | Ok cfg => (MkDaemon cfg (d_Log a) (d_Store a) (d_Membership a) (d_Bus a) (d_Locks a) (d_Leases a) (d_Consensus a)
                 (d_GRPC a) (d_Heartbeat a) (d_presence a) (d_open a), 0, None)
  end.

Definition u_Logger : Fn := λ a,
  (MkDaemon (d_Cfg a) (Some (InitLogger (d_Cfg a))) (d_Store a) (d_Membership a) (d_Bus a) (d_Locks a) (d_Leases a)
     (d_Consensus a) (d_GRPC a) (d_Heartbeat a) (d_presence a) (d_open a), 0, None).

(** A panic, which an opened store does not give, ends the process. *)
Definition u_Store : Fn := λ a,
  match InitStore (en_Open en) (d_Cfg a) with
  | TxErr err => (a, 0, Some err)
  | TxPanic => (a, 0, Some (Errorf "panic" []))
  | TxOk (s, cfg) =>
    (MkDaemon cfg (d_Log a) (Some s) (d_Membership a) (d_Bus a) (d_Locks a) (d_Leases a) (d_Consensus a)
       (d_GRPC a) (d_Heartbeat a) (d_presence a) (HStore :: d_open a), 0, None)
  end.
Definition c_Store : Fn := λ a,
  match d_Store a with
  | None => (a, 0, None)
  | Some _ =>
    (MkDaemon (d_Cfg a) (d_Log a) None (d_Membership a) (d_Bus a) (d_Locks a) (d_Leases a) (d_Consensus a)
       (d_GRPC a) (d_Heartbeat a) (d_presence a)
       (match en_StoreClose en with None => release [HStore] (d_open a) | Some _ => d_open a end), 0, en_StoreClose en)
  end.

Definition u_Membership : Fn := λ a,
  let n := Config.Node (d_Cfg a) in
  (MkDaemon (d_Cfg a) (d_Log a) (d_Store a) (Some (Membership.New (en_now en) (Config.cn_ID n) (Config.cn_Addr n)))
     (d_Bus a) (d_Locks a) (d_Leases a) (d_Consensus a) (d_GRPC a) (d_Heartbeat a) (d_presence a) (d_open a), 0, None).

(** [a.Membership.Emit = b.Publish]; a nil engine would panic. *)
Definition u_Bus : Fn := λ a,
  match d_Membership a with
  | None => (a, 0, Some (Errorf "panic" []))
  | Some e =>
    (MkDaemon (d_Cfg a) (d_Log a) (d_Store a)
       (Some (MkEngine (Membership.selfID e) (leaderID e) (members e) (dropped e) true))
       true (d_Locks a) (d_Leases a) (d_Consensus a) (d_GRPC a) (d_Heartbeat a) (d_presence a) (d_open a), 0, None)
  end.

Definition u_Locks : Fn := λ a,
  let t := Locks.New in
  let t := if d_Bus a then Locks.MkTable (Locks.locks t) (Locks.next t) true else t in
  (MkDaemon (d_Cfg a) (d_Log a) (d_Store a) (d_Membership a) (d_Bus a) (Some t) (d_Leases a) (d_Consensus a)
     (d_GRPC a) (d_Heartbeat a) (d_presence a) (d_open a), 0, None).

Definition u_Leases : Fn := λ a,
  let t := Leases.New in
  let t := if d_Bus a then Leases.MkTable (Leases.leases t) (Leases.next t) true else t in
  (MkDaemon (d_Cfg a) (d_Log a) (d_Store a) (d_Membership a) (d_Bus a) (d_Locks a) (Some t) (d_Consensus a)
     (d_GRPC a) (d_Heartbeat a) (d_presence a) (d_open a), 0, None).

(** [InitConsensus]: the watcher of the leader and both expirers run from here. *)
Definition consensus_config (c : Config.Config) : RaftNodeConfig :=
  let r := Config.Raft c in
  MkRaftNodeConfig (Config.cr_Addr r) (Config.cr_Bootstrap r)
    (MkTimeouts (Config.cr_HeartbeatTimeout r) (Config.cr_ElectionTimeout r) (Config.cr_LeaderLeaseTimeout r)) None.
Definition u_Consensus : Fn := λ a,
  match NewNode DefaultTimeouts (en_raft en) (consensus_config (d_Cfg a)) (Config.cn_ID (Config.Node (d_Cfg a))) (d_open a) with
  | (open, Fail err) => (set_open a open, 0, Some (Errorf "consensus init: %w" [AErr err]))
  | (open, Ok node) =>
    (MkDaemon (d_Cfg a) (d_Log a) (d_Store a) (d_Membership a) (d_Bus a) (d_Locks a) (d_Leases a) (Some node)
       (d_GRPC a) (d_Heartbeat a) (d_presence a) (HLeaseExpirer :: HLockExpirer :: HLeaderWatch :: open), 0, None)
  end.
(** [Node.Shutdown]: the context of the watchers is cancelled first, the first
    error is returned; then [a.Consensus] stays set. *)
Definition shutdown_node (open : list handle) : list handle * option error :=
  let open := release [HLeaderWatch; HLockExpirer; HLeaseExpirer; HAnnounce] open in
  let open := match re_Shutdown (en_raft en) with None => shutdown_raft open | Some _ => open end in
  let open := match re_StoreClose (en_raft en) with None => release [HRaftStore] open | Some _ => open end in
  (open, match re_Shutdown (en_raft en) with
         | Some err => Some (Errorf "raft shutdown: %w" [AErr err])
         | None => (λ err, Errorf "raft store close: %w" [AErr err]) <$> re_StoreClose (en_raft en)
         end).
Definition c_Consensus : Fn := λ a,
  match d_Consensus a with
  | None => (a, 0, None)
  | Some _ =>
    match shutdown_node (d_open a) with
    | (open, Some err) => (set_open a open, 0, Some (Errorf "consensus shutdown: %w" [AErr err]))
    | (open, None) =>
      (MkDaemon (d_Cfg a) (d_Log a) (d_Store a) (d_Membership a) (d_Bus a) (d_Locks a) (d_Leases a) None
         (d_GRPC a) (d_Heartbeat a) (d_presence a) open, 0, None)
    end
  end.

(** [InitGRPC] of [Server], with one serve goroutine per listener. *)
Definition listens (h : handle) (r : option error) (open : list handle) (_ : string) : list handle * result error handle :=
  match r with None => (h :: open, Ok h) | Some e => (open, Fail e) end.
Definition u_GRPC : Fn := λ a,
  let isSome {A} (o : option A) := match o with Some _ => true | None => false end in
  match InitGRPC (en_ReloadableTLS en) tt (listens HRuntime (en_ListenTCP en)) (listens HControl (en_ListenUnix en))
          (λ open _, (open, en_MkdirSocket en)) (λ open _, open) (λ s, s) id (d_open a) (d_Cfg a) (d_Store a)
          (d_Bus a) (isSome (d_Locks a)) (isSome (d_Leases a)) (isSome (d_Membership a)) None None
          (Config.cg_Addr (Config.GRPC (d_Cfg a))) (Config.cg_ControlSocket (Config.GRPC (d_Cfg a))) with
  | (open, Fail err) => (set_open a open, 0, Some err)
  | (open, Ok (_, _, services, listeners)) =>
    (MkDaemon (d_Cfg a) (d_Log a) (d_Store a) (d_Membership a) (d_Bus a) (d_Locks a) (d_Leases a) (d_Consensus a)
       (Some services) (d_Heartbeat a) (d_presence a) open, length listeners, None)
  end.
Definition c_GRPC : Fn := λ a,
  match d_GRPC a with
  | None => (a, 0, None)
  | Some _ =>
    (MkDaemon (d_Cfg a) (d_Log a) (d_Store a) (d_Membership a) (d_Bus a) (d_Locks a) (d_Leases a) (d_Consensus a)
       None (d_Heartbeat a) (d_presence a) (release [HRuntime; HControl] (d_open a)), 0,
     (Server.Shutdown (en_Graceful en) (en_CtxErr en)).2)
  end.

Definition u_Heartbeat : Fn := λ a,
  let h := Config.Heartbeat (d_Cfg a) in
  (MkDaemon (d_Cfg a) (d_Log a) (d_Store a) (d_Membership a) (d_Bus a) (d_Locks a) (d_Leases a) (d_Consensus a) (d_GRPC a)
     (Some (Heartbeat.MkConfig (Config.ch_Interval h) (Config.ch_Timeout h) (Config.ch_MaxMisses h)))
     (d_presence a) (HHeartbeat :: d_open a), 0, None).
Definition c_Heartbeat : Fn := λ a,
  match d_Heartbeat a with
  | None => (a, 0, None)
  | Some _ =>
    (MkDaemon (d_Cfg a) (d_Log a) (d_Store a) (d_Membership a) (d_Bus a) (d_Locks a) (d_Leases a) (d_Consensus a) (d_GRPC a)
       None (d_presence a) (release [HHeartbeat] (d_open a)), 0, None)
  end.

Definition u_Presence : Fn := λ a,
  let l := Config.Lease (d_Cfg a) in
  if negb (Config.ce_Presence l) then (a, 0, None) else
  match d_Consensus a, d_Membership a with
  | Some _, Some _ =>
    let k := NewKeeper (MkConfig (Config.cn_ID (Config.Node (d_Cfg a))) (Config.ce_PresenceTTL l) 0
               (Config.cg_RequestTimeout (Config.GRPC (d_Cfg a)))) in
    (MkDaemon (d_Cfg a) (d_Log a) (d_Store a) (d_Membership a) (d_Bus a) (d_Locks a) (d_Leases a) (d_Consensus a) (d_GRPC a)
       (d_Heartbeat a) (Some k)
       (HKeeper :: (if d_Bus a then [HPresenceWatch; HSubscription] else []) ++ d_open a), 0, None)
  | _, _ => (a, 0, None)
  end.
Definition c_Presence : Fn := λ a,
  match d_presence a with
  | None => (a, 0, None)
  | Some _ =>
    (MkDaemon (d_Cfg a) (d_Log a) (d_Store a) (d_Membership a) (d_Bus a) (d_Locks a) (d_Leases a) (d_Consensus a) (d_GRPC a)
       (d_Heartbeat a) None (release [HKeeper; HPresenceWatch; HSubscription] (d_open a)), 0, None)
  end.

(** [InitAnnounce], whose outcome [Units.InitAnnounce] computes; an announcement that is
    still open goes on in the background. *)
Definition u_Announce : Fn := λ a,
  match d_Consensus a with
  | None => (a, 0, None)
  | Some _ =>
    match en_Announce en with
    | Announced => (a, 0, None)
    | InBackground => (set_open a (HAnnounce :: d_open a), 0, None)
    | NotMember err => (a, 0, Some err)
    end
  end.

Definition DefaultUnits : list (@Unit_ (daemon DB)) :=
  [MkUnit "config" (Some u_Config) None;
   MkUnit "logger" (Some u_Logger) None;
   MkUnit "store" (Some u_Store) (Some c_Store);
   MkUnit "membership" (Some u_Membership) None;
   MkUnit "bus" (Some u_Bus) None;
   MkUnit "locks" (Some u_Locks) None;
   MkUnit "leases" (Some u_Leases) None;
   MkUnit "consensus" (Some u_Consensus) (Some c_Consensus);
   MkUnit "grpc" (Some u_GRPC) (Some c_GRPC);
   MkUnit "heartbeat" (Some u_Heartbeat) (Some c_Heartbeat);
   MkUnit "presence" (Some u_Presence) (Some c_Presence);
   MkUnit "announce" (Some u_Announce) None].

(** [config.Config{}] *)
Definition zeroConfig : Config.Config :=
  Config.MkCfg (Config.MkNodeConfig "" "") "" "" (Config.MkLogConfig "" "") (Config.MkGRPCConfig "" "" 0 0) 0
    (Config.MkHeartbeatConfig 0 0 0) (Config.MkRaftConfig "" false 0 0 0) "" (Config.MkLockConfig 0 0)
    (Config.MkLeaseConfig 0 0 false 0).
Definition new_daemon : daemon DB := MkDaemon zeroConfig None None None false None None None None None None [].
End units.

(** ** What is left open *)

(** What a [New] that fails leaves. *)
Definition left_behind (re : raft_env) : list handle :=
  if bool_decide (re_MkdirAll re = None ∧ re_ResolveTCPAddr re = None ∧ re_NewTCPTransport re = None) then
    match re_BoltNew re, re_NewFileSnapshotStore re, re_NewRaft re with
    | Some _, _, _ => [HTransport]
    | None, Some _, _ => [HRaftStore; HTransport]
    | None, None, Some _ => [HTransport]
    | None, None, None => []
    end
  else [].

Lemma release_in h hs open : h ∈ hs → release hs (h :: open) = release hs open.
Proof. intros Hh. unfold release. simpl. by rewrite bool_decide_eq_true_2. Qed.
Lemma release_out h hs open : h ∉ hs → release hs (h :: open) = h :: release hs open.
Proof. intros Hh. unfold release. simpl. by rewrite bool_decide_eq_false_2. Qed.
Ltac releases := unfold shutdown_raft; repeat first [rewrite release_in by set_solver|rewrite release_out by set_solver].

Lemma NewNode_opens dt re c id open :
  cc_Transport c = None → open ⊆ [HStore] →
  match NewNode dt re c id open with
  | (o, Ok n) => o = HRaft :: HRaftStore :: HTransport :: open ∧ rn_LocalID n = id ∧
                 rn_Timeouts n = raft_timeouts dt (cc_Timeouts c)
  | (o, Fail _) => o = left_behind re ++ open
  end.
Proof.
  intros Ht Ho. assert (∀ hs, HStore ∉ hs → release hs open = open) as Hrel.
  { intros hs Hs. clear Ht. induction open as [|h open IH]; [done|].
    assert (h = HStore) as -> by set_solver. rewrite release_out by done. f_equal. apply IH. set_solver. }
  unfold NewNode, raftTransport, left_behind. rewrite Ht.
  destruct re as [[e|] [e1|] [e2|] [e3|] [e4|] [e5|] [[|e6]|] e7 e8];
    cbn [re_MkdirAll re_ResolveTCPAddr re_NewTCPTransport re_BoltNew re_NewFileSnapshotStore re_NewRaft re_BootstrapCluster];
    try (rewrite bool_decide_eq_false_2 by naive_solver; done); rewrite ?bool_decide_eq_true_2 by done; try done.
  all: destruct (cc_Bootstrap c); try done; releases; rewrite ?Hrel by set_solver; done.
Qed.

(** ** Start and stop of the whole daemon *)

Section daemon.
Context `{U : Unicode} `{B : Bolt DB}.
Context (dt : timeouts) (en : env DB).
Hypothesis store_closes : en_StoreClose en = None.
Hypothesis raft_stops : re_Shutdown (en_raft en) = None.
Hypothesis raft_store_closes : re_StoreClose (en_raft en) = None.

(** Every service is registered and every table reports to the bus. *)
Definition wired (d : daemon DB) : Prop :=
  d_GRPC d = Some ["Health"; "Membership"; "Join"; "Control"; "Heartbeat"; "Watch"; "Event"; "Lock"; "Lease"] ∧
  (∃ e, d_Membership d = Some e ∧ Membership.Emit e = true ∧ SelfID e = Config.cn_ID (Config.Node (d_Cfg d))) ∧
  (∃ t, d_Locks d = Some t ∧ Locks.Emit t = true) ∧ (∃ t, d_Leases d = Some t ∧ Leases.Emit t = true) ∧
  (∃ n, d_Consensus d = Some n ∧ rn_LocalID n = Config.cn_ID (Config.Node (d_Cfg d))) ∧
  is_Some (d_Heartbeat d) ∧ (is_Some (d_presence d) ↔ Config.ce_Presence (Config.Lease (d_Cfg d)) = true).

(** The state before the Raft node starts. *)
Definition prepared (cfg : Config.Config) (s : DB) : daemon DB :=
  let n := Config.Node cfg in
  let e := Membership.New (en_now en) (Config.cn_ID n) (Config.cn_Addr n) in
  MkDaemon cfg (Some (InitLogger cfg)) (Some s)
    (Some (MkEngine (Membership.selfID e) (leaderID e) (members e) (dropped e) true)) true
    (Some (Locks.MkTable ∅ 0 true)) (Some (Leases.MkTable ∅ 0 true)) None None None None [HStore].

(** What the first seven units make. *)
Lemma starts_prepared cfg s cfg' :
  en_LoadFrom en = Ok cfg → InitStore (en_Open en) cfg = TxOk (s, cfg') →
  starts new_daemon (take 7 (DefaultUnits dt en)) = Some (prepared cfg' s, 0).
Proof.
  intros Hl Hs. assert (InitLogger cfg = InitLogger cfg') as Hlog.
  { unfold InitStore in Hs. destruct (en_Open en) as [s'| |]; [|done..].
    destruct (Identity s') as [[]| |]; [|by simplify_eq..]. by injection Hs as <- <-. }
  cbn [take DefaultUnits starts u_InitFn]. unfold u_Config. rewrite Hl. cbn -[InitStore InitLogger].
  unfold u_Store. cbn [d_Cfg]. rewrite Hs. cbn -[InitLogger]. by rewrite Hlog.
Qed.

(** The daemon as its units go on, and closing it again from there. *)
Definition with_node (d : daemon DB) (n : RaftNode) : daemon DB :=
  MkDaemon (d_Cfg d) (d_Log d) (d_Store d) (d_Membership d) (d_Bus d) (d_Locks d) (d_Leases d) (Some n)
    (d_GRPC d) (d_Heartbeat d) (d_presence d)
    (HLeaseExpirer :: HLockExpirer :: HLeaderWatch :: HRaft :: HRaftStore :: HTransport :: d_open d).
Definition closing : list (@namedClose (daemon DB)) :=
  [MkClose "store" (c_Store en); MkClose "consensus" (c_Consensus en); MkClose "grpc" (c_GRPC en);
   MkClose "heartbeat" c_Heartbeat; MkClose "presence" c_Presence].

Lemma u_Consensus_cases cfg s :
  match u_Consensus dt en (prepared cfg s) with
  | (d, k, None) => ∃ n, d = with_node (prepared cfg s) n ∧ k = 0 ∧ rn_LocalID n = Config.cn_ID (Config.Node cfg)
  | (d, k, Some _) => d = set_open (prepared cfg s) (left_behind (en_raft en) ++ [HStore]) ∧ k = 0
  end.
Proof.
  unfold u_Consensus. pose proof (NewNode_opens dt (en_raft en) (consensus_config cfg) (Config.cn_ID (Config.Node cfg))
    [HStore] eq_refl ltac:(done)) as Hn. cbn [prepared d_Cfg d_open].
  destruct (NewNode _ _ _ _ _) as [o [n|e]]; [|by subst o].
  destruct Hn as (-> & Hid & _). exists n. by split_and!.
Qed.

(** The listeners [InitGRPC] opens. *)
Lemma u_GRPC_cases cfg s n :
  let d := with_node (prepared cfg s) n in
  match u_GRPC en d with
  | (d', k, Some _) => d' = d ∧ k = 0
  | (d', k, None) => ∃ ls, (ls = [HRuntime] ∨ ls = [HControl; HRuntime]) ∧ k = length ls ∧
      d' = MkDaemon (d_Cfg d) (d_Log d) (d_Store d) (d_Membership d) (d_Bus d) (d_Locks d) (d_Leases d) (d_Consensus d)
             (Some ["Health"; "Membership"; "Join"; "Control"; "Heartbeat"; "Watch"; "Event"; "Lock"; "Lease"])
             (d_Heartbeat d) (d_presence d) (ls ++ d_open d)
  end.
Proof.
  intros d. unfold u_GRPC, InitGRPC. cbn [d with_node prepared d_Cfg d_Store d_Bus d_Locks d_Leases d_Membership d_open].
  destruct (init_tls _ _ _) as [tls|e]; [|done].
  replace (match tls with Some _ => id _ | None => _ end) with (d_open d) by (by destruct tls).
  unfold init_runtime, listens at 1. destruct (en_ListenTCP en); [done|].
  unfold init_control, listens. destruct (en_MkdirSocket en); [exists [HRuntime]; split_and!; [by left|done..]|].
  destruct (en_ListenUnix en); [exists [HRuntime]|exists [HControl; HRuntime]]; (split_and!; [auto|done..]).
Qed.

(** Closing when nothing fails on the way. *)
Lemma c_Store_eq a : (c_Store en a).1.1 =
  match d_Store a with
  | None => a
  | Some _ => MkDaemon (d_Cfg a) (d_Log a) None (d_Membership a) (d_Bus a) (d_Locks a) (d_Leases a) (d_Consensus a)
                (d_GRPC a) (d_Heartbeat a) (d_presence a) (release [HStore] (d_open a))
  end.
Proof. unfold c_Store. rewrite store_closes. by destruct (d_Store a). Qed.
Lemma c_Consensus_eq a : (c_Consensus en a).1.1 =
  match d_Consensus a with
  | None => a
  | Some _ =>
    MkDaemon (d_Cfg a) (d_Log a) (d_Store a) (d_Membership a) (d_Bus a) (d_Locks a) (d_Leases a) None
      (d_GRPC a) (d_Heartbeat a) (d_presence a)
      (release [HRaftStore] (shutdown_raft (release [HLeaderWatch; HLockExpirer; HLeaseExpirer; HAnnounce] (d_open a))))
  end.
Proof. unfold c_Consensus, shutdown_node. rewrite raft_stops, raft_store_closes. by destruct (d_Consensus a). Qed.

Lemma close_prepared cfg s open :
  open ⊆ [HTransport; HRaftStore] →
  d_open (c_Store en (set_open (prepared cfg s) (open ++ [HStore]))).1.1 = open.
Proof.
  intros Ho. rewrite c_Store_eq. cbn [set_open prepared d_Store d_open]. induction open as [|h open IH]; [cbn [app]; by releases|]. cbn [app].
  rewrite release_out by set_solver. f_equal. apply IH. set_solver.
Qed.

Lemma close_node cfg s n : d_open (run_closes (with_node (prepared cfg s) n) (reverse (take 2 closing))) = [].
Proof. cbn [closing take]. unfold run_closes. cbn [reverse rev_append foldl nc_fn].
  rewrite c_Store_eq, c_Consensus_eq. reflexivity.
Qed.

(** The daemon with everything up. *)
Definition running (cfg : Config.Config) (s : DB) (n : RaftNode) (ls announce : list handle) : daemon DB :=
  let d := with_node (prepared cfg s) n in
  let l := Config.Lease cfg in
  let h := Config.Heartbeat cfg in
  MkDaemon cfg (d_Log d) (Some s) (d_Membership d) true (d_Locks d) (d_Leases d) (Some n)
    (Some ["Health"; "Membership"; "Join"; "Control"; "Heartbeat"; "Watch"; "Event"; "Lock"; "Lease"])
    (Some (Heartbeat.MkConfig (Config.ch_Interval h) (Config.ch_Timeout h) (Config.ch_MaxMisses h)))
    (if Config.ce_Presence l
     then Some (NewKeeper (MkConfig (Config.cn_ID (Config.Node cfg)) (Config.ce_PresenceTTL l) 0
            (Config.cg_RequestTimeout (Config.GRPC cfg)))) else None)
    (announce ++ (if Config.ce_Presence l then [HKeeper; HPresenceWatch; HSubscription] else []) ++ HHeartbeat :: ls ++ d_open d).

Lemma close_running cfg s n ls announce :
  ls = [HRuntime] ∨ ls = [HControl; HRuntime] → announce = [] ∨ announce = [HAnnounce] →
  d_open (run_closes (running cfg s n ls announce) (reverse closing)) = [].
Proof.
  intros Hls Ha. unfold run_closes, closing. cbn [reverse rev_append foldl nc_fn].
  rewrite c_Store_eq, c_Consensus_eq. unfold running.
  destruct (Config.ce_Presence _), Hls as [->| ->], Ha as [->| ->]; reflexivity.
Qed.

(** The close functions serve nothing, so [Wait] waits for the listeners alone. *)
Lemma closing_serves w : close_serves w (reverse closing) = 0.
Proof.
  unfold close_serves. assert (∀ fns (s : daemon DB * nat), Forall (λ c, ∀ w, (nc_fn c w).1.2 = 0) fns → s.2 = 0 →
    (foldl (λ s c, let r := nc_fn c s.1 in (r.1.1, s.2 + r.1.2)) s fns).2 = 0) as Hf.
  { intros fns s Hfns. revert s; induction Hfns as [|c fns Hc _ IH]; intros s Hs; simpl; [done|]. apply IH. simpl. by rewrite Hs, Hc. }
  apply Hf; [|done]. unfold closing. cbn [reverse rev_append]. repeat constructor; intros a; cbn [nc_fn].
  - unfold c_Presence. by destruct (d_presence a).
  - unfold c_Heartbeat. by destruct (d_Heartbeat a).
  - unfold c_GRPC. by destruct (d_GRPC a).
  - unfold c_Consensus. destruct (d_Consensus a); [|done]. by destruct (shutdown_node en (d_open a)) as [? []].
  - unfold c_Store. by destruct (d_Store a).
Qed.

Lemma running_stops cfg s n ls announce by_ results :
  ls = [HRuntime] ∨ ls = [HControl; HRuntime] → announce = [] ∨ announce = [HAnnounce] → length ls ≤ length results →
  let a := MkApp (running cfg s n ls announce) closing (length ls) false false false false None in
  ∃ a', Wait (match by_ with ByStop => App.Stop a | ByServe => a end) by_ results =
      Some (a', (λ e, Errorf "serve: %w" [AErr e]) <$> first_err (take (length ls) results)) ∧
    d_open (a_world a') = [].
Proof.
  intros Hls Ha Hlen a. destruct (wait_collects_all (match by_ with ByStop => App.Stop a | ByServe => a end) by_ results)
    as (a' & Hw & Hc & _); [by destruct by_..|destruct by_; apply closing_serves|by destruct by_| |].
  - destruct by_; [done|]. by destruct Hls as [->| ->].
  - exists a'. assert (serveCount (match by_ with ByStop => App.Stop a | ByServe => a end) = length ls) as Hsc by (by destruct by_).
    rewrite Hsc in Hw. split; [exact Hw|]. rewrite Hc. destruct by_; by apply close_running.
Qed.

Lemma running_wired cfg s n ls announce :
  rn_LocalID n = Config.cn_ID (Config.Node cfg) → wired (running cfg s n ls announce).
Proof.
  intros Hn. unfold wired, running. cbn [d_GRPC d_Membership d_Locks d_Leases d_Consensus d_Heartbeat d_presence d_Cfg].
  split; [done|]. split; [by eexists|]. split; [by eexists|]. split; [by eexists|]. split; [by eexists|].
  split; [by eexists|]. by destruct (Config.ce_Presence _).
Qed.

(** The last three units, on a daemon that serves. *)
Lemma last_units cfg s n ls k :
  let d := with_node (prepared cfg s) n in
  let d3 := MkDaemon (d_Cfg d) (d_Log d) (d_Store d) (d_Membership d) (d_Bus d) (d_Locks d) (d_Leases d) (d_Consensus d)
              (Some ["Health"; "Membership"; "Join"; "Control"; "Heartbeat"; "Watch"; "Event"; "Lock"; "Lease"])
              (d_Heartbeat d) (d_presence d) (ls ++ d_open d) in
  init_units (MkApp d3 (take 3 closing) k false false false false None) (drop 9 (DefaultUnits dt en)) =
  match en_Announce en with
  | NotMember err =>
    (closeWithTimeout (MkApp (running cfg s n ls []) closing k false false false false None),
     Some (Errorf "%s: %w" [AStr "announce"; AErr err]))
  | Announced => (MkApp (running cfg s n ls []) closing k false false false false None, None)
  | InBackground => (MkApp (running cfg s n ls [HAnnounce]) closing k false false false false None, None)
  end.
Proof.
  cbn [drop DefaultUnits init_units u_InitFn u_CloseFn u_Name]. unfold u_Heartbeat. cbn [Nat.iter nat_rect a_world set_world].
  unfold u_Presence, u_Announce, running.
  cbn [with_node prepared d_Cfg d_Log d_Store d_Membership d_Bus d_Locks d_Leases d_Consensus d_GRPC d_Heartbeat d_presence d_open].
  destruct (Config.ce_Presence _); cbn -[closeWithTimeout InitLogger]; by destruct (en_Announce en).
Qed.

(** The two units that can fail before the Raft node starts. *)
Lemma fails_early :
  (∀ cfg s cfg', en_LoadFrom en = Ok cfg → InitStore (en_Open en) cfg ≠ TxOk (s, cfg')) →
  let r := InitApp new_daemon (DefaultUnits dt en) in is_Some r.2 ∧ d_open (a_world r.1) = [].
Proof.
  intros Hs r. unfold r, InitApp. destruct (en_LoadFrom en) as [cfg|err] eqn:Hl.
  2:{ unfold DefaultUnits. rewrite (init_units_fail (new_app new_daemon) _ _ (u_Config en) new_daemon 0 err); [|done|].
      - split; [by eexists|done].
      - unfold u_Config. cbn [new_app a_world]. by rewrite Hl. }
  assert (starts new_daemon (take 2 (DefaultUnits dt en)) =
    Some (MkDaemon cfg (Some (InitLogger cfg)) None None false None None None None None None [], 0)) as H2.
  { cbn [take DefaultUnits starts u_InitFn]. unfold u_Config. by rewrite Hl. }
  rewrite <-(take_drop 2 (DefaultUnits dt en)), (init_units_app (new_app new_daemon) _ _ _ _ H2). cbn [drop DefaultUnits].
  set (a := MkApp _ _ _ _ _ _ _ _).
  assert (∃ err, u_Store en (a_world a) = (a_world a, 0, Some err)) as [err He].
  { unfold u_Store, a. cbn [a_world d_Cfg]. pose proof (λ s cfg', Hs cfg s cfg' eq_refl) as Hs'.
    destruct (InitStore (en_Open en) cfg) as [[s cfg']| |]; [by destruct (Hs' s cfg')|by eexists..]. }
  rewrite (init_units_fail a _ _ (u_Store en) (a_world a) 0 err) by done. split; [by eexists|done].
Qed.

End daemon.

(** ** Following the leader

    [WatchLeaderChange] has a channel of eight observations; hashicorp/raft drops
    one that finds it full (the observer is not blocking).  The goroutine takes them
    one by one and calls back; a cancelled context ends it. *)
Definition observer_buffer : nat := 8.
Inductive watch_step : Type := Observed (leaderID : string) | Taken | CtxDone.
Record watch (W : Type) := MkWatch { wt_queue : list string; wt_stopped : bool; wt_world : W }.
Arguments MkWatch {W}.
Arguments wt_queue {W}.
Arguments wt_stopped {W}.
Arguments wt_world {W}.

Section watch.
Context {W : Type} (fn : W → string → W).

Definition watch_do (s : watch W) (x : watch_step) : watch W :=
  match x with
  | Observed id =>
    if bool_decide (length (wt_queue s) < observer_buffer)
    then MkWatch (wt_queue s ++ [id]) (wt_stopped s) (wt_world s) else s
  | Taken =>
    if wt_stopped s then s else
    match wt_queue s with
    | [] => s
    | id :: q => MkWatch q false (fn (wt_world s) id)
    end
  | CtxDone => MkWatch (wt_queue s) true (wt_world s)
  end.
Definition WatchLeaderChange (w : W) (xs : list watch_step) : watch W := foldl watch_do (MkWatch [] false w) xs.

(** [WatchLeadership]: the same for this node's own leadership, over [LeaderCh]. *)
Inductive leadership_step : Type := Became (isLeader : bool) | Closed | LCtxDone.
Fixpoint WatchLeadership (call : W → bool → W) (w : W) (xs : list leadership_step) : W :=
  match xs with
  | Became v :: xs => WatchLeadership call (call w v) xs
  | _ => w
  end.

Definition observations (xs : list watch_step) : list string :=
  omap (λ x, match x with Observed id => Some id | _ => None end) xs.

(** What the queue holds is still to be called back. *)
Lemma watch_pending xs s :
  Forall (λ x, x ≠ CtxDone) xs → wt_stopped s = false →
  (∀ n, length (wt_queue (foldl watch_do s (take n xs))) < observer_buffer) →
  let r := foldl watch_do s xs in
  wt_stopped r = false ∧ foldl fn (wt_world r) (wt_queue r) = foldl fn (wt_world s) (wt_queue s ++ observations xs).
Proof.
  intros Hx. revert s; induction Hx as [|x xs Hx _ IH]; intros s Hs Hq; cbn zeta.
  { split; [done|]. cbn. by rewrite app_nil_r. }
  assert (length (wt_queue s) < observer_buffer) as H0 by apply (Hq 0).
  destruct (IH (watch_do s x)) as [Hs' Hf].
  - destruct x; [unfold watch_do; by rewrite bool_decide_eq_true_2|unfold watch_do; rewrite Hs; by destruct s as [[] ? ?]|done].
  - intros n. exact (Hq (S n)).
  - split; [exact Hs'|]. cbn [foldl]. rewrite Hf. destruct x as [id| |]; [..|done]; unfold watch_do.
    + rewrite bool_decide_eq_true_2 by done. cbn. by rewrite <-(assoc_L (++)).
    + rewrite Hs. destruct s as [[|id q] st w]; reflexivity.
Qed.

Lemma take_all s (q : list string) :
  wt_queue s = q → wt_stopped s = false →
  foldl watch_do s (replicate (length q) Taken) = MkWatch [] false (foldl fn (wt_world s) q).
Proof.
  revert s; induction q as [|id q IH]; intros [q' st w] Hq Hst; cbn in *; subst; [done|]. by rewrite IH.
Qed.
Lemma fill s l :
  length (wt_queue s) + length l ≤ observer_buffer →
  foldl watch_do s (Observed <$> l) = MkWatch (wt_queue s ++ l) (wt_stopped s) (wt_world s).
Proof.
  revert s; induction l as [|id l IH]; intros s Hl; cbn in *; [rewrite app_nil_r; by destruct s|].
  rewrite bool_decide_eq_true_2 by lia. rewrite IH by (cbn; rewrite length_app; cbn; lia). cbn. by rewrite <-(assoc_L (++)).
Qed.
End watch.

(** What the callback of [InitConsensus] does to the member list. *)
Definition leader_callback (e : Engine) (leaderID : string) : Engine :=
  if str_empty leaderID then e else (SetLeader e leaderID).1.

(** The member list follows the leader unless the callback falls behind.  As
    long as fewer than eight observations wait, the member list that results when
    they are called back is the one every observed change was applied to, in order;
    when eight wait, the next change of leader is dropped, and after the eight are
    called back the member list is what it would be without it. *)
Theorem leader_watch_follows e xs l x :
  (Forall (λ x, x ≠ CtxDone) xs →
   (∀ n, length (wt_queue (WatchLeaderChange leader_callback e (take n xs))) < observer_buffer) →
   let s := WatchLeaderChange leader_callback e xs in
   WatchLeaderChange leader_callback e (xs ++ replicate (length (wt_queue s)) Taken) =
   MkWatch [] false (foldl leader_callback e (observations xs))) ∧
  (length l = observer_buffer →
   WatchLeaderChange leader_callback e ((Observed <$> l ++ [x]) ++ replicate observer_buffer Taken) =
   MkWatch [] false (foldl leader_callback e l)).
Proof.
  unfold WatchLeaderChange. split.
  - intros Hx Hq. cbv zeta. set (s := foldl _ _ xs). rewrite foldl_app. destruct (watch_pending leader_callback xs (MkWatch [] false e) Hx eq_refl Hq) as [Hs Hf].
    fold s in Hs, Hf |- *. rewrite take_all by done. by rewrite Hf.
  - intros Hl. rewrite fmap_app, !foldl_app, (fill leader_callback _ l) by (cbn [wt_queue length]; lia). cbn [foldl fmap list_fmap watch_do wt_queue app].
    rewrite bool_decide_eq_false_2 by lia. rewrite <-Hl. by rewrite take_all.
Qed.

Module StartupExamples.
#[export] Existing Instance latin1.
#[export] Existing Instance StoreExamples.mem_bolt.
Definition raft_default : timeouts := MkTimeouts Second Second (500 * Millisecond).
Definition raft_up : raft_env := MkRaftEnv None None None None None None None None None.
Definition no_snapshots : raft_env := MkRaftEnv None None None None (Some (Errorf "permission denied" [])) None None None None.
Definition env_of (re : raft_env) : env buckets :=
  MkEnv (Ok (Config.Defaults (Ok "/root"))) (TxOk StoreExamples.seed) 5 re (λ _, Ok tt) None None None Announced None true
    (Errorf "context deadline exceeded" []).


Lemma leader_watch_follows_witness :
  Membership.leaderID (wt_world (WatchLeaderChange leader_callback MemberExamples.self
    ((Observed <$> ["a"; "b"; "a"; "b"; "a"; "b"; "a"; "b"] ++ ["c"]) ++ replicate observer_buffer Taken))) = "b".
Proof.
  destruct (leader_watch_follows MemberExamples.self [] ["a"; "b"; "a"; "b"; "a"; "b"; "a"; "b"] "c") as [_ H2].
  rewrite H2 by reflexivity. by vm_compute.
Defined.
End StartupExamples.
