(* ===== verification/OperatorResources.v ===== *)
(** * OperatorResources: the Kubernetes objects the operator creates
    ([internal/operator/resources.go], [internal/operator/sidecar.go])

    The objects are records with the fields the code sets; a field it leaves out
    has the zero value of its type, as in Go.  Label maps are maps, ordered fields
    are lists.  Quantities and images stay the strings that are parsed. *)
From S2P Require Import Prelude.

(** ** The object model *)

Record OwnerReference := MkOwner {
  or_APIVersion : string; or_Kind : string; or_Name : string; or_UID : string;
  or_Controller : bool; or_BlockOwnerDeletion : bool;
}.
Record ObjectMeta := MkMeta {
  om_Name : string; om_Namespace : string; om_Labels : gmap string string; om_Owners : list OwnerReference;
}.
Inductive env_source : Type := EnvValue (v : string) | EnvField (path : string).
Record EnvVar := MkEnv { env_Name : string; env_From : env_source }.
Record VolumeMount := MkMount { vm_Name : string; vm_MountPath : string; vm_ReadOnly : bool }.
Record ContainerPort := MkPort { cp_Name : string; cp_Port : Z }.
Record Probe := MkProbe { pb_Port : Z; pb_InitialDelay : Z; pb_Period : Z; pb_Timeout : Z }.
Record Resources := MkResources { rs_Requests : list (string * string); rs_Limits : list (string * string) }.
Record SecurityContext := MkSecurity { sc_User : option Z; sc_Group : option Z; sc_FSGroup : option Z }.
Record Container := MkContainer {
  ct_Name : string; ct_Image : string; ct_PullPolicy : string;
  ct_Command : list string; ct_Args : list string; ct_Env : list EnvVar; ct_Mounts : list VolumeMount;
  ct_Ports : list ContainerPort; ct_Liveness : option Probe; ct_Readiness : option Probe;
  ct_Security : option SecurityContext; ct_Resources : Resources;
}.
Inductive volume_source : Type := HostPathDirectoryOrCreate (path : string) | ClaimVolume (claim : string).
Record Volume := MkVolume { vl_Name : string; vl_Source : volume_source }.
Record Toleration := MkToleration { tl_Key : string; tl_Operator : string; tl_Effect : string }.
Record PodSpec := MkPod {
  ps_RestartPolicy : string; ps_HostNetwork : bool; ps_DNSPolicy : string; ps_Tolerations : list Toleration;
  ps_Security : option SecurityContext; ps_NodeName : string;
  ps_AntiAffinity : list (string * gmap string string);   (* topology key and label selector *)
  ps_InitContainers : list Container; ps_Containers : list Container; ps_Volumes : list Volume;
}.
Record PodTemplate := MkTemplate { pt_Labels : gmap string string; pt_Spec : PodSpec }.

Record Job := MkJob { jb_Meta : ObjectMeta; jb_BackoffLimit : Z; jb_Template : PodTemplate }.
Record Deployment := MkDeployment {
  dp_Meta : ObjectMeta; dp_Replicas : Z; dp_Selector : gmap string string; dp_Strategy : string;
  dp_Template : PodTemplate;
}.
Record DaemonSet := MkDaemonSet { ds_Meta : ObjectMeta; ds_Selector : gmap string string; ds_Template : PodTemplate }.
Record ClaimSpec := MkClaimSpec { cl_AccessModes : list string; cl_Requests : list (string * string) }.
Record PersistentVolumeClaim := MkClaim { pc_Meta : ObjectMeta; pc_Spec : ClaimSpec }.
Record StatefulSet := MkStatefulSet {
  ss_Meta : ObjectMeta; ss_ServiceName : string; ss_Replicas : Z; ss_PodManagementPolicy : string;
  ss_Selector : gmap string string; ss_Template : PodTemplate; ss_Claims : list PersistentVolumeClaim;
}.
Record Service := MkService {
  sv_Meta : ObjectMeta; sv_ClusterIP : string; sv_PublishNotReadyAddresses : bool;
  sv_Selector : gmap string string; sv_Ports : list ContainerPort;
}.
Record Secret := MkSecret { st_Meta : ObjectMeta; st_Type : string; st_StringData : gmap string string }.

(** ** Names and labels *)

Definition appName : string := "clusdr".
Definition partOf : string := "clusdr".
Definition compInit : string := "seed-init".
Definition compSeed : string := "seed".
Definition compMember : string := "member".
Definition compPrepare : string := "prepare".
Definition compSidecar : string := "sidecar".
Definition compSidecarBoot : string := "sidecar-bootstrap".
Definition runAs : Z := 65532.
Definition grpcPort : Z := 7947.
Definition raftPort : Z := 7946.
Definition defaultImg : string := "durguto/clusdr:0.2.1".
Definition defaultPrepare : string := "busybox:1.37.0".
Definition defaultDir : string := "/var/lib/clusdr".
Definition topoDaemon : string := "DaemonSet".
Definition topoSidecar : string := "Sidecar".
Definition pauseImg : string := "registry.k8s.io/pause:3.10".
Definition pvcQty : string := "1Gi".

Record Spec := MkSpec {
  sp_Topology : string; sp_VoterCount : Z; sp_Image : string; sp_DataDir : string;
  sp_SeedNodeName : string; sp_Leave : list string;
}.
Definition image (s : Spec) : string := if negb (str_empty (sp_Image s)) then sp_Image s else defaultImg.
Definition dataDir (s : Spec) : string := if negb (str_empty (sp_DataDir s)) then sp_DataDir s else defaultDir.
Definition topology (s : Spec) : string := if str_empty (sp_Topology s) then topoDaemon else sp_Topology s.

Definition MaxInt32 : Z := 2147483647.
Definition i32 (n : Z) : Z := if (n <? 0)%Z then 0%Z else if (MaxInt32 <? n)%Z then MaxInt32 else n.

Definition initJobName (cr : string) : string := cr +:+ "-seed-init".
Definition seedName (cr : string) : string := cr +:+ "-seed".
Definition prepareName (cr : string) : string := cr +:+ "-prepare".
Definition tokenSecretName (cr : string) : string := cr +:+ "-join-token".
Definition daemonSetName (cr : string) : string := cr.
Definition stsName (cr : string) : string := cr.
Definition headlessName (cr : string) : string := cr.
Definition sidecarBootJob (cr : string) : string := cr +:+ "-sidecar-bootstrap".
Definition sidecarPVC0 (cr : string) : string := "data-" +:+ cr +:+ "-0".

Definition label_name : string := "app.kubernetes.io/name".
Definition label_instance : string := "app.kubernetes.io/instance".
Definition label_component : string := "app.kubernetes.io/component".
Definition label_part_of : string := "app.kubernetes.io/part-of".
Definition labels (cr component : string) : gmap string string :=
  <[label_name := appName]> (<[label_instance := cr]> (<[label_component := component]> {[label_part_of := partOf]})).

Definition selector (cr component : string) : string :=
  "app.kubernetes.io/instance=" +:+ cr +:+ ",app.kubernetes.io/component=" +:+ component.

Definition owner (name uid : string) : list OwnerReference :=
  [MkOwner "clusdr.io/v1alpha1" "ClusdrCluster" name uid true true].

Definition meta (ns cr uid name component : string) : ObjectMeta :=
  MkMeta name ns (labels cr component) (owner cr uid).

(** ** Parts of a pod *)

Definition controlPlaneToleration : list Toleration :=
  [MkToleration "node-role.kubernetes.io/control-plane" "Exists" "NoSchedule"].
Definition tcpProbes : Probe * Probe := (MkProbe grpcPort 3 10 5, MkProbe grpcPort 2 5 5).
Definition hostPathVol (dir : string) : Volume := MkVolume "data" (HostPathDirectoryOrCreate dir).

Definition value (name v : string) : EnvVar := MkEnv name (EnvValue v).
Definition daemonEnv (dir : string) (withNodeID : bool) : list EnvVar :=
  [MkEnv "NODE_IP" (EnvField "status.hostIP");
   value "CLUSDR_DATA_DIR" dir;
   value "CLUSDR_CONTROL_SOCKET" (dir +:+ "/clusdr.sock");
   value "CLUSDR_GRPC_ADDR" "0.0.0.0:7947";
   value "CLUSDR_NODE_ADDR" "$(NODE_IP):7947";
   value "CLUSDR_RAFT_ADDR" "$(NODE_IP):7946";
   value "CLUSDR_LOG_FORMAT" "json";
   value "CLUSDR_LOG_LEVEL" "info"] ++
  (if withNodeID then [MkEnv "CLUSDR_NODE_ID" (EnvField "spec.nodeName")] else []).

Definition resources : Resources := MkResources [("cpu", "20m"); ("memory", "64Mi")] [("memory", "256Mi")].
Definition prepareResources : Resources := MkResources [("cpu", "1m"); ("memory", "8Mi")] [("memory", "16Mi")].
Definition no_resources : Resources := MkResources [] [].
Definition podSecurity : SecurityContext := MkSecurity (Some runAs) (Some runAs) None.
Definition sidecarFSGroup : SecurityContext := MkSecurity (Some runAs) (Some runAs) (Some runAs).
Definition root : SecurityContext := MkSecurity (Some 0%Z) (Some 0%Z) None.
Definition ports : list ContainerPort := [MkPort "grpc" grpcPort; MkPort "raft" raftPort].
Definition nodeName (spec : Spec) : string := sp_SeedNodeName spec.

Definition quote : string := String (Ascii.ascii_of_nat 34) EmptyString.
Definition prepareContainer (dir : string) (stay : bool) : Container :=
  let var := quote +:+ "$CLUSDR_DATA_DIR" +:+ quote in
  let cmd := "mkdir -p " +:+ var +:+ " && chown 65532:65532 " +:+ var in
  let cmd := if stay then cmd +:+ " && exec sleep infinity" else cmd in
  MkContainer "prepare" defaultPrepare "IfNotPresent" ["sh"; "-c"; cmd] []
    [value "CLUSDR_DATA_DIR" dir] [MkMount "data" dir false] [] None None (Some root) prepareResources.

(** The container of [clusdr init]. *)
Definition init_container (spec : Spec) : Container :=
  let dir := dataDir spec in
  MkContainer "init" (image spec) "IfNotPresent" ["/clusdr"; "init"] ["--config"; dir +:+ "/clusdr.yaml"]
    [value "CLUSDR_DATA_DIR" dir; value "CLUSDR_LOG_FORMAT" "json"]
    [MkMount "data" dir false] [] None None None no_resources.

(** A container of the daemon. *)
Definition daemon_container (spec : Spec) (args : list string) (env : list EnvVar) (res : Resources) : Container :=
  MkContainer "clusdr" (image spec) "IfNotPresent" [] args env [MkMount "data" (dataDir spec) false]
    ports (Some tcpProbes.1) (Some tcpProbes.2) None res.

(** ** The DaemonSet topology *)

Definition SeedInitJob (ns cr uid : string) (spec : Spec) : Job :=
  let dir := dataDir spec in
  MkJob (meta ns cr uid (initJobName cr) compInit) 1
    (MkTemplate (labels cr compInit)
      (MkPod "Never" true "ClusterFirstWithHostNet" controlPlaneToleration (Some podSecurity) (nodeName spec) []
         [prepareContainer dir false] [init_container spec] [hostPathVol dir])).

Definition SeedDeploy (ns cr uid : string) (spec : Spec) : Deployment :=
  let dir := dataDir spec in
  MkDeployment (meta ns cr uid (seedName cr) compSeed) 1 (labels cr compSeed) "Recreate"
    (MkTemplate (labels cr compSeed)
      (MkPod "" true "ClusterFirstWithHostNet" controlPlaneToleration (Some podSecurity) (nodeName spec) []
         [prepareContainer dir false]
         [daemon_container spec ["start"; "--bootstrap"; "--config"; dir +:+ "/clusdr.yaml"] (daemonEnv dir false) resources]
         [hostPathVol dir])).

Definition MemberDaemonSet (ns cr uid : string) (spec : Spec) : DaemonSet :=
  let dir := dataDir spec in
  let sel := labels cr compMember in
  MkDaemonSet (meta ns cr uid (daemonSetName cr) compMember) sel
    (MkTemplate sel
      (MkPod "" true "ClusterFirstWithHostNet" controlPlaneToleration (Some podSecurity) ""
         [("kubernetes.io/hostname", labels cr compSeed)]
         [prepareContainer dir false]
         [daemon_container spec ["start"] (daemonEnv dir true) resources] [hostPathVol dir])).

Definition PrepareDaemonSet (ns cr uid : string) (spec : Spec) : DaemonSet :=
  let dir := dataDir spec in
  let sel := labels cr compPrepare in
  MkDaemonSet (meta ns cr uid (prepareName cr) compPrepare) sel
    (MkTemplate sel
      (MkPod "" false "" controlPlaneToleration (Some root) "" [] [] [prepareContainer dir true] [hostPathVol dir])).

Definition TokenSecret (ns cr uid token : string) : Secret :=
  MkSecret (meta ns cr uid (tokenSecretName cr) compSeed) "Opaque" {["token" := token]}.

(** ** The sidecar topology *)

Definition dns (pod svc ns port : string) : string := pod +:+ "." +:+ svc +:+ "." +:+ ns +:+ ".svc.cluster.local:" +:+ port.

Definition sidecarDNSEnv (ns svc dir : string) : list EnvVar :=
  [MkEnv "POD_NAME" (EnvField "metadata.name");
   value "CLUSDR_NODE_ID" "$(POD_NAME)";
   value "CLUSDR_DATA_DIR" dir;
   value "CLUSDR_CONTROL_SOCKET" (dir +:+ "/clusdr.sock");
   value "CLUSDR_GRPC_ADDR" "0.0.0.0:7947";
   value "CLUSDR_NODE_ADDR" (dns "$(POD_NAME)" svc ns "7947");
   value "CLUSDR_RAFT_ADDR" (dns "$(POD_NAME)" svc ns "7946");
   value "CLUSDR_LOG_FORMAT" "json";
   value "CLUSDR_LOG_LEVEL" "info"].

Definition pvcSpec : ClaimSpec := MkClaimSpec ["ReadWriteOnce"] [("storage", pvcQty)].
Definition SidecarPVC0 (ns cr uid : string) : PersistentVolumeClaim :=
  MkClaim (meta ns cr uid (sidecarPVC0 cr) compSidecar) pvcSpec.

Definition SidecarBootstrapJob (ns cr uid : string) (spec : Spec) : Job :=
  let dir := dataDir spec in
  let svc := headlessName cr in
  let seedID := stsName cr +:+ "-0" in
  MkJob (meta ns cr uid (sidecarBootJob cr) compSidecarBoot) 0
    (MkTemplate (labels cr compSidecarBoot)
      (MkPod "Never" false "" [] (Some sidecarFSGroup) "" []
         [init_container spec]
         [daemon_container spec ["start"; "--bootstrap"; "--config"; dir +:+ "/clusdr.yaml"]
            [value "CLUSDR_NODE_ID" seedID;
             value "CLUSDR_DATA_DIR" dir;
             value "CLUSDR_CONTROL_SOCKET" (dir +:+ "/clusdr.sock");
             value "CLUSDR_GRPC_ADDR" "0.0.0.0:7947";
             value "CLUSDR_NODE_ADDR" (dns seedID svc ns "7947");
             value "CLUSDR_RAFT_ADDR" (dns seedID svc ns "7946");
             value "CLUSDR_LOG_FORMAT" "json"] no_resources]
         [MkVolume "data" (ClaimVolume (sidecarPVC0 cr))])).

Definition HeadlessService (ns cr uid : string) : Service :=
  let sel := labels cr compSidecar in
  MkService (meta ns cr uid (headlessName cr) compSidecar) "None" true sel ports.

Definition MemberStatefulSet (ns cr uid : string) (spec : Spec) : StatefulSet :=
  let dir := dataDir spec in
  let svc := headlessName cr in
  let sel := labels cr compSidecar in
  MkStatefulSet (meta ns cr uid (stsName cr) compSidecar) svc (i32 (sp_VoterCount spec)) "OrderedReady" sel
    (MkTemplate sel
      (MkPod "" false "" [] (Some sidecarFSGroup) "" [] []
         [MkContainer "app" pauseImg "" [] []
            [value "CLUSDR_GRPC_ADDR" "127.0.0.1:7947"; value "CLUSDR_DATA_DIR" dir]
            [MkMount "data" dir true] [] None None None no_resources;
          daemon_container spec ["start"; "--config"; dir +:+ "/clusdr.yaml"] (sidecarDNSEnv ns svc dir) resources]
         []))
    [MkClaim (MkMeta "data" "" ∅ []) pvcSpec].

(** ** Well-formed objects

    What the API server and the kubelet require of a pod beyond the types: distinct
    container names, mounts of volumes that exist, probes of ports that are
    declared, no environment variable twice. *)
Definition distinct (l : list string) : bool := bool_decide (NoDup l).

Definition container_ok (volumes : list string) (c : Container) : bool :=
  distinct (env_Name <$> ct_Env c) &&
  forallb (λ m, existsb (String.eqb (vm_Name m)) volumes) (ct_Mounts c) &&
  forallb (λ p, existsb (λ q, Z.eqb (cp_Port q) (pb_Port p)) (ct_Ports c))
    (option_list (ct_Liveness c) ++ option_list (ct_Readiness c)).

Definition pod_ok (claims : list string) (p : PodSpec) : bool :=
  let volumes := (vl_Name <$> ps_Volumes p) ++ claims in
  distinct volumes &&
  distinct (ct_Name <$> ps_InitContainers p ++ ps_Containers p) &&
  forallb (container_ok volumes) (ps_InitContainers p ++ ps_Containers p).

(** A selector picks the pods of its own template. *)
Definition workload_ok (sel : gmap string string) (t : PodTemplate) (claims : list string) : Prop :=
  sel = pt_Labels t ∧ pod_ok claims (pt_Spec t) = true.

Definition bootstraps (t : PodTemplate) : bool :=
  existsb (λ c, existsb (String.eqb "--bootstrap") (ct_Args c)) (ps_Containers (pt_Spec t)).

Lemma labels_component cr c : labels cr c !! label_component = Some c.
Proof. unfold labels. by rewrite !lookup_insert_ne, lookup_insert_eq by done. Qed.
Lemma labels_instance cr c : labels cr c !! label_instance = Some cr.
Proof. unfold labels. by rewrite lookup_insert_ne, lookup_insert_eq by done. Qed.
Lemma labels_inj cr c cr' c' : labels cr c = labels cr' c' ↔ cr = cr' ∧ c = c'.
Proof.
  split; [|by intros [-> ->]]. intros He.
  pose proof (labels_component cr c) as Hc. pose proof (labels_instance cr c) as Hi.
  rewrite He, labels_component in Hc. rewrite He, labels_instance in Hi. naive_solver.
Qed.

(** What a selector matches is a sub-map relation. *)
Lemma labels_select cr c cr' c' : labels cr c ⊆ labels cr' c' ↔ cr = cr' ∧ c = c'.
Proof.
  split; [|by intros [-> ->]]. intros Hs.
  pose proof (lookup_weaken _ _ _ _ (labels_component cr c) Hs) as Hc.
  pose proof (lookup_weaken _ _ _ _ (labels_instance cr c) Hs) as Hi.
  rewrite labels_component in Hc. rewrite labels_instance in Hi. naive_solver.
Qed.

(** The path of a file is not a flag. *)
Lemma slash_in (d t : string) :
  let slash := Ascii.ascii_of_nat 47 in existsb (Ascii.eqb slash) (String.list_ascii_of_string (d +:+ String slash t)) = true.
Proof. induction d as [|a d IH]; simpl; [done|]. by rewrite IH, orb_true_r. Qed.
Lemma config_not_flag d : String.eqb "--bootstrap" (d +:+ "/clusdr.yaml") = false.
Proof.
  apply String.eqb_neq. intros He. pose proof (slash_in d "clusdr.yaml") as Hs. cbv zeta in Hs.
  change (String (Ascii.ascii_of_nat 47) "clusdr.yaml") with "/clusdr.yaml" in Hs. by rewrite <-He in Hs.
Qed.


(** The seed of the sidecar topology runs first in the bootstrap Job, under the
    name of ordinal 0; but the headless Service, whose DNS name it takes for its
    addresses, does not select the pod of the Job. *)
Theorem bootstrap_address_unserved ns cr uid spec :
  let jb := SidecarBootstrapJob ns cr uid spec in
  let sv := HeadlessService ns cr uid in
  (∃ c, ps_Containers (pt_Spec (jb_Template jb)) = [c] ∧
     value "CLUSDR_RAFT_ADDR" (dns (stsName cr +:+ "-0") (om_Name (sv_Meta sv)) ns "7946") ∈ ct_Env c) ∧
  ¬ sv_Selector sv ⊆ pt_Labels (jb_Template jb).
Proof.
  intros jb sv. split.
  - eexists. split; [reflexivity|]. simpl. set_solver.
  - simpl. rewrite labels_select. by intros [_ ?].
Qed.
