(* ===== verification/Operator.v ===== *)
(** * Operator: the reconciler of [internal/operator]

    [Reconcile] talks to Kubernetes and to the daemons through the interfaces
    [Platform] and [Joiner].  It is given as a program over the calls of these
    interfaces, a tree whose branches are the answers, so that theorems quantify
    over everything the platform can answer.  [run] executes a program against a
    platform given as a function.

    Go walks a map in any order: [range] is the order of the ids to leave. *)
From S2P Require Import Prelude OperatorResources.

(** ** Data *)

Record Cluster := MkCluster {
  cl_Namespace : string; cl_Name : string; cl_UID : string; cl_Generation : Z; cl_ResourceVersion : string;
  cl_StatusSeed : string; cl_Warning : string; cl_Spec : Spec;
}.
Record MemberStatus := MkMemberStatus { ms_ID : string; ms_Address : string; ms_Status : string; ms_Role : string }.
(** A message is kept as its format and arguments ([a + err.Error()] is a [%s]). *)
Record Status_ := MkStatus {
  os_ClusterID : string; os_Leader : string; os_SeedNodeName : string; os_Members : list MemberStatus;
  os_ObservedGeneration : Z; os_Phase : string; os_Message : error; os_Warning : string;
}.
Record PodAddr := MkPodAddr { pa_Name : string; pa_HostIP : string; pa_NodeName : string; pa_Addr : string; pa_Ready : bool }.

Definition set_seed (s : Spec) (seed : string) : Spec :=
  MkSpec (sp_Topology s) (sp_VoterCount s) (sp_Image s) (sp_DataDir s) seed (sp_Leave s).
Definition with_seed (c : Cluster) (seed status : string) : Cluster :=
  MkCluster (cl_Namespace c) (cl_Name c) (cl_UID c) (cl_Generation c) (cl_ResourceVersion c) status (cl_Warning c)
    (set_seed (cl_Spec c) seed).
Definition with_warning (c : Cluster) (w : string) : Cluster :=
  MkCluster (cl_Namespace c) (cl_Name c) (cl_UID c) (cl_Generation c) (cl_ResourceVersion c) (cl_StatusSeed c) w (cl_Spec c).

(** ** Calls *)

Abbreviation err := (option error).

Inductive call : Type → Type :=
  | ReadyNodes : call (result error (list string))
  | ClaimSeed (c : Cluster) (node : string) : call err
  | EnsurePrepare (spec : Spec) (c : Cluster) : call err
  | PrepareReady (c : Cluster) : call (result error bool)
  | EnsureJob (spec : Spec) (c : Cluster) : call err
  | JobComplete (c : Cluster) : call (result error bool)
  | JobLogs (c : Cluster) : call (result error string)
  | Token (c : Cluster) : call (result error (option string))   (* the second result is whether there is one *)
  | PutToken (c : Cluster) (token : string) : call err
  | EnsureSeed (spec : Spec) (c : Cluster) : call err
  | SeedReadyAddr (c : Cluster) : call (result error string)
  | EnsureDaemonSet (spec : Spec) (c : Cluster) : call err
  | MemberPods (c : Cluster) : call (result error (list PodAddr))
  | PatchStatus (c : Cluster) (st : Status_) : call err
  | EnsurePVC (spec : Spec) (c : Cluster) : call err
  | EnsureBootstrapJob (spec : Spec) (c : Cluster) : call err
  | BootstrapReady (c : Cluster) : call (result error bool)
  | JobExists (c : Cluster) : call (result error bool)
  | DeleteJob (c : Cluster) : call err
  | EnsureHeadless (spec : Spec) (c : Cluster) : call err
  | EnsureStatefulSet (spec : Spec) (c : Cluster) : call err
  | ClusterCount : call (result error Z)
  | Join (localAddr seedAddr token : string) (observer : bool) : call err
  | Leave (seedAddr nodeID : string) : call err
  | Snapshot (seedAddr : string) : call (result error Status_).

Inductive prog (A : Type) : Type :=
  | Ret (a : A)
  | Do (R : Type) (c : call R) (k : R → prog A).
Arguments Ret {A}.
Arguments Do {A R}.

Fixpoint bind {A B} (p : prog A) (f : A → prog B) : prog B :=
  match p with
  | Ret a => f a
  | Do c k => Do c (λ r, bind (k r) f)
  end.

Declare Scope op_scope.
Delimit Scope op_scope with op.
(** A call; [if err := call; err != nil { return err }]; a call with a result and an error. *)
Notation "'call*' x := c 'in' p" := (Do c (λ x, p)) (at level 200, x name, c at level 99) : op_scope.
Notation "'try*' c 'in' p" :=
  (Do c (λ e, match e with Some e => Ret (Some e) | None => p end)) (at level 200, c at level 99) : op_scope.
Notation "'get*' x := c 'in' p" :=
  (Do c (λ r, match r with Fail e => Ret (Some e) | Ok x => p end)) (at level 200, x name, c at level 99) : op_scope.
Open Scope op_scope.

(** Executing a program; the events are the calls made, in order. *)
Record platform (W : Type) := MkPlatform { answer : W → ∀ R, call R → W * R }.
Arguments MkPlatform {W}.
Arguments answer {W}.

Fixpoint run {W A} (pl : platform W) (w : W) (p : prog A) : W * A :=
  match p with
  | Ret a => (w, a)
  | Do c k => let (w, r) := answer pl w _ c in run pl w (k r)
  end.

(** ** Tokens, pods and members *)

(** [\s] and [\S] of the regular expression, on bytes. *)
Definition re_space (b : Z) : bool := bool_decide (b ∈ [9; 10; 12; 13; 32]%Z).
Fixpoint skip_space (l : list Z) : list Z :=
  match l with b :: l' => if re_space b then skip_space l' else l | [] => [] end.
Fixpoint take_word (l : list Z) : list Z :=
  match l with b :: l' => if re_space b then [] else b :: take_word l' | [] => [] end.
Fixpoint strip (pre l : list Z) : option (list Z) :=
  match pre, l with
  | [], _ => Some l
  | p :: pre, b :: l => if (p =? b)%Z then strip pre l else None
  | _ :: _, [] => None
  end.
(** [\s*$] after the word: the run of spaces ends the text or holds a newline. *)
Fixpoint ends_line (l : list Z) : bool :=
  match l with
  | [] => true
  | b :: l => if (b =? 10)%Z then true else re_space b && ends_line l
  end.
(** [^\s*join token\s*:\s*(\S+)\s*$] with its start at the head of [l]. *)
Definition match_here (l : list Z) : option (list Z) :=
  match strip (bytes_of "join token") (skip_space l) with
  | None => None
  | Some l =>
    match strip (bytes_of ":") (skip_space l) with
    | None => None
    | Some l =>
      let l := skip_space l in
      let word := take_word l in
      if bool_decide (word = []) then None else
      if ends_line (drop (length word) l) then Some word else None
    end
  end.
(** The leftmost match; [bol] is whether [l] starts a line. *)
Fixpoint find_match (bol : bool) (l : list Z) : option (list Z) :=
  match (if bol then match_here l else None) with
  | Some w => Some w
  | None => match l with [] => None | b :: l => find_match (b =? 10)%Z l end
  end.

Section parse.
Context `{Unicode}.
Definition ParseJoinToken (logs : string) : result error string :=
  match find_match true (bytes_of logs) with
  | None => Fail (Errorf "join token not in init logs" [])
  | Some w =>
    let tok := TrimSpaceS (string_of w) in
    if str_empty tok then Fail (Errorf "empty join token" []) else Ok tok
  end.
End parse.

Definition MemberObserver (dsIndex voterCount : Z) : bool :=
  if (voterCount <? 1)%Z then true else
  let ordinal := i64 (dsIndex + 2) in (voterCount <? ordinal)%Z.

Definition dropSet `{Unicode} (ids : list string) : gset string :=
  list_to_set (List.filter (λ id, negb (str_empty id)) (TrimSpaceS <$> ids)).

(** [fmt.Sprintf] with the port. *)
Definition memberAddr (p : PodAddr) : string :=
  if str_empty (pa_HostIP p) then "" else pa_HostIP p +:+ ":7947".
Definition joinAddr (p : PodAddr) : string :=
  if negb (str_empty (pa_Addr p)) then pa_Addr p else memberAddr p.

(** [strconv.Atoi]: an optional sign and decimal digits that fit in an [int]. *)
Definition digit (b : Z) : option Z := if between 48 57 b then Some (b - 48)%Z else None.
Fixpoint digits (acc : Z) (l : list Z) : option Z :=
  match l with
  | [] => Some acc
  | b :: l => match digit b with Some d => digits (acc * 10 + d)%Z l | None => None end
  end.
Definition Atoi (l : list Z) : option Z :=
  let signed (neg : bool) (l : list Z) :=
    match l with
    | [] => None
    | _ => match digits 0 l with
           | Some n => let n := if neg then (- n)%Z else n in
             if (- two63 <=? n)%Z && (n <? two63)%Z then Some n else None
           | None => None
           end
    end in
  match l with
  | 43%Z :: l => signed false l
  | 45%Z :: l => signed true l
  | _ => signed false l
  end.

(** The bytes after the last [-], if there is one. *)
Fixpoint after_last_dash (l : list Z) : option (list Z) :=
  match l with
  | [] => None
  | b :: l => match after_last_dash l with
              | Some r => Some r
              | None => if (b =? 45)%Z then Some l else None
              end
  end.
Definition podOrdinal (name : string) : Z :=
  match after_last_dash (bytes_of name) with
  | None => -1
  | Some [] => -1
  | Some l => match Atoi l with Some n => n | None => -1 end
  end.

Definition alreadyMember (st : Status_) (p : PodAddr) : bool :=
  let addr := joinAddr p in
  existsb (λ m,
    (negb (str_empty (pa_NodeName p)) && String.eqb (ms_ID m) (pa_NodeName p)) ||
    (negb (str_empty addr) && negb (str_empty (ms_Address m)) &&
     (String.eqb (ms_Address m) addr || String.eqb (ms_Address m) (pa_HostIP p)))) (os_Members st).

Definition memberListed (st : Status_) (id : string) : bool := existsb (λ m, String.eqb (ms_ID m) id) (os_Members st).

Definition sidecarPodDNS (pod : string) (c : Cluster) : string :=
  pod +:+ "." +:+ headlessName (cl_Name c) +:+ "." +:+ cl_Namespace c +:+ ".svc.cluster.local:7947".

(** ** Reconciling *)

Section reconcile.
Context `{Unicode} (range : gset string → list string).

Definition patchStatus (c : Cluster) (st : Status_) : prog err :=
  let seed := if str_empty (os_SeedNodeName st) then sp_SeedNodeName (cl_Spec c) else os_SeedNodeName st in
  let st := MkStatus (os_ClusterID st) (os_Leader st) seed (os_Members st) (os_ObservedGeneration st)
              (os_Phase st) (os_Message st) (cl_Warning c) in
  Do (PatchStatus c st) Ret.

(** [Status{ObservedGeneration: c.Generation, Phase: ..., Message: ...}] *)
Definition report (c : Cluster) (phase : string) (msg : error) : prog err :=
  patchStatus c (MkStatus "" "" "" [] (cl_Generation c) phase msg "").
Definition pending (c : Cluster) (msg : string) : prog err := report c "Pending" (Errorf msg []).

Definition warnTwoClusters : string := "two clusters".

(** [noteWarning] and [resolveSeed] update the cluster; the rest is [k]. *)
Definition noteWarning (c : Cluster) (k : Cluster → prog err) : prog err :=
  get* n := ClusterCount in k (if (2 <=? n)%Z then with_warning c warnTwoClusters else c).

Definition resolveSeed (c : Cluster) (k : Cluster → prog err) : prog err :=
  let want := sp_SeedNodeName (cl_Spec c) in
  let want := if str_empty want then cl_StatusSeed c else want in
  if str_empty want then
    get* nodes := ReadyNodes in
    match sort_by (λ n, n) nodes with
    | [] => k c
    | want :: _ => try* ClaimSeed c want in k (with_seed c want want)
    end
  else
    let c := with_seed c want (cl_StatusSeed c) in
    if negb (String.eqb (cl_StatusSeed c) want)
    then try* ClaimSeed c want in k (with_seed c want want)
    else k c.

Definition even_voters (c : Cluster) : bool :=
  let n := sp_VoterCount (cl_Spec c) in (n <? 1)%Z || (Z.rem n 2 =? 0)%Z.
Definition odd_message : error := Errorf "voterCount must be an odd integer >= 1" [].

(** [for id := range drop]. *)
Fixpoint leave_loop (c : Cluster) (seedAddr : string) (st : Status_) (ids : list string) (k : prog err) : prog err :=
  match ids with
  | [] => k
  | id :: ids =>
    if negb (memberListed st id) then leave_loop c seedAddr st ids k else
    call* e := Leave seedAddr id in
    match e with
    | Some e => report c "Pending" (Errorf "leave %s: %s" [AStr id; AErr e])
    | None => leave_loop c seedAddr st ids k
    end
  end.

(** The pods to join, each with the index that decides its role. *)
Fixpoint join_loop (c : Cluster) (seedAddr token : string) (todo : list (Z * PodAddr)) (k : prog err) : prog err :=
  match todo with
  | [] => k
  | (i, p) :: todo =>
    call* e := Join (joinAddr p) seedAddr token (MemberObserver i (sp_VoterCount (cl_Spec c))) in
    match e with
    | Some e => report c "Pending" (Errorf "join %s: %s" [AStr (pa_Name p); AErr e])
    | None => join_loop c seedAddr token todo k
    end
  end.

Definition joins (drop : gset string) (st : Status_) (skip : Z → PodAddr → bool) (pods : list (Z * PodAddr))
    : list (Z * PodAddr) :=
  List.filter (λ ip, negb (skip ip.1 ip.2) && negb (bool_decide (pa_NodeName ip.2 ∈ drop)) && negb (alreadyMember st ip.2)) pods.

Definition indexed {A} (l : list A) : list (Z * A) := imap (λ i x, (Z.of_nat i, x)) l.

(** The end of both topologies: the members the seed reports. *)
Definition mirror (c : Cluster) (seedAddr : string) : prog err :=
  call* st := Snapshot seedAddr in
  match st with
  | Fail e => report c "Pending" (Errorf "members: %s" [AErr e])
  | Ok st =>
    patchStatus c (MkStatus (os_ClusterID st) (os_Leader st) (os_SeedNodeName st) (os_Members st) (cl_Generation c)
      (if str_empty (os_Phase st) then "Ready" else os_Phase st) (Errorf "" []) (os_Warning st))
  end.

(** From the first snapshot on: leave, join, mirror. *)
Definition settle (c : Cluster) (seedAddr token : string) (pods : list (Z * PodAddr)) (skip : Z → PodAddr → bool) : prog err :=
  call* st := Snapshot seedAddr in
  match st with
  | Fail e => report c "Pending" (Errorf "members: %s" [AErr e])
  | Ok st =>
    let drop := dropSet (sp_Leave (cl_Spec c)) in
    leave_loop c seedAddr st (range drop)
      (join_loop c seedAddr token (joins drop st skip pods) (mirror c seedAddr))
  end.

Definition daemon_members (c : Cluster) (token : string) : prog err :=
  try* EnsureSeed (cl_Spec c) c in
  call* a := SeedReadyAddr c in
  match a with
  | Fail e => report c "Pending" (Errorf "waiting for seed Runtime: %s" [AErr e])
  | Ok seedAddr =>
    try* EnsureDaemonSet (cl_Spec c) c in
    get* pods := MemberPods c in
    settle c seedAddr token (indexed (sort_by pa_Name pods)) (λ _ p, str_empty (pa_HostIP p) || negb (pa_Ready p))
  end.

(** The token: stored, or read from the logs and stored. *)
Definition daemon_token (c : Cluster) : prog err :=
  get* t := Token c in
  match t with
  | Some token => daemon_members c token
  | None =>
    get* logs := JobLogs c in
    match ParseJoinToken logs with
    | Fail _ => report c "Error" (Errorf "init finished but join token missing (re-init or set secret)" [])
    | Ok token => try* PutToken c token in daemon_members c token
    end
  end.

Definition reconcileDaemon (c : Cluster) : prog err :=
  if even_voters c then report c "Error" odd_message else
  resolveSeed c (λ c,
    if str_empty (sp_SeedNodeName (cl_Spec c)) then pending c "waiting for a Ready node" else
    try* EnsurePrepare (cl_Spec c) c in
    get* ready := PrepareReady c in
    if negb ready then pending c "waiting for hostPath prepare" else
    try* EnsureJob (cl_Spec c) c in
    get* done := JobComplete c in
    if negb done then pending c "waiting for seed init" else
    daemon_token c).

Definition sidecar_bootstrap (c : Cluster) : prog err :=
  try* EnsurePVC (cl_Spec c) c in
  try* EnsureBootstrapJob (cl_Spec c) c in
  get* ready := BootstrapReady c in
  if negb ready then pending c "waiting for sidecar bootstrap" else
  get* logs := JobLogs c in
  match ParseJoinToken logs with
  | Fail _ => report c "Error" (Errorf "bootstrap finished but join token missing (re-init or set secret)" [])
  | Ok token =>
    try* PutToken c token in
    try* DeleteJob c in
    pending c "waiting to start StatefulSet"
  end.

Definition sidecar_members (c : Cluster) (token : string) : prog err :=
  get* exists_ := JobExists c in
  if (exists_ : bool) then
    try* DeleteJob c in pending c "waiting for bootstrap Job to release PVC"
  else
    try* EnsureHeadless (cl_Spec c) c in
    try* EnsureStatefulSet (cl_Spec c) c in
    call* a := SeedReadyAddr c in
    match a with
    | Fail e => report c "Pending" (Errorf "waiting for sidecar-0 Runtime: %s" [AErr e])
    | Ok seedAddr =>
      get* pods := MemberPods c in
      settle c seedAddr token ((λ p, ((podOrdinal (pa_Name p) - 1)%Z, p)) <$> pods)
        (λ i p, (i + 1 <=? 0)%Z || negb (pa_Ready p))
    end.

Definition reconcileSidecar (c : Cluster) : prog err :=
  if even_voters c then report c "Error" odd_message else
  get* t := Token c in
  match t with
  | None => sidecar_bootstrap c
  | Some token => sidecar_members c token
  end.

Definition Reconcile (c : Cluster) : prog err :=
  noteWarning c (λ c,
    if String.eqb (topology (cl_Spec c)) topoSidecar then reconcileSidecar c else
    if String.eqb (topology (cl_Spec c)) topoDaemon then reconcileDaemon c else
    report c "Error" (Errorf "unknown topology %q" [AStr (sp_Topology (cl_Spec c))])).
End reconcile.

(** ** Histories

    A reconcile is judged by its calls and their answers, newest first.  [obeys]:
    whatever is answered, every call is allowed after the calls before it. *)
Inductive event : Type := Ev (R : Type) (c : call R) (r : R).
Arguments Ev {R}.

Section obeys.
Context {A : Type} (allowed : list event → ∀ R, call R → Prop).

Fixpoint obeys (past : list event) (p : prog A) : Prop :=
  match p with
  | Ret _ => True
  | Do c k => allowed past _ c ∧ ∀ r, obeys (Ev c r :: past) (k r)
  end.

(** The histories of a program. *)
Inductive history : list event → prog A → list event → Prop :=
  | hist_nil past p : history past p past
  | hist_call past R (c : call R) k r h : history (Ev c r :: past) (k r) h → history past (Do c k) h.

Inductive justified : list event → Prop :=
  | just_nil : justified []
  | just_cons R (c : call R) r past : allowed past R c → justified past → justified (Ev c r :: past).

Lemma obeys_history past p h : justified past → obeys past p → history past p h → justified h.
Proof.
  intros Hp Ho Hh. induction Hh as [|past R c k r h Hh IH]; [done|]. destruct Ho as [Ha Hk].
  apply IH; [by constructor|apply Hk].
Qed.
End obeys.
Arguments obeys {A}.
Arguments history {A}.

(** ** The order of a reconcile *)
Section order.
Context `{Unicode} (range : gset string → list string).
Hypothesis range_in : ∀ s x, x ∈ range s → x ∈ s.

(** The token is in the Secret: it was there, or it was put there. *)
Definition stored (past : list event) (c : Cluster) (t : string) : Prop :=
  Ev (Token c) (Ok (Some t)) ∈ past ∨ Ev (PutToken c t) None ∈ past.

(** What must have been answered before a call is made, for the cluster object [c0]. *)
Definition in_order (c0 : Cluster) (past : list event) (R : Type) (x : call R) : Prop :=
  match x with
  | EnsurePrepare spec c =>
      sp_SeedNodeName spec ≠ "" ∧
      (cl_StatusSeed c0 = sp_SeedNodeName spec ∨ ∃ c', Ev (ClaimSeed c' (sp_SeedNodeName spec)) None ∈ past)
  | EnsureJob spec c =>
      Ev (EnsurePrepare spec c) None ∈ past ∧ Ev (PrepareReady c) (Ok true) ∈ past
  | PutToken c t => ∃ logs, Ev (JobLogs c) (Ok logs) ∈ past ∧ ParseJoinToken logs = Ok t
  | EnsureSeed spec c =>
      Ev (EnsureJob spec c) None ∈ past ∧ Ev (JobComplete c) (Ok true) ∈ past ∧ ∃ t, stored past c t
  | EnsureDaemonSet spec c => Ev (EnsureSeed spec c) None ∈ past ∧ ∃ a, Ev (SeedReadyAddr c) (Ok a) ∈ past
  | DeleteJob c => ∃ t, stored past c t
  | EnsureHeadless _ c | EnsureStatefulSet _ c =>
      (∃ t, Ev (Token c) (Ok (Some t)) ∈ past) ∧ Ev (JobExists c) (Ok false) ∈ past
  | Leave s id =>
      id ∈ dropSet (sp_Leave (cl_Spec c0)) ∧ ∃ st, Ev (Snapshot s) (Ok st) ∈ past ∧ memberListed st id = true
  | Join _ s t _ =>
      (∃ c, stored past c t ∧ Ev (SeedReadyAddr c) (Ok s) ∈ past) ∧ ∃ st, Ev (Snapshot s) (Ok st) ∈ past
  | _ => True
  end.
Abbreviation ordered c0 := (obeys (in_order c0)).

Lemma report_ordered c0 c past ph msg : ordered c0 past (report c ph msg).
Proof. done. Qed.
Lemma mirror_ordered c0 c past s : ordered c0 past (mirror c s).
Proof. split; [done|]. intros [st|e]; done. Qed.

Lemma leave_ordered c0 c s st ids k past :
  Ev (Snapshot s) (Ok st) ∈ past → (∀ x, x ∈ ids → x ∈ dropSet (sp_Leave (cl_Spec c0))) →
  (∀ past', past ⊆ past' → ordered c0 past' k) → ordered c0 past (leave_loop c s st ids k).
Proof.
  intros Hs Hids Hk. revert past Hs Hk. induction ids as [|id ids IH]; intros past Hs Hk; simpl; [by apply Hk|].
  destruct (memberListed st id) eqn:Hl; simpl.
  - split; [split; [set_solver|by exists st]|]. intros [e|]; [done|]. apply IH; [set_solver..|].
    intros past' Hp. apply Hk. set_solver.
  - apply IH; [set_solver|done..].
Qed.

Lemma join_ordered c0 c c' s t st todo k past :
  stored past c' t → Ev (SeedReadyAddr c') (Ok s) ∈ past → Ev (Snapshot s) (Ok st) ∈ past →
  (∀ past', ordered c0 past' k) → ordered c0 past (join_loop c s t todo k).
Proof.
  intros Ht Ha Hs Hk. revert past Ht Ha Hs. induction todo as [|[i p] todo IH]; intros past Ht Ha Hs; simpl; [done|].
  split; [split; [by exists c'|by exists st]|]. intros [e|]; [done|].
  apply IH; [destruct Ht; [left|right]|..]; set_solver.
Qed.

Lemma settle_ordered c0 c c' s t pods skip past :
  sp_Leave (cl_Spec c) = sp_Leave (cl_Spec c0) → stored past c' t → Ev (SeedReadyAddr c') (Ok s) ∈ past →
  ordered c0 past (settle range c s t pods skip).
Proof.
  intros Hl Ht Ha. split; [done|]. intros [st|e]; [|done]. apply leave_ordered; [set_solver| |].
  - intros x Hx%range_in. by rewrite <-Hl.
  - intros past' Hp. apply (join_ordered c0 c c' s t st); [destruct Ht; [left|right]| | |]; [set_solver..|].
    intros. apply mirror_ordered.
Qed.

Lemma daemon_members_ordered c0 c t past :
  sp_Leave (cl_Spec c) = sp_Leave (cl_Spec c0) →
  stored past c t → Ev (EnsureJob (cl_Spec c) c) None ∈ past → Ev (JobComplete c) (Ok true) ∈ past →
  ordered c0 past (daemon_members range c t).
Proof.
  intros Hl Ht Hj Hd. split; [split_and!; [done..|by exists t]|]. intros [e|]; [done|]. split; [done|]. intros [a|e]; [|done].
  split; [split; [set_solver|exists a; set_solver]|]. intros [e|]; [done|]. split; [done|]. intros [pods|e]; [|done].
  apply (settle_ordered _ _ c); [done|destruct Ht; [left|right]; set_solver|set_solver].
Qed.

Lemma daemon_token_ordered c0 c past :
  sp_Leave (cl_Spec c) = sp_Leave (cl_Spec c0) →
  Ev (EnsureJob (cl_Spec c) c) None ∈ past → Ev (JobComplete c) (Ok true) ∈ past →
  ordered c0 past (daemon_token range c).
Proof.
  intros Hl Hj Hd. split; [done|]. intros [[t|]|e]; [| |done].
  - apply daemon_members_ordered; [done|left; set_solver|set_solver..].
  - split; [done|]. intros [logs|e]; [|done]. destruct (ParseJoinToken logs) as [t|e] eqn:Hp; [|done].
    split; [exists logs; set_solver|]. intros [e|]; [done|].
    apply daemon_members_ordered; [done|right; set_solver|set_solver..].
Qed.

(** The program behind [resolveSeed] gets a cluster whose seed is claimed, or one
    that has none. *)
Lemma resolveSeed_ordered c0 c k past :
  cl_StatusSeed c = cl_StatusSeed c0 → sp_Leave (cl_Spec c) = sp_Leave (cl_Spec c0) →
  (∀ c' past', sp_Leave (cl_Spec c') = sp_Leave (cl_Spec c0) →
     (sp_SeedNodeName (cl_Spec c') = "" ∨ cl_StatusSeed c0 = sp_SeedNodeName (cl_Spec c') ∨
      ∃ c'', Ev (ClaimSeed c'' (sp_SeedNodeName (cl_Spec c'))) None ∈ past') → ordered c0 past' (k c')) →
  ordered c0 past (resolveSeed c k).
Proof.
  intros Hst Hl Hk. unfold resolveSeed.
  set (want := if str_empty (sp_SeedNodeName (cl_Spec c)) then cl_StatusSeed c else sp_SeedNodeName (cl_Spec c)).
  destruct (str_empty want) eqn:Hw; simpl.
  - split; [done|]. intros [nodes|e]; [|done]. destruct (sort_by _ nodes) as [|n ns].
    + apply Hk; [done|]. left. unfold want in Hw. destruct (str_empty (sp_SeedNodeName (cl_Spec c))) eqn:Hs; [|congruence].
      by apply str_empty_true.
    + split; [done|]. intros [e|]; [done|]. apply Hk; [done|]. right; right. eexists. apply elem_of_cons. by left.
  - destruct (String.eqb (cl_StatusSeed c) want) eqn:He; simpl.
    + apply Hk; [done|]. right; left. breflect. simpl. congruence.
    + split; [done|]. intros [e|]; [done|]. apply Hk; [done|]. right; right. eexists. apply elem_of_cons. by left.
Qed.

(** C19: Whatever Kubernetes and the daemons answer, a reconcile does things in
    order.  Nothing is created for a seed node before that node is recorded in the
    status of the object; the init Job is created only after the directories are
    prepared, the seed starts only after init completed and the join token is in
    the Secret, the members only after the seed answers; the bootstrap Job is
    deleted only once the token it printed is stored, and the headless Service and
    the StatefulSet are created only when that Job is gone; a pod joins only with
    the stored token at the address of the ready seed, and a node leaves only if
    the spec says so and the cluster lists it. *)
Theorem operator_call_order c h : history [] (Reconcile range c) h → justified (in_order c) h.
Proof.
  apply obeys_history; [constructor|]. split; [done|]. intros [n|e]; [|done].
  set (c1 := if (2 <=? n)%Z then with_warning c warnTwoClusters else c).
  assert (cl_StatusSeed c1 = cl_StatusSeed c ∧ sp_Leave (cl_Spec c1) = sp_Leave (cl_Spec c)) as [Hst Hl]
    by (unfold c1; by destruct (2 <=? n)%Z).
  destruct (String.eqb _ topoSidecar); [|destruct (String.eqb _ topoDaemon); [|done]].
  - unfold reconcileSidecar. destruct (even_voters c1); [done|]. split; [done|]. intros [[t|]|e]; [| |done].
    + split; [done|]. intros [[]|e]; [| |done].
      * split; [exists t; left; set_solver|]. by intros [e|].
      * split; [split; [exists t|]; set_solver|]. intros [e|]; [done|].
        split; [split; [exists t|]; set_solver|]. intros [e|]; [done|].
        split; [done|]. intros [a|e]; [|done]. split; [done|]. intros [pods|e]; [|done].
        apply (settle_ordered _ _ c1); [done|left|]; set_solver.
    + split; [done|]. intros [e|]; [done|]. split; [done|]. intros [e|]; [done|].
      split; [done|]. intros [[]|e]; [|done..]. split; [done|]. intros [logs|e]; [|done].
      destruct (ParseJoinToken logs) as [t|e] eqn:Hp; [|done].
      split; [exists logs; set_solver|]. intros [e|]; [done|].
      split; [exists t; right; set_solver|]. by intros [e|].
  - unfold reconcileDaemon. destruct (even_voters c1); [done|]. apply resolveSeed_ordered; [done..|].
    intros c' past' Hl' Hseed. destruct (str_empty (sp_SeedNodeName (cl_Spec c'))) eqn:He; [done|].
    apply str_empty_false in He. split; [split; [done|]; naive_solver|]. intros [e|]; [done|].
    split; [done|]. intros [[]|e]; [|done..]. split; [split; set_solver|]. intros [e|]; [done|].
    split; [done|]. intros [[]|e]; [|done..]. apply daemon_token_ordered; [done|set_solver..].
Qed.
End order.

(** ** How many voters a reconcile makes *)

Ltac op_walk :=
  repeat match goal with
  | |- obeys _ _ (Ret _) => exact I
  | |- obeys _ _ (report _ _ _) => split; [exact I|done]
  | |- obeys _ _ (pending _ _) => split; [exact I|done]
  | |- obeys _ _ (Do _ _) => split; [exact I|intros ?]
  | |- obeys _ _ (match ?x with _ => _ end) => destruct x
  end.

Definition voter_join (e : event) : bool :=
  match e with Ev c _ => match c with Join _ _ _ false => true | _ => false end end.
Definition voters (past : list event) : nat := length (List.filter voter_join past).

(** Lists of pods are far shorter than an [int]. *)
Definition few_pods (past : list event) : Prop :=
  ∀ c pods, Ev (MemberPods c) (Ok pods) ∈ past → (Z.of_nat (length pods) < two63 - 2)%Z.

(** The seed, the voters that joined before and this one are at most [vc]. *)
Definition within (vc : Z) (past : list event) (R : Type) (x : call R) : Prop :=
  match x with
  | Join _ _ _ false => few_pods past → (1 + Z.of_nat (voters past) + 1 ≤ vc)%Z
  | _ => True
  end.

Section voters.
Context `{Unicode} (range : gset string → list string).
Abbreviation frugal vc := (obeys (within vc)).

Lemma leave_frugal vc c s sn ids k past :
  (∀ past', voters past' = voters past → (few_pods past' → few_pods past) → frugal vc past' k) →
  frugal vc past (leave_loop c s sn ids k).
Proof.
  revert past. induction ids as [|id ids IH]; intros past Hk; simpl; [by apply Hk|].
  destruct (memberListed sn id); simpl; [|by apply IH]. split; [done|]. intros [e|]; [by split|]. apply IH.
  intros past' Hv Hf. apply Hk; [done|]. intros Hp c' pods Hin. apply (Hf Hp c'). set_solver.
Qed.

Definition voter_index (vc : Z) (ip : Z * PodAddr) : bool := negb (MemberObserver ip.1 vc).

Lemma join_frugal vc c s t todo k past :
  sp_VoterCount (cl_Spec c) = vc →
  (few_pods past → (1 + Z.of_nat (voters past) + Z.of_nat (length (List.filter (voter_index vc) todo)) ≤ vc)%Z) →
  (∀ past', frugal vc past' k) → frugal vc past (join_loop c s t todo k).
Proof.
  intros Hvc Hb Hk. revert past Hb. induction todo as [|[i p] todo IH]; intros past Hb; simpl in *; [done|].
  unfold voter_index at 1 in Hb. simpl in Hb. rewrite Hvc.
  assert (∀ e : err, few_pods (Ev (Join (joinAddr p) s t (MemberObserver i vc)) e :: past) → few_pods past) as Hf.
  { intros e Hp c' pods Hin. apply (Hp c'). set_solver. }
  destruct (MemberObserver i vc); simpl in *.
  - split; [done|]. intros [e|]; [by split|]. apply IH. intros Hp. apply Hf in Hp. apply Hb, Hp.
  - split; [intros Hp; specialize (Hb Hp); lia|]. intros [e|]; [by split|]. apply IH. intros Hp. apply Hf in Hp.
    specialize (Hb Hp). unfold voters in *. simpl. lia.
Qed.

(** Of the pods in their order, at most [vc - 1] are joined as voters. *)
Lemma indexed_voters vc pods (k : nat) :
  (Z.of_nat (k + length pods) < two63 - 2)%Z →
  (Z.of_nat (length (List.filter (voter_index vc) (imap (λ i x, (Z.of_nat (k + i), x)) pods))) ≤ Z.max 0 (vc - 1 - Z.of_nat k))%Z.
Proof.
  revert k. induction pods as [|p pods IH]; intros k Hk; [simpl; lia|]. rewrite imap_cons. simpl in Hk. cbn [List.filter].
  replace (imap _ pods) with (imap (λ i x, (Z.of_nat (S k + i), x)) pods) by (apply imap_ext; intros; simpl; do 2 f_equal; lia).
  specialize (IH (S k) ltac:(simpl; lia)). unfold voter_index at 1, MemberObserver. simpl fst.
  rewrite Nat.add_0_r, i64_small by (unfold two63 in *; lia).
  destruct (vc <? 1)%Z eqn:H1; [|destruct (vc <? Z.of_nat k + 2)%Z eqn:H2]; breflect; cbn [negb length]; lia.
Qed.

Lemma joins_voters vc drop sn skip l :
  length (List.filter (voter_index vc) (joins drop sn skip l)) ≤ length (List.filter (voter_index vc) l).
Proof.
  unfold joins. induction l as [|ip l IH]; simpl; [done|]. repeat case_match; simpl; rewrite ?H0, ?H1; simpl; try lia.
  all: repeat case_match; simpl; lia.
Qed.

Lemma settle_frugal c s t pods skip past :
  (1 ≤ sp_VoterCount (cl_Spec c))%Z → voters past = 0 →
  (∃ c', Ev (MemberPods c') (Ok pods) ∈ past) →
  frugal (sp_VoterCount (cl_Spec c)) past (settle range c s t (indexed (sort_by pa_Name pods)) skip).
Proof.
  intros Hvc Hv [c' Hpods]. split; [done|]. intros [sn|e]; [|by split]. apply leave_frugal. intros past' Hv' Hf.
  apply join_frugal; [done| |].
  - intros Hp. apply Hf in Hp. rewrite Hv'. unfold voters in *. simpl. rewrite Hv.
    pose proof (joins_voters (sp_VoterCount (cl_Spec c)) (dropSet (sp_Leave (cl_Spec c))) sn skip
      (indexed (sort_by pa_Name pods))) as Hj.
    pose proof (indexed_voters (sp_VoterCount (cl_Spec c)) (sort_by pa_Name pods) 0) as Hi.
    rewrite sort_by_perm in Hi at 1. specialize (Hi ltac:(apply (Hp c'); set_solver)).
    change (imap _ _) with (indexed (sort_by pa_Name pods)) in Hi. lia.
  - intros. split; [done|]. intros [x|e]; by split.
Qed.

End voters.

(** ** Roles are given by position

    A role is decided by the index of a pod among the pods of the moment, not by
    how many voters the cluster has. *)
Section overflow.
Context `{Unicode} (range : gset string → list string).
Hypothesis range_in : ∀ s x, x ∈ range s → x ∈ s.

(** Across reconciles [voterCount] is not a bound: a ready pod that is no
    member and whose name sorts before the others' is joined as a voter, however
    many voters the seed already reports. *)
Theorem operator_voters_overflow c token a st p pods :
  (2 ≤ sp_VoterCount (cl_Spec c))%Z → sp_Leave (cl_Spec c) = [] →
  head (sort_by pa_Name pods) = Some p → pa_HostIP p ≠ "" → pa_Ready p = true → alreadyMember st p = false →
  (sp_VoterCount (cl_Spec c) ≤ Z.of_nat (length (List.filter (λ m, negb (String.eqb (ms_Role m) "observer")) (os_Members st))))%Z →
  ∃ h, history [] (daemon_members range c token) h ∧ Ev (Snapshot a) (Ok st) ∈ h ∧
    Ev (Join (joinAddr p) a token false) None ∈ h.
Proof.
  intros Hvc Hl Hp Hip Hr Hm _. apply str_empty_false in Hip.
  destruct (sort_by pa_Name pods) as [|p' rest] eqn:Hs; [done|]. injection Hp as ->.
  eexists. split.
  - apply (hist_call _ _ (EnsureSeed (cl_Spec c) c) _ None).
    apply (hist_call _ _ (SeedReadyAddr c) _ (Ok a)).
    apply (hist_call _ _ (EnsureDaemonSet (cl_Spec c) c) _ None).
    apply (hist_call _ _ (MemberPods c) _ (Ok pods)). cbv iota. rewrite Hs.
    apply (hist_call _ _ (Snapshot a) _ (Ok st)). cbv iota zeta. rewrite Hl.
    replace (range (dropSet [])) with (@nil string).
    2: { destruct (range (dropSet [])) as [|x l] eqn:Hx; [done|]. exfalso.
         assert (x ∈ dropSet []) as Hin by (apply range_in; rewrite Hx; set_solver). unfold dropSet in Hin. set_solver. }
    simpl leave_loop.
    rewrite Hip, Hr, Hm, bool_decide_eq_false_2 by (unfold dropSet; set_solver). cbn [orb andb negb join_loop].
    replace (MemberObserver (Z.of_nat 0) (sp_VoterCount (cl_Spec c))) with false.
    2: { unfold MemberObserver. change (i64 (Z.of_nat 0 + 2)) with 2%Z.
         by rewrite !(proj2 (Z.ltb_ge _ _)) by lia. }
    apply (hist_call _ _ (Join (joinAddr p) a token false) _ None). apply hist_nil.
  - set_solver.
Qed.
End overflow.

(** ** Concrete reconciles *)
Module OperatorExamples.
#[export] Existing Instance latin1.
Definition spec (topo : string) : Spec := MkSpec topo 3 "" "" "" [].
Definition cluster (topo : string) : Cluster := MkCluster "ns" "db" "uid" 1 "7" "" "" (spec topo).
Definition newline : string := String (Ascii.ascii_of_nat 10) EmptyString.
Definition logs : string := "  join token : 4f2a" +:+ newline.

Lemma elements_in (s : gset string) x : x ∈ elements s → x ∈ s.
Proof. apply elem_of_elements. Qed.

Lemma operator_call_order_witness :
  ∃ h, history [] (Reconcile elements (cluster "Sidecar")) h ∧ justified (in_order (cluster "Sidecar")) h ∧
    Ev (DeleteJob (cluster "Sidecar")) None ∈ h.
Proof.
  assert (∃ h, history [] (Reconcile elements (cluster "Sidecar")) h ∧
    Ev (DeleteJob (cluster "Sidecar")) None ∈ h) as (h & Hh & Hin).
  { eexists. split.
    - apply (hist_call _ _ ClusterCount _ (Ok 1%Z)).
      apply (hist_call _ _ (Token (cluster "Sidecar")) _ (Ok None)).
      apply (hist_call _ _ (EnsurePVC (spec "Sidecar") (cluster "Sidecar")) _ None).
      apply (hist_call _ _ (EnsureBootstrapJob (spec "Sidecar") (cluster "Sidecar")) _ None).
      apply (hist_call _ _ (BootstrapReady (cluster "Sidecar")) _ (Ok true)).
      apply (hist_call _ _ (JobLogs (cluster "Sidecar")) _ (Ok logs)).
      apply (hist_call _ _ (PutToken (cluster "Sidecar") "4f2a") _ None).
      apply (hist_call _ _ (DeleteJob (cluster "Sidecar")) _ None). apply hist_nil.
    - apply elem_of_cons. by left. }
  exists h. split; [done|]. split; [|done]. exact (operator_call_order elements elements_in (cluster "Sidecar") h Hh).
Defined.

Definition pod (name node ip : string) : PodAddr := MkPodAddr name ip node (ip +:+ ":7947") true.
Definition pods : list PodAddr := [pod "db-b" "n2" "10.0.0.2"; pod "db-a" "n4" "10.0.0.4"; pod "db-c" "n3" "10.0.0.3"].
Definition three_voters : Status_ :=
  MkStatus "c" "n1" ""
    [MkMemberStatus "n1" "10.0.0.1:7947" "alive" "leader"; MkMemberStatus "n2" "10.0.0.2:7947" "alive" "voter";
     MkMemberStatus "n3" "10.0.0.3:7947" "alive" "voter"] 0 "Ready" (Errorf "" []) "".

Lemma operator_voters_overflow_witness :
  ∃ h, history [] (daemon_members elements (cluster "DaemonSet") "4f2a") h ∧
    Ev (Join "10.0.0.4:7947" "10.0.0.1:7947" "4f2a" false) None ∈ h.
Proof.
  destruct (operator_voters_overflow elements elements_in (cluster "DaemonSet") "4f2a" "10.0.0.1:7947" three_voters
    (pod "db-a" "n4" "10.0.0.4") pods) as (h & Hh & _ & Hj); [done|done|reflexivity|done|done|reflexivity|done|].
  by exists h.
Defined.

End OperatorExamples.
