(* ===== verification/OperatorSeed.v ===== *)
(** * OperatorSeed: reconciles that run at the same time

    Two operator pods, or one that is restarted, may reconcile the same object.
    The claim of the seed node in the status of the object is the lock
    ([seed.go], [ClaimSeed] of [kube.go]).  Here any number of reconciles run
    against one object store, one call at a time, in any order; everything that
    is not the object itself may be answered in any way.  The store is that of
    the Kubernetes API: an update that carries an outdated resource version is
    refused, and every write gives a new version. *)
From S2P Require Import Prelude OperatorResources Operator.

Record store := MkStore { rv : nat; seed : string }.

(** What becomes of a write: done, done but the answer is lost, or not done. *)
Inductive outcome : Type := Applied | AppliedLost (e : error) | Refused (e : error).

Definition conflict : error := Errorf "the object has been modified" [].

Section store.
Context (ver : nat → string).

(** [Kube.ClaimSeed]: a read, then an update under the version of the cluster
    object the reconcile started from, if it has one. *)
Definition claim (o : outcome) (s : store) (c : Cluster) (node : string) : store * err :=
  let current := str_empty (cl_ResourceVersion c) || String.eqb (cl_ResourceVersion c) (ver (rv s)) in
  let s' := MkStore (S (rv s)) node in
  match o with
  | Refused e => (s, Some e)
  | Applied => if current then (s', None) else (s, Some conflict)
  | AppliedLost e => if current then (s', Some e) else (s, Some conflict)
  end.

(** [Kube.PatchStatus]: a merge patch; a seed that is empty is left out of it. *)
Definition patch (o : outcome) (s : store) (st : Status_) : store * err :=
  let s' := MkStore (S (rv s)) (if str_empty (os_SeedNodeName st) then seed s else os_SeedNodeName st) in
  match o with
  | Refused e => (s, Some e)
  | Applied => (s', None)
  | AppliedLost e => (s', Some e)
  end.

Definition serve (o : outcome) (other : ∀ R, call R → R) (s : store) (R : Type) (c : call R) : store * R :=
  match c in call R return (call R → R) → store * R with
  | ClaimSeed c n => λ _, claim o s c n
  | PatchStatus c st => λ _, patch o s st
  | c => λ other, (s, other c)
  end (other R).

(** The seed a call creates something for. *)
Definition seeds {R} (c : call R) : option string :=
  match c with
  | EnsurePrepare spec _ | EnsureJob spec _ | EnsureSeed spec _ => Some (sp_SeedNodeName spec)
  | _ => None
  end.

Record config := MkConfig { st : store; threads : list (prog err); used : list string }.

Inductive act : Type :=
  | Start                                                       (* a reconcile reads the object *)
  | Touch                                                       (* anyone else writes the object, not its seed *)
  | Step (i : nat) (o : outcome) (other : ∀ R, call R → R).     (* reconcile [i] makes its next call *)

(** The object as [sync] reads it: [c0] with the version and the seed of the store. *)
Definition read (c0 : Cluster) (s : store) : Cluster :=
  MkCluster (cl_Namespace c0) (cl_Name c0) (cl_UID c0) (cl_Generation c0) (ver (rv s)) (seed s) "" (cl_Spec c0).

Context `{Unicode} (range : gset string → list string) (c0 : Cluster).

Definition step (g : config) (a : act) : config :=
  match a with
  | Start => MkConfig (st g) (threads g ++ [Reconcile range (read c0 (st g))]) (used g)
  | Touch => MkConfig (MkStore (S (rv (st g))) (seed (st g))) (threads g) (used g)
  | Step i o other =>
    match threads g !! i with
    | Some (Do c k) =>
      let (s, r) := serve o other (st g) _ c in
      MkConfig s (<[i := k r]> (threads g)) (used g ++ option_list (seeds c))
    | _ => g
    end
  end.
Definition steps (g : config) (l : list act) : config := foldl step g l.

(** Answers of the daemons carry no seed ([Runtime.Snapshot] leaves the field
    empty), and nodes have names. *)
Definition plain {R} (c : call R) (r : R) : Prop :=
  match c in call R return R → Prop with
  | Snapshot s => λ r, ∀ st, r = Ok st → os_SeedNodeName st = ""
  | ReadyNodes => λ r, ∀ nodes, r = Ok nodes → Forall (λ n, n ≠ "") nodes
  | _ => λ _, True
  end r.
Definition honest_act (a : act) : Prop :=
  match a with Step _ _ other => ∀ R (c : call R), plain c (other R c) | _ => True end.

(** ** Programs and the seed they stand for *)

(** Every call that has to do with a seed is about [s]. *)
Definition about {R} (s : string) (c : call R) : Prop :=
  match c with
  | ClaimSeed _ n => n = s
  | PatchStatus _ st => os_SeedNodeName st = "" ∨ os_SeedNodeName st = s
  | c => match seeds c with Some n => n = s | None => True end
  end.
Fixpoint carries {A} (s : string) (p : prog A) : Prop :=
  match p with
  | Ret _ => True
  | Do c k => about s c ∧ ∀ r, plain c r → carries s (k r)
  end.

(** A reconcile that found no seed at version [v]: up to its claim it creates
    nothing; after the claim it stands for the node it claimed, and if the claim
    fails it does nothing more. *)
Fixpoint unclaimed {A} (v : nat) (p : prog A) : Prop :=
  match p with
  | Ret _ => True
  | Do c k =>
    match c in call R return (R → prog A) → Prop with
    | ClaimSeed c n => λ k, cl_ResourceVersion c = ver v ∧ n ≠ "" ∧ carries n (k None) ∧ ∀ e s, carries s (k (Some e))
    | PatchStatus _ st => λ k, os_SeedNodeName st = "" ∧ ∀ r, unclaimed v (k r)
    | c => λ k, seeds c = None ∧ ∀ r, plain c r → unclaimed v (k r)
    end k
  end.

(** ** Programs that stand for one seed *)

Section carries.
Context (s : string).

Lemma carries_report c ph msg :
  sp_SeedNodeName (cl_Spec c) = "" ∨ sp_SeedNodeName (cl_Spec c) = s → carries s (report c ph msg).
Proof. intros Hs. split; [exact Hs|done]. Qed.

Lemma carries_mirror c a :
  sp_SeedNodeName (cl_Spec c) = "" ∨ sp_SeedNodeName (cl_Spec c) = s → carries s (mirror c a).
Proof.
  intros Hs. split; [done|]. intros [st'|e] Hr; [|by apply carries_report]. split; [|done].
  simpl. rewrite (Hr st' eq_refl). simpl. exact Hs.
Qed.

Lemma carries_leave c a sn ids k :
  sp_SeedNodeName (cl_Spec c) = "" ∨ sp_SeedNodeName (cl_Spec c) = s → carries s k →
  carries s (leave_loop c a sn ids k).
Proof.
  intros Hs Hk. induction ids as [|id ids IH]; simpl; [done|]. destruct (memberListed sn id); simpl; [|done].
  split; [done|]. intros [e|] _; [by apply carries_report|done].
Qed.

Lemma carries_join c a t todo k :
  sp_SeedNodeName (cl_Spec c) = "" ∨ sp_SeedNodeName (cl_Spec c) = s → carries s k →
  carries s (join_loop c a t todo k).
Proof.
  intros Hs Hk. induction todo as [|[i p] todo IH]; simpl; [done|].
  split; [done|]. intros [e|] _; [by apply carries_report|done].
Qed.

Lemma carries_settle c a t pods skip :
  sp_SeedNodeName (cl_Spec c) = "" ∨ sp_SeedNodeName (cl_Spec c) = s → carries s (settle range c a t pods skip).
Proof.
  intros Hs. split; [done|]. intros [sn|e] _; [|by apply carries_report].
  apply carries_leave, carries_join, carries_mirror; done.
Qed.

Lemma carries_sidecar c : sp_SeedNodeName (cl_Spec c) = "" → carries s (reconcileSidecar range c).
Proof.
  intros Hs. assert (∀ ph msg, carries s (report c ph msg)) as Hrep by (intros; apply carries_report; by left).
  unfold reconcileSidecar. destruct (even_voters c); [done|]. split; [done|]. intros [[t|]|e] _; [| |done].
  - split; [done|]. intros [[]|e] _; [| |done]; (split; [done|]; intros [e|] _; [done|]); [apply Hrep|].
    split; [done|]. intros [e|] _; [done|]. split; [done|]. intros [a|e] _; [|apply Hrep].
    split; [done|]. intros [pods|e] _; [|done]. apply carries_settle. by left.
  - do 2 (split; [done|]; intros [e|] _; [done|]). split; [done|]. intros [[]|e] _; [|apply Hrep|done].
    split; [done|]. intros [logs|e] _; [|done]. destruct (ParseJoinToken logs); [|apply Hrep].
    do 2 (split; [done|]; intros [e|] _; [done|]). apply Hrep.
Qed.

Lemma carries_members c t : sp_SeedNodeName (cl_Spec c) = s → carries s (daemon_members range c t).
Proof.
  intros Hs. split; [done|]. intros [e|] _; [done|]. split; [done|].
  intros [a|e] _; [|apply carries_report; by right]. split; [done|]. intros [e|] _; [done|].
  split; [done|]. intros [pods|e] _; [|done]. apply carries_settle. by right.
Qed.

(** What [reconcileDaemon] does once the seed is resolved. *)
Definition seeded (c : Cluster) : prog err :=
  if str_empty (sp_SeedNodeName (cl_Spec c)) then pending c "waiting for a Ready node" else
  try* EnsurePrepare (cl_Spec c) c in
  get* ready := PrepareReady c in
  if negb ready then pending c "waiting for hostPath prepare" else
  try* EnsureJob (cl_Spec c) c in
  get* done := JobComplete c in
  if negb done then pending c "waiting for seed init" else daemon_token range c.

Lemma carries_seeded c : sp_SeedNodeName (cl_Spec c) = s → carries s (seeded c).
Proof.
  intros Hs. assert (∀ ph msg, carries s (report c ph msg)) as Hrep by (intros; apply carries_report; by right).
  unfold seeded. destruct (str_empty _); [apply Hrep|]. split; [done|]. intros [e|] _; [done|].
  split; [done|]. intros [[]|e] _; [|apply Hrep|done]. split; [done|]. intros [e|] _; [done|].
  split; [done|]. intros [[]|e] _; [|apply Hrep|done].
  split; [done|]. intros [[t|]|e] _; [by apply carries_members| |done].
  split; [done|]. intros [logs|e] _; [|done]. destruct (ParseJoinToken logs); [|apply Hrep].
  split; [done|]. intros [e|] _; [done|]. by apply carries_members.
Qed.
End carries.

Lemma reconcileDaemon_seeded c :
  reconcileDaemon range c = if even_voters c then report c "Error" odd_message else resolveSeed c seeded.
Proof. done. Qed.

(** A reconcile of an object without a pinned seed: it stands for the seed the
    status names, or claims one under the version it read. *)
Lemma Reconcile_carries c :
  sp_SeedNodeName (cl_Spec c) = "" → cl_StatusSeed c ≠ "" → carries (cl_StatusSeed c) (Reconcile range c).
Proof.
  intros Hs Hst. split; [done|]. intros [n|e] _; [|done].
  set (c1 := if (2 <=? n)%Z then with_warning c warnTwoClusters else c).
  assert (sp_SeedNodeName (cl_Spec c1) = "" ∧ cl_StatusSeed c1 = cl_StatusSeed c) as [Hs1 Hst1]
    by (unfold c1; by destruct (2 <=? n)%Z).
  rewrite <-Hst1 in *. destruct (String.eqb _ topoSidecar); [by apply carries_sidecar|].
  destruct (String.eqb _ topoDaemon); [|apply carries_report; by left]. rewrite reconcileDaemon_seeded.
  destruct (even_voters c1); [apply carries_report; by left|]. unfold resolveSeed. rewrite Hs1. simpl.
  apply str_empty_false in Hst. rewrite Hst. simpl. rewrite String.eqb_refl. simpl. by apply carries_seeded.
Qed.

Lemma unclaimed_report c v ph msg : sp_SeedNodeName (cl_Spec c) = "" → unclaimed v (report c ph msg).
Proof. intros Hs. by split. Qed.

Lemma Reconcile_unclaimed c v :
  sp_SeedNodeName (cl_Spec c) = "" → cl_StatusSeed c = "" → cl_ResourceVersion c = ver v →
  (∀ s, carries s (Reconcile range c)) ∨ unclaimed v (Reconcile range c).
Proof.
  intros Hs Hst Hv. destruct (String.eqb (topology (cl_Spec c)) topoSidecar) eqn:Hside.
  { left. intros s. split; [done|]. intros [n|e] _; [|done].
    destruct (2 <=? n)%Z; simpl; rewrite Hside; by apply carries_sidecar. }
  right. split; [done|]. intros [n|e] _; [|done].
  set (c1 := if (2 <=? n)%Z then with_warning c warnTwoClusters else c).
  assert (sp_SeedNodeName (cl_Spec c1) = "" ∧ cl_StatusSeed c1 = "" ∧ cl_ResourceVersion c1 = ver v ∧
    topology (cl_Spec c1) = topology (cl_Spec c)) as (Hs1 & Hst1 & Hv1 & Ht1)
    by (unfold c1; by destruct (2 <=? n)%Z).
  rewrite Ht1, Hside. destruct (String.eqb _ topoDaemon); [|exact (unclaimed_report c1 v _ _ Hs1)].
  rewrite reconcileDaemon_seeded. destruct (even_voters c1); [exact (unclaimed_report c1 v _ _ Hs1)|].
  unfold resolveSeed. rewrite Hs1, Hst1. simpl. split; [done|]. intros [nodes|e] Hn; [|done].
  pose proof (sort_by_perm (λ n, n) nodes) as Hp. destruct (sort_by (λ n, n) nodes) as [|m ms].
  - assert (seeded c1 = pending c1 "waiting for a Ready node") as -> by (unfold seeded; by rewrite Hs1).
    exact (unclaimed_report c1 v _ _ Hs1).
  - split; [done|]. split; [|split; [by apply carries_seeded|done]].
    specialize (Hn nodes eq_refl). rewrite <-Hp in Hn. by inversion Hn.
Qed.

(** ** The invariant *)

Definition thread_ok (s : store) (p : prog err) : Prop :=
  (∀ s', carries s' p) ∨ (seed s ≠ "" ∧ carries (seed s) p) ∨
  (∃ v, v ≤ rv s ∧ (v = rv s → seed s = "") ∧ unclaimed v p).

Record inv (g : config) : Prop := {
  inv_threads : Forall (thread_ok (st g)) (threads g);
  inv_used : Forall (λ n, n = seed (st g) ∧ n ≠ "") (used g);
}.

(** A later store: unchanged, or newer with the same seed or the first one. *)
Definition later (s s' : store) : Prop :=
  s' = s ∨ (rv s < rv s' ∧ (seed s' = seed s ∨ seed s = "")).

Lemma thread_ok_later s s' p : later s s' → thread_ok s p → thread_ok s' p.
Proof.
  intros [->|[Hv Hs]] [Hp|[[Hne Hp]|(v & Hle & Heq & Hp)]]; [by left|by right; left|right; right; eauto|by left| |].
  - right; left. destruct Hs as [Hs|Hs]; [by rewrite Hs|done].
  - right; right. exists v. split_and!; [lia|lia|done].
Qed.

Lemma used_later s s' l :
  later s s' → Forall (λ n, n = seed s ∧ n ≠ "") l → Forall (λ n, n = seed s' ∧ n ≠ "") l.
Proof.
  intros Hl Hall. eapply Forall_impl; [exact Hall|]. intros n [-> Hn]. split; [|done].
  destruct Hl as [->|[_ [->|?]]]; [done..|congruence].
Qed.

Hypothesis ver_inj : ∀ a b, ver a = ver b → a = b.
Hypothesis ver_nonempty : ∀ a, ver a ≠ "".
Hypothesis unpinned : sp_SeedNodeName (cl_Spec c0) = "".

(** Writing the status keeps the seed that is claimed. *)
Lemma patch_later o s x :
  os_SeedNodeName x = "" ∨ os_SeedNodeName x = seed s →
  later s (patch o s x).1 ∧ seed (patch o s x).1 = seed s.
Proof.
  intros Hx. assert ((if str_empty (os_SeedNodeName x) then seed s else os_SeedNodeName x) = seed s) as He.
  { destruct Hx as [->| ->]; [done|]. by destruct (str_empty (seed s)). }
  unfold patch. rewrite He. destruct o; simpl; (split; [|done]); [right|right|left]; simpl; auto with lia.
Qed.

Lemma claim_later o s c n :
  n = seed s → later s (claim o s c n).1 ∧ seed (claim o s c n).1 = seed s.
Proof.
  intros ->. unfold claim. destruct o; repeat case_match; simpl; (split; [|done]);
    first [by left|right; simpl; split; [lia|by left]].
Qed.

(** A claim under the version of a reconcile that found no seed. *)
Lemma claim_unclaimed o s c n v (k : err → prog err) :
  v ≤ rv s → (v = rv s → seed s = "") → cl_ResourceVersion c = ver v → n ≠ "" →
  carries n (k None) → (∀ e s, carries s (k (Some e))) →
  let x := claim o s c n in later s x.1 ∧ thread_ok x.1 (k x.2).
Proof.
  intros Hle Heq Hv Hn Hk Hke x.
  assert (str_empty (cl_ResourceVersion c) || String.eqb (cl_ResourceVersion c) (ver (rv s)) = bool_decide (v = rv s)) as Hcur.
  { rewrite Hv. pose proof (ver_nonempty v) as Hne. apply str_empty_false in Hne. rewrite Hne. simpl.
    case_bool_decide as Hd; [subst v; apply String.eqb_refl|]. apply String.eqb_neq. intros He. by apply ver_inj in He. }
  unfold x, claim. rewrite Hcur. destruct o as [|e|e]; [case_bool_decide as Hd..|]; simpl.
  - split; [right; simpl; split; [lia|right; auto]|]. right; left. done.
  - split; [by left|]. left. intros. apply Hke.
  - split; [right; simpl; split; [lia|right; auto]|]. left. intros. apply Hke.
  - split; [by left|]. left. intros. apply Hke.
  - split; [by left|]. left. intros. apply Hke.
Qed.

(** One call of a thread. *)
Lemma serve_ok o other s {R} (c : call R) (k : R → prog err) :
  (∀ R (c : call R), plain c (other R c)) → thread_ok s (Do c k) →
  let x := serve o other s R c in
  later s x.1 ∧ thread_ok x.1 (k x.2) ∧ (∀ n, seeds c = Some n → n = seed x.1 ∧ n ≠ "").
Proof.
  intros Hplain Hok. specialize (Hplain R c). destruct Hok as [Hn|[[Hne [Ha Hc]]|(v & Hle & Heq & Hu)]].
  - pose proof (Hn "a") as [Ha _]. pose proof (Hn "b") as [Hb _].
    assert (∀ r, plain c r → ∀ s', carries s' (k r)) as Hk by (intros r Hr s'; by apply Hn).
    destruct c as [|c1 node1| | | | | | | | | | | |c1 st1| | | | | | | | | | |]; cbn in *; try congruence.
    all: try (split_and!; [by left|left; by apply Hk|done]).
    assert (os_SeedNodeName st1 = "") as He by (destruct Ha, Hb; congruence).
    destruct (patch_later o s st1) as [? _]; [by left|]. split_and!; [done|left; by apply Hk|done].
  - destruct c as [|c1 node1| | | | | | | | | | | |c1 st1| | | | | | | | | | |]; cbn in *.
    all: try (split; [by left|split; [right; left; split; [done|by apply Hc]|intros n Hsn; split; congruence]]).
    + destruct (claim_later o s c1 node1) as [Hl Hs]; [done|].
      split_and!; [done|right; left; rewrite Hs; split; [done|by apply Hc]|done].
    + destruct (patch_later o s st1) as [Hl Hs]; [done|].
      split_and!; [done|right; left; rewrite Hs; split; [done|by apply Hc]|done].
  - destruct c as [|c1 node1| | | | | | | | | | | |c1 st1| | | | | | | | | | |]; cbn in *; try by destruct Hu.
    all: try (split_and!; [by left|right; right; exists v; split_and!; [done..|by apply Hu]|done]).
    + destruct Hu as (Hv & Hnn & Hk & Hke). destruct (claim_unclaimed o s c1 node1 v k) as [Hl Ht]; [done..|].
      split_and!; [done|done|done].
    + destruct Hu as [Hs0 Hk]. destruct (patch_later o s st1) as [Hl Hs]; [by left|].
      split_and!; [done| |done]. eapply thread_ok_later; [exact Hl|]. right; right. exists v. auto.
Qed.

Lemma step_inv g a : honest_act a → inv g → inv (step g a).
Proof.
  intros Hh [Ht Hu]. destruct a as [| |i o other]; simpl.
  - split; simpl; [|done]. apply Forall_app. split; [done|]. constructor; [|done].
    destruct (decide (seed (st g) = "")) as [He|Hne].
    + destruct (Reconcile_unclaimed (read c0 (st g)) (rv (st g))) as [Hn|Hun]; [done|done|done|by left|].
      right; right. exists (rv (st g)). auto.
    + right; left. split; [done|]. by apply (Reconcile_carries (read c0 (st g))).
  - assert (later (st g) (MkStore (S (rv (st g))) (seed (st g)))) as Hl by (right; simpl; auto with lia).
    split; [|exact (used_later _ _ _ Hl Hu)]. simpl.
    eapply Forall_impl; [exact Ht|]. intros p. by apply thread_ok_later.
  - destruct (threads g !! i) as [[|R c k]|] eqn:Hi; [done| |done].
    pose proof (Forall_lookup_1 _ _ _ _ Ht Hi) as Hp.
    destruct (serve_ok o other (st g) c k Hh Hp) as (Hl & Hk & Hs).
    destruct (serve o other (st g) R c) as [s' r]. simpl in *. split; simpl.
    + apply Forall_insert; [|done]. eapply Forall_impl; [exact Ht|]. intros p. by apply thread_ok_later.
    + apply Forall_app. split; [exact (used_later _ _ _ Hl Hu)|]. destruct (seeds c) as [n|]; simpl; [|done].
      constructor; [by apply Hs|done].
Qed.

(** C17: However many reconciles of an object without a pinned seed run at the same
    time, and whatever fails or is lost on the way, everything they create for a
    seed is created for one node, the one the status names: a second [init] or
    [--bootstrap] on another node cannot happen. *)
Theorem operator_single_seed v0 s0 acts :
  Forall honest_act acts →
  let g := steps (MkConfig (MkStore v0 s0) [] []) acts in
  ∀ n, n ∈ used g → n = seed (st g) ∧ n ≠ "".
Proof.
  intros Hh g. assert (inv g) as [_ Hu]; [|by apply Forall_forall].
  unfold g, steps. assert (inv (MkConfig (MkStore v0 s0) [] [])) as Hi by by split.
  revert Hi. generalize (MkConfig (MkStore v0 s0) [] []).
  induction Hh as [|a acts Ha Hh IH]; intros g' Hi; simpl; [done|]. apply IH, step_inv; done.
Qed.
End store.

Module OperatorSeedExamples.
#[export] Existing Instance latin1.
Definition ver (n : nat) : string := Nat.iter (S n) (String (Ascii.ascii_of_nat 120)) EmptyString.
Lemma ver_length n : String.length (ver n) = S n.
Proof. unfold ver. induction n as [|n IH]; [done|]. simpl in *. by rewrite IH. Qed.
Lemma ver_inj a b : ver a = ver b → a = b.
Proof. intros He. apply (f_equal String.length) in He. rewrite !ver_length in He. lia. Qed.
Lemma ver_nonempty a : ver a ≠ "".
Proof. done. Qed.

(** Answers of a platform where everything works; its nodes in some order. *)
Definition fine (nodes : list string) (R : Type) (c : call R) : R :=
  match c in call R return R with
  | ReadyNodes => Ok nodes
  | ClaimSeed _ _ => None
  | EnsurePrepare _ _ => None
  | PrepareReady _ => Ok true
  | EnsureJob _ _ => None
  | JobComplete _ => Ok true
  | JobLogs _ => Fail (Errorf "no init pods" [])
  | Token _ => Ok None
  | PutToken _ _ => None
  | EnsureSeed _ _ => None
  | SeedReadyAddr _ => Fail (Errorf "seed pod not ready" [])
  | EnsureDaemonSet _ _ => None
  | MemberPods _ => Ok []
  | PatchStatus _ _ => None
  | EnsurePVC _ _ => None
  | EnsureBootstrapJob _ _ => None
  | BootstrapReady _ => Ok true
  | JobExists _ => Ok false
  | DeleteJob _ => None
  | EnsureHeadless _ _ => None
  | EnsureStatefulSet _ _ => None
  | ClusterCount => Ok 1%Z
  | Join _ _ _ _ => None
  | Leave _ _ => None
  | Snapshot _ => Fail (Errorf "unavailable" [])
  end.
Lemma fine_plain nodes : Forall (λ n, n ≠ "") nodes → ∀ R (c : call R), plain c (fine nodes R c).
Proof. intros Hn R c. destruct c; try done. by intros ? [= <-]. Qed.

(** Two reconciles read the object; the second sees other nodes; both claim. *)
Definition race : list act :=
  [Start; Start] ++ [Step 0 Applied (fine ["n2"; "n1"]); Step 1 Applied (fine ["n3"])] ++
  [Step 0 Applied (fine ["n2"; "n1"]); Step 1 Applied (fine ["n3"])] ++
  [Step 0 Applied (fine []); Step 1 Applied (fine [])] ++
  [Step 0 Applied (fine []); Step 1 Applied (fine [])] ++
  [Start] ++ repeat (Step 2 Applied (fine [])) 5 ++ repeat (Step 0 Applied (fine [])) 4.
Lemma race_honest : Forall honest_act race.
Proof.
  repeat constructor; intros R c; apply fine_plain; repeat constructor; done.
Qed.

Lemma operator_single_seed_witness :
  let g := steps ver elements (OperatorExamples.cluster "DaemonSet") (MkConfig (MkStore 0 "") [] []) race in
  used g = ["n1"; "n1"; "n1"; "n1"] ∧ seed (st g) = "n1" ∧ "n1" ≠ "".
Proof.
  intros g. assert (used g = ["n1"; "n1"; "n1"; "n1"]) as Hu by (vm_compute; reflexivity). split; [exact Hu|].
  destruct (operator_single_seed ver elements (OperatorExamples.cluster "DaemonSet") ver_inj ver_nonempty eq_refl 0 ""
    race race_honest "n1") as [Hs Hn].
  - fold g. rewrite Hu. apply elem_of_cons; by left.
  - split; [by symmetry|done].
Defined.
End OperatorSeedExamples.
