(* ===== verification/OperatorToken.v ===== *)
(** * OperatorToken: the join token from [clusdr init] to the Secret

    What [clusdr init] prints at its end ([cmd/clusdr/init.go]), which the operator
    reads from the logs of the init Job ([internal/operator/token.go]). *)
From S2P Require Import Prelude OperatorResources Operator.

Definition newline : string := String (Ascii.ascii_of_nat 10) EmptyString.

(** The lines of the summary. *)
Definition init_summary (clusterID nodeID path dir caPath fp joinToken : string) : list string :=
  ["cluster initialized"; "";
   "  cluster id      : " +:+ clusterID;
   "  node id         : " +:+ nodeID;
   "  config          : " +:+ path;
   "  data dir        : " +:+ dir;
   "  ca cert         : " +:+ caPath;
   "  ca fingerprint  : " +:+ fp;
   "";
   "  join token      : " +:+ joinToken;
   "";
   "  The join token is shown only once. Store it securely.";
   "";
   "next steps:";
   "  clusdr start --bootstrap        start this node as the first voter";
   "  clusdr certs show               inspect the cluster CA";
   "  clusdr join --token <token> <addr>"].

(** [fmt.Fprintln] of each. *)
Fixpoint println (lines : list string) : string :=
  match lines with
  | [] => ""
  | l :: lines => l +:+ newline +:+ println lines
  end.

(** ** Lines *)

Definition one_line (s : string) : Prop := Forall (λ b, b ≠ 10%Z) (bytes_of s).

Lemma find_match_skip u rest bol :
  Forall (λ b, b ≠ 10%Z) u → (bol = true → match_here (u ++ 10%Z :: rest) = None) →
  find_match bol (u ++ 10%Z :: rest) = find_match true rest.
Proof.
  intros Hu Hm. assert (∀ u, Forall (λ b, b ≠ 10%Z) u → find_match false (u ++ 10%Z :: rest) = find_match true rest) as Hf.
  { clear. induction 1 as [|b u Hb _ IH]; [done|]. simpl. apply Z.eqb_neq in Hb. by rewrite Hb. }
  destruct bol; [|by apply Hf]. specialize (Hm eq_refl).
  destruct u as [|b u]; simpl app in *; simpl find_match; rewrite Hm; [done|].
  inversion Hu as [|? ? Hb Hu']; subst. apply Z.eqb_neq in Hb. rewrite Hb. by apply Hf.
Qed.

Lemma println_cons l lines : bytes_of (println (l :: lines)) = bytes_of l ++ 10%Z :: bytes_of (println lines).
Proof. cbn [println]. by rewrite !bytes_of_app. Qed.

Lemma one_line_app a b : one_line (a +:+ b) ↔ one_line a ∧ one_line b.
Proof. unfold one_line. by rewrite bytes_of_app, Forall_app. Qed.

(** A line that starts with something else is passed over. *)
Lemma skip_println l lines :
  one_line l → match_here (bytes_of (println (l :: lines))) = None →
  find_match true (bytes_of (println (l :: lines))) = find_match true (bytes_of (println lines)).
Proof. rewrite println_cons. intros. by apply find_match_skip. Qed.

Definition word_byte (b : Z) : Prop := (32 < b < 127)%Z.

Lemma word_not_space b : word_byte b → re_space b = false.
Proof. intros Hb. apply bool_decide_eq_false. unfold word_byte in Hb. rewrite !elem_of_cons, elem_of_nil. lia. Qed.

Lemma take_word_app w rest b : Forall word_byte w → re_space b = true → take_word (w ++ b :: rest) = w.
Proof.
  intros Hw Hb. induction Hw as [|x w Hx _ IH]; simpl; [by rewrite Hb|]. by rewrite (word_not_space x Hx), IH.
Qed.

Lemma skip_space_word w rest : w ≠ [] → Forall word_byte w → skip_space (w ++ rest) = w ++ rest.
Proof. intros Hne Hw. destruct Hw as [|x w Hx _]; [done|]. simpl. by rewrite word_not_space. Qed.

(** [strings.TrimSpace] leaves such a word alone. *)
Lemma chunks_ascii `{Unicode} l :
  Forall word_byte l → chunks (length l) l = (λ b, (b, [b])) <$> l.
Proof.
  induction 1 as [|b l Hb _ IH]; [done|]. cbn [length chunks]. unfold decode_rune. unfold word_byte in Hb.
  rewrite (proj2 (Z.ltb_lt b 128)) by lia. cbn [fst snd take drop]. rewrite fmap_cons. f_equal. exact IH.
Qed.
Lemma trim_ends_none {A} (f : A → bool) l : Forall (λ x, f x = false) l → trim_ends f l = l.
Proof.
  assert (∀ l, Forall (λ x, f x = false) l → drop_while f l = l) as Hd.
  { destruct 1 as [|x l' Hx _]; [done|]. simpl. by rewrite Hx. }
  intros Hl. unfold trim_ends. rewrite (Hd l) by done. rewrite Hd; [apply reverse_involutive|].
  by apply Forall_reverse.
Qed.
Lemma TrimSpaceS_word `{Unicode} s : Forall word_byte (bytes_of s) → TrimSpaceS s = s.
Proof.
  intros Hw. unfold TrimSpaceS. rewrite chunks_ascii by done. rewrite trim_ends_none.
  - rewrite <-list_fmap_compose. rewrite <-(string_of_bytes_of s) at 2. f_equal.
    induction (bytes_of s) as [|b l IH]; [done|]. csimpl. inversion Hw; subst. by rewrite IH.
  - apply Forall_fmap. eapply Forall_impl; [exact Hw|]. intros b Hb. unfold word_byte in Hb. simpl.
    unfold IsSpace, between. rewrite (proj2 (Z.leb_le b 255)), (proj2 (Z.leb_gt b 13)), andb_false_r by lia.
    rewrite !(proj2 (Z.eqb_neq _ _)) by lia. done.
Qed.

Lemma word_one_line w : Forall word_byte w → Forall (λ b, b ≠ 10%Z) w.
Proof. intros Hw. eapply Forall_impl; [exact Hw|]. unfold word_byte. lia. Qed.

Lemma match_token w rest :
  w ≠ [] → Forall word_byte w →
  match_here (10%Z :: bytes_of "  join token      : " ++ w ++ 10%Z :: rest) = Some w.
Proof.
  intros Hne Hw. unfold match_here.
  change (skip_space (10%Z :: bytes_of "  join token      : " ++ w ++ 10%Z :: rest))
    with (bytes_of "join token      : " ++ w ++ 10%Z :: rest).
  change (strip (bytes_of "join token") (bytes_of "join token      : " ++ w ++ 10%Z :: rest))
    with (Some (bytes_of "      : " ++ w ++ 10%Z :: rest)). cbv iota.
  change (strip (bytes_of ":") (skip_space (bytes_of "      : " ++ w ++ 10%Z :: rest)))
    with (Some (bytes_of " " ++ w ++ 10%Z :: rest)). cbv iota.
  change (skip_space (bytes_of " " ++ w ++ 10%Z :: rest)) with (skip_space (w ++ 10%Z :: rest)).
  rewrite skip_space_word by done. cbv zeta. rewrite take_word_app by done.
  rewrite bool_decide_eq_false_2 by done. by rewrite drop_app_length.
Qed.

(** The operator reads back the token [clusdr init] printed, whatever the other
    values of the summary are, as long as they hold no line break. *)
Theorem init_token_roundtrip `{Unicode} clusterID nodeID path dir caPath fp tok :
  tok ≠ "" → Forall word_byte (bytes_of tok) →
  one_line clusterID → one_line nodeID → one_line path → one_line dir → one_line caPath → one_line fp →
  ParseJoinToken (println (init_summary clusterID nodeID path dir caPath fp tok)) = Ok tok.
Proof.
  intros Hne Hw H1 H2 H3 H4 H5 H6. unfold ParseJoinToken, init_summary.
  assert (∀ pre x lines, one_line pre → one_line x →
    match_here (bytes_of pre ++ bytes_of x ++ 10%Z :: bytes_of (println lines)) = None →
    find_match true (bytes_of (println ((pre +:+ x) :: lines))) = find_match true (bytes_of (println lines))) as Hskip.
  { intros pre x lines Hp Hx Hm. apply skip_println; [by apply one_line_app|].
    rewrite println_cons, bytes_of_app, <-(assoc_L (++)). done. }
  assert (∀ s, bool_decide (one_line s) = true → one_line s) as Hone by (intros s Hs; by apply bool_decide_eq_true in Hs).
  rewrite skip_println by first [by apply Hone|reflexivity].
  rewrite skip_println by first [by apply Hone|reflexivity].
  do 6 (rewrite Hskip by first [done|by apply Hone|reflexivity]).
  assert (bytes_of tok ≠ []) as Hb.
  { intros Hb. apply Hne. by rewrite <-(string_of_bytes_of tok), Hb. }
  rewrite !println_cons, bytes_of_app. rewrite <-(assoc_L (++) (bytes_of "  join token      : ")). change (bytes_of "") with (@nil Z) at 1.
  cbn [app find_match]. rewrite match_token by done. rewrite string_of_bytes_of, TrimSpaceS_word by done.
  apply str_empty_false in Hne. by rewrite Hne.
Qed.

Module OperatorTokenExamples.
#[export] Existing Instance latin1.
Lemma init_token_roundtrip_witness :
  ParseJoinToken (println (init_summary "c1" "n1" "/etc/clusdr.yaml" "/var/lib/clusdr" "/var/lib/clusdr/ca.crt" "ab:cd" "9f0e")) =
  Ok "9f0e".
Proof.
  apply (init_token_roundtrip "c1" "n1" "/etc/clusdr.yaml" "/var/lib/clusdr" "/var/lib/clusdr/ca.crt" "ab:cd" "9f0e"); [done|..].
  - repeat constructor.
  - by apply (bool_decide_unpack (one_line "c1")).
  - by apply (bool_decide_unpack (one_line "n1")).
  - by apply (bool_decide_unpack (one_line "/etc/clusdr.yaml")).
  - by apply (bool_decide_unpack (one_line "/var/lib/clusdr")).
  - by apply (bool_decide_unpack (one_line "/var/lib/clusdr/ca.crt")).
  - by apply (bool_decide_unpack (one_line "ab:cd")).
Defined.
End OperatorTokenExamples.
