(* ===== verification/Init.v ===== *)
(** * Init: [clusdr init] ([cmd/clusdr/init.go])

    The command makes an identity, a configuration file, the store with the
    certificates, and prints the join token once.  It runs on a host: files, and
    bbolt databases by their path.  The operating system is the class [OS]; an
    operation that fails leaves what the steps before it wrote. *)
From S2P Require Import Prelude EventService JoinService Config Store Units Sdk Server Pki.
From S2P Require Import OperatorResources Operator OperatorToken.

Class OS (Files : Type) := {
  os_Stat : Files → string → option error;
  os_ReadFile : Files → string → file;
  os_WriteFile : Files → string → list Z → Files * option error;
  os_MkdirAll : string → option error;
  write_read fs p b fs' : os_WriteFile fs p b = (fs', None) → os_Stat fs' p = None ∧ os_ReadFile fs' p = FileData b;
  write_frame fs p q b fs' r : os_WriteFile fs p b = (fs', r) → p ≠ q →
    os_Stat fs' q = os_Stat fs q ∧ os_ReadFile fs' q = os_ReadFile fs q;
}.

(** [bolt.Open] of a file with the database it holds, if any. *)
Class BoltFiles (DB : Type) `{Bolt DB} := {
  bolt_Open : option DB → string → Duration → result error DB;
  open_contents old p t db : bolt_Open old p t = Ok db → db_contents db = from_option db_contents ∅ old;
}.

Record host (Files DB : Type) := MkHost { h_files : Files; h_dbs : gmap string DB }.
Arguments MkHost {Files DB}.
Arguments h_files {Files DB}.
Arguments h_dbs {Files DB}.

(** The file [init] writes. *)
Record initConfig := MkInitConfig {
  ic_Node_ID : string; ic_Node_Addr : string; ic_Cluster_ID : string; ic_Log_Level : string; ic_Log_Format : string;
}.
Definition init_header : string :=
  "# Clusdr configuration" +:+ newline +:+ "# Generated by 'clusdr init'" +:+ newline +:+
  "# See docs/reference/configuration.md for all options." +:+ newline +:+ newline.

(** What [init] draws: two identifiers, the material of the CA and of the node,
    and the token. *)
Record draws (Key : Type) := MkDraws {
  dr_Cluster : result error (list Z); dr_Node : result error (list Z);
  dr_CA : draw Key; dr_Cert : draw Key; dr_Token : result error (list Z);
}.
Arguments MkDraws {Key}.
Arguments dr_Cluster {Key}.
Arguments dr_Node {Key}.
Arguments dr_CA {Key}.
Arguments dr_Cert {Key}.
Arguments dr_Token {Key}.

Section init.
Context `{Unicode} `{OS Files} `{BoltFiles DB} `{X509 Key Pub Cert}.
Context (ParseDuration : string → result error Duration) (getenv : string → string) (home : result error string).
Context (yaml_Unmarshal : list Z → Config.Config → result error Config.Config).
Context (yaml_Marshal : initConfig → result error (list Z)).
Context (path_Join : string → string → string).

(** ** Commands: steps on the host that may fail *)

Definition cmd (A : Type) : Type := host Files DB → host Files DB * tx A.
Definition ret {A} (a : A) : cmd A := λ h, (h, TxOk a).
Definition bind {A B} (m : cmd A) (k : A → cmd B) : cmd B := λ h,
  match m h with
  | (h, TxOk a) => k a h
  | (h, TxErr e) => (h, TxErr e)
  | (h, TxPanic) => (h, TxPanic)
  end.
Notation "x <~ m ; k" := (bind m (λ x, k)) (at level 100, m at level 90, k at level 200, right associativity).

(** [return fmt.Errorf(format, ..., err)]. *)
Definition wrapped {A} (format : string) (args : list arg) (m : cmd A) : cmd A := λ h,
  match m h with
  | (h, TxErr e) => (h, TxErr (Errorf format (args ++ [AErr e])))
  | r => r
  end.
Definition of_result {A} (r : result error A) : cmd A := λ h,
  (h, match r with Ok a => TxOk a | Fail e => TxErr e end).

Definition write_file (path : string) (data : list Z) : cmd unit := λ h,
  let r := os_WriteFile (h_files h) path data in
  (MkHost r.1 (h_dbs h), match r.2 with None => TxOk () | Some e => TxErr e end).

Definition load (path : string) : cmd Config.Config := λ h,
  of_result (LoadFrom ParseDuration getenv home (os_ReadFile (h_files h)) yaml_Unmarshal path) h.

Definition db_path (dir : string) : string := path_Join dir dbFileName.
Definition keep (dir : string) (db : DB) (h : host Files DB) : host Files DB :=
  MkHost (h_files h) (<[db_path dir := db]> (h_dbs h)).
Definition open_store (dir : string) : cmd DB := λ h,
  match Open os_MkdirAll (λ p t, bolt_Open (h_dbs h !! p) p t) path_Join dir with
  | TxOk db => (keep dir db h, TxOk db)
  | r => (h, r)
  end.
(** A transaction on the opened store. *)
Definition commit (dir : string) (r : DB * tx unit) : cmd DB := λ h,
  (keep dir r.1 h, match r.2 with TxOk _ => TxOk r.1 | TxErr e => TxErr e | TxPanic => TxPanic end).

Definition write_certs (dir : string) (b : Bundle) : cmd unit := λ h,
  let r := WriteFiles path_Join (λ fs d, (fs, os_MkdirAll d)) os_WriteFile (h_files h) dir
             (bd_CACert b) (bd_NodeCert b) (bd_NodeKey b) in
  (MkHost r.1 (h_dbs h), match r.2 with None => TxOk () | Some e => TxErr e end).

(** ** The command *)

Definition is_not_initialized (e : error) : bool :=
  match e, ErrNotInitialized with Errorf f _, Errorf g _ => String.eqb f g end.

Definition already_summary (clusterID nodeID path dir : string) : list string :=
  ["already initialized"; "";
   "  cluster id      : " +:+ clusterID;
   "  node id         : " +:+ nodeID;
   "  config          : " +:+ path;
   "  data dir        : " +:+ dir].

Definition alreadyInitialized (path : string) : cmd string :=
  resolved <~ load path;
  let dir := Config.Data_Dir resolved in
  st <~ wrapped "open store: %w" [] (open_store dir);
  match Identity st with
  | TxPanic => λ h, (h, TxPanic)
  | TxErr err =>
    if is_not_initialized err
    then of_result (Fail (Errorf "config file %q already exists (use --force to overwrite)" [AStr path]))
    else of_result (Fail err)
  | TxOk (nodeID, clusterID) => ret (println (already_summary clusterID nodeID path dir))
  end.

(** The material of the store and of the files, then the summary. *)
Definition init_store (d : draws Key) (path clusterID nodeID dir : string) : cmd string :=
  st <~ wrapped "open store: %w" [] (open_store dir);
  st <~ wrapped "save identity: %w" [] (commit dir (SaveIdentity st nodeID clusterID));
  made <~ wrapped "generate cluster CA: %w" [] (of_result (Generate (dr_CA d) (dr_Cert d) (dr_Token d) clusterID nodeID));
  let (bundle, joinToken) := (made : Bundle * string) in
  _ <~ wrapped "save certs: %w" [] (commit dir (SaveCerts st
         (MkCertsRec (bd_CACert bundle) (bd_CAKey bundle) (bd_NodeCert bundle) (bd_NodeKey bundle) (bd_JoinTokenHash bundle))));
  _ <~ wrapped "write cert files: %w" [] (write_certs dir bundle);
  fp <~ wrapped "ca fingerprint: %w" [] (of_result (Fingerprint (bd_CACert bundle)));
  ret (println (init_summary clusterID nodeID path dir (path_Join dir CAFile) fp joinToken)).

Definition init (force : bool) (path : string) (d : draws Key) : cmd string := λ h,
  if bool_decide (os_Stat (h_files h) path = None) && negb force then alreadyInitialized path h else
  (clusterID <~ wrapped "generate cluster id: %w" [] (of_result (uid_New (dr_Cluster d)));
   nodeID <~ wrapped "generate node id: %w" [] (of_result (uid_New (dr_Node d)));
   data <~ wrapped "marshal config: %w" []
             (of_result (yaml_Marshal (MkInitConfig nodeID "0.0.0.0:7947" clusterID "info" "text")));
   _ <~ wrapped "write config %q: %w" [AStr path] (write_file path (bytes_of init_header ++ data));
   resolved <~ wrapped "reload config: %w" [] (load path);
   init_store d path clusterID nodeID (Config.Data_Dir resolved)) h.
End init.

(** ** Identifiers and tokens are plain words *)

Definition is_byte (b : Z) : Prop := (0 ≤ b < 256)%Z.

Lemma byte_cases (P : Z → bool) : forallb P (seqZ 0 256) = true → ∀ b, is_byte b → P b = true.
Proof. rewrite forallb_forall. intros Hf b Hb. apply Hf, list_elem_of_In, elem_of_seqZ. unfold is_byte in Hb. lia. Qed.

Definition chr_byte (c : Ascii.ascii) : Z := Z.of_N (Ascii.N_of_ascii c).
Lemma bytes_of_cons c s : bytes_of (String c s) = chr_byte c :: bytes_of s.
Proof. done. Qed.

Lemma hex_words bs : Forall is_byte bs → Forall word_byte (bytes_of (hex bs)).
Proof.
  induction 1 as [|b bs Hb _ IH]; [constructor|]. cbn [hex]. rewrite !bytes_of_cons.
  constructor; [|constructor; [|done]].
  - refine (bool_decide_eq_true_1 _ (byte_cases (λ b, bool_decide (word_byte (chr_byte (hexdigit (Z.shiftr b 4))))) _ b Hb)). by vm_compute.
  - refine (bool_decide_eq_true_1 _ (byte_cases (λ b, bool_decide (word_byte (chr_byte (hexdigit (Z.land b 15))))) _ b Hb)). by vm_compute.
Qed.

Lemma bytes_alter (f : Z → Z) i bs :
  forallb (λ b, bool_decide (is_byte (f b))) (seqZ 0 256) = true → Forall is_byte bs → Forall is_byte (alter f i bs).
Proof.
  intros Hf Hb. apply Forall_alter; [done|]. intros x _ Hx.
  exact (bool_decide_eq_true_1 _ (byte_cases (λ b, bool_decide (is_byte (f b))) Hf _ Hx)).
Qed.

(** A UUID is not empty and stays on its line. *)
Lemma uid_plain b id : Forall is_byte b → uid_New (Ok b) = Ok id → str_empty id = false ∧ one_line id.
Proof.
  intros Hb Hu. unfold uid_New in Hu. injection Hu as <-.
  set (b1 := alter _ 8 _). assert (Forall is_byte b1) as H1.
  { apply bytes_alter; [by vm_compute|]. apply bytes_alter; [by vm_compute|done]. }
  assert (∀ lo hi, one_line (hex (slice lo hi b1))) as Hs.
  { intros. apply word_one_line, hex_words. unfold slice. by apply Forall_take, Forall_drop. }
  split; [by destruct (hex (slice 0 4 b1))|]. rewrite !one_line_app.
  assert (one_line "-") by by apply (bool_decide_unpack (one_line "-")). naive_solver.
Qed.

(** ** The store across two runs *)

Section store.
Context `{BF : BoltFiles DB}.

Lemma create_existing bs names bs' :
  Forall (λ n, is_Some (bs !! n)) names → create_buckets bs names = TxOk bs' → bs' = bs.
Proof.
  intros Hn. induction Hn as [|n names [b Hb] _ IH]; simpl; [by intros [= ->]|].
  destruct (db_CreateBucketIfNotExists bs n) as [bs1|] eqn:Hc; [|done].
  apply db_Create_ok in Hc. rewrite Hb in Hc. by subst bs1.
Qed.
Lemma create_no_panic bs names : create_buckets bs names ≠ TxPanic.
Proof.
  revert bs; induction names as [|n names IH]; intros bs; simpl; [done|].
  by destruct (db_CreateBucketIfNotExists bs n); [apply IH|].
Qed.

(** Opening a store that was open before changes nothing; opening a new one gives
    a store with neither identity nor certificates. *)
Lemma reopen_keeps mk jn old dir t :
  from_option (λ db, opened (db_contents db)) True old →
  match open mk (bolt_Open old) jn dir t with
  | TxOk db => match old with Some db0 => db_contents db = db_contents db0 | None => Certs db = TxErr ErrNotInitialized end
  | TxErr _ => True
  | TxPanic => False
  end.
Proof.
  intros Hold. unfold open. destruct (mk dir); [done|]. destruct (bolt_Open old _ t) as [db0|] eqn:Ho; [|done].
  apply open_contents in Ho. unfold initBuckets. destruct (db_Update db0 _) as [db [[]|e|]] eqn:Hu; [|done|].
  - apply db_Update_ok in Hu. rewrite Ho in Hu. destruct old as [db1|]; cbn [from_option] in *.
    + by apply (create_existing _ _ _ Hold) in Hu.
    + simpl in Hu. repeat (destruct (db_CreateBucketIfNotExists _ _) as [?bs|] eqn:?Hc in Hu; [|done]).
      repeat match goal with Hx : db_CreateBucketIfNotExists _ _ = Ok _ |- _ => apply db_Create_ok in Hx; simpl in Hx; subst end.
      injection Hu as Hu. unfold Certs, with_bucket. rewrite <-Hu. done.
  - apply db_Update_panic in Hu. by apply create_no_panic in Hu.
Qed.

Lemma Certs_contents (db db' : DB) : db_contents db = db_contents db' → Certs db = Certs db'.
Proof. unfold Certs. by intros ->. Qed.
Lemma Identity_contents (db db' : DB) : db_contents db = db_contents db' → Identity db = Identity db'.
Proof. unfold Identity. by intros ->. Qed.

(** What each save leaves of the rest. *)
Lemma certs_after_identity (db : DB) n c db' :
  opened (db_contents db) → SaveIdentity db n c = (db', TxOk ()) → Certs db' = Certs db.
Proof.
  intros Ho Hs. destruct (sapply_spec db (OpSaveIdentity n c) db' _ Ho Hs) as [_ (b & b' & _ & _ & Hc)].
  unfold Certs, with_bucket. by rewrite Hc, lookup_insert_ne.
Qed.
Lemma certs_after_save (db : DB) c db' :
  opened (db_contents db) → SaveCerts db c = (db', TxOk ()) →
  CACert c ≠ [] → CAKey c ≠ [] → NodeCert c ≠ [] → NodeKey c ≠ [] → JoinTokenHash c ≠ [] → Certs db' = TxOk c.
Proof.
  intros Ho Hs. destruct (sapply_spec db (OpSaveCerts c) db' _ Ho Hs) as [_ (b & b' & _ & Hb & Hc)].
  destruct c as [c1 c2 c3 c4 c5]. unfold sop_body in Hb. cbn [CACert CAKey NodeCert NodeKey JoinTokenHash] in *. intros.
  assert (NoDup [keyCACert; keyCAKey; keyNodeCert; keyNodeKey; keyJoinTokenHash]) as Hnd
    by (apply (bool_decide_unpack _); by vm_compute).
  pose proof (λ k, get_after _ _ _ k Hb Hnd) as Hg.
  unfold Certs, with_bucket. rewrite Hc, lookup_insert_eq. rewrite !Hg, !clone_id.
  destruct c1, c2, c3, c4, c5; done.
Qed.

Lemma identity_after_certs (db : DB) c db' ids :
  opened (db_contents db) → SaveCerts db c = (db', TxOk ()) → Identity db = TxOk ids →
  opened (db_contents db') ∧ Identity db' = TxOk ids.
Proof.
  intros Ho Hs <-. pose proof (sapply_opened db (OpSaveCerts c) Ho) as Ho'.
  pose proof (store_identity_roundtrip db (OpSaveCerts c) Ho) as Hi. cbn [sapply] in *. by rewrite Hs in Ho', Hi.
Qed.

Lemma loads_tls (db : DB) c :
  Certs db = TxOk c → CACert c ≠ [] → NodeCert c ≠ [] → NodeKey c ≠ [] →
  loadTLSMaterial (Some db) = TxOk (CACert c, NodeCert c, NodeKey c).
Proof. intros Hc. destruct c as [[] ? [] [] ?]; try done. intros _ _ _. unfold loadTLSMaterial. by rewrite Hc. Qed.
End store.

(** ** Runs of the command *)

(** The run ended with one of the listed errors; it did not end with another. *)
Ltac listed_error := left; eexists _, _; split; [done|set_solver].
Ltac other_error Hf Hin :=
  injection Hf as <- <-; exfalso; repeat (apply elem_of_cons in Hin as [?|Hin]; [done|]); by apply elem_of_nil in Hin.

Section runs.
Context `{U : Unicode} `{O : OS Files} `{BF : BoltFiles DB} `{X : X509 Key Pub Cert}.
Context (ParseDuration : string → result error Duration) (getenv : string → string) (home : result error string).
Context (yaml_Unmarshal : list Z → Config.Config → result error Config.Config).
Context (yaml_Marshal : initConfig → result error (list Z)).
Context (path_Join : string → string → string).
Implicit Types h : host Files DB.

Abbreviation init := (init ParseDuration getenv home yaml_Unmarshal yaml_Marshal path_Join).
Abbreviation already := (alreadyInitialized ParseDuration getenv home yaml_Unmarshal path_Join).
Abbreviation init_store := (init_store path_Join).
Abbreviation db_path := (db_path path_Join).
Abbreviation keep := (keep path_Join).
(** The configuration a host has at [path]. *)
Definition config_at h (path : string) : result error Config.Config :=
  LoadFrom ParseDuration getenv home (os_ReadFile (h_files h)) yaml_Unmarshal path.

(** The first run up to the store: the identifiers, the file, the configuration. *)
Definition started (path : string) (d : draws Key) h h1 (cid nid : string) (c : Config.Config) : Prop :=
  uid_New (dr_Cluster d) = Ok cid ∧ uid_New (dr_Node d) = Ok nid ∧ h_dbs h1 = h_dbs h ∧
  os_Stat (h_files h1) path = None ∧ config_at h1 path = Ok c.

Lemma init_runs force path d h h' r :
  os_Stat (h_files h) path ≠ None ∨ force = true → init force path d h = (h', r) →
  (∃ f args, r = TxErr (Errorf f args) ∧
     f ∈ ["generate cluster id: %w"; "generate node id: %w"; "marshal config: %w"; "write config %q: %w"; "reload config: %w"]) ∨
  ∃ h1 cid nid c, started path d h h1 cid nid c ∧ init_store d path cid nid (Config.Data_Dir c) h1 = (h', r).
Proof.
  intros Hnew Hi. unfold Init.init in Hi.
  assert (bool_decide (os_Stat (h_files h) path = None) && negb force = false) as Hf.
  { destruct Hnew as [Hs| ->]; [by rewrite bool_decide_eq_false_2|by rewrite andb_false_r]. }
  rewrite Hf in Hi. unfold bind, wrapped, of_result, write_file, load in Hi.
  destruct (uid_New (dr_Cluster d)) as [cid|e] eqn:Hc; simplify_eq/=; [|listed_error].
  destruct (uid_New (dr_Node d)) as [nid|e] eqn:Hn; simplify_eq/=; [|listed_error].
  destruct (yaml_Marshal _) as [data|e]; simplify_eq/=; [|listed_error].
  destruct (os_WriteFile (h_files h) path _) as [fs [e|]] eqn:Hw; simplify_eq/=; [listed_error|].
  destruct (write_read _ _ _ _ Hw) as [Hst _]. unfold of_result in Hi.
  destruct (LoadFrom _ _ _ (os_ReadFile fs) _ path) as [c|e] eqn:Hl; simplify_eq/=;
    [|listed_error].
  right. by exists (MkHost fs (h_dbs h)), cid, nid, c.
Qed.

(** A run on a host that has the file and an open store with an identity. *)
Lemma already_run path c h h2 r db nid cid :
  config_at h path = Ok c → h_dbs h !! db_path (Config.Data_Dir c) = Some db →
  opened (db_contents db) → Identity db = TxOk (nid, cid) → already path h = (h2, r) →
  (∃ e, r = TxErr (Errorf "open store: %w" [AErr e]) ∧ h2 = h) ∨
  ∃ db2, r = TxOk (println (already_summary cid nid path (Config.Data_Dir c))) ∧
    h2 = keep (Config.Data_Dir c) db2 h ∧ db_contents db2 = db_contents db.
Proof.
  intros Hc Hdb Ho Hid Ha. unfold alreadyInitialized, bind, load, of_result, wrapped, open_store in Ha.
  unfold config_at in Hc. rewrite Hc in Ha. cbn [fst snd] in Ha. unfold Open in Ha.
  change (open os_MkdirAll (λ p t, bolt_Open (h_dbs h !! p) p t) path_Join (Config.Data_Dir c) dbOpenTimeout)
    with (open os_MkdirAll (bolt_Open (h_dbs h !! db_path (Config.Data_Dir c))) path_Join (Config.Data_Dir c) dbOpenTimeout) in Ha.
  rewrite Hdb in Ha. pose proof (reopen_keeps os_MkdirAll path_Join (Some db) (Config.Data_Dir c) dbOpenTimeout Ho) as Hr.
  destruct (open _ _ _ _ _) as [db2|e|]; [|left; exists e; by injection Ha as <- <-|done].
  rewrite (Identity_contents _ _ Hr), Hid in Ha. unfold ret in Ha. injection Ha as <- <-. right. by exists db2.
Qed.

(** The summary of a second run holds no token. *)
Lemma already_no_token cid nid path dir :
  one_line cid → one_line nid → one_line path → one_line dir →
  ∃ e, ParseJoinToken (println (already_summary cid nid path dir)) = Fail e.
Proof.
  intros H1 H2 H3 H4. unfold ParseJoinToken, already_summary.
  assert (∀ s, bool_decide (one_line s) = true → one_line s) as Hone by (intros s Hs; by apply bool_decide_eq_true in Hs).
  do 2 rewrite skip_println by first [by apply Hone|reflexivity].
  do 4 (rewrite skip_println; [|apply one_line_app; split; [by apply Hone|done]|rewrite println_cons, bytes_of_app, <-(assoc_L (++)); reflexivity]).
  by eexists.
Qed.

(** The store after a run that got as far as the certificates. *)
Definition identified h dir nid cid (db0 db1 : DB) : Prop :=
  open os_MkdirAll (bolt_Open (h_dbs h !! db_path dir)) path_Join dir dbOpenTimeout = TxOk db0 ∧
  SaveIdentity db0 nid cid = (db1, TxOk ()).

Lemma identified_identity h dir nid cid db0 db1 :
  identified h dir nid cid db0 db1 → str_empty nid = false → str_empty cid = false →
  opened (db_contents db0) ∧ opened (db_contents db1) ∧ Identity db1 = TxOk (nid, cid) ∧ Certs db1 = Certs db0.
Proof.
  intros [Ho%open_opened Hs] Hn Hc. split; [done|].
  pose proof (sapply_opened db0 (OpSaveIdentity nid cid) Ho) as Ho1.
  pose proof (store_identity_roundtrip db0 (OpSaveIdentity nid cid) Ho) as Hi. cbn [sapply] in *.
  rewrite Hs in Ho1, Hi. cbn [fst snd] in *. rewrite Hn, Hc in Hi. split_and!; [done..|by eapply certs_after_identity].
Qed.

Lemma init_store_runs d path cid nid dir h h' r :
  init_store d path cid nid dir h = (h', r) →
  (∃ f args, r = TxErr (Errorf f args) ∧ f ∈ ["open store: %w"; "save identity: %w"]) ∨ r = TxPanic ∨
  ∃ db0 db1, identified h dir nid cid db0 db1 ∧
    let h1 := keep dir db1 (keep dir db0 h) in
    match Generate (dr_CA d) (dr_Cert d) (dr_Token d) cid nid with
    | Fail e => (h', r) = (h1, TxErr (Errorf "generate cluster CA: %w" [AErr e]))
    | Ok (b, tok) =>
      let r2 := SaveCerts db1 (MkCertsRec (bd_CACert b) (bd_CAKey b) (bd_NodeCert b) (bd_NodeKey b) (bd_JoinTokenHash b)) in
      let h2 := keep dir r2.1 h1 in
      let w := WriteFiles path_Join (λ fs d, (fs, os_MkdirAll d)) os_WriteFile (h_files h2) dir
                 (bd_CACert b) (bd_NodeCert b) (bd_NodeKey b) in
      (∃ f args, r = TxErr (Errorf f args) ∧
         f ∈ ["save certs: %w"; "write cert files: %w"; "ca fingerprint: %w"]) ∨ r = TxPanic ∨
      ∃ fp, r2.2 = TxOk () ∧ w.2 = None ∧ Fingerprint (bd_CACert b) = Ok fp ∧ h' = MkHost w.1 (h_dbs h2) ∧
        r = TxOk (println (init_summary cid nid path dir (path_Join dir CAFile) fp tok))
    end.
Proof.
  intros Hi. unfold Init.init_store, bind, wrapped, of_result, open_store, commit in Hi. unfold Open in Hi.
  change (open os_MkdirAll (λ p t, bolt_Open (h_dbs h !! p) p t) path_Join dir dbOpenTimeout)
    with (open os_MkdirAll (bolt_Open (h_dbs h !! db_path dir)) path_Join dir dbOpenTimeout) in Hi.
  destruct (open _ _ _ _ _) as [db0|e|] eqn:Ho; simplify_eq/=; [|listed_error|by right; left].
  destruct (SaveIdentity db0 nid cid) as [db1 [[]|e|]] eqn:Hs; simplify_eq/=;
    [|listed_error|by right; left].
  right; right. exists db0, db1. split; [done|].
  destruct (Generate _ _ _ cid nid) as [[b tok]|e]; [|by simplify_eq/=]. cbn [fst snd] in Hi.
  destruct (SaveCerts db1 _) as [db2 [[]|e|]]; simplify_eq/=; [|listed_error|by right; left].
  unfold write_certs in Hi. destruct (WriteFiles _ _ _ _ _ _ _ _) as [fs [e|]]; simplify_eq/=;
    [listed_error|].
  destruct (Fingerprint (bd_CACert b)) as [fp|e]; simplify_eq/=; [|listed_error].
  right; right. exists fp. unfold ret in Hi. injection Hi as <- <-. done.
Qed.

(** The random bytes of a run. *)
Definition drawn (d : draws Key) : Prop :=
  (∀ b, dr_Cluster d = Ok b → Forall is_byte b) ∧ (∀ b, dr_Node d = Ok b → Forall is_byte b) ∧
  (∀ b, dr_Token d = Ok b → Forall is_byte b ∧ length b = tokenBytes).

Lemma started_plain path d h h1 cid nid c :
  drawn d → started path d h h1 cid nid c →
  (str_empty cid = false ∧ one_line cid) ∧ (str_empty nid = false ∧ one_line nid).
Proof.
  intros (Hc & Hn & _) (Hcid & Hnid & _).
  destruct (dr_Cluster d) as [b|]; [|done]. destruct (dr_Node d) as [b'|]; [|done].
  split; [exact (uid_plain b cid (Hc b eq_refl) Hcid)|exact (uid_plain b' nid (Hn b' eq_refl) Hnid)].
Qed.

(** An interrupted [init] leaves a node that trusts everyone.  When the first
    [clusdr init] on a host ends at making the certificates, a second one, if it can
    open the store, reports success and prints no token; the store has the identity
    but no certificates, so the daemon started from it serves without TLS and takes
    any join token. *)
Theorem init_interrupted_open path d d' h h1 h2 r c e0 {T} (reload : list Z * list Z * list Z → result error T) :
  drawn d → h_dbs h = ∅ → os_Stat (h_files h) path ≠ None → one_line path →
  init false path d h = (h1, TxErr (Errorf "generate cluster CA: %w" [AErr e0])) →
  config_at h1 path = Ok c → one_line (Config.Data_Dir c) →
  init false path d' h1 = (h2, r) →
  (∃ e, r = TxErr (Errorf "open store: %w" [AErr e])) ∨
  ∃ out db, r = TxOk out ∧ (∃ e, ParseJoinToken out = Fail e) ∧
    h_dbs h2 !! db_path (Config.Data_Dir c) = Some db ∧ (∃ ids, Identity db = TxOk ids) ∧
    init_tls reload c (Some db) = Ok None ∧ ∀ tok, Store.CheckToken CheckToken db tok = TxOk ().
Proof.
  intros Hd Hdbs Hst Hp Hi Hc Hdir Hi2.
  destruct (init_runs _ _ _ _ _ _ (or_introl Hst) Hi) as [(f & a & Hf & Hin)|(h0 & cid & nid & c0 & Hs & Hs2)].
  { other_error Hf Hin. }
  destruct (started_plain _ _ _ _ _ _ _ Hd Hs) as [[Hce Hcl] [Hne Hnl]]. destruct Hs as (_ & _ & Hdb & Hst1 & Hc0).
  destruct (init_store_runs _ _ _ _ _ _ _ _ Hs2) as [(f & a & Hf & Hin)|[?|(db0 & db1 & Hid & Hg)]]; [|done|].
  { other_error Hf Hin. }
  destruct (Generate _ _ _ cid nid) as [[b tok]|e].
  { destruct Hg as [(f & a & Hf & Hin)|[?|(fp & _ & _ & _ & _ & ?)]]; [|done..].
    other_error Hf Hin. }
  injection Hg as -> _. unfold config_at in Hc. cbn [Init.keep h_files] in Hc. unfold config_at in Hc0.
  rewrite Hc0 in Hc. injection Hc as <-.
  destruct (identified_identity _ _ _ _ _ _ Hid Hne Hce) as (_ & Ho1 & Hident & Hcerts).
  destruct Hid as [Hopen _]. rewrite Hdb, Hdbs, lookup_empty in Hopen.
  pose proof (reopen_keeps os_MkdirAll path_Join None (Config.Data_Dir c0) dbOpenTimeout I) as Hnone.
  rewrite Hopen in Hnone. rewrite Hnone in Hcerts. clear Hopen Hnone Hdb.
  unfold Init.init in Hi2. cbn [Init.keep h_files h_dbs negb] in Hi2. rewrite bool_decide_eq_true_2 in Hi2 by done. cbn [andb] in Hi2.
  set (dir := Config.Data_Dir c0) in *. set (h3 := keep dir db1 _) in *.
  assert (h_dbs h3 !! db_path dir = Some db1) as Hl by (unfold h3; cbn [Init.keep h_dbs]; by rewrite lookup_insert_eq).
  destruct (already_run path c0 h3 _ _ db1 nid cid Hc0 Hl Ho1 Hident Hi2)
    as [(e1 & -> & _)|(db2 & -> & -> & Hcon)]; [left; by eexists|right].
  eexists _, db2. split; [done|]. split; [by apply already_no_token|].
  rewrite <-(Certs_contents _ _ Hcon) in Hcerts. rewrite <-(Identity_contents _ _ Hcon) in Hident.
  split; [cbn [Init.keep h_dbs]; by rewrite lookup_insert_eq|]. split; [by eexists|]. split.
  - unfold init_tls. destruct (TLSEnabled c0); [|done]. unfold loadTLSMaterial. by rewrite Hcerts.
  - intros tok. unfold Store.CheckToken. by rewrite Hcerts.
Qed.

(** Writing the certificates leaves the configuration alone. *)
Lemma WriteFiles_frame path dir fs ca cert key :
  (∀ f, f ∈ [CAFile; CertFile; KeyFile] → path_Join dir f ≠ path) →
  let w := WriteFiles path_Join (λ fs d, (fs, os_MkdirAll d)) os_WriteFile fs dir ca cert key in
  os_Stat w.1 path = os_Stat fs path ∧ os_ReadFile w.1 path = os_ReadFile fs path.
Proof.
  intros Hne. cbn zeta. unfold WriteFiles. destruct (os_MkdirAll dir); [done|].
  assert (∀ files, Forall (λ x, path_Join dir x.1 ≠ path) files → ∀ fs,
    os_Stat (write_present path_Join os_WriteFile fs dir files).1 path = os_Stat fs path ∧
    os_ReadFile (write_present path_Join os_WriteFile fs dir files).1 path = os_ReadFile fs path) as Hw.
  { clear. induction 1 as [|[name b] files Hn _ IH]; intros fs; simpl; [done|]. case_bool_decide; [|apply IH].
    destruct (os_WriteFile fs (path_Join dir name) b) as [fs' [e|]] eqn:Hf;
      destruct (write_frame _ _ path _ _ _ Hf Hn) as [<- <-]; [done|apply IH]. }
  apply Hw. repeat constructor; apply Hne; set_solver.
Qed.

Lemma fingerprint_one_line cp fp : Fingerprint cp = Ok fp → one_line fp.
Proof.
  unfold Fingerprint. destruct (ParseCertificate cp) as [c|]; [|done]. cbn -[String.append]. intros Hf. injection Hf as <-.
  apply one_line_app. split; [by apply (bool_decide_unpack (one_line "sha256:"))|].
  apply word_one_line, hex_words, sha256_bytes.
Qed.

Lemma hex_nonempty bs : 0 < length bs → hex bs ≠ "".
Proof. by destruct bs; simpl; [lia|]. Qed.

(** A run that succeeds goes through every step. *)
Lemma init_succeeds force path d h h1 out :
  os_Stat (h_files h) path ≠ None ∨ force = true →
  (∀ dir f, f ∈ [CAFile; CertFile; KeyFile] → path_Join dir f ≠ path) →
  init force path d h = (h1, TxOk out) →
  ∃ h0 cid nid c db0 db1 db2 b tok fp,
    started path d h h0 cid nid c ∧ identified h0 (Config.Data_Dir c) nid cid db0 db1 ∧
    Generate (dr_CA d) (dr_Cert d) (dr_Token d) cid nid = Ok (b, tok) ∧
    SaveCerts db1 (MkCertsRec (bd_CACert b) (bd_CAKey b) (bd_NodeCert b) (bd_NodeKey b) (bd_JoinTokenHash b)) = (db2, TxOk ()) ∧
    Fingerprint (bd_CACert b) = Ok fp ∧
    h_dbs h1 !! db_path (Config.Data_Dir c) = Some db2 ∧
    os_Stat (h_files h1) path = None ∧ config_at h1 path = Ok c ∧
    (∃ fs, WriteFiles path_Join (λ fs d, (fs, os_MkdirAll d)) os_WriteFile fs (Config.Data_Dir c)
             (bd_CACert b) (bd_NodeCert b) (bd_NodeKey b) = (h_files h1, None)) ∧
    out = println (init_summary cid nid path (Config.Data_Dir c) (path_Join (Config.Data_Dir c) CAFile) fp tok).
Proof.
  intros Hnew Hne Hi. destruct (init_runs _ _ _ _ _ _ Hnew Hi) as [(f & a & ? & _)|(h0 & cid & nid & c & Hs & Hs2)]; [done|].
  destruct (init_store_runs _ _ _ _ _ _ _ _ Hs2) as [(f & a & ? & _)|[?|(db0 & db1 & Hid & Hg)]]; [done..|].
  destruct (Generate _ _ _ cid nid) as [[b tok]|e] eqn:Hgen; [|done].
  destruct Hg as [(f & a & ? & _)|[?|(fp & Hsave & Hwf & Hfp & Hh1 & Hout)]]; [done..|]. injection Hout as ->.
  destruct (SaveCerts db1 _) as [db2 r2] eqn:Hsc. cbn [fst snd] in *. subst r2.
  exists h0, cid, nid, c, db0, db1, db2, b, tok, fp. rewrite Hh1. cbn [h_files h_dbs].
  pose proof Hs as (_ & _ & _ & Hst & Hc).
  edestruct (WriteFiles_frame path (Config.Data_Dir c)) as [Hf1 Hf2]; [apply Hne|].
  do 5 (split; [done|]). split; [unfold Init.keep; simpl; by rewrite lookup_insert_eq|]. split; [by rewrite Hf1|].
  split; [unfold config_at, LoadFrom in *; cbn [h_files]; by rewrite Hf2|].
  split; [eexists; by apply injective_projections|done].
Qed.

(** A second run changes nothing. *)
Lemma rerun_keeps path d c h h2 r db nid cid :
  os_Stat (h_files h) path = None → config_at h path = Ok c → h_dbs h !! db_path (Config.Data_Dir c) = Some db →
  opened (db_contents db) → Identity db = TxOk (nid, cid) → init false path d h = (h2, r) →
  h_files h2 = h_files h ∧ ∀ p, db_contents <$> h_dbs h2 !! p = db_contents <$> h_dbs h !! p.
Proof.
  intros Hst Hc Hdb Ho Hid Hi. unfold Init.init in Hi. rewrite bool_decide_eq_true_2 in Hi by done. cbn [andb negb] in Hi.
  destruct (already_run _ _ _ _ _ _ _ _ Hc Hdb Ho Hid Hi) as [(e & _ & ->)|(db2 & _ & -> & Hcon)]; [done|].
  split; [done|]. intros p. unfold Init.keep. simpl.
  destruct (decide (db_path (Config.Data_Dir c) = p)) as [<-|Hp]; [|by rewrite lookup_insert_ne].
  rewrite lookup_insert_eq, Hdb. simpl. by rewrite Hcon.
Qed.

(** The store has the material that was generated. *)
Lemma stored_material path d h h0 cid nid c db0 db1 b tok db2 :
  let rec_ := MkCertsRec (bd_CACert b) (bd_CAKey b) (bd_NodeCert b) (bd_NodeKey b) (bd_JoinTokenHash b) in
  drawn d → started path d h h0 cid nid c → identified h0 (Config.Data_Dir c) nid cid db0 db1 →
  Generate (dr_CA d) (dr_Cert d) (dr_Token d) cid nid = Ok (b, tok) → SaveCerts db1 rec_ = (db2, TxOk ()) →
  Certs db2 = TxOk rec_ ∧ bd_CACert b ≠ [] ∧ bd_NodeCert b ≠ [] ∧ bd_NodeKey b ≠ [].
Proof.
  intros rec_ Hd Hs Hid Hg Hsc. destruct (started_plain _ _ _ _ _ _ _ Hd Hs) as [[Hce _] [Hne _]].
  destruct (identified_identity _ _ _ _ _ _ Hid Hne Hce) as (_ & Ho1 & _ & _).
  destruct (Generate_spec _ _ _ _ _ _ _ Hg) as (ca & caKey & der & nc & k & der' & _ & Hpca & _ & Hpn & _ & Hh).
  destruct (pem_pair_nonempty _ _ _ _ _ Hpca), (pem_pair_nonempty _ _ _ _ _ Hpn).
  split; [|done]. apply (certs_after_save _ _ _ Ho1 Hsc); try done. simpl. rewrite Hh. apply HashToken_nonempty.
Qed.

(** C25: The token reaches the door it opens.  After a [clusdr init] that succeeded
    and whose output the operator reads, the token it parses is the one the seed
    checks: the store takes a token exactly if it has the same hash.  The store has
    the identity and everything the server needs for TLS, and running [init] again
    changes neither files nor stores. *)
Theorem init_then_join force path d h h1 out c :
  drawn d → os_Stat (h_files h) path ≠ None ∨ force = true →
  (∀ dir f, f ∈ [CAFile; CertFile; KeyFile] → path_Join dir f ≠ path) →
  one_line path → (∀ dir, one_line dir → one_line (path_Join dir CAFile)) →
  init force path d h = (h1, TxOk out) → config_at h1 path = Ok c → one_line (Config.Data_Dir c) →
  ∃ tok db, ParseJoinToken out = Ok tok ∧ h_dbs h1 !! db_path (Config.Data_Dir c) = Some db ∧
    (∀ t, Store.CheckToken CheckToken db t = TxOk () ↔ HashToken t = HashToken tok) ∧
    (∃ ids, Identity db = TxOk ids) ∧ (∃ m, loadTLSMaterial (Some db) = TxOk m) ∧
    ∀ d' h2 r, init false path d' h1 = (h2, r) → h_files h2 = h_files h1 ∧
      ∀ p, db_contents <$> h_dbs h2 !! p = db_contents <$> h_dbs h1 !! p.
Proof.
  intros Hd Hnew Hne Hp Hca Hi Hc Hdir.
  destruct (init_succeeds _ _ _ _ _ _ Hnew Hne Hi) as
    (h0 & cid & nid & c0 & db0 & db1 & db2 & b & tok & fp & Hs & Hid & Hg & Hsc & Hfp & Hdb & Hst & Hc1 & _ & ->).
  rewrite Hc in Hc1. injection Hc1 as <-. pose proof Hd as Hdr.
  destruct (started_plain _ _ _ _ _ _ _ Hd Hs) as [[Hce Hcl] [Hne' Hnl]].
  destruct (identified_identity _ _ _ _ _ _ Hid Hne' Hce) as (_ & Ho1 & Hident & _).
  destruct (Generate_spec _ _ _ _ _ _ _ Hg) as (ca & caKey & der & nc & k & der' & _ & Hpca & _ & Hpn & (bytes & Htok & ->) & Hh).
  destruct Hd as (_ & _ & Hd). destruct (Hd _ Htok) as [Hbytes Hlen].
  assert (opened (db_contents db2) ∧ Identity db2 = TxOk (nid, cid)) as [Ho2 Hident2].
  { by apply (identity_after_certs _ _ _ _ Ho1 Hsc). }
  destruct (stored_material _ _ _ _ _ _ _ _ _ _ _ _ Hdr Hs Hid Hg Hsc) as (Hcerts & ? & ? & ?).
  exists (hex bytes), db2. split; [|split; [done|split; [|split; [by eexists|split]]]].
  - apply init_token_roundtrip; try done; [|by apply hex_words|by apply Hca|by eapply fingerprint_one_line].
    apply hex_nonempty. rewrite Hlen. unfold tokenBytes. lia.
  - intros t. rewrite (store_checks_token _ _ _ t Hcerts Hh). by case_decide.
  - eexists. by apply (loads_tls _ _ Hcerts).
  - intros d' h2 r Hi2. by eapply rerun_keeps.
Qed.
End runs.

Module InitExamples.
#[export] Existing Instance latin1.
#[export] Existing Instance StoreExamples.mem_bolt.
#[export] Existing Instance PkiExamples.paper_x509.
Abbreviation check := (CheckToken (Cert := PkiExamples.cert)).
Abbreviation hash := (HashToken (Cert := PkiExamples.cert)).
Abbreviation tree := (gmap string (list Z)).
#[export] Instance mem_os : OS tree.
Proof.
  refine {|
    os_Stat fs p := match fs !! p with Some _ => None | None => Some (Errorf "no such file" []) end;
    os_ReadFile fs p := match fs !! p with Some b => FileData b | None => FileMissing end;
    os_WriteFile fs p b := (<[p := b]> fs, None);
    os_MkdirAll _ := None;
  |}.
  - intros fs p b fs' Hw. injection Hw as <-. by rewrite lookup_insert_eq.
  - intros fs p q b fs' r Hw Hne. injection Hw as <- _. by rewrite lookup_insert_ne.
Defined.
#[export] Instance mem_files : BoltFiles buckets.
Proof. refine {| bolt_Open old p t := Ok (default ∅ old) |}. intros old p t db Ho. injection Ho as <-. by destruct old. Defined.

Definition init_ex : bool → string → draws Z → host tree buckets → host tree buckets * tx string :=
  Init.init (Cert := PkiExamples.cert) (λ _, Fail (Errorf "invalid duration" [])) (λ _, "") (Ok "/root") (λ _ c, Ok c)
    (λ c, Ok (bytes_of (ic_Node_ID c))) StoreExamples.join_path.
Definition bare : host tree buckets := MkHost ∅ ∅.
Definition draws_ok : draws Z :=
  MkDraws (Ok (replicate 16 1%Z)) (Ok (replicate 16 2%Z)) (PkiExamples.at_ 0 1) (PkiExamples.at_ 0 2) (Ok (replicate 32 171%Z)).
Definition draws_cut : draws Z :=
  MkDraws (Ok (replicate 16 1%Z)) (Ok (replicate 16 2%Z)) (MkDraw (Fail (Errorf "no entropy" [])) (Ok 1%Z) 0 0 [])
    (PkiExamples.at_ 0 2) (Ok (replicate 32 171%Z)).

Lemma draws_drawn d : dr_Cluster d = dr_Cluster draws_ok → dr_Node d = dr_Node draws_ok → dr_Token d = dr_Token draws_ok → drawn (Key := Z) d.
Proof.
  intros Hc Hn Ht. unfold drawn. rewrite Hc, Hn, Ht.
  split; [|split]; intros b Hb; injection Hb as <-; [by repeat constructor..|]. split; [by repeat constructor|done].
Qed.
Lemma bare_config dir f : StoreExamples.join_path dir f ≠ "clusdr.yaml".
Proof.
  intros He. apply (f_equal bytes_of) in He. unfold StoreExamples.join_path in He. rewrite !bytes_of_app in He.
  assert (47%Z ∈ bytes_of "clusdr.yaml") as Hin; [rewrite <-He; set_solver|].
  by apply (bool_decide_eq_true_2 (47%Z ∈ bytes_of "clusdr.yaml")) in Hin; vm_compute in Hin.
Qed.
Definition run_ok := init_ex false "clusdr.yaml" draws_ok bare.
Definition printed (r : tx string) : string := match r with TxOk out => out | _ => "" end.

Definition succeeded (r : tx string) : bool := match r with TxOk _ => true | _ => false end.
Lemma ran {A} (x : A * tx string) : succeeded x.2 = true → x = (x.1, TxOk (printed x.2)).
Proof. by destruct x as [? []]. Qed.

Lemma init_then_join_witness :
  ∃ tok db, ParseJoinToken (printed run_ok.2) = Ok tok ∧ h_dbs run_ok.1 !! "/root/.clusdr/state.db" = Some db ∧
    (∀ t, Store.CheckToken check db t = TxOk () ↔ hash t = hash tok).
Proof.
  destruct (init_then_join (λ _, Fail (Errorf "invalid duration" [])) (λ _, "") (Ok "/root") (λ _ c, Ok c)
    (λ c, Ok (bytes_of (ic_Node_ID c))) StoreExamples.join_path false "clusdr.yaml" draws_ok bare run_ok.1 (printed run_ok.2)
    (Config.Defaults (Ok "/root"))) as (tok & db & Htok & Hdb & Ht & _).
  - by apply draws_drawn.
  - left. by vm_compute.
  - intros dir f _. apply bare_config.
  - by apply (bool_decide_unpack (one_line "clusdr.yaml")).
  - intros dir Hd. apply one_line_app. split; [done|]. by apply (bool_decide_unpack (one_line "/ca.crt")).
  - apply (ran run_ok). by vm_compute.
  - by vm_compute.
  - by apply (bool_decide_unpack (one_line "/root/.clusdr")).
  - exists tok, db. split_and!; done.
Defined.

Definition run_cut := init_ex false "clusdr.yaml" draws_cut bare.
Definition run_again := init_ex false "clusdr.yaml" draws_ok run_cut.1.
Lemma init_interrupted_open_witness :
  isOk (ParseJoinToken (printed run_again.2)) = false ∧
  ∃ db, h_dbs run_again.1 !! "/root/.clusdr/state.db" = Some db ∧ Store.CheckToken check db "any token" = TxOk ().
Proof.
  destruct (init_interrupted_open (λ _, Fail (Errorf "invalid duration" [])) (λ _, "") (Ok "/root") (λ _ c, Ok c)
    (λ c, Ok (bytes_of (ic_Node_ID c))) StoreExamples.join_path "clusdr.yaml" draws_cut draws_ok bare run_cut.1 run_again.1
    run_again.2 (Config.Defaults (Ok "/root")) (Errorf "pki: generate ca key: %w" [AErr (Errorf "no entropy" [])])
    ServerExamples.reload) as [[e He]|(out & db & Hout & [e He] & Hdb & _ & _ & Hall)].
  - by apply draws_drawn.
  - reflexivity.
  - by vm_compute.
  - by apply (bool_decide_unpack (one_line "clusdr.yaml")).
  - apply injective_projections; [reflexivity|by vm_compute].
  - by vm_compute.
  - by apply (bool_decide_unpack (one_line "/root/.clusdr")).
  - apply surjective_pairing.
  - by vm_compute in He.
  - rewrite Hout. cbn [printed]. rewrite He. split; [done|]. exists db. split; [exact Hdb|apply Hall].
Defined.
End InitExamples.
