(* ===== verification/SdkTls.v ===== *)
(** * SdkTls: how the Go client trusts its daemon ([sdk/tls.go])

    The client repeats, under its own error texts, the TLS configuration of
    [internal/mtls], and reads the address, the directory and the TLS switch of
    the daemon from the environment.  Here: the functions of [sdk/tls.go] that
    build credentials, that they mean the same as those of the daemon, and that a
    client on a host where [clusdr init] ran trusts the daemon of that host. *)
From S2P Require Import Prelude Config Store Units Sdk Server Pki Init.

Section tls.
Context {KeyPair Pool Cert : Type}.
Context (X509KeyPair : list Z → list Z → result error KeyPair).
Context (AppendCertsFromPEM : list Z → option Pool).
Context (ParseCertificate : list Z → result error Cert).
Context (Verify : Pool → list Cert → Cert → option error).

Fixpoint intermediates (raw : list (list Z)) : result error (list Cert) :=
  match raw with
  | [] => Ok []
  | der :: raw =>
    match ParseCertificate der with
    | Fail e => Fail (Errorf "clusdr: parse intermediate: %w" [AErr e])
    | Ok c => cs ← intermediates raw; Ok (c :: cs)
    end
  end.

Definition verifyPeer (roots : Pool) (raw : list (list Z)) : option error :=
  match raw with
  | [] => Some (Errorf "clusdr: no peer certificate" [])
  | der :: rest =>
    match ParseCertificate der with
    | Fail e => Some (Errorf "clusdr: parse peer cert: %w" [AErr e])
    | Ok peer =>
      match intermediates rest with
      | Fail e => Some e
      | Ok inter =>
        match Verify roots inter peer with
        | Some e => Some (Errorf "clusdr: peer cert not signed by cluster CA: %w" [AErr e])
        | None => None
        end
      end
    end
  end.

Definition clientTLS (caPEM certPEM keyPEM : list Z) : result error (client_tls (KeyPair := KeyPair)) :=
  match AppendCertsFromPEM caPEM with
  | None => Fail (Errorf "clusdr: invalid CA certificate" [])
  | Some pool =>
    match X509KeyPair certPEM keyPEM with
    | Fail e => Fail (Errorf "clusdr: client keypair: %w" [AErr e])
    | Ok cert => Ok (MkClientTLS (Some cert) (verifyPeer pool))
    end
  end.

Abbreviation daemon_config := (clientConfig X509KeyPair AppendCertsFromPEM ParseCertificate Verify).

(** [err], or the same error as [mtls] words it. *)
Inductive same_error : option error → option error → Prop :=
  | same_none : same_error None None
  | same_some s args : same_error (Some (Errorf ("clusdr: " +:+ s) args)) (Some (Errorf ("mtls: " +:+ s) args)).

Lemma intermediates_agree raw :
  match intermediates raw, parse_intermediates ParseCertificate raw with
  | Ok cs, Ok cs' => cs = cs'
  | Fail e, Fail e' => same_error (Some e) (Some e')
  | _, _ => False
  end.
Proof.
  induction raw as [|der raw IH]; [done|]. cbn [intermediates parse_intermediates].
  destruct (ParseCertificate der) as [c|e]; [|apply (same_some "parse intermediate: %w")].
  destruct (intermediates raw), (parse_intermediates ParseCertificate raw); simpl in *; [by subst|done..].
Qed.

Lemma verifyPeer_agrees roots raw :
  same_error (verifyPeer roots raw) (Server.verifyPeer ParseCertificate Verify roots raw).
Proof.
  destruct raw as [|der rest]; [apply (same_some "no peer certificate")|].
  unfold verifyPeer, Server.verifyPeer. destruct (ParseCertificate der) as [peer|e]; [|apply (same_some "parse peer cert: %w")].
  pose proof (intermediates_agree rest) as Hi.
  destruct (intermediates rest), (parse_intermediates ParseCertificate rest); try done. subst.
  destruct (Verify _ _ _); [apply (same_some "peer cert not signed by cluster CA: %w")|constructor].
Qed.

(** The client's configuration is the daemon's: from the same bytes both fail, with
    the same error up to the name of the package, or both show the same key pair
    and accept the same connections. *)
Lemma clientTLS_agrees ca cert key :
  match clientTLS ca cert key, daemon_config ca cert key with
  | Ok c, Ok d => ct_Shows c = ct_Shows d ∧ ∀ raw, same_error (ct_Accepts c raw) (ct_Accepts d raw)
  | Fail e, Fail e' => same_error (Some e) (Some e')
  | _, _ => False
  end.
Proof.
  unfold clientTLS, clientConfig, poolFromPEM. destruct (AppendCertsFromPEM ca) as [pool|];
    [|apply (same_some "invalid CA certificate")]. simpl.
  destruct (X509KeyPair cert key) as [kp|e]; [|apply (same_some "client keypair: %w")].
  split; [done|]. intros raw. apply verifyPeer_agrees.
Qed.

Lemma same_error_accepts e e' : same_error e e' → e = None ↔ e' = None.
Proof. by destruct 1. Qed.
End tls.

(** ** The settings both read from the environment *)

Section settings.
Context `{U : Unicode} (ParseDuration : string → result error Duration) (getenv : string → string).
Context (read : string → file) (Unmarshal : list Z → Config.Config → result error Config.Config).

Definition plain (v : string) : Prop := TrimSpaceS v = v.

Lemma clamp_frame c : Data_Dir (clampRaft c) = Data_Dir c ∧ GRPC (clampRaft c) = GRPC c ∧ TLS_Mode (clampRaft c) = TLS_Mode c.
Proof. unfold clampRaft. by destruct (_ && _)%Z. Qed.

(** Without a configuration file a client with no options finds its daemon: where
    the variables [CLUSDR_GRPC_ADDR] and [CLUSDR_DATA_DIR] have no space around
    them, it dials the address the daemon listens on, uses TLS exactly when the
    daemon does, and looks for certificates where the daemon keeps them, provided
    there is a home directory.  Without one, and without [CLUSDR_DATA_DIR], the
    daemon falls back to [/var/lib/clusdr], the client to no directory at all. *)
Theorem sdk_settings_agree home path c :
  LoadFrom ParseDuration getenv home read Unmarshal path = Ok c → read path = FileMissing →
  plain (getenv "CLUSDR_GRPC_ADDR") → plain (getenv "CLUSDR_DATA_DIR") →
  localAddr getenv = cg_Addr (GRPC c) ∧
  envInsecure getenv = negb (TLSEnabled c) ∧
  (∀ h, home = Ok h → h ≠ "" → envDataDir getenv home = Data_Dir c) ∧
  (∀ e, home = Fail e → getenv "CLUSDR_DATA_DIR" = "" →
     envDataDir getenv home = "" ∧ Data_Dir c = "/var/lib/clusdr").
Proof.
  intros Hl Hr Ha Hd.
  assert (c = clampRaft (applyEnv ParseDuration getenv (Config.Defaults home))) as ->.
  { unfold LoadFrom in Hl. rewrite Hr in Hl. unfold finishLoad in Hl.
    destruct (str_empty path); destruct (Config.Validate _); by simplify_eq. }
  destruct (clamp_frame (applyEnv ParseDuration getenv (Config.Defaults home))) as (-> & -> & Ht).
  unfold TLSEnabled. rewrite Ht. clear Hl Ht.
  cbn [applyEnv Data_Dir GRPC cg_Addr TLS_Mode Config.Defaults]. unfold localAddr, envDataDir, envInsecure, envString.
  rewrite Ha, Hd. split; [by destruct (str_empty (getenv "CLUSDR_GRPC_ADDR"))|]. split.
  - rewrite negb_involutive. destruct (str_empty (getenv "CLUSDR_TLS")) eqn:He; [|done].
    apply str_empty_true in He as ->.
    change (lower_trim "") with (@nil Z). replace (lower_trim "enabled") with (runes "enabled") by reflexivity.
    by vm_compute.
  - destruct (str_empty (getenv "CLUSDR_DATA_DIR")) eqn:He; simpl.
    + split; [|intros e ->; done]. intros h -> Hh. unfold defaultDataDir. apply str_empty_false in Hh. by rewrite Hh.
    + split; [done|]. intros e -> Hn. by rewrite Hn in He.
Qed.
End settings.

(** ** On the host of a daemon *)

Section host.
Context `{U : Unicode} `{O : OS Files} `{BF : BoltFiles DB} `{TLSLib Key Pub Cert}.
Context (ParseDuration : string → result error Duration) (getenv : string → string) (home : result error string).
Context (yaml_Unmarshal : list Z → Config.Config → result error Config.Config).
Context (yaml_Marshal : initConfig → result error (list Z)) (path_Join : string → string → string).
Context (path_Join_inj : ∀ dir a b, path_Join dir a = path_Join dir b → a = b).

Abbreviation init := (Init.init ParseDuration getenv home yaml_Unmarshal yaml_Marshal path_Join).
Abbreviation write_files := (WriteFiles path_Join (λ fs d, (fs, os_MkdirAll d)) os_WriteFile).

(** The client on a file system: a file that exists is regular. *)
Definition os_stat (fs : Files) (p : string) : option bool :=
  match os_Stat fs p with None => Some true | Some _ => None end.
Definition os_read (fs : Files) (p : string) : result error (list Z) :=
  match os_ReadFile fs p with
  | FileData b => Ok b
  | FileMissing => Fail (Errorf "no such file or directory" [])
  | FileError e => Fail e
  end.
Definition clientTLS_at (now : Time) :=
  clientTLS tls_X509KeyPair pool_AppendCertsFromPEM x509_ParseCertificate (x509_Verify now).
Definition creds_on (plaintext : client_tls) (fs : Files) (now : Time) (o : options) :=
  transportCreds getenv home plaintext (os_stat fs) (os_read fs) (clientTLS_at now) path_Join o.

(** What [WriteFiles] wrote is there. *)
Lemma written_later files fs dir p b fs' :
  Forall (λ x : string * list Z, path_Join dir x.1 ≠ p) files →
  write_present path_Join os_WriteFile fs dir files = (fs', None) →
  os_Stat fs p = None → os_ReadFile fs p = FileData b → os_Stat fs' p = None ∧ os_ReadFile fs' p = FileData b.
Proof.
  intros Hne. revert fs; induction Hne as [|[name d] files Hn _ IH]; intros fs Hw Hs Hr; simplify_eq/=; [done|].
  case_bool_decide; [|by eapply IH].
  destruct (os_WriteFile fs (path_Join dir name) d) as [fs1 [e|]] eqn:Hf; [done|].
  destruct (write_frame _ _ p _ _ _ Hf Hn) as [Hs1 Hr1]. apply (IH fs1 Hw); congruence.
Qed.

Lemma WriteFiles_written fs dir ca cert key fs' :
  ca ≠ [] → cert ≠ [] → key ≠ [] → write_files fs dir ca cert key = (fs', None) →
  Forall (λ x : string * list Z, os_Stat fs' (path_Join dir x.1) = None ∧ os_ReadFile fs' (path_Join dir x.1) = FileData x.2)
    [(caFile, ca); (certFile, cert); (keyFile, key)].
Proof.
  intros Hca Hcert Hkey Hw. unfold WriteFiles in Hw. destruct (os_MkdirAll dir); [done|].
  assert (∀ files fs, NoDup files.*1 → Forall (λ x : string * list Z, x.2 ≠ []) files →
    write_present path_Join os_WriteFile fs dir files = (fs', None) →
    Forall (λ x : string * list Z, os_Stat fs' (path_Join dir x.1) = None ∧ os_ReadFile fs' (path_Join dir x.1) = FileData x.2) files)
    as Hall.
  { clear Hw fs. intros files. induction files as [|[name d] files IH]; intros fs Hnd Hf Hw; [constructor|].
    apply NoDup_cons in Hnd as [Hnew Hnd]. apply Forall_cons in Hf as [Hd Hf]. simpl in Hw.
    rewrite bool_decide_eq_true_2 in Hw by (simpl in Hd; destruct d; [done|simpl; lia]).
    destruct (os_WriteFile fs _ d) as [fs1 [e|]] eqn:Ho; [done|]. destruct (write_read _ _ _ _ Ho) as [Hs Hr].
    constructor; [|by eapply IH]. eapply written_later; [|done..].
    apply Forall_forall. intros x Hx He%path_Join_inj. apply Hnew. apply list_elem_of_fmap. eauto. }
  apply (Hall [(CAFile, ca); (CertFile, cert); (KeyFile, key)] fs); [|by repeat constructor|done].
  by apply (bool_decide_unpack _).
Qed.

End host.

Module SdkTlsExamples.
Import PkiExamples InitExamples.
#[local] Existing Instance latin1.

Lemma join_path_inj dir a b : StoreExamples.join_path dir a = StoreExamples.join_path dir b → a = b.
Proof.
  unfold StoreExamples.join_path. intros He. induction dir as [|ch dir IH]; simplify_eq/=; [done|]. by apply IH.
Qed.

(** A year and a day after [clusdr init] an application on the same host finds the
    certificates and does not trust the daemon any more. *)
Definition served_ca : option cert :=
  match h_dbs run_ok.1 !! db_path StoreExamples.join_path (Data_Dir (Config.Defaults (Ok "/root"))) with
  | Some db =>
    match loadTLSMaterial (Some db) with
    | TxOk (ca, cert, key) =>
      match ServerTLS tls_X509KeyPair pool_AppendCertsFromPEM ca cert key with
      | Ok srv => head (tls_ClientCAs srv)
      | Fail _ => None
      end
    | _ => None
    end
  | None => None
  end.
Lemma served_ca_valid c : served_ca = Some c → valid_at (cert_of c) (366 * day).
Proof.
  assert (from_option (λ c, (x_NotBefore (cert_of c) <=? 366 * day)%Z && (366 * day <=? x_NotAfter (cert_of c))%Z) false served_ca = true)
    as Hb by (by vm_compute).
  intros Hs. rewrite Hs in Hb. simpl in Hb. apply andb_true_iff in Hb as [Hb Ha]. split; by apply Z.leb_le.
Qed.

Definition app_options : options := MkOptions "127.0.0.1:7947" false "" "app" 0 0.
End SdkTlsExamples.
