(* ===== verification/OperatorKube.v ===== *)
(** * OperatorKube: the platform behind the operator
    ([internal/operator/kube.go], [parse.go], [runtime.go], [controller.go])

    The Kubernetes API and the daemons' RPCs are parameters: [Api] has one field
    per request the code makes.  [kube] puts them behind the calls of [Operator],
    so that a reconcile runs against a cluster. *)
From S2P Require Import Prelude Membership Heartbeat LockService JoinService Units OperatorResources Operator OperatorSeed Server.

(** ** Objects without a schema *)

Inductive jv : Type :=
  | VStr (s : string) | VInt (n : Z) | VBool (b : bool) | VList (l : list jv) | VMap (m : list (string * jv)).

Record Unstructured := MkUnstructured {
  un_Namespace : string; un_Name : string; un_UID : string; un_Generation : Z; un_ResourceVersion : string;
  un_Object : list (string * jv);
}.

Fixpoint assoc {A} (k : string) (m : list (string * A)) : option A :=
  match m with
  | [] => None
  | (k', v) :: m => if String.eqb k k' then Some v else assoc k m
  end.

(** [unstructured.Nested*] with their error ignored: a value of another type is
    the zero value. *)
Definition NestedMap (m : list (string * jv)) (k : string) : list (string * jv) :=
  match assoc k m with Some (VMap x) => x | _ => [] end.
Definition NestedString (m : list (string * jv)) (k : string) : string :=
  match assoc k m with Some (VStr x) => x | _ => "" end.
Definition NestedInt64 (m : list (string * jv)) (k : string) : option Z :=
  match assoc k m with Some (VInt x) => Some x | _ => None end.
Definition NestedSlice (m : list (string * jv)) (k : string) : list jv :=
  match assoc k m with Some (VList x) => x | _ => [] end.

Definition ClusterFrom (u : option Unstructured) : result error Cluster :=
  match u with
  | None => Fail (Errorf "nil ClusdrCluster" [])
  | Some u =>
    let spec := NestedMap (un_Object u) "spec" in
    let status := NestedMap (un_Object u) "status" in
    Ok (MkCluster (un_Namespace u) (un_Name u) (un_UID u) (un_Generation u) (un_ResourceVersion u)
          (NestedString status "seedNodeName") ""
          (MkSpec (NestedString spec "topology") (default 0%Z (NestedInt64 spec "voterCount"))
             (NestedString spec "image") (NestedString spec "dataDir") (NestedString spec "seedNodeName")
             (omap (λ v, match v with VStr s => if negb (str_empty s) then Some s else None | _ => None end)
                (NestedSlice spec "leave"))))
  end.

Definition statusMap (st : Status_) : list (string * jv) :=
  let members := (λ m, VMap [("id", VStr (ms_ID m)); ("address", VStr (ms_Address m));
                             ("status", VStr (ms_Status m)); ("role", VStr (ms_Role m))]) <$> os_Members st in
  [("clusterID", VStr (os_ClusterID st)); ("leader", VStr (os_Leader st)); ("members", VList members);
   ("observedGeneration", VInt (os_ObservedGeneration st)); ("phase", VStr (os_Phase st));
   ("message", VStr (render (os_Message st))); ("warning", VStr (os_Warning st))] ++
  (if negb (str_empty (os_SeedNodeName st)) then [("seedNodeName", VStr (os_SeedNodeName st))] else []).

(** ** The API *)

Inductive api_error : Type := ApiNotFound (e : error) | ApiError (e : error).
Definition api_msg (e : api_error) : error := match e with ApiNotFound e | ApiError e => e end.
Definition IsNotFound (e : api_error) : bool := match e with ApiNotFound _ => true | _ => false end.

Record NodeObj := MkNodeObj { no_Name : string; no_Unschedulable : bool; no_Conditions : list (string * string) }.
Record PodObj := MkPodObj { po_Name : string; po_HostIP : string; po_NodeName : string; po_Containers : list (string * bool) }.

(** [get] gives the part of the object the code looks at. *)
Record Objects (W T O : Type) := MkObjects {
  ob_Get : W → string → string → result api_error O;
  ob_Create : W → string → T → W * option api_error;
}.
Arguments MkObjects {W T O}.
Arguments ob_Get {W T O}.
Arguments ob_Create {W T O}.

Record Api (W : Type) := MkApi {
  ap_Nodes : W → result api_error (list NodeObj);
  ap_Cluster : W → string → string → result api_error Unstructured;
  ap_UpdateStatus : W → string → Unstructured → W * option api_error;
  ap_PatchStatus : W → string → string → list (string * jv) → W * option api_error;
  ap_Clusters : W → result api_error (list Unstructured);
  ap_DaemonSets : Objects W DaemonSet (Z * Z);   (* DesiredNumberScheduled, NumberReady *)
  ap_Jobs : Objects W Job Z;                     (* Succeeded *)
  ap_DeleteJob : W → string → string → W * option api_error;
  ap_Pods : W → string → string → result api_error (list PodObj);
  ap_Pod : W → string → string → result api_error PodObj;
  ap_Logs : W → string → string → string → result error string;
  ap_Secrets : Objects W Secret (gmap string string);
  ap_UpdateSecret : W → string → string → gmap string string → W * option api_error;
  ap_Deployments : Objects W Deployment unit;
  ap_Claims : Objects W PersistentVolumeClaim unit;
  ap_Services : Objects W Service unit;
  ap_StatefulSets : Objects W StatefulSet unit;
}.
Arguments ap_Nodes {W}.
Arguments ap_Cluster {W}.
Arguments ap_UpdateStatus {W}.
Arguments ap_PatchStatus {W}.
Arguments ap_Clusters {W}.
Arguments ap_DaemonSets {W}.
Arguments ap_Jobs {W}.
Arguments ap_DeleteJob {W}.
Arguments ap_Pods {W}.
Arguments ap_Pod {W}.
Arguments ap_Logs {W}.
Arguments ap_Secrets {W}.
Arguments ap_UpdateSecret {W}.
Arguments ap_Deployments {W}.
Arguments ap_Claims {W}.
Arguments ap_Services {W}.
Arguments ap_StatefulSets {W}.

Section kube.
Context {W : Type} (api : Api W).

Definition lift {A} (r : result api_error A) : result error A :=
  match r with Ok a => Ok a | Fail e => Fail (api_msg e) end.
Definition lift_err (x : W * option api_error) : W * err := (x.1, api_msg <$> x.2).

(** Every [Ensure*]: get, and create if it is not found. *)
Definition ensure {T O} (objs : Objects W T O) (w : W) (ns name : string) (want : T) : W * err :=
  match ob_Get objs w ns name with
  | Ok _ => (w, None)
  | Fail e => if IsNotFound e then lift_err (ob_Create objs w ns want) else (w, Some (api_msg e))
  end.

Definition k_ReadyNodes (w : W) : result error (list string) :=
  match ap_Nodes api w with
  | Fail e => Fail (api_msg e)
  | Ok nodes =>
    Ok (no_Name <$> List.filter (λ n, negb (no_Unschedulable n) &&
          existsb (λ c, String.eqb c.1 "Ready" && String.eqb c.2 "True") (no_Conditions n)) nodes)
  end.

Definition set_assoc {A} (m : list (string * A)) (k : string) (v : A) : list (string * A) :=
  (k, v) :: List.filter (λ x, negb (String.eqb x.1 k)) m.

Definition k_ClaimSeed (w : W) (c : Cluster) (node : string) : W * err :=
  match ap_Cluster api w (cl_Namespace c) (cl_Name c) with
  | Fail e => (w, Some (api_msg e))
  | Ok u =>
    let version := if negb (str_empty (cl_ResourceVersion c)) then cl_ResourceVersion c else un_ResourceVersion u in
    let status := set_assoc (NestedMap (un_Object u) "status") "seedNodeName" (VStr node) in
    let u := MkUnstructured (un_Namespace u) (un_Name u) (un_UID u) (un_Generation u) version
               (set_assoc (un_Object u) "status" (VMap status)) in
    lift_err (ap_UpdateStatus api w (cl_Namespace c) u)
  end.

Definition k_ClusterCount (w : W) : result error Z :=
  match ap_Clusters api w with Fail e => Fail (api_msg e) | Ok l => Ok (Z.of_nat (length l)) end.

Definition k_EnsurePrepare (w : W) (spec : Spec) (c : Cluster) : W * err :=
  let want := PrepareDaemonSet (cl_Namespace c) (cl_Name c) (cl_UID c) spec in
  ensure (ap_DaemonSets api) w (cl_Namespace c) (om_Name (ds_Meta want)) want.

Definition k_PrepareReady (w : W) (c : Cluster) : result error bool :=
  match ob_Get (ap_DaemonSets api) w (cl_Namespace c) (prepareName (cl_Name c)) with
  | Fail e => if IsNotFound e then Ok false else Fail (api_msg e)
  | Ok (want, ready) => Ok ((0 <? want)%Z && (want <=? ready)%Z)
  end.

Definition k_EnsureJob (w : W) (spec : Spec) (c : Cluster) : W * err :=
  let want := SeedInitJob (cl_Namespace c) (cl_Name c) (cl_UID c) spec in
  ensure (ap_Jobs api) w (cl_Namespace c) (om_Name (jb_Meta want)) want.

Definition jobName (c : Cluster) : string :=
  if String.eqb (topology (cl_Spec c)) topoSidecar then sidecarBootJob (cl_Name c) else initJobName (cl_Name c).

Definition k_JobComplete (w : W) (c : Cluster) : result error bool :=
  match ob_Get (ap_Jobs api) w (cl_Namespace c) (jobName c) with
  | Fail e => Fail (api_msg e)
  | Ok succeeded => Ok (0 <? succeeded)%Z
  end.

Definition k_JobLogs (w : W) (c : Cluster) : result error string :=
  match ap_Pods api w (cl_Namespace c) ("job-name=" +:+ jobName c) with
  | Fail e => Fail (api_msg e)
  | Ok [] => Fail (Errorf "no init pods" [])
  | Ok (p :: _) => ap_Logs api w (cl_Namespace c) (po_Name p) "init"
  end.

Definition k_Token (w : W) (c : Cluster) : result error (option string) :=
  match ob_Get (ap_Secrets api) w (cl_Namespace c) (tokenSecretName (cl_Name c)) with
  | Fail e => if IsNotFound e then Ok None else Fail (api_msg e)
  | Ok data => let b := default "" (data !! "token") in Ok (if str_empty b then None else Some b)
  end.

Definition k_PutToken (w : W) (c : Cluster) (token : string) : W * err :=
  let name := tokenSecretName (cl_Name c) in
  match ob_Get (ap_Secrets api) w (cl_Namespace c) name with
  | Fail e =>
    if IsNotFound e
    then lift_err (ob_Create (ap_Secrets api) w (cl_Namespace c) (TokenSecret (cl_Namespace c) (cl_Name c) (cl_UID c) token))
    else (w, Some (api_msg e))
  | Ok _ => lift_err (ap_UpdateSecret api w (cl_Namespace c) name {["token" := token]})
  end.

Definition k_EnsureSeed (w : W) (spec : Spec) (c : Cluster) : W * err :=
  let want := SeedDeploy (cl_Namespace c) (cl_Name c) (cl_UID c) spec in
  ensure (ap_Deployments api) w (cl_Namespace c) (om_Name (dp_Meta want)) want.

Definition podReady (p : PodObj) : bool := default false (assoc "clusdr" (po_Containers p)).

Definition k_SeedReadyAddr (w : W) (c : Cluster) : result error string :=
  if String.eqb (topology (cl_Spec c)) topoSidecar then
    let name := stsName (cl_Name c) +:+ "-0" in
    match ap_Pod api w (cl_Namespace c) name with
    | Fail e => Fail (api_msg e)
    | Ok p => if negb (podReady p) then Fail (Errorf "sidecar-0 not ready" []) else Ok (sidecarPodDNS name c)
    end
  else
    match ap_Pods api w (cl_Namespace c) (selector (cl_Name c) compSeed) with
    | Fail e => Fail (api_msg e)
    | Ok pods =>
      match List.find (λ p, negb (str_empty (po_HostIP p)) &&
              existsb (λ x, String.eqb x.1 "clusdr" && x.2) (po_Containers p)) pods with
      | Some p => Ok (po_HostIP p +:+ ":7947")
      | None => Fail (Errorf "seed pod not ready" [])
      end
    end.

Definition k_EnsureDaemonSet (w : W) (spec : Spec) (c : Cluster) : W * err :=
  let want := MemberDaemonSet (cl_Namespace c) (cl_Name c) (cl_UID c) spec in
  ensure (ap_DaemonSets api) w (cl_Namespace c) (om_Name (ds_Meta want)) want.

Definition k_MemberPods (w : W) (c : Cluster) : result error (list PodAddr) :=
  let sidecar := String.eqb (topology (cl_Spec c)) topoSidecar in
  match ap_Pods api w (cl_Namespace c) (selector (cl_Name c) (if sidecar then compSidecar else compMember)) with
  | Fail e => Fail (api_msg e)
  | Ok pods =>
    Ok ((λ p,
      if sidecar then MkPodAddr (po_Name p) (po_HostIP p) (po_Name p) (sidecarPodDNS (po_Name p) c) (podReady p)
      else MkPodAddr (po_Name p) (po_HostIP p) (po_NodeName p)
             (memberAddr (MkPodAddr (po_Name p) (po_HostIP p) (po_NodeName p) "" (podReady p))) (podReady p)) <$> pods)
  end.

(** [json.Marshal] of these maps does not fail. *)
Definition k_PatchStatus (w : W) (c : Cluster) (st : Status_) : W * err :=
  lift_err (ap_PatchStatus api w (cl_Namespace c) (cl_Name c) (statusMap st)).

Definition k_EnsurePVC (w : W) (c : Cluster) : W * err :=
  let want := SidecarPVC0 (cl_Namespace c) (cl_Name c) (cl_UID c) in
  ensure (ap_Claims api) w (cl_Namespace c) (om_Name (pc_Meta want)) want.

Definition k_EnsureBootstrapJob (w : W) (spec : Spec) (c : Cluster) : W * err :=
  let want := SidecarBootstrapJob (cl_Namespace c) (cl_Name c) (cl_UID c) spec in
  ensure (ap_Jobs api) w (cl_Namespace c) (om_Name (jb_Meta want)) want.

Definition k_BootstrapReady (w : W) (c : Cluster) : result error bool :=
  match ap_Pods api w (cl_Namespace c) ("job-name=" +:+ sidecarBootJob (cl_Name c)) with
  | Fail e => Fail (api_msg e)
  | Ok pods => Ok (existsb podReady pods)
  end.

Definition k_JobExists (w : W) (c : Cluster) : result error bool :=
  match ob_Get (ap_Jobs api) w (cl_Namespace c) (sidecarBootJob (cl_Name c)) with
  | Fail e => if IsNotFound e then Ok false else Fail (api_msg e)
  | Ok _ => Ok true
  end.

Definition k_DeleteJob (w : W) (c : Cluster) : W * err :=
  match ap_DeleteJob api w (cl_Namespace c) (sidecarBootJob (cl_Name c)) with
  | (w, Some e) => (w, if IsNotFound e then None else Some (api_msg e))
  | (w, None) => (w, None)
  end.

Definition k_EnsureHeadless (w : W) (c : Cluster) : W * err :=
  let want := HeadlessService (cl_Namespace c) (cl_Name c) (cl_UID c) in
  ensure (ap_Services api) w (cl_Namespace c) (om_Name (sv_Meta want)) want.

Definition k_EnsureStatefulSet (w : W) (spec : Spec) (c : Cluster) : W * err :=
  let want := MemberStatefulSet (cl_Namespace c) (cl_Name c) (cl_UID c) spec in
  ensure (ap_StatefulSets api) w (cl_Namespace c) (om_Name (ss_Meta want)) want.
End kube.

(** ** The Runtime API of the daemons *)

Section runtime.
Context `{Unicode}.

(** [strings.Contains(strings.ToLower(s), sub)] for an ASCII [sub], on runes. *)
Fixpoint has_prefix (l pre : list Z) : bool :=
  match pre, l with
  | [], _ => true
  | p :: pre, x :: l => (p =? x)%Z && has_prefix l pre
  | _ :: _, [] => false
  end.
Fixpoint has_infix (l sub : list Z) : bool :=
  has_prefix l sub || match l with [] => false | _ :: l => has_infix l sub end.
Definition mentions (s sub : string) : bool := has_infix (ToLower <$> runes s) (runes sub).

Context {W : Type}.
(** The daemons: dialling, and the RPCs [RequestJoin], [RequestLeave],
    [ListMembers], [GetLeader] and [Health]. *)
Record Daemons := MkDaemons {
  dm_Dial : W → string → option error;
  dm_RequestJoin : W → string → string → string → bool → W * result announce_error (bool * string);
  dm_RequestLeave : W → string → string → W * result announce_error (bool * string);
  dm_ListMembers : W → string → result announce_error (list ProtoMember);
  dm_GetLeader : W → string → result announce_error (string * string);
  dm_Health : W → string → result announce_error string;
}.
Context (d : Daemons).

Definition raw (e : announce_error) : error := Errorf "%s" [AStr (Error_ e)].

Definition rt_Join (w : W) (localAddr seedAddr token : string) (observer : bool) : W * err :=
  match dm_Dial d w localAddr with
  | Some e => (w, Some (Errorf "dial joiner %s: %w" [AStr localAddr; AErr e]))
  | None =>
    match dm_RequestJoin d w localAddr seedAddr token observer with
    | (w, Fail e) => (w, if mentions (Error_ e) "already" then None else Some (raw e))
    | (w, Ok (joined, msg)) =>
      (w, if (joined : bool) then None else if mentions msg "already" then None
          else Some (Errorf "join rejected: %s" [AStr msg]))
    end
  end.

Definition rt_Snapshot (w : W) (seedAddr : string) : result error Status_ :=
  match dm_Dial d w seedAddr with
  | Some e => Fail (Errorf "dial seed %s: %w" [AStr seedAddr; AErr e])
  | None =>
    match dm_ListMembers d w seedAddr with
    | Fail e => Fail (raw e)
    | Ok ms =>
      let members := (λ m, MkMemberStatus (pm_Id m) (pm_Address m) (pm_Status m)
        (if pm_Leader m then "leader" else if str_empty (pm_Role m) then "voter" else pm_Role m)) <$> ms in
      let leader := match dm_GetLeader d w seedAddr with Ok (id, _) => id | Fail _ => "" end in
      let cluster := match dm_Health d w seedAddr with Ok id => id | Fail _ => "" end in
      Ok (MkStatus cluster leader "" members 0 "Ready" (Errorf "" []) "")
    end
  end.

Definition rt_Leave (w : W) (seedAddr nodeID : string) : W * err :=
  if str_empty nodeID then (w, Some (Errorf "empty leave id" [])) else
  match dm_Dial d w seedAddr with
  | Some e => (w, Some (Errorf "dial seed %s: %w" [AStr seedAddr; AErr e]))
  | None =>
    match dm_RequestLeave d w seedAddr nodeID with
    | (w, Fail e) =>
      (w, if mentions (Error_ e) "not found" || mentions (Error_ e) "already" then None else Some (raw e))
    | (w, Ok (left_, msg)) =>
      (w, if (left_ : bool) then None
          else if mentions msg "not found" || mentions msg "already" then None
          else Some (Errorf "leave rejected: %s" [AStr msg]))
    end
  end.

(** ** The platform of a reconcile *)

Context (api : Api W).

Definition kube (w : W) (R : Type) (c : call R) : W * R :=
  match c in call R return W * R with
  | ReadyNodes => (w, k_ReadyNodes api w)
  | ClaimSeed c n => k_ClaimSeed api w c n
  | EnsurePrepare spec c => k_EnsurePrepare api w spec c
  | PrepareReady c => (w, k_PrepareReady api w c)
  | EnsureJob spec c => k_EnsureJob api w spec c
  | JobComplete c => (w, k_JobComplete api w c)
  | JobLogs c => (w, k_JobLogs api w c)
  | Token c => (w, k_Token api w c)
  | PutToken c t => k_PutToken api w c t
  | EnsureSeed spec c => k_EnsureSeed api w spec c
  | SeedReadyAddr c => (w, k_SeedReadyAddr api w c)
  | EnsureDaemonSet spec c => k_EnsureDaemonSet api w spec c
  | MemberPods c => (w, k_MemberPods api w c)
  | PatchStatus c st => k_PatchStatus api w c st
  | EnsurePVC _ c => k_EnsurePVC api w c
  | EnsureBootstrapJob spec c => k_EnsureBootstrapJob api w spec c
  | BootstrapReady c => (w, k_BootstrapReady api w c)
  | JobExists c => (w, k_JobExists api w c)
  | DeleteJob c => k_DeleteJob api w c
  | EnsureHeadless _ c => k_EnsureHeadless api w c
  | EnsureStatefulSet spec c => k_EnsureStatefulSet api w spec c
  | ClusterCount => (w, k_ClusterCount api w)
  | Join l s t o => rt_Join w l s t o
  | Leave s id => rt_Leave w s id
  | Snapshot s => (w, rt_Snapshot w s)
  end.

(** ** The controller *)

Definition resync : Duration := (30 * Second)%Z.
Definition requeue : Duration := (12 * Second)%Z.
Definition syncBudget : Duration := (45 * Second)%Z.

(** What an informer hands over: the object, a tombstone with it, or something else. *)
Inductive informed : Type := InfObject (u : Unstructured) | InfTombstone (u : option Unstructured) | InfOther.
Definition enqueue_key (obj : informed) : option string :=
  match obj with
  | InfObject u | InfTombstone (Some u) => Some (un_Namespace u +:+ "/" +:+ un_Name u)
  | _ => None
  end.

(** [cache.SplitMetaNamespaceKey] is a parameter. *)
Context (range : gset string → list string) (split_key : string → result error (string * string)).

Definition sync (w : W) (key : string) : W * err :=
  match split_key key with
  | Fail e => (w, Some e)
  | Ok (ns, name) =>
    match ap_Cluster api w ns name with
    | Fail e => (w, if IsNotFound e then None else Some (api_msg e))
    | Ok u =>
      match ClusterFrom (Some u) with
      | Fail e => (w, Some e)
      | Ok cl => run (MkPlatform kube) w (Reconcile range cl)
      end
    end
  end.

(** One round of [worker] on a key it got: the queue operations that follow. *)
Inductive queue_op : Type := AddRateLimited (key : string) | Forget (key : string) | AddAfter (key : string) (d : Duration) | Done_ (key : string).
Definition worker_round (w : W) (key : string) : W * list queue_op :=
  match sync w key with
  | (w, Some _) => (w, [AddRateLimited key; Done_ key])
  | (w, None) => (w, [Forget key; AddAfter key requeue; Done_ key])
  end.
End runtime.

(** ** The token in the Secret *)

(** What the API says of Secrets: [StringData] is stored as [Data]. *)
Record secret_api {W} (api : Api W) : Prop := {
  sa_created w ns s w' : ob_Create (ap_Secrets api) w ns s = (w', None) →
    ob_Get (ap_Secrets api) w' ns (om_Name (st_Meta s)) = Ok (st_StringData s);
  sa_updated w ns name data w' : ap_UpdateSecret api w ns name data = (w', None) →
    ∃ d, ob_Get (ap_Secrets api) w' ns name = Ok d ∧ ∀ k v, data !! k = Some v → d !! k = Some v;
}.

(** The token survives: once [PutToken] has answered without an error, whether
    it created the Secret or updated one, [Token] finds that token, so the next
    reconcile neither reads logs nor starts another bootstrap. *)
Theorem operator_token_stored {W} (api : Api W) w c token w' :
  secret_api api → token ≠ "" → k_PutToken api w c token = (w', None) → k_Token api w' c = Ok (Some token).
Proof.
  intros [Hcr Hup] Hne Hput. apply str_empty_false in Hne. unfold k_PutToken in Hput. unfold k_Token.
  destruct (ob_Get (ap_Secrets api) w (cl_Namespace c) (tokenSecretName (cl_Name c))) as [data|e].
  - destruct (ap_UpdateSecret _ _ _ _ _) as [w1 [e|]] eqn:Hu; cbn in Hput; [done|]. injection Hput as <-. apply Hup in Hu as (d & -> & Hd).
    rewrite (Hd "token" token) by apply lookup_singleton_eq. simpl. by rewrite Hne.
  - destruct (IsNotFound e); [|done]. destruct (ob_Create _ _ _ _) as [w1 [e1|]] eqn:Hc; cbn in Hput; [done|]. injection Hput as <-.
    apply Hcr in Hc. cbn [st_Meta TokenSecret meta om_Name st_StringData] in Hc. rewrite Hc, lookup_singleton_eq. simpl. by rewrite Hne.
Qed.

(** ** The claim in the status *)

Lemma assoc_app {A} k (a b : list (string * A)) : assoc k (a ++ b) = match assoc k a with Some v => Some v | None => assoc k b end.
Proof. induction a as [|[k' v] a IH]; simpl; [done|]. by destruct (String.eqb k k'). Qed.

Lemma statusMap_seed st :
  assoc "seedNodeName" (statusMap st) = if str_empty (os_SeedNodeName st) then None else Some (VStr (os_SeedNodeName st)).
Proof. unfold statusMap. rewrite assoc_app. simpl. by destruct (str_empty _). Qed.

(** A merge patch replaces the fields it names and keeps the others. *)
Definition merged (patch old new : list (string * jv)) : Prop :=
  ∀ k, assoc k new = match assoc k patch with Some v => Some v | None => assoc k old end.

(** Reporting a status never loses the claim of the seed.  After a merge patch
    with what [statusMap] builds, the object names the seed it named before, unless
    the status names one itself; since every report fills in the seed of the
    reconcile, an object that was claimed stays claimed, in every phase. *)
Theorem operator_status_keeps_seed u u' st c c' :
  merged (statusMap st) (NestedMap (un_Object u) "status") (NestedMap (un_Object u') "status") →
  ClusterFrom (Some u) = Ok c → ClusterFrom (Some u') = Ok c' →
  cl_StatusSeed c' = if str_empty (os_SeedNodeName st) then cl_StatusSeed c else os_SeedNodeName st.
Proof.
  intros Hm [= <-] [= <-]. simpl. unfold NestedString. rewrite (Hm "seedNodeName"), statusMap_seed.
  by destruct (str_empty _).
Qed.

(** ** The operator and transport security *)

(** The operator dials with [mtls.BootstrapTLS]: TLS, and no certificate. *)
Definition uncertified : Peer := MkPeer true true 0.
Definition ListMembers_method : string := "/clusdr.v1alpha1.MembershipService/ListMembers".

Definition through_server {W R} (h : W → W * outcome R) (p : Peer) (method : string) (w : W) : result announce_error R :=
  match (serve Unary true p method h w).2 with
  | Answers (Ok r) => Ok r
  | Answers (Fail st) => Fail (Rpc st)
  | Panics => Fail (Plain (Errorf "connection closed" []))
  end.

Lemma ListMembers_refused {W R} (h : W → W * outcome R) w :
  through_server h uncertified ListMembers_method w = Fail (Rpc mtls_required).
Proof. unfold through_server. by rewrite serve_eq. Qed.


(** What [OperatorSeed] assumes of answers holds of this platform. *)
Lemma kube_plain `{Unicode} {W} (d : Daemons (W := W)) (api : Api W) w R (c : call R) :
  (∀ nodes, ap_Nodes api w = Ok nodes → Forall (λ n, no_Name n ≠ "") nodes) → plain c (kube d api w R c).2.
Proof.
  intros Hn. destruct c; cbn; try done.
  - unfold k_ReadyNodes. destruct (ap_Nodes api w) as [nodes|e]; [|done]. intros ns [= <-].
    specialize (Hn nodes eq_refl). apply Forall_fmap, Forall_forall. intros n [Hin _]%list_elem_of_In%List.filter_In.
    rewrite Forall_forall in Hn. apply Hn, list_elem_of_In, Hin.
  - unfold rt_Snapshot. intros st. repeat case_match; intros [= <-]; done.
Qed.

(** ** A platform that only has Secrets *)
Module OperatorKubeExamples.
#[export] Existing Instance latin1.
Abbreviation secrets := (gmap (string * string) (gmap string string)).
Definition off : api_error := ApiError (Errorf "service unavailable" []).
Definition none {T O} : Objects secrets T O := MkObjects (λ _ _ _, Fail off) (λ w _ _, (w, Some off)).
Definition api : Api secrets :=
  MkApi secrets (λ _, Fail off) (λ _ _ _, Fail off) (λ w _ _, (w, Some off)) (λ w _ _ _, (w, Some off)) (λ _, Fail off)
    none none (λ w _ _, (w, Some off)) (λ _ _ _, Fail off) (λ _ _ _, Fail off) (λ _ _ _ _, Fail (Errorf "no logs" []))
    (MkObjects
       (λ w ns name, match w !! (ns, name) with Some d => Ok d | None => Fail (ApiNotFound (Errorf "not found" [])) end)
       (λ w ns s, (<[(ns, om_Name (st_Meta s)) := st_StringData s]> w, None)))
    (λ w ns name data, (<[(ns, name) := data ∪ default ∅ (w !! (ns, name))]> w, None))
    none none none none.
Lemma api_secrets : secret_api api.
Proof.
  split; simpl.
  - intros w ns s w' [= <-]. by rewrite lookup_insert_eq.
  - intros w ns name data w' [= <-]. rewrite lookup_insert_eq. eexists. split; [done|].
    intros k v Hk. by apply lookup_union_Some_l.
Qed.
Definition c : Cluster := OperatorExamples.cluster "Sidecar".

Lemma operator_token_stored_witness : k_Token api (k_PutToken api ∅ c "4f2a").1 c = Ok (Some "4f2a").
Proof.
  apply (operator_token_stored api ∅ c "4f2a"); [apply api_secrets|done|].
  apply injective_projections; reflexivity.
Defined.

Definition claimed : Unstructured :=
  MkUnstructured "ns" "db" "uid" 1 "7" [("status", VMap [("seedNodeName", VStr "n1"); ("phase", VStr "Pending")])].
Definition ready : Status_ := MkStatus "cl" "n1" "" [] 1 "Ready" (Errorf "" []) "".
Definition patched : Unstructured :=
  MkUnstructured "ns" "db" "uid" 1 "8" [("status", VMap (statusMap ready ++ [("seedNodeName", VStr "n1"); ("phase", VStr "Pending")]))].
Lemma operator_status_keeps_seed_witness :
  ∃ c', ClusterFrom (Some patched) = Ok c' ∧ cl_StatusSeed c' = "n1".
Proof.
  eexists. split; [reflexivity|].
  refine (operator_status_keeps_seed claimed patched ready _ _ _ eq_refl eq_refl).
  intros k. apply assoc_app.
Defined.

Definition seed_daemon : Daemons (W := secrets) :=
  MkDaemons (λ _ _, None) (λ w _ _ _ _, (w, Ok (true, ""))) (λ w _ _, (w, Ok (true, "")))
    (λ w a, through_server (λ w, (w, Answers (Ok []))) uncertified ListMembers_method w)
    (λ _ _, Fail (Rpc mtls_required)) (λ _ _, Ok "cl").
End OperatorKubeExamples.
