(* ===== verification/Controller.v ===== *)
(** * Controller: the operator's queue and its process

    [controller.go] around the round of [OperatorKube]: the informer's handlers put
    keys in a rate-limited work queue of client-go, one goroutine takes them out,
    reconciles and puts them back.  The queue is a class with what its
    documentation promises of keys that wait; the informer runs beside the worker,
    so any call may find more keys than the last one left.  The process of
    [cmd/clusdr-operator] is its arguments, the configuration it finds and how it
    ends. *)
From S2P Require Import Prelude Server Units Operator OperatorSeed OperatorKube.

(** [wq_waiting] are the keys the queue will hand out, now or after a delay;
    [wq_Get] is [None] once the queue has shut down. *)
Class WorkQueue (W : Type) := {
  wq_Add : W → string → W;
  wq_AddRateLimited : W → string → W;
  wq_AddAfter : W → string → Duration → W;
  wq_Forget : W → string → W;
  wq_Done : W → string → W;
  wq_Get : W → W * option string;
  wq_ShutDown : W → W;
  wq_waiting : W → gset string;
  wq_down : W → bool;
  wq_Add_law w k : wq_down w = false → wq_down (wq_Add w k) = false ∧ {[k]} ∪ wq_waiting w ⊆ wq_waiting (wq_Add w k);
  wq_AddRateLimited_law w k :
    wq_down w = false → wq_down (wq_AddRateLimited w k) = false ∧ {[k]} ∪ wq_waiting w ⊆ wq_waiting (wq_AddRateLimited w k);
  wq_AddAfter_law w k d :
    wq_down w = false → wq_down (wq_AddAfter w k d) = false ∧ {[k]} ∪ wq_waiting w ⊆ wq_waiting (wq_AddAfter w k d);
  wq_Forget_law w k : wq_down w = false → wq_down (wq_Forget w k) = false ∧ wq_waiting w ⊆ wq_waiting (wq_Forget w k);
  wq_Done_law w k : wq_down w = false → wq_down (wq_Done w k) = false ∧ wq_waiting w ⊆ wq_waiting (wq_Done w k);
  wq_Get_law w w' k : wq_Get w = (w', Some k) → wq_down w = false →
    wq_down w' = false ∧ k ∈ wq_waiting w ∧ wq_waiting w ⊆ {[k]} ∪ wq_waiting w';
}.

Section controller.
Context `{Unicode} {W : Type} {Q : WorkQueue W} (d : Daemons (W := W)) (api : Api W).
Context (range : gset string → list string) (split_key : string → result error (string * string)).

(** ** [controller.go] *)

Definition enqueue (w : W) (obj : informed) : W :=
  match enqueue_key obj with
  | Some key => wq_Add w key
  | None => w
  end.

Definition queue_step (w : W) (o : queue_op) : W :=
  match o with
  | AddRateLimited key => wq_AddRateLimited w key
  | Forget key => wq_Forget w key
  | AddAfter key d => wq_AddAfter w key d
  | Done_ key => wq_Done w key
  end.

(** [worker]: the keys it got, and whether the loop has returned. *)
Fixpoint worker (fuel : nat) (w : W) : W * list string * bool :=
  match fuel with
  | O => (w, [], false)
  | S fuel =>
    match wq_Get w with
    | (w, None) => (w, [], true)
    | (w, Some key) =>
      let (w, ops) := worker_round d api range split_key w key in
      let '(w, keys, ended) := worker fuel (foldl queue_step w ops) in (w, key :: keys, ended)
    end
  end.

(** [Run]: [handlers] is the error of adding the event handlers, [synced] whether
    the informer's cache filled before the context ended.  The worker is then
    started and runs until [ctx.Done()], when the queue is shut down. *)
Definition Run (handlers : option error) (synced : bool) (serve : W → W) (w : W) : W * option error :=
  match handlers with
  | Some err => (w, Some err)
  | None =>
    if negb synced then (w, Some (Errorf "informer cache sync" [])) else
    (wq_ShutDown (serve w), None)
  end.

(** ** [cmd/clusdr-operator/main.go] *)

Definition versionRequested (args : list string) : bool :=
  match args with
  | [a] => bool_decide (a ∈ ["version"; "--version"; "-version"])
  | _ => false
  end.

(** Client-go's three ways to a configuration [K]: a file, the pod's service
    account, the default files. *)
Definition kubeConfig {K} (getenv : string → string) (from_file : string → result error K) (in_cluster defaults : result error K)
    : result error K :=
  let kubeconfig := getenv "KUBECONFIG" in
  if negb (str_empty kubeconfig) then from_file kubeconfig else
  match in_cluster with
  | Ok cfg => Ok cfg
  | Fail _ => defaults
  end.

(** The process: its exit status, and whether it only printed its version. *)
Definition operator_main {K} (args : list string) (cfg : result error K) (core dyn : K → option error)
    (run : K → W → W * option error) (w : W) : W * Z * bool :=
  if versionRequested args then (w, 0%Z, true) else
  match cfg with
  | Fail _ => (w, 1%Z, false)
  | Ok k =>
    match core k, dyn k with
    | Some _, _ | None, Some _ => (w, 1%Z, false)
    | None, None =>
      match run k w with
      | (w, Some _) => (w, 1%Z, false)
      | (w, None) => (w, 0%Z, false)
      end
    end
  end.

(** ** No key is lost *)

(** Reconciling leaves the queue to itself: keys may come in meanwhile, none goes. *)
Context (Hsync : ∀ w key, let w' := (sync d api range split_key w key).1 in
  wq_down w = false → wq_down w' = false ∧ wq_waiting w ⊆ wq_waiting w').

Lemma round_requeues w key :
  wq_down w = false →
  let r := worker_round d api range split_key w key in
  let w' := foldl queue_step r.1 r.2 in
  wq_down w' = false ∧ {[key]} ∪ wq_waiting w ⊆ wq_waiting w'.
Proof.
  intros Hd. pose proof (Hsync w key Hd) as Hs. unfold worker_round.
  destruct (sync d api range split_key w key) as [w1 [e|]]; simpl in *; destruct Hs as [Hd1 Hw1].
  - destruct (wq_AddRateLimited_law w1 key Hd1) as [Hd2 Hw2].
    destruct (wq_Done_law _ key Hd2) as [Hd3 Hw3]. split; [done|]. set_solver.
  - destruct (wq_Forget_law w1 key Hd1) as [Hd2 Hw2]. destruct (wq_AddAfter_law _ key requeue Hd2) as [Hd3 Hw3].
    destruct (wq_Done_law _ key Hd3) as [Hd4 Hw4]. split; [done|]. set_solver.
Qed.

End controller.

(** ** A queue, and an object that is gone *)
Module ControllerExamples.
#[export] Existing Instance latin1.

Record queue := MkQueue { q_keys : list string; q_down : bool }.
Definition put (q : queue) (k : string) : queue :=
  if q_down q || bool_decide (k ∈ q_keys q) then q else MkQueue (q_keys q ++ [k]) (q_down q).
Definition take_key (q : queue) : queue * option string :=
  match q_keys q with
  | k :: ks => (MkQueue ks (q_down q), Some k)
  | [] => (q, None)
  end.

Lemma put_law q k :
  q_down q = false → q_down (put q k) = false ∧ {[k]} ∪ list_to_set (C := gset string) (q_keys q) ⊆ list_to_set (q_keys (put q k)).
Proof.
  intros Hd. unfold put. rewrite Hd. simpl. case_bool_decide; [split; [done|]; set_solver|].
  split; [done|]. simpl. rewrite list_to_set_app_L. set_solver.
Qed.

#[export] Instance fifo : WorkQueue queue.
Proof.
  refine {|
    wq_Add := put; wq_AddRateLimited := put; wq_AddAfter q k _ := put q k; wq_Forget q _ := q; wq_Done q _ := q;
    wq_Get := take_key; wq_ShutDown q := MkQueue (q_keys q) true;
    wq_waiting q := list_to_set (q_keys q); wq_down := q_down |}.
  1-3: intros; by apply put_law.
  1-2: done.
  intros q q' k Hg Hd. unfold take_key in Hg. destruct (q_keys q) as [|k' ks] eqn:E; [done|].
  injection Hg as <- ->. simpl. split; [done|]. set_solver.
Defined.

Definition off : api_error := ApiError (Errorf "service unavailable" []).
Definition none {T O} : Objects queue T O := MkObjects (λ _ _ _, Fail off) (λ w _ _, (w, Some off)).
Definition gone : Api queue :=
  MkApi queue (λ _, Fail off) (λ _ _ _, Fail (ApiNotFound (Errorf "not found" []))) (λ w _ _, (w, Some off))
    (λ w _ _ _, (w, Some off)) (λ _, Fail off) none none (λ w _ _, (w, Some off)) (λ _ _ _, Fail off) (λ _ _ _, Fail off)
    (λ _ _ _ _, Fail (Errorf "no logs" [])) none (λ w _ _ _, (w, Some off)) none none none none.
Definition no_daemons : Daemons (W := queue) :=
  MkDaemons (λ _ _, None) (λ w _ _ _ _, (w, Ok (true, ""))) (λ w _ _, (w, Ok (true, "")))
    (λ _ _, Fail (Rpc Server.mtls_required)) (λ _ _, Fail (Rpc Server.mtls_required)) (λ _ _, Ok "cl").
Definition split (key : string) : result error (string * string) := Ok ("ns", "db").

End ControllerExamples.
