(* ===== verification/Rig.v ===== *)
(** * Rig: the in-process cluster of [clusdr-bench] and [clusdr-soak]

    [internal/bench/cluster.go] and [internal/soak/cluster.go] run several
    consensus nodes in one process and poll them until a condition holds.  The
    world [W] is that process; each node sees it through its own [RaftLib], so the
    calls are the functions of [Node].  [Clock] is the time and the context of the
    runtime; the in-memory transports of hashicorp/raft are a class with the two
    facts its documentation states. *)
From S2P Require Import Prelude Events GrantSpec Locks Leases Membership FSM Node LockService LeaseService JoinService.
From S2P Require Import Config Store Units.
From Stdlib Require Import Ascii.

(** Elements of a list with distinct keys are told apart by their key. *)
Lemma NoDup_key_inj {A} (key : A → string) l x y :
  NoDup (key <$> l) → x ∈ l → y ∈ l → key x = key y → x = y.
Proof.
  intros Hnd [i Hi]%list_elem_of_lookup [j Hj]%list_elem_of_lookup Hk.
  assert (i = j) as ->; [|congruence].
  apply (NoDup_lookup _ _ _ (key x) Hnd); rewrite list_lookup_fmap, ?Hi, ?Hj; simpl; congruence.
Qed.

(** ** Errors *)

(** The verbs of a format, in order. *)
Fixpoint verbs (format : string) : list ascii :=
  match format with
  | String "%"%char (String v rest) => v :: verbs rest
  | String _ rest => verbs rest
  | EmptyString => []
  end.

(** [errors.Is(err, target)] for a sentinel made by [errors.New(target)]: the error
    itself or one that it wraps with [%w]. *)
Fixpoint Is (e : error) (target : string) : bool :=
  match e with
  | Errorf format args =>
    (String.eqb format target && match args with [] => true | _ => false end) ||
    (fix go (vs : list ascii) (l : list arg) {struct l} : bool :=
       match vs, l with
       | v :: vs, AErr e :: l => (Ascii.eqb v "w" && Is e target) || go vs l
       | _ :: vs, _ :: l => go vs l
       | _, _ => false
       end) (verbs format) args
  end.

(** The sentinels of hashicorp/raft. *)
Definition ErrNotLeader : string := "node is not the leader".
Definition ErrLeadershipLost : string := "leadership lost while committing log".
Definition ErrLeadershipTransferInProgress : string := "leadership transfer in progress".

Definition transientLeadership (err : option error) : bool :=
  match err with
  | None => false
  | Some e => Is e ErrLeadershipLost || Is e ErrNotLeader || Is e ErrLeadershipTransferInProgress
  end.

(** ** Time and contexts *)

(** A context: its deadline, and whether a signal cancels it. *)
Record context := MkContext { cx_deadline : option Time; cx_signals : bool }.

Class Clock (W : Type) := {
  time_Now : W → Time;
  signalled : W → bool;  (* SIGINT or SIGTERM has arrived *)
  (** [select { case <-ctx.Done(): case <-time.After(d): }]: the error of the
      context if it is done. *)
  select_after : W → context → Duration → W * option ctx_error;
  select_after_timer w c d w' : select_after w c d = (w', None) → (time_Now w + d ≤ time_Now w')%Z;
  select_after_done w c d w' e : select_after w c d = (w', Some e) →
    (cx_signals c = true ∧ signalled w' = true) ∨ ∃ dl, cx_deadline c = Some dl ∧ (dl ≤ time_Now w')%Z;
}.

Definition ctx_text (e : ctx_error) : error := st_msg (FromContextError e).

Section poll.
Context `{Clock W}.

Definition ctx_Err (c : context) (w : W) : option ctx_error :=
  if cx_signals c && signalled w then Some CtxCanceled else
  match cx_deadline c with
  | Some d => if (d <=? time_Now w)%Z then Some CtxDeadlineExceeded else None
  | None => None
  end.
(** [context.WithTimeout(ctx, d)]. *)
Definition WithTimeout (c : context) (d : Duration) (w : W) : context :=
  let dl := Add (time_Now w) d in
  MkContext (Some (match cx_deadline c with Some d0 => Z.min d0 dl | None => dl end)) (cx_signals c).

Definition pollInterval : Duration := (20 * Millisecond)%Z.
Definition retryInterval : Duration := (30 * Millisecond)%Z.

(** The loop of [waitAlive], [waitHasMember], [waitGone], [waitLockGone] and
    [waitLeaseGone]: [what] is the format of its error.  [None]: out of fuel. *)
Fixpoint wait_until (c : context) (what : error → error) (ok : W → bool) (fuel : nat) (w : W)
    : W * option (option error) :=
  match fuel with
  | O => (w, None)
  | S fuel =>
    match ctx_Err c w with
    | Some e => (w, Some (Some (what (ctx_text e))))
    | None =>
      if ok w then (w, Some None) else
      match select_after w c pollInterval with
      | (w, Some e) => (w, Some (Some (what (ctx_text e))))
      | (w, None) => wait_until c what ok fuel w
      end
    end
  end.

Lemma ctx_Err_after c w d w' e : select_after w c d = (w', Some e) → ctx_Err c w' ≠ None.
Proof.
  intros [[Hc Hs]|(dl & Hd & Hle)]%select_after_done; unfold ctx_Err; [by rewrite Hc, Hs|].
  rewrite Hd. destruct (_ && _); [done|]. by destruct (Z.leb_spec dl (time_Now w')); [|lia].
Qed.
Lemma ctx_Err_deadline c w d :
  cx_deadline c = Some d → ctx_Err c w = None → (time_Now w < d)%Z.
Proof.
  unfold ctx_Err. intros ->. destruct (_ && _); [done|]. by destruct (Z.leb_spec d (time_Now w)).
Qed.

(** Enough fuel for a loop that sleeps [step] per round until the deadline. *)
Definition rounds (d : Time) (step : Duration) (w : W) : nat := S (Z.to_nat ((d - time_Now w) / step + 1)).
Lemma rounds_step_le d step w w' :
  (0 < step)%Z → (time_Now w + step ≤ time_Now w')%Z → (time_Now w ≤ d)%Z → rounds d step w' < rounds d step w.
Proof.
  intros Hs Hle Hlt. unfold rounds. apply ->Nat.succ_lt_mono.
  assert ((d - time_Now w') / step + 1 ≤ (d - time_Now w) / step)%Z.
  { transitivity ((d - time_Now w - step) / step + 1)%Z.
    - apply Z.add_le_mono_r, Z.div_le_mono; lia.
    - replace (d - time_Now w - step)%Z with (d - time_Now w + (-1) * step)%Z by lia. rewrite Z.div_add by lia. lia. }
  assert (0 ≤ (d - time_Now w) / step)%Z by (apply Z.div_pos; lia). lia.
Qed.
Lemma rounds_step d step w w' :
  (0 < step)%Z → (time_Now w + step ≤ time_Now w')%Z → (time_Now w < d)%Z → rounds d step w' < rounds d step w.
Proof. intros. apply rounds_step_le; [done..|lia]. Qed.

Lemma wait_until_spec c what ok fuel w d :
  cx_deadline c = Some d → rounds d pollInterval w ≤ fuel →
  ∃ w' r, wait_until c what ok fuel w = (w', Some r) ∧ (r = None → ok w' = true) ∧
    (∀ e, r = Some e → ∃ e', e = what (ctx_text e')).
Proof.
  intros Hd. revert w; induction fuel as [|fuel IH]; intros w Hf; [unfold rounds in Hf; lia|]. simpl.
  destruct (ctx_Err c w) as [e|] eqn:He; [by eexists _, _; split_and!; [done..|naive_solver]|].
  destruct (ok w) eqn:Hok; [by eexists _, _; split_and!; [done..|naive_solver]|].
  destruct (select_after w c pollInterval) as [w1 [e|]] eqn:Hs; [by eexists _, _; split_and!; [done..|naive_solver]|].
  apply IH. apply select_after_timer in Hs.
  pose proof (rounds_step d pollInterval w w1 ltac:(done) Hs (ctx_Err_deadline _ _ _ Hd He)). lia.
Qed.
End poll.

(** ** Nodes *)

Record bnode := MkNode { b_ID : string; b_Addr : string }.

Section cluster.
Context `{Unicode} `{Codec D Command} `{Clock W}.
(** The Raft library as each node uses it. *)
Context (rl : string → RaftLib W D).

Definition node_IsLeader (n : bnode) (w : W) : bool := @IsLeader _ W D _ (rl (b_ID n)) w.
Definition node_LeaderID (n : bnode) (w : W) : string := @Node.LeaderID _ W D _ (rl (b_ID n)) w.
Definition node_AddVoter (n : bnode) (w : W) (id addr : string) : W * option error :=
  @AddVoter _ W D _ (rl (b_ID n)) w id addr.
Definition node_ApplyAddMember (n : bnode) (w : W) (id addr : string) : W * option error :=
  @ApplyAddMember _ W D _ (rl (b_ID n)) w id addr.

(** [Leader]: the first node that says it leads. *)
Definition ClusterLeader (nodes : list bnode) (w : W) : option bnode := List.find (λ n, node_IsLeader n w) nodes.

(** One look of [waitLeaderStable] at the nodes. *)
Definition agreed (nodes : list bnode) (w : W) : option bnode :=
  match List.filter (λ n, node_IsLeader n w) nodes with
  | [l] => if forallb (λ n, String.eqb (node_LeaderID n w) (b_ID l)) nodes then Some l else None
  | _ => None
  end.

Definition no_leader (e : ctx_error) : error := Errorf "wait for leader: %w" [AErr (ctx_text e)].

Fixpoint stable_loop (c : context) (need : nat) (nodes : list bnode) (fuel stable : nat) (w : W)
    : W * option (result error bnode) :=
  match fuel with
  | O => (w, None)
  | S fuel =>
    match ctx_Err c w with
    | Some e => (w, Some (Fail (no_leader e)))
    | None =>
      let sleep stable :=
        match select_after w c pollInterval with
        | (w, Some e) => (w, Some (Fail (no_leader e)))
        | (w, None) => stable_loop c need nodes fuel stable w
        end in
      match agreed nodes w with
      | Some l => if bool_decide (need ≤ S stable) then (w, Some (Ok l)) else sleep (S stable)
      | None => sleep 0
      end
    end
  end.
Definition waitLeaderStable (c : context) (need : nat) (nodes : list bnode) (fuel : nat) (w : W) :=
  stable_loop c (Nat.max 1 need) nodes fuel 0 w.
Definition waitLeaderOf (c : context) (nodes : list bnode) (fuel : nat) (w : W) := waitLeaderStable c 3 nodes fuel w.
Definition waitFirstLeader (c : context) (nodes : list bnode) (fuel : nat) (w : W) := waitLeaderStable c 1 nodes fuel w.

(** What a call that only fails or succeeds answers. *)
Definition as_result (x : W * option error) : W * result error unit :=
  (x.1, match x.2 with None => Ok tt | Some e => Fail e end).

(** [withLeader]: [fn] on the leader, again while its error is one of leadership;
    [poll] is the fuel of each [WaitLeader].  What the closure assigns before it
    returns nil is its answer. *)
Fixpoint withLeader {A} (c : context) (nodes : list bnode) (fn : bnode → W → W * result error A) (poll fuel : nat)
    (last : option error) (w : W) : W * option (result error A) :=
  match fuel with
  | O => (w, None)
  | S fuel =>
    let fails e := match last with Some l => Some (Fail l) | None => Some (Fail e) end in
    match ctx_Err c w with
    | Some e => (w, fails (ctx_text e))
    | None =>
      match waitLeaderOf c nodes poll w with
      | (w, None) => (w, None)
      | (w, Some (Fail err)) => (w, fails err)
      | (w, Some (Ok lead)) =>
        match fn lead w with
        | (w, Ok a) => (w, Some (Ok a))
        | (w, Fail err) =>
          if negb (transientLeadership (Some err)) then (w, Some (Fail err)) else
          match select_after w c retryInterval with
          | (w, Some _) => (w, Some (Fail err))
          | (w, None) => withLeader c nodes fn poll fuel (Some err) w
          end
        end
      end
    end
  end.

(** [withAnyLeader]: without asking the others. *)
Fixpoint withAnyLeader (c : context) (nodes : list bnode) (fn : bnode → W → W * option error) (fuel : nat)
    (last : option error) (w : W) : W * option (option error) :=
  match fuel with
  | O => (w, None)
  | S fuel =>
    let fails e := match last with Some l => Some l | None => Some (ctx_text e) end in
    match ctx_Err c w with
    | Some e => (w, Some (fails e))
    | None =>
      match ClusterLeader nodes w with
      | None =>
        match select_after w c pollInterval with
        | (w, Some e) => (w, Some (fails e))
        | (w, None) => withAnyLeader c nodes fn fuel last w
        end
      | Some lead =>
        match fn lead w with
        | (w, None) => (w, Some None)
        | (w, Some err) =>
          if negb (transientLeadership (Some err)) then (w, Some (Some err)) else
          match select_after w c retryInterval with
          | (w, Some _) => (w, Some (Some err))
          | (w, None) => withAnyLeader c nodes fn fuel (Some err) w
          end
        end
      end
    end
  end.
End cluster.

(** ** Transports

    [InmemTransport] of hashicorp/raft: [Connect] adds a route to a peer,
    [Disconnect] drops it. *)
Class Transports (W : Type) := {
  tr_Connect : W → string → string → W;
  tr_Disconnect : W → string → string → W;
  linked : W → string → string → bool;
  linked_Connect w a b x y : linked (tr_Connect w a b) x y = bool_decide ((x, y) = (a, b)) || linked w x y;
  linked_Disconnect w a b x y : linked (tr_Disconnect w a b) x y = negb (bool_decide ((x, y) = (a, b))) && linked w x y;
}.

Section links.
Context `{Transports W}.

Definition connect (w : W) (a b : string) : W := tr_Connect (tr_Connect w a b) b a.
Definition disconnect (w : W) (a b : string) : W := tr_Disconnect (tr_Disconnect w a b) b a.

(** [for i { for j := i + 1; ... { connect(trans[i], trans[j]) } }] *)
Fixpoint connect_all (w : W) (addrs : list string) : W :=
  match addrs with
  | [] => w
  | a :: addrs => connect_all (foldl (λ w b, connect w a b) w addrs) addrs
  end.

Definition ends (a b x y : string) : Prop := (x, y) = (a, b) ∨ (x, y) = (b, a).

Lemma linked_connect w a b x y : linked (connect w a b) x y = true ↔ ends a b x y ∨ linked w x y = true.
Proof. unfold connect, ends. rewrite !linked_Connect, !orb_true_iff, !bool_decide_eq_true. tauto. Qed.
Lemma linked_disconnect w a b x y : linked (disconnect w a b) x y = true ↔ ¬ ends a b x y ∧ linked w x y = true.
Proof.
  unfold disconnect, ends. rewrite !linked_Disconnect, !andb_true_iff, !negb_true_iff, !bool_decide_eq_false. tauto.
Qed.

Lemma linked_connects w a l x y :
  linked (foldl (λ w b, connect w a b) w l) x y = true ↔ (∃ b, b ∈ l ∧ ends a b x y) ∨ linked w x y = true.
Proof.
  revert w; induction l as [|b l IH]; intros w; simpl; [set_solver|]. rewrite IH, linked_connect. set_solver.
Qed.
Lemma linked_disconnects w a l x y :
  linked (foldl (λ w b, disconnect w a b) w l) x y = true ↔ (∀ b, b ∈ l → ¬ ends a b x y) ∧ linked w x y = true.
Proof.
  revert w; induction l as [|b l IH]; intros w; simpl; [set_solver|]. rewrite IH, linked_disconnect. set_solver.
Qed.

(** The mesh links every two different transports. *)
Lemma linked_connect_all w addrs x y :
  x ∈ addrs → y ∈ addrs → x ≠ y → linked (connect_all w addrs) x y = true.
Proof.
  assert (∀ w addrs, linked w x y = true → linked (connect_all w addrs) x y = true) as Hkeep.
  { clear. intros w addrs. revert w; induction addrs as [|a addrs IH]; intros w Hl; simpl; [done|].
    apply IH, linked_connects. by right. }
  revert w; induction addrs as [|a addrs IH]; intros w Hx Hy Hne; simpl; [set_solver|].
  apply elem_of_cons in Hx as [->|Hx], Hy as [->|Hy]; [done|..].
  - apply Hkeep, linked_connects. left. exists y. split; [done|by left].
  - apply Hkeep, linked_connects. left. exists x. split; [done|by right].
  - by apply IH.
Qed.
End links.

(** ** The loops end by the deadline *)

Section ends.
Context `{Unicode} `{Codec D Command} `{Clock W}.
Context (rl : string → RaftLib W D).

Lemma rounds_mono d step w w' : (0 < step)%Z → (time_Now w ≤ time_Now w')%Z → rounds d step w' ≤ rounds d step w.
Proof.
  intros Hs Hle. unfold rounds. apply ->Nat.succ_le_mono.
  assert ((d - time_Now w') / step ≤ (d - time_Now w) / step)%Z by (apply Z.div_le_mono; lia). lia.
Qed.

(** A leader is reported only when the nodes agree, after [need] looks in a row,
    and the loop ends. *)
Lemma stable_loop_spec c need nodes fuel stable w d :
  cx_deadline c = Some d → rounds d pollInterval w ≤ fuel → stable < need →
  ∃ w' r, stable_loop rl c need nodes fuel stable w = (w', Some r) ∧
    ∀ l, r = Ok l → agreed rl nodes w' = Some l ∧
      (time_Now w + Z.of_nat (need - 1 - stable) * pollInterval ≤ time_Now w')%Z.
Proof.
  intros Hd. revert stable w; induction fuel as [|fuel IH]; intros stable w Hf Hlt; [unfold rounds in Hf; lia|]. simpl.
  destruct (ctx_Err c w) as [e|] eqn:He; [by eexists _, _; split|].
  assert (∀ k, k < need → (need - 1 - stable ≤ S (need - 1 - k)) →
    ∃ w' r, match select_after w c pollInterval with
            | (w, Some e) => (w, Some (Fail (no_leader e)))
            | (w, None) => stable_loop rl c need nodes fuel k w
            end = (w', Some r) ∧
      ∀ l, r = Ok l → agreed rl nodes w' = Some l ∧
        (time_Now w + Z.of_nat (need - 1 - stable) * pollInterval ≤ time_Now w')%Z) as Hsleep.
  { intros k Hk Hle. destruct (select_after w c pollInterval) as [w1 [e|]] eqn:Hs; [by eexists _, _; split|].
    apply select_after_timer in Hs.
    pose proof (rounds_step d pollInterval w w1 ltac:(done) Hs (ctx_Err_deadline _ _ _ Hd He)).
    destruct (IH k w1) as (w' & r & Hr & Hok); [lia|done|]. exists w', r. split; [done|].
    intros l Hl. destruct (Hok l Hl) as [Ha Ht]. split; [done|]. unfold pollInterval, Millisecond in *. lia. }
  destruct (agreed rl nodes w) as [l|] eqn:Ha; [|apply Hsleep; lia]. case_bool_decide.
  - eexists _, _. split; [done|]. intros l' [= <-]. split; [done|].
    replace (need - 1 - stable) with 0 by lia. simpl. lia.
  - apply Hsleep; lia.
Qed.

Lemma waitLeaderStable_spec c need nodes fuel w d :
  cx_deadline c = Some d → rounds d pollInterval w ≤ fuel →
  ∃ w' r, waitLeaderStable rl c need nodes fuel w = (w', Some r) ∧
    ∀ l, r = Ok l → agreed rl nodes w' = Some l ∧ (time_Now w + Z.of_nat (need - 1) * pollInterval ≤ time_Now w')%Z.
Proof.
  intros Hd Hf. destruct (stable_loop_spec c (Nat.max 1 need) nodes fuel 0 w d Hd Hf) as (w' & r & Hr & Hok); [lia|].
  exists w', r. split; [done|]. intros l Hl. destruct (Hok l Hl) as [Ha Ht]. split; [done|].
  replace (need - 1) with (Nat.max 1 need - 1 - 0) by lia. done.
Qed.

Lemma withAnyLeader_ends c nodes fn fuel last w d :
  cx_deadline c = Some d → rounds d pollInterval w ≤ fuel →
  (∀ l w, time_Now w ≤ time_Now (fn l w).1)%Z →
  ∃ w' r, withAnyLeader rl c nodes fn fuel last w = (w', Some r).
Proof.
  intros Hd Hf Hfn. revert last w Hf; induction fuel as [|fuel IH]; intros last w Hf; [unfold rounds in Hf; lia|]. simpl.
  destruct (ctx_Err c w) as [e|] eqn:He; [by eexists _, _|]. pose proof (ctx_Err_deadline _ _ _ Hd He) as Hlt.
  destruct (ClusterLeader rl nodes w) as [lead|].
  - pose proof (Hfn lead w) as Hm. destruct (fn lead w) as [w1 [err|]]; simpl in Hm; [|by eexists _, _].
    destruct (negb _); [by eexists _, _|].
    destruct (select_after w1 c retryInterval) as [w2 [e|]] eqn:Hs; [by eexists _, _|].
    apply select_after_timer in Hs. apply IH.
    assert (time_Now w + pollInterval ≤ time_Now w2)%Z as Hle by (unfold retryInterval, pollInterval, Millisecond in *; lia).
    pose proof (rounds_step d pollInterval w w2 ltac:(done) Hle Hlt). lia.
  - destruct (select_after w c pollInterval) as [w1 [e|]] eqn:Hs; [by eexists _, _|].
    apply select_after_timer in Hs. apply IH.
    pose proof (rounds_step d pollInterval w w1 ltac:(done) Hs Hlt). lia.
Qed.

Lemma agreed_leads nodes w l :
  agreed rl nodes w = Some l →
  l ∈ nodes ∧ node_IsLeader rl l w = true ∧
  (∀ n, n ∈ nodes → node_IsLeader rl n w = true → n = l) ∧ (∀ n, n ∈ nodes → node_LeaderID rl n w = b_ID l).
Proof.
  unfold agreed. intros Ha. destruct (List.filter _ nodes) as [|x [|]] eqn:Hf; try done.
  destruct (forallb _ nodes) eqn:Hall; simplify_eq.
  assert (∀ n, n ∈ nodes ∧ node_IsLeader rl n w = true ↔ n = l) as Hin.
  { intros n. rewrite list_elem_of_In, <-(List.filter_In (λ n, node_IsLeader rl n w)), Hf. simpl. naive_solver. }
  destruct (proj2 (Hin l) eq_refl) as [? ?]. split_and!; [done|done| |].
  - intros n Hn Hl. by apply Hin.
  - intros n Hn. rewrite forallb_forall in Hall. apply list_elem_of_In, Hall in Hn. by apply String.eqb_eq in Hn.
Qed.

Lemma withLeader_spec {A} c nodes (fn : bnode → W → W * result error A) poll fuel w d :
  cx_deadline c = Some d → rounds d pollInterval w ≤ poll → rounds d retryInterval w ≤ fuel →
  (∀ l w, time_Now w ≤ time_Now (fn l w).1)%Z →
  ∃ w' r, withLeader rl c nodes fn poll fuel None w = (w', Some r) ∧
    ∀ a, r = Ok a → ∃ l w0, agreed rl nodes w0 = Some l ∧ fn l w0 = (w', Ok a) ∧
       (time_Now w + 2 * pollInterval ≤ time_Now w0)%Z.
Proof.
  intros Hd Hp Hf Hfn.
  enough (∀ last, ∃ w' r, withLeader rl c nodes fn poll fuel last w = (w', Some r) ∧
    ∀ a, r = Ok a → ∃ l w0, agreed rl nodes w0 = Some l ∧ fn l w0 = (w', Ok a) ∧
       (time_Now w + 2 * pollInterval ≤ time_Now w0)%Z) as Hany by apply Hany.
  revert w Hp Hf. induction fuel as [|fuel IH]; intros w Hp Hf last; [unfold rounds in Hf; lia|]. simpl.
  destruct (ctx_Err c w) as [e|] eqn:He; [destruct last; eexists _, (Fail _); by split|].
  destruct (waitLeaderStable_spec c 3 nodes poll w d Hd Hp) as (w1 & r1 & Hw & Hok).
  unfold waitLeaderOf. rewrite Hw. destruct r1 as [l|err]; [|destruct last; eexists _, (Fail _); by split].
  destruct (Hok l eq_refl) as [Ha Ht]. pose proof (Hfn l w1) as Hm.
  destruct (fn l w1) as [w2 [a|err]] eqn:Hfl; simpl in Hm.
  { eexists _, (Ok a). split; [done|]. intros a' [= <-]. exists l, w1. split_and!; done. }
  destruct (negb _); [by eexists _, (Fail _)|].
  destruct (select_after w2 c retryInterval) as [w3 [e|]] eqn:Hs; [by eexists _, (Fail _)|].
  apply select_after_timer in Hs. change (Z.of_nat (3 - 1)) with 2%Z in Ht.
  assert (0 < pollInterval ∧ 0 < retryInterval)%Z as [Hpi Hri] by done.
  destruct (IH w3) with (last := Some err) as (w' & r & Hr & Hsucc).
  - etrans; [|exact Hp]. apply rounds_mono; lia.
  - assert (time_Now w + retryInterval ≤ time_Now w3)%Z as Hw3 by lia.
    pose proof (rounds_step d retryInterval w w3 Hri Hw3 (ctx_Err_deadline _ _ _ Hd He)). lia.
  - exists w', r. split; [done|]. intros a Hr'. destruct (Hsucc a Hr') as (l' & w0 & ? & ? & ?).
    exists l', w0. split_and!; [done..|lia].
Qed.

(** The helpers of the benchmark and the soak run do not hang.  With a context
    that has a deadline, and a call that does not turn back the clock, [withLeader]
    and [withAnyLeader] return within as many rounds as their sleeps fit before the
    deadline; when [withLeader] reports success, the call succeeded on a node that
    led, every node named it and nobody else led, at the end of three looks 20 ms
    apart. *)
Theorem rig_calls_end c nodes fn poll fuel w d :
  cx_deadline c = Some d → rounds d pollInterval w ≤ poll → rounds d retryInterval w ≤ fuel →
  (∀ l w, time_Now w ≤ time_Now (fn l w).1)%Z →
  (∃ w' r, withAnyLeader rl c nodes fn poll None w = (w', Some r)) ∧
  ∃ w' r, withLeader rl c nodes (λ l w, as_result (fn l w)) poll fuel None w = (w', Some r) ∧
    (r = Ok tt → ∃ l w0, fn l w0 = (w', None) ∧ (time_Now w + 2 * pollInterval ≤ time_Now w0)%Z ∧
       l ∈ nodes ∧ node_IsLeader rl l w0 = true ∧
       ∀ n, n ∈ nodes → node_LeaderID rl n w0 = b_ID l ∧ (node_IsLeader rl n w0 = true → n = l)).
Proof.
  intros Hd Hp Hf Hfn. split; [by eapply withAnyLeader_ends|].
  destruct (withLeader_spec c nodes (λ l w, as_result (fn l w)) poll fuel w d Hd Hp Hf Hfn) as (w' & r & Hr & Hok).
  exists w', r. split; [done|]. intros Hn. destruct (Hok tt Hn) as (l & w0 & Ha & Hl & Ht).
  destruct (agreed_leads _ _ _ Ha) as (Hin & Hlead & Honly & Hid).
  exists l, w0. split_and!; try done.
  - destruct (fn l w0) as [w1 [e|]]; unfold as_result in Hl; by simplify_eq/=.
  - intros n Hnin. split; [by apply Hid|by apply Honly].
Qed.
End ends.
