(* ===== verification/RigStart.v ===== *)
(** * RigStart: the in-process cluster put together and taken down

    [StartCluster], [startNode] and [Close] of [internal/bench/cluster.go], which
    [internal/soak/cluster.go] repeats: the in-memory transports are linked into a
    mesh, the nodes are made by [New] of [Startup], the first one bootstraps, the
    others become voters, and each is written into the member list.  A program of
    the rig runs on [proc]: the world and the handles that this process has open. *)
From S2P Require Import Prelude Events Locks Leases Membership FSM Bus Node Config Store App Units Startup Rig.
From stdpp Require Import pretty.

(** ** Programs: [None] is out of fuel *)

Definition prog (S A : Type) : Type := S → S * option (result error A).
#[export] Instance prog_ret S : MRet (prog S) := λ A a s, (s, Some (Ok a)).
#[export] Instance prog_bind S : MBind (prog S) := λ A B f m s,
  match m s with
  | (s, None) => (s, None)
  | (s, Some (Fail e)) => (s, Some (Fail e))
  | (s, Some (Ok a)) => f a s
  end.
Definition fails {S A} (e : error) : prog S A := λ s, (s, Some (Fail e)).
(** [if err != nil { return fmt.Errorf(...) }] *)
Definition annotate {S A} (g : error → error) (m : prog S A) : prog S A := λ s,
  match m s with (s, Some (Fail e)) => (s, Some (Fail (g e))) | r => r end.
(** The errors of [wait_until] and [withLeader]. *)
Definition checked {S} (f : S → S * option (option error)) : prog S unit := λ s,
  match f s with
  | (s, None) => (s, None)
  | (s, Some None) => (s, Some (Ok tt))
  | (s, Some (Some e)) => (s, Some (Fail e))
  end.
Fixpoint each {S A} (f : A → prog S unit) (l : list A) : prog S unit :=
  match l with
  | [] => mret tt
  | x :: l => f x ≫= λ _, each f l
  end.

Definition ends_at {S A} (m : prog S A) (s : S) : Prop := ∃ s' r, m s = (s', Some r).
Definition returns {S A} (m : prog S A) : Prop := ∀ s, ends_at m s.

Section returns.
Context {S : Type}.
Lemma returns_ret {A} (a : A) : returns (S:=S) (mret a).
Proof. intros s. by eexists _, _. Qed.
Lemma returns_fails {A} e : returns (S:=S) (A:=A) (fails e).
Proof. intros s. by eexists _, _. Qed.
Lemma returns_bind {A B} (m : prog S A) (f : A → prog S B) : returns m → (∀ a, returns (f a)) → returns (m ≫= f).
Proof.
  intros Hm Hf s. destruct (Hm s) as (s1 & [a|e] & Hr); unfold ends_at, mbind, prog_bind; rewrite Hr;
    [apply Hf|by eexists _, _].
Qed.
Lemma returns_annotate {A} g (m : prog S A) : returns m → returns (annotate g m).
Proof. intros Hm s. destruct (Hm s) as (s1 & [a|e] & Hr); unfold ends_at, annotate; rewrite Hr; by eexists _, _. Qed.
Lemma returns_each {A} (f : A → prog S unit) l : (∀ x, returns (f x)) → returns (each f l).
Proof. intros Hf. induction l as [|x l IH]; [apply returns_ret|]. apply returns_bind; [apply Hf|by intros _]. Qed.
Lemma returns_checked (f : S → S * option (option error)) :
  (∀ s, ∃ s' r, f s = (s', Some r)) → returns (checked f).
Proof. intros Hf s. unfold ends_at, checked. destruct (Hf s) as (s' & [e|] & ->); by eexists _, _. Qed.
End returns.
#[export] Hint Resolve returns_ret returns_fails returns_bind returns_annotate returns_each : clusdr.

(** ** The process *)

(** The answers of the operating system and of hashicorp/raft while a node of the
    rig is made, a new in-memory transport, and the Raft goroutines of a node that
    [New] returned. *)
Class Rigging `{Unicode} (W : Type) := {
  rig_answers : W → string → raft_env;
  rig_NewInmemTransport : W → W * string;
  rig_launch : W → RaftNode → node_fsm → W;
}.

Record proc (W : Type) := MkProc { p_world : W; p_open : list (string * handle) }.
Arguments MkProc {W}.
Arguments p_world {W}.
Arguments p_open {W}.

(** What a call on the world does in the process. *)
Definition on_world {W X} (f : W → W * X) (p : proc W) : proc W * X :=
  let (w, x) := f (p_world p) in (MkProc w (p_open p), x).

Section start.
Context `{Unicode} `{Codec D Command} `{Clock W} `{Transports W} `{RG : !Rigging W}.
Context (rl : string → RaftLib W D) (DefaultTimeouts : timeouts).

(** The fuel of a loop that polls until the deadline of its context. *)
Definition polls (c : context) (w : W) : nat :=
  match cx_deadline c with Some d => rounds d pollInterval w | None => 0 end.
Definition tries (c : context) (w : W) : nat :=
  match cx_deadline c with Some d => rounds d retryInterval w | None => 0 end.

Definition waitLeader (c : context) (nodes : list bnode) : prog (proc W) bnode :=
  on_world (λ w, waitLeaderOf rl c nodes (polls c w) w).
Definition fromLeader {A} (c : context) (nodes : list bnode) (fn : bnode → W → W * result error A) : prog (proc W) A :=
  on_world (λ w, withLeader rl c nodes fn (polls c w) (tries c w) None w).
Definition onLeader (c : context) (nodes : list bnode) (fn : bnode → W → W * option error) : prog (proc W) unit :=
  fromLeader c nodes (λ lead w, as_result (fn lead w)).
Definition onAnyLeader (c : context) (nodes : list bnode) (fn : bnode → W → W * option error) : prog (proc W) unit :=
  checked (on_world (λ w, withAnyLeader rl c nodes fn (polls c w) None w)).
Definition polling (c : context) (what : error → error) (ok : W → bool) : prog (proc W) unit :=
  checked (on_world (λ w, wait_until c what ok (polls c w) w)).

(** *** Nodes *)

Definition startNode (to : timeouts) (id : string) (bootstrap : bool) (addr : string) : prog (proc W) bnode := λ p,
  let w := p_world p in
  let fsm := MkFSM (Membership.New (time_Now w) id addr) (Some Locks.New) (Some Leases.New) in
  let cfg := MkRaftNodeConfig "" bootstrap to (Some addr) in
  let (open, r) := NewNode DefaultTimeouts (rig_answers w id) cfg id [] in
  let open := ((λ h, (id, h)) <$> open) ++ p_open p in
  match r with
  | Fail e => (MkProc w open, Some (Fail (Errorf "%s: %w" [AStr id; AErr e])))
  | Ok nd => (MkProc (rig_launch w nd fsm) open, Some (Ok (MkNode id addr)))
  end.

(** [n.Raft.Shutdown()] *)
Definition node_Shutdown (n : bnode) (p : proc W) : proc W * option error :=
  let w := p_world p in
  let id := b_ID n in
  let storeClose := re_StoreClose (rig_answers w id) in
  let stopped := (@raft_Shutdown _ W D _ (rl id) w).2 in
  let gone h e open := match e with None => List.filter (λ x, negb (bool_decide (x = (id, h)))) open | Some _ => open end in
  let (w, err) := @Node.Shutdown _ W D _ (rl id) w (Some storeClose) in
  (MkProc w (gone HRaftStore storeClose (gone HRaft stopped (p_open p))), err).

(** [Close]: every node, and the first error. *)
Fixpoint closeCluster (nodes : list bnode) (p : proc W) : proc W * option error :=
  match nodes with
  | [] => (p, None)
  | n :: nodes =>
    let (p, err) := node_Shutdown n p in
    let (p, first) := closeCluster nodes p in
    (p, match err with Some e => Some e | None => first end)
  end.

(** [if err != nil { _ = c.close(); return nil, err }] *)
Definition or_close {A} (nodes : list bnode) (m : prog (proc W) A) : prog (proc W) A := λ p,
  match m p with
  | (p, Some (Fail e)) => ((closeCluster nodes p).1, Some (Fail e))
  | r => r
  end.

(** *** The cluster *)

Definition node_id (i : nat) : string := "node-" +:+ pretty i.

Fixpoint new_transports (n : nat) (w : W) : W * list string :=
  match n with
  | O => (w, [])
  | S n => let (w, a) := rig_NewInmemTransport w in let (w, l) := new_transports n w in (w, a :: l)
  end.

(** Nodes [length started], and so on, at the transports left; the first of all bootstraps. *)
Fixpoint start_nodes (to : timeouts) (addrs : list string) (started : list bnode) : prog (proc W) (list bnode) :=
  match addrs with
  | [] => mret started
  | a :: addrs =>
    or_close started (startNode to (node_id (length started)) (bool_decide (started = [])) a)
      ≫= λ n, start_nodes to addrs (started ++ [n])
  end.

Definition background (d : Duration) (w : W) : context := MkContext (Some (Prelude.Add (time_Now w) d)) false.

(** From the started nodes to the member list; [last] is what the caller still waits for. *)
Definition assemble (nodes : list bnode) (c : context) (last : prog (proc W) unit) : prog (proc W) (list bnode) :=
  or_close nodes (annotate (λ e, Errorf "bootstrap leader: %w" [AErr e]) (waitLeader c (take 1 nodes)) ≫= λ _,
    each (λ n, annotate (λ e, Errorf "add voter %s: %w" [AStr (b_ID n); AErr e])
      (onAnyLeader c nodes (λ lead w, node_AddVoter rl lead w (b_ID n) (b_Addr n)))) (drop 1 nodes) ≫= λ _,
    waitLeader c nodes ≫= λ _,
    each (λ n, annotate (λ e, Errorf "add member %s: %w" [AStr (b_ID n); AErr e])
      (onLeader c nodes (λ lead w, node_ApplyAddMember rl lead w (b_ID n) (b_Addr n)))) nodes ≫= λ _,
    last) ≫= λ _, mret nodes.

Definition startCluster (to : timeouts) (n : nat) (last : context → list bnode → prog (proc W) unit)
    : prog (proc W) (list bnode) := λ p,
  if bool_decide (n < 3) then (p, Some (Fail (Errorf "raft cluster needs at least 3 nodes, got %d" [ANum (Z.of_nat n)]))) else
  let (w, addrs) := new_transports n (p_world p) in
  let w := connect_all w addrs in
  match start_nodes to addrs [] (MkProc w (p_open p)) with
  | (p, Some (Ok nodes)) =>
    let c := background (20 * Second) (p_world p) in
    assemble nodes c (last c nodes) p
  | (p, Some (Fail e)) => (p, Some (Fail e))
  | (p, None) => (p, None)
  end.
End start.

(** ** What comes of it *)

Definition handles_of (n : bnode) : list (string * handle) := [(b_ID n, HRaft); (b_ID n, HRaftStore)].

(** Programs that leave the open handles alone. *)
Definition keeps {W A} (m : prog (proc W) A) : Prop := ∀ p, p_open (m p).1 = p_open p.

Section keeps.
Context {W : Type}.
Lemma keeps_ret {A} (a : A) : keeps (W:=W) (mret a).
Proof. done. Qed.
Lemma keeps_bind {A B} (m : prog (proc W) A) (f : A → prog (proc W) B) : keeps m → (∀ a, keeps (f a)) → keeps (m ≫= f).
Proof.
  intros Hm Hf p. unfold mbind, prog_bind. specialize (Hm p). destruct (m p) as [p1 [[a|e]|]]; [|done..].
  by rewrite Hf.
Qed.
Lemma keeps_annotate {A} g (m : prog (proc W) A) : keeps m → keeps (annotate g m).
Proof. intros Hm p. unfold annotate. specialize (Hm p). by destruct (m p) as [p1 [[a|e]|]]. Qed.
Lemma keeps_each {A} (f : A → prog (proc W) unit) l : (∀ x, keeps (f x)) → keeps (each f l).
Proof. intros Hf. induction l as [|x l IH]; [done|]. apply keeps_bind; [apply Hf|by intros _]. Qed.
Lemma keeps_on_world {A} (f : W → W * option (result error A)) : keeps (on_world f).
Proof. intros p. unfold on_world. by destruct (f _). Qed.
Lemma keeps_checked f : keeps (W:=W) (checked (on_world f)).
Proof. intros p. unfold checked, on_world. by destruct (f _) as [w [[e|]|]]. Qed.
End keeps.
#[export] Hint Resolve keeps_ret keeps_bind keeps_annotate keeps_each keeps_on_world keeps_checked : clusdr.

Section props.
Context `{Unicode} `{Codec D Command} `{Clock W} `{Transports W} `{RG : !Rigging W}.
Context (rl : string → RaftLib W D) (dt : timeouts).

(** *** Every loop has enough fuel *)

Lemma waitLeader_returns c nodes : is_Some (cx_deadline c) → returns (waitLeader rl c nodes).
Proof.
  intros [d Hd] p. unfold ends_at, waitLeader, on_world, polls. rewrite Hd.
  destruct (waitLeaderStable_spec rl c 3 nodes (rounds d pollInterval (p_world p)) (p_world p) d Hd) as (w' & r & Hr & _); [lia|].
  unfold waitLeaderOf. rewrite Hr. by eexists _, _.
Qed.

Lemma polling_returns c what ok : is_Some (cx_deadline c) → returns (polling c what ok).
Proof.
  intros [d Hd]. apply returns_checked. intros p. unfold on_world, polls. rewrite Hd.
  destruct (wait_until_spec c what ok (rounds d pollInterval (p_world p)) (p_world p) d Hd) as (w' & r & -> & _); [lia|].
  by eexists _, _.
Qed.

(** Calls that do not turn back the clock. *)
Definition forward (fn : bnode → W → W * option error) : Prop := ∀ l w, (time_Now w ≤ time_Now (fn l w).1)%Z.

Lemma fromLeader_returns {A} c nodes (fn : bnode → W → W * result error A) :
  is_Some (cx_deadline c) → (∀ l w, time_Now w ≤ time_Now (fn l w).1)%Z → returns (fromLeader rl c nodes fn).
Proof.
  intros [d Hd] Hfn p. unfold ends_at, fromLeader, on_world, polls, tries. rewrite Hd.
  destruct (withLeader_spec rl c nodes fn _ _ (p_world p) d Hd (le_n _) (le_n _) Hfn) as (w' & r & -> & _).
  by eexists _, _.
Qed.
Lemma onLeader_returns c nodes fn : is_Some (cx_deadline c) → forward fn → returns (onLeader rl c nodes fn).
Proof. intros Hc Hfn. apply fromLeader_returns; [done|]. intros l w. apply Hfn. Qed.
Lemma onAnyLeader_returns c nodes fn : is_Some (cx_deadline c) → forward fn → returns (onAnyLeader rl c nodes fn).
Proof.
  intros [d Hd] Hfn. apply returns_checked. intros p. unfold on_world, polls. rewrite Hd.
  destruct (withAnyLeader_ends rl c nodes fn _ None (p_world p) d Hd (le_n _) Hfn) as (w' & r & ->).
  by eexists _, _.
Qed.

(** *** What is open *)

(** Nothing goes wrong while a node is shut down, and the snapshot store, whose
    error [New] answers without closing the others, is made. *)
Record orderly : Prop := {
  ord_snapshots w id : re_NewFileSnapshotStore (rig_answers w id) = None;
  ord_StoreClose w id : re_StoreClose (rig_answers w id) = None;
  ord_Shutdown w id : (@raft_Shutdown _ W D _ (rl id) w).2 = None;
}.

Lemma startNode_opens to id b addr p :
  orderly → ∃ w r, startNode dt to id b addr p =
    (MkProc w (match r with Ok n => handles_of n | Fail _ => [] end ++ p_open p), Some r) ∧
    ∀ n, r = Ok n → n = MkNode id addr.
Proof.
  intros Ho. unfold startNode, NewNode, raftTransport. pose proof (ord_snapshots Ho (p_world p) id) as Hs.
  destruct (rig_answers (p_world p) id) as [[e|] e1 e2 [e3|] e4 [e5|] [[|e6]|] e7 e8]; simpl in Hs |- *; subst e4;
    destruct b; simpl; releases;
    match goal with |- ∃ w r, (MkProc ?w0 _, Some ?r0) = _ ∧ _ => exists w0, r0 end;
    (split; [reflexivity|]); by intros n [= <-].
Qed.

Lemma node_Shutdown_frees n p :
  orderly → ∀ x, x ∈ p_open (node_Shutdown rl n p).1 ↔ x ∈ p_open p ∧ x ∉ handles_of n.
Proof.
  intros Ho x. unfold node_Shutdown. rewrite (ord_Shutdown Ho), (ord_StoreClose Ho).
  destruct (Node.Shutdown _ _) as [w e]. cbn [fst p_open].
  rewrite !list_elem_of_In, !List.filter_In, !negb_true_iff, !bool_decide_eq_false.
  unfold handles_of. simpl. intuition congruence.
Qed.

Lemma closeCluster_frees nodes p :
  orderly → ∀ x, x ∈ p_open (closeCluster rl nodes p).1 ↔ x ∈ p_open p ∧ ∀ n, n ∈ nodes → x ∉ handles_of n.
Proof.
  intros Ho x. revert p; induction nodes as [|n nodes IH]; intros p; simpl; [set_solver|].
  pose proof (node_Shutdown_frees n p Ho x) as Hn. destruct (node_Shutdown rl n p) as [p1 e].
  specialize (IH p1). destruct (closeCluster rl nodes p1) as [p2 e2]. simpl in *. set_solver.
Qed.

(** The handles of exactly the nodes [nodes] are open. *)
Definition owns (p : proc W) (nodes : list bnode) : Prop :=
  ∀ x, x ∈ p_open p ↔ ∃ n, n ∈ nodes ∧ x ∈ handles_of n.

Lemma closeCluster_owns nodes p : orderly → owns p nodes → p_open (closeCluster rl nodes p).1 = [].
Proof.
  intros Ho Hp. apply list_nil_subseteq. intros x (Hx & Hout)%closeCluster_frees; [|done].
  apply Hp in Hx as (n & Hn & Hin). by destruct (Hout n Hn).
Qed.

(** [or_close] owes nothing when it fails. *)
Lemma or_close_owns {A} nodes (m : prog (proc W) A) p :
  orderly → owns p nodes → keeps m → match or_close rl nodes m p with
  | (p', Some (Fail _)) => p_open p' = []
  | (p', r) => owns p' nodes
  end.
Proof.
  intros Ho Hp Hm. unfold or_close. specialize (Hm p). destruct (m p) as [p1 [[a|e]|]]; simpl in Hm;
    [by unfold owns; rewrite Hm| |by unfold owns; rewrite Hm].
  apply closeCluster_owns; [done|]. by unfold owns; rewrite Hm.
Qed.

Lemma start_nodes_owns to addrs started p :
  orderly → owns p started →
  ∃ p' r, start_nodes rl dt to addrs started p = (p', Some r) ∧
    match r with
    | Ok nodes => owns p' nodes ∧ b_Addr <$> nodes = (b_Addr <$> started) ++ addrs ∧
        (b_ID <$> nodes) = (b_ID <$> started) ++ (node_id <$> seq (length started) (length addrs))
    | Fail _ => p_open p' = []
    end.
Proof.
  intros Ho. revert started p; induction addrs as [|a addrs IH]; intros started p Hp.
  { eexists p, (Ok started). split; [done|]. by rewrite !app_nil_r. }
  cbn [start_nodes]. unfold mbind, prog_bind, or_close.
  destruct (startNode_opens to (node_id (length started)) (bool_decide (started = [])) a p Ho)
    as (w & [n|e] & -> & Hn); cbv beta iota zeta.
  2:{ eexists _, (Fail _). split; [done|]. by apply closeCluster_owns. }
  specialize (Hn n eq_refl) as ->. destruct (IH (started ++ [MkNode (node_id (length started)) a])
    (MkProc w (handles_of (MkNode (node_id (length started)) a) ++ p_open p))) as (p' & r & -> & Hr).
  - intros x. cbn [p_open]. rewrite elem_of_app, (Hp x). setoid_rewrite elem_of_app.
    setoid_rewrite list_elem_of_singleton. naive_solver.
  - eexists p', r. split; [done|]. destruct r as [nodes|]; [|done]. destruct Hr as (? & Ha & Hi).
    split; [done|]. rewrite Ha, Hi, !fmap_app, length_app, Nat.add_1_r, <-!app_assoc. done.
Qed.

(** *** The cluster comes up whole or not at all *)

(** No call of the Raft library turns back the clock. *)
Record steady : Prop := {
  sd_Apply id w d : (time_Now w ≤ time_Now (@raft_Apply _ W D _ (rl id) w d).1)%Z;
  sd_AddVoter id w i a : (time_Now w ≤ time_Now (@raft_AddVoter _ W D _ (rl id) w i a).1)%Z;
  sd_RemoveServer id w i : (time_Now w ≤ time_Now (@raft_RemoveServer _ W D _ (rl id) w i).1)%Z;
}.

Lemma steady_AddVoter id addr : steady → forward (λ lead w, node_AddVoter rl lead w id addr).
Proof.
  intros Hs l w. unfold node_AddVoter, AddVoter. pose proof (sd_AddVoter Hs (b_ID l) w id addr).
  by destruct (raft_AddVoter _ _ _) as [w' [e|]].
Qed.
Lemma steady_member n w cmd format : steady → (time_Now w ≤ time_Now (@apply_member _ W D _ (rl n) w cmd format).1)%Z.
Proof.
  intros Hs. unfold apply_member. destruct (encodeCommand cmd) as [d|]; [|simpl; lia].
  pose proof (sd_Apply Hs n w d). by destruct (raft_Apply _ _) as [w' [r|e]].
Qed.
Lemma steady_commit n w cmd op : steady → (time_Now w ≤ time_Now (@commit _ W D _ (rl n) w cmd op).1)%Z.
Proof.
  intros Hs. unfold commit, applyLock. destruct (encodeCommand cmd) as [d|]; [|simpl; lia].
  pose proof (sd_Apply Hs n w d). destruct (raft_Apply _ _) as [w' [[|e|r]|e]]; try done. by destruct (Err r).
Qed.

Lemma node_ids_NoDup n : NoDup (node_id <$> seq 0 n).
Proof.
  apply NoDup_fmap_2; [|apply NoDup_seq]. intros i j Hij. unfold node_id in Hij.
  by apply (inj (String.append "node-")), (inj pretty) in Hij.
Qed.

Lemma assemble_returns nodes c last :
  steady → is_Some (cx_deadline c) → returns last → returns (assemble rl nodes c last).
Proof.
  intros Hs Hc Hl. apply returns_bind; [|intros _; apply returns_ret]. intros p.
  match goal with |- ends_at (or_close rl nodes ?m) p => assert (returns m) as Hm end.
  { apply returns_bind; [by apply returns_annotate, waitLeader_returns|intros _].
    apply returns_bind; [|intros _; apply returns_bind; [by apply waitLeader_returns|intros _; apply returns_bind; [|by intros _]]];
      apply returns_each; intros n; apply returns_annotate.
    - apply onAnyLeader_returns; [done|]. by apply steady_AddVoter.
    - apply onLeader_returns; [done|]. intros l w. by apply steady_member. }
  destruct (Hm p) as (p1 & [a|e] & Hr); unfold ends_at, or_close; rewrite Hr; by eexists _, _.
Qed.

Lemma startCluster_spec to n last p :
  orderly → steady → p_open p = [] →
  (∀ c nodes, is_Some (cx_deadline c) → returns (last c nodes) ∧ keeps (last c nodes)) →
  ∃ p' r, startCluster rl dt to n last p = (p', Some r) ∧
    match r with
    | Ok nodes => 3 ≤ n ∧ b_ID <$> nodes = node_id <$> seq 0 n ∧ owns p' nodes
    | Fail _ => p_open p' = []
    end.
Proof.
  intros Ho Hs Hp Hlast. unfold startCluster. case_bool_decide as Hn; [by eexists _, (Fail _)|].
  assert (∀ n w, length (new_transports n w).2 = n) as Hlen.
  { clear. induction n as [|n IH]; intros w; [done|]. simpl. destruct (rig_NewInmemTransport w) as [w1 a].
    specialize (IH w1). destruct (new_transports n w1). simpl in *. lia. }
  specialize (Hlen n (p_world p)). destruct (new_transports n (p_world p)) as [w addrs]. simpl in Hlen. cbv beta iota zeta.
  destruct (start_nodes_owns to addrs [] (MkProc (connect_all w addrs) (p_open p)) Ho) as (p1 & r & -> & Hr).
  { rewrite Hp. intros x. set_solver. }
  destruct r as [nodes|e]; [|by eexists _, (Fail _)]. destruct Hr as (Hown & _ & Hid). simpl in Hid. rewrite Hlen in Hid.
  set (c := background _ _). destruct (Hlast c nodes) as [Hret Hkeep]; [by eexists|].
  destruct (assemble_returns nodes c (last c nodes) Hs (ltac:(by eexists)) Hret p1) as (p2 & r2 & Hr2).
  rewrite Hr2. exists p2, r2. split; [done|]. unfold assemble in Hr2. unfold mbind at 1, prog_bind at 1 in Hr2.
  match type of Hr2 with context [or_close rl nodes ?m p1] => set (stages := m) in Hr2 end.
  assert (keeps stages) as Hst by (unfold stages; eauto 20 with clusdr).
  pose proof (or_close_owns nodes stages p1 Ho Hown Hst) as Hc.
  destruct (or_close rl nodes stages p1) as [p3 [[[]|e]|]]; [| |done]; injection Hr2 as <- <-; [|done].
  split_and!; [lia|done..].
Qed.

End props.

(** ** One process on paper

    Every node shares one log; [node-0] leads.  The expirers run while the process
    sleeps; each peer of the event mesh has a bus. *)
Module ToyRig.
#[export] Existing Instance latin1.
#[export] Existing Instance LogExamples.id_codec.

Record toy := MkToy {
  ty_now : Time; ty_fsm : node_fsm; ty_links : gset (string * string); ty_next : nat;
  (** The release of this lock is committed, and the answer lost. *)
  ty_lossy : bool;
  ty_buses : gmap nat Bus;
}.
Definition with_fsm (t : toy) (f : node_fsm) (lossy : bool) : toy := MkToy (ty_now t + 1) f (ty_links t) (ty_next t) lossy (ty_buses t).
Definition with_links (t : toy) (l : gset (string * string)) : toy := MkToy (ty_now t) (ty_fsm t) l (ty_next t) (ty_lossy t) (ty_buses t).

Definition expire_all (f : node_fsm) (now : Time) : node_fsm :=
  let due := match fsm_locks f with Some t => Locks.Due t now | None => [] end in
  let f := foldl (λ f r, (applyCommand now f (MkCommand CmdLockExpire "" "" "" (lk_Name r) (lk_Token r) 0 0)).1.1) f due in
  let due := match fsm_leases f with Some t => Leases.Due t now | None => [] end in
  foldl (λ f r, (applyCommand now f (MkCommand CmdLeaseExpire "" "" "" (ls_Name r) (ls_Token r) 0 0)).1.1) f due.

#[export] Instance toy_clock : Clock toy.
Proof.
  refine {| time_Now := ty_now; signalled _ := false;
    select_after w c d := (MkToy (ty_now w + d) (expire_all (ty_fsm w) (ty_now w + d)) (ty_links w) (ty_next w) (ty_lossy w) (ty_buses w), None) |}.
  - intros w c d w' [= <-]. simpl. lia.
  - done.
Defined.

#[export] Instance toy_transports : Transports toy.
Proof.
  refine {| tr_Connect w a b := with_links w ({[ (a, b) ]} ∪ ty_links w);
    tr_Disconnect w a b := with_links w (ty_links w ∖ {[ (a, b) ]});
    linked w x y := bool_decide ((x, y) ∈ ty_links w) |}.
  all: intros w a b x y; cbn [with_links ty_links].
  - rewrite <-bool_decide_or. apply bool_decide_ext. set_solver.
  - rewrite <-bool_decide_not, <-bool_decide_and. apply bool_decide_ext. set_solver.
Defined.

#[export] Instance toy_rigging : Rigging toy := {|
  rig_answers _ _ := StartupExamples.raft_up;
  rig_NewInmemTransport w := (MkToy (ty_now w) (ty_fsm w) (ty_links w) (S (ty_next w)) (ty_lossy w) (ty_buses w), "mem-" +:+ pretty (ty_next w));
  rig_launch w _ _ := w;
|}.
Definition is_release (c : Command) : bool := match Kind c with CmdLockRelease => true | _ => false end.
Definition toy_apply (w : toy) (c : Command) : toy * result error response :=
  let r := Apply (ty_now w) (ty_fsm w) (MkLog 1 LogCommand c) in
  if ty_lossy w && is_release c then (with_fsm w r.1.1 false, Fail (Errorf ErrLeadershipLost []))
  else (with_fsm w r.1.1 (ty_lossy w), Ok r.1.2).
Definition toy_raft (id : string) : RaftLib toy Command.
Proof.
  refine {| raft_fsm := ty_fsm; raft_Apply := toy_apply; raft_GetConfiguration _ := Ok [];
    raft_AddVoter w _ _ := (w, None); raft_AddNonvoter w _ _ := (w, None); raft_RemoveServer w _ := (w, None);
    raft_State_leader _ := String.eqb id "node-0"; raft_LeaderWithID _ := ("mem-0", "node-0"); raft_Shutdown w := (w, None) |}.
  intros w d w' resp Ha. unfold toy_apply in Ha. destruct (ty_lossy w && is_release d); [done|]. injection Ha as <- <-.
  by exists [], (ty_now w), 1%Z, [].
Defined.

Definition toy0 : toy :=
  MkToy 1000 (MkFSM (Membership.New 0 "node-0" "mem-0") (Some Locks.New) (Some Leases.New)) ∅ 0 false ∅.
Lemma toy_orderly : orderly toy_raft.
Proof. by split. Qed.
Lemma toy_steady : steady toy_raft.
Proof.
  split; [|simpl; lia..]. intros id w d. simpl. unfold toy_apply. destruct (_ && _); simpl; lia.
Qed.

Definition nodes0 : list bnode := [MkNode "node-0" "mem-0"; MkNode "node-1" "mem-1"].
Definition ctx0 : context := MkContext (Some 5000000000%Z) false.

Lemma rig_calls_end_witness :
  ∃ w' r, withLeader toy_raft ctx0 nodes0 (λ l w, as_result (node_ApplyAddMember toy_raft l w "node-1" "mem-1"))
    (rounds 5000000000 pollInterval toy0) (rounds 5000000000 retryInterval toy0) None toy0 = (w', Some r).
Proof.
  destruct (rig_calls_end toy_raft ctx0 nodes0 (λ l w, node_ApplyAddMember toy_raft l w "node-1" "mem-1")
    (rounds 5000000000 pollInterval toy0) (rounds 5000000000 retryInterval toy0) toy0 5000000000) as (_ & w' & r & Hr & _).
  - reflexivity.
  - lia.
  - lia.
  - intros l w. by apply steady_member, toy_steady.
  - exists w', r. exact Hr.
Defined.

Definition lan3 : timeouts := MkTimeouts (150 * Millisecond) (150 * Millisecond) (75 * Millisecond).
End ToyRig.
