(* ===== verification/Bench.v ===== *)
(** * Bench: the benchmark of [internal/bench] behind [clusdr-bench]

    [report.go] turns samples into percentiles and a verdict; [run.go] picks and
    orders the scenarios; [locks.go], [election.go], [events.go] and [members.go]
    measure on the cluster of [Rig], an event mesh or one member list.  The time a
    sample takes is the difference of two clock readings of the world. *)
From S2P Require Import Prelude Events GrantSpec Locks Leases Membership FSM Bus Node LockService LeaseService JoinService.
From S2P Require Import Heartbeat Config Store App Units Startup Rig RigStart.
From stdpp Require Import pretty.
From Stdlib Require Import Ascii.

(** ** The report ([report.go]) *)

Definition TargetElection : Duration := (500 * Millisecond)%Z.
Definition TargetEventFanout : Duration := (100 * Millisecond)%Z.
Definition TargetLockAcquire : Duration := (50 * Millisecond)%Z.

Record Result_ := MkResult {
  r_Name : string; r_N : nat;
  r_P50 : Duration; r_P95 : Duration; r_P99 : Duration; r_Max : Duration;
  r_Target : Duration; r_Samples : list Duration; r_Passed : bool;
  r_Detail : option error;  (* [None] is the empty string *)
}.
Record Report := MkReport { rp_Results : list Result_; rp_Passed : bool }.

(** The index is computed on [int]s; a slice is far too short for [p * n] to wrap. *)
Definition percentile (sorted : list Duration) (p : Z) : Duration :=
  let n := Z.of_nat (length sorted) in
  let at_ i := nth (Z.to_nat i) sorted 0%Z in
  if (n =? 0)%Z then 0%Z else
  if (p <=? 0)%Z then at_ 0%Z else
  if (100 <=? p)%Z then at_ (n - 1)%Z else
  let idx := ((p * n + 99) `quot` 100 - 1)%Z in
  let idx := if (idx <? 0)%Z then 0%Z else idx in
  let idx := if (n <=? idx)%Z then (n - 1)%Z else idx in
  at_ idx.

(** [slices.Sort] on durations. *)
Definition sort_durations (l : list Duration) : list Duration := merge_sort Z.le l.

Definition summarize (name : string) (samples : list Duration) (target : Duration) : Result_ :=
  match samples with
  | [] => MkResult name 0 0 0 0 0 target [] (target =? 0)%Z (Some (Errorf "no samples" []))
  | _ =>
    let sorted := sort_durations samples in
    let p95 := percentile sorted 95 in
    let missed := (0 <? target)%Z && (target <? p95)%Z in
    MkResult name (length samples) (percentile sorted 50) p95 (percentile sorted 99)
      (nth (length sorted - 1) sorted 0%Z) target samples (negb missed)
      (if missed then Some (Errorf "p95 %s exceeds target %s" [ANum p95; ANum target]) else None)
  end.

(** The status column of [WriteText]. *)
Definition row_status (r : Result_) : string :=
  if bool_decide (r_N r = 0) then "SKIP" else if r_Passed r then "PASS" else "FAIL".
(** Whether [WriteText] prints the detail of a row. *)
Definition row_detail (r : Result_) : option error := if r_Passed r then None else r_Detail r.

(** ** Percentiles *)

(** The number of samples up to [v]. *)
Definition upto (v : Z) (l : list Z) : Z := Z.of_nat (length (List.filter (λ x, x <=? v)%Z l)).

Lemma upto_perm v l1 l2 : l1 ≡ₚ l2 → upto v l1 = upto v l2.
Proof.
  intros Hp. unfold upto. f_equal. apply Permutation_length.
  induction Hp; simpl; repeat case_match; eauto using Permutation.
Qed.
Lemma upto_app v l1 l2 : upto v (l1 ++ l2) = (upto v l1 + upto v l2)%Z.
Proof. unfold upto. rewrite List.filter_app, length_app. lia. Qed.
Lemma upto_bounds v l : (0 ≤ upto v l ≤ Z.of_nat (length l))%Z.
Proof. unfold upto. pose proof (List.filter_length_le (λ x, x <=? v)%Z l). lia. Qed.
Lemma upto_all v l : Forall (λ x, x ≤ v)%Z l → upto v l = Z.of_nat (length l).
Proof.
  unfold upto. induction 1 as [|x l Hx _ IH]; simpl; [done|]. rewrite (proj2 (Z.leb_le x v)) by done. simpl. lia.
Qed.
Lemma upto_none v l : Forall (λ x, v < x)%Z l → upto v l = 0%Z.
Proof.
  unfold upto. induction 1 as [|x l Hx _ IH]; simpl; [done|]. by rewrite (proj2 (Z.leb_gt x v)) by done.
Qed.

(** In a sorted list the element at [i] has at least [i + 1] elements up to it, and
    a smaller value has at most [i]. *)
Lemma sorted_upto l i v :
  StronglySorted Z.le l → l !! i = Some v →
  (Z.of_nat i + 1 ≤ upto v l)%Z ∧ ∀ v', (v' < v)%Z → (upto v' l ≤ Z.of_nat i)%Z.
Proof.
  intros Hs Hi. pose proof (lookup_lt_Some _ _ _ Hi) as Hlt.
  rewrite <-(take_drop_middle l i v Hi) in Hs |- *.
  apply StronglySorted_app in Hs as (Hcross & _ & Htail). apply StronglySorted_cons in Htail as [Htail _].
  assert (length (take i l) = i) as Hlen by (rewrite length_take; lia). split.
  - rewrite upto_app. change (v :: drop (S i) l) with ([v] ++ drop (S i) l). rewrite upto_app.
    rewrite (upto_all v (take i l)), (upto_all v [v]), Hlen; [simpl; pose proof (upto_bounds v (drop (S i) l)); lia| |].
    + by constructor.
    + apply Forall_forall. intros x Hx. apply (Hcross x v Hx). by left.
  - intros v' Hv'. rewrite upto_app, (upto_none v' (v :: _)).
    + pose proof (upto_bounds v' (take i l)). lia.
    + constructor; [done|]. eapply Forall_impl; [exact Htail|]. simpl. lia.
Qed.

Lemma percentile_index l p :
  l ≠ [] → (1 ≤ p ≤ 99)%Z →
  let n := Z.of_nat (length l) in
  ∃ i, l !! i = Some (percentile l p) ∧ (100 * Z.of_nat i < p * n ≤ 100 * (Z.of_nat i + 1))%Z.
Proof.
  intros Hne Hp n. unfold percentile. fold n.
  assert (0 < n)%Z as Hn by (unfold n; destruct l; [done|simpl; lia]).
  rewrite (proj2 (Z.eqb_neq n 0)), (proj2 (Z.leb_gt p 0)), (proj2 (Z.leb_gt 100 p)) by lia.
  rewrite Z.quot_div_nonneg by nia. set (q := ((p * n + 99) `div` 100)%Z).
  assert (100 * q ≤ p * n + 99 < 100 * q + 100)%Z as Hq.
  { pose proof (Z.div_mod (p * n + 99) 100 ltac:(lia)). pose proof (Z.mod_pos_bound (p * n + 99) 100 ltac:(lia)).
    unfold q. lia. }
  assert (1 ≤ q ≤ n)%Z as Hqn by nia.
  rewrite (proj2 (Z.ltb_ge (q - 1) 0)), (proj2 (Z.leb_gt n (q - 1))) by lia.
  exists (Z.to_nat (q - 1)). split; [|lia].
  destruct (lookup_lt_is_Some_2 l (Z.to_nat (q - 1))) as [v Hv]; [unfold n in *; lia|].
  rewrite Hv. by rewrite (nth_lookup_Some l _ 0%Z v Hv).
Qed.

Lemma sort_durations_sorted l : StronglySorted Z.le (sort_durations l).
Proof. apply StronglySorted_merge_sort; [intros ???; lia|]. intros x y. lia. Qed.

(** [percentile] is the nearest rank, and the verdict means what it says: for a
    percentage from 1 to 99 it is the least sample such that at least that share of
    the samples is not above it; a scenario with a target passes exactly when it has
    samples and at least 95 % of them are within the target, whatever the order
    they came in. *)
Theorem bench_percentile_exact name samples target p :
  (samples ≠ [] → (1 ≤ p ≤ 99)%Z →
   let n := Z.of_nat (length samples) in
   let v := percentile (sort_durations samples) p in
   v ∈ samples ∧ (p * n ≤ 100 * upto v samples)%Z ∧ ∀ v', (v' < v)%Z → (100 * upto v' samples < p * n)%Z) ∧
  ((0 < target)%Z →
   r_Passed (summarize name samples target) = true ↔
   samples ≠ [] ∧ (95 * Z.of_nat (length samples) ≤ 100 * upto target samples)%Z).
Proof.
  assert (∀ p, samples ≠ [] → (1 ≤ p ≤ 99)%Z →
    let n := Z.of_nat (length samples) in
    let v := percentile (sort_durations samples) p in
    v ∈ samples ∧ (p * n ≤ 100 * upto v samples)%Z ∧ ∀ v', (v' < v)%Z → (100 * upto v' samples < p * n)%Z) as Hrank.
  { clear p. intros p Hne Hp n v. assert (sort_durations samples ≡ₚ samples) as Hperm by apply merge_sort_Permutation.
    assert (sort_durations samples ≠ []) as Hne'.
    { intros Hs. rewrite Hs in Hperm. by apply Permutation_nil_l in Hperm. }
    destruct (percentile_index _ p Hne' Hp) as (i & Hi & Hb). rewrite (Permutation_length Hperm) in Hb.
    fold n in Hb. fold v in Hi. destruct (sorted_upto _ i v (sort_durations_sorted samples) Hi) as [Hge Hlt].
    rewrite (upto_perm _ _ _ Hperm) in Hge. split_and!; [|lia|].
    - rewrite <-Hperm. by eapply list_elem_of_lookup_2.
    - intros v' Hv'. specialize (Hlt v' Hv'). rewrite (upto_perm _ _ _ Hperm) in Hlt. lia. }
  split; [apply Hrank|]. intros Ht. destruct samples as [|x l]; [simpl|].
  { rewrite (proj2 (Z.eqb_neq target 0)) by lia. split; [done|]. by intros []. }
  destruct (Hrank 95%Z ltac:(done) ltac:(lia)) as (_ & Hge & Hlt).
  assert (∀ a b l, (a ≤ b)%Z → (upto a l ≤ upto b l)%Z) as Hmono.
  { clear. intros a b l Hab. induction l as [|x l IH]; [done|]. unfold upto in *. simpl.
    destruct (Z.leb_spec x a), (Z.leb_spec x b); simpl; lia. }
  cbn [summarize r_Passed]. rewrite (proj2 (Z.ltb_lt 0 target)) by done. simpl andb.
  rewrite negb_true_iff, Z.ltb_ge. split.
  - intros Hle. split; [done|]. specialize (Hmono _ _ (x :: l) Hle). lia.
  - intros [_ Hgt]. destruct (Z.le_gt_cases (percentile (sort_durations (x :: l)) 95) target) as [|Hgt']; [done|].
    specialize (Hlt _ Hgt'). lia.
Qed.

(** ** Configuration ([run.go]) *)

Record Config := MkConfig {
  c_Nodes : Z; c_EventNodes : Z; c_ElectionOps : Z; c_EventOps : Z; c_LockOps : Z; c_MemberOps : Z;
  c_Scenarios : list string;
}.

(** [if *p <= 0 { *p = d }] *)
Definition orDefault (v d : Z) : Z := if (v <=? 0)%Z then d else v.

Section config.
Context `{Unicode}.

(** [strings.ToLower] on the runes of a trimmed ASCII name, back as a string. *)
Definition scenario_name (s : string) : string := string_of (lower_trim s).

Definition normalize (c : Config) : result error Config :=
  let nodes := orDefault (c_Nodes c) 3 in
  if (nodes <? 3)%Z then Fail (Errorf "nodes must be >= 3, got %d" [ANum nodes]) else
  let evs := orDefault (c_EventNodes c) 25 in
  if (evs <? 2)%Z then Fail (Errorf "event-nodes must be >= 2, got %d" [ANum evs]) else
  let scenarios := match c_Scenarios c with [] => ["election"; "events"; "members"; "locks"] | l => l end in
  Ok (MkConfig nodes evs (orDefault (c_ElectionOps c) 5) (orDefault (c_EventOps c) 10) (orDefault (c_LockOps c) 50)
        (orDefault (c_MemberOps c) 100) (scenario_name <$> scenarios)).
End config.

Definition wants (c : Config) (name : string) : bool :=
  bool_decide ("all" ∈ c_Scenarios c) || bool_decide (name ∈ c_Scenarios c).

(** ** Locks ([locks.go]) *)

Definition alreadyReleased (err : option error) : bool :=
  match err with
  | None => false
  | Some e => Contains (render e) "is not held" || Contains (render e) "fencing token mismatch"
  end.

Definition warmup : nat := 5.
Definition lock_name (i : nat) : string := "bench-" +:+ pretty i.
Definition sample_error (format : string) (i : nat) (e : error) : error := Errorf format [ANum (Z.of_nat i); AErr e].

Section measure.
Context `{Unicode} `{Codec D Command} `{Clock W}.
Context (rl : string → RaftLib W D).

Definition node_Acquire (n : bnode) (w : W) (name : string) : W * result error (Z * bool) :=
  @ApplyLockAcquire _ W D _ (rl (b_ID n)) (time_Now w) w name "bench" Hour.
Definition node_Release (n : bnode) (w : W) (name : string) (tok : Z) : W * option error :=
  @ApplyLockRelease _ W D _ (rl (b_ID n)) w name "bench" tok.

(** [cl.WaitLeader] under a timeout of ten seconds. *)
Definition leaderWithin (ctx : context) (nodes : list bnode) (poll : nat) (w : W) : W * option (result error bnode) :=
  waitLeaderOf rl (WithTimeout ctx (10 * Second) w) nodes poll w.

(** The inner loop: release the lock of sample [i]; the leader and the retries so
    far come back. *)
Fixpoint release_loop (ctx : context) (nodes : list bnode) (poll fuel i : nat) (tok : Z) (lead : bnode) (retries : nat) (w : W)
    : W * option (result error (bnode * nat)) :=
  match fuel with
  | O => (w, None)
  | S fuel =>
    let (w, err) := node_Release lead w (lock_name i) tok in
    match err with
    | None => (w, Some (Ok (lead, retries)))
    | Some e =>
      if alreadyReleased err then (w, Some (Ok (lead, retries))) else
      if negb (transientLeadership err) then (w, Some (Fail (sample_error "locks sample %d: release: %w" i e))) else
      let retries := S retries in
      if bool_decide (20 < retries) then (w, Some (Fail (sample_error "locks sample %d: release: %w" i e))) else
      match leaderWithin ctx nodes poll w with
      | (w, None) => (w, None)
      | (w, Some (Fail e)) => (w, Some (Fail (sample_error "locks sample %d: leader: %w" i e)))
      | (w, Some (Ok lead)) => release_loop ctx nodes poll fuel i tok lead retries w
      end
    end
  end.

(** The outer loop up to [total] samples, warm-up included. *)
Fixpoint locks_loop (ctx : context) (nodes : list bnode) (poll relfuel : nat) (total fuel i : nat) (lead : bnode)
    (retries : nat) (samples : list Duration) (w : W) : W * option (result error (list Duration)) :=
  if bool_decide (total ≤ i) then (w, Some (Ok samples)) else
  match fuel with
  | O => (w, None)
  | S fuel =>
    match ctx_Err ctx w with
    | Some e => (w, Some (Fail (ctx_text e)))
    | None =>
      let look := if negb (node_IsLeader rl lead w) then leaderWithin ctx nodes poll w else (w, Some (Ok lead)) in
      match look with
      | (w, None) => (w, None)
      | (w, Some (Fail e)) => (w, Some (Fail (sample_error "locks sample %d: leader: %w" i e)))
      | (w, Some (Ok lead)) =>
        let start := time_Now w in
        let (w, r) := node_Acquire lead w (lock_name i) in
        let elapsed := (time_Now w - start)%Z in
        match r with
        | Fail e =>
          if transientLeadership (Some e) then
            let retries := S retries in
            if bool_decide (20 < retries) then (w, Some (Fail (sample_error "locks sample %d: acquire: %w" i e))) else
            match leaderWithin ctx nodes poll w with
            | (w, None) => (w, None)
            | (w, Some (Fail e)) => (w, Some (Fail (sample_error "locks sample %d: leader: %w" i e)))
            | (w, Some (Ok lead)) => locks_loop ctx nodes poll relfuel total fuel i lead retries samples w
            end
          else (w, Some (Fail (sample_error "locks sample %d: acquire: %w" i e)))
        | Ok (_, false) => (w, Some (Fail (Errorf "locks sample %d: not acquired" [ANum (Z.of_nat i)])))
        | Ok (tok, true) =>
          let samples := if bool_decide (warmup ≤ i) then samples ++ [elapsed] else samples in
          match release_loop ctx nodes poll relfuel i tok lead 0 w with
          | (w, None) => (w, None)
          | (w, Some (Fail e)) => (w, Some (Fail e))
          | (w, Some (Ok (lead, retries))) => locks_loop ctx nodes poll relfuel total fuel (S i) lead retries samples w
          end
        end
      end
    end
  end.

Definition measureLocks (ctx : context) (nodes : list bnode) (poll relfuel fuel ops : nat) (w : W)
    : W * option (result error Result_) :=
  match leaderWithin ctx nodes poll w with
  | (w, None) => (w, None)
  | (w, Some (Fail e)) => (w, Some (Fail (Errorf "locks: leader: %w" [AErr e])))
  | (w, Some (Ok lead)) =>
    match locks_loop ctx nodes poll relfuel (ops + warmup) fuel 0 lead 0 [] w with
    | (w, None) => (w, None)
    | (w, Some (Fail e)) => (w, Some (Fail e))
    | (w, Some (Ok samples)) => (w, Some (Ok (summarize "locks" samples TargetLockAcquire)))
    end
  end.

(** ** Enough fuel *)

(** Polls within ten seconds. *)
Definition pollFuel : nat := 502.

Lemma WithTimeout_deadline ctx w d :
  ∃ dl, cx_deadline (WithTimeout ctx d w) = Some dl ∧ (dl ≤ time_Now w + d)%Z.
Proof. eexists. split; [done|]. unfold Prelude.Add. destruct (cx_deadline ctx); lia. Qed.

Lemma leaderWithin_ends ctx nodes w :
  ∃ w' r, leaderWithin ctx nodes pollFuel w = (w', Some r) ∧ ∀ l, r = Ok l → agreed rl nodes w' = Some l.
Proof.
  destruct (WithTimeout_deadline ctx w (10 * Second)) as (dl & Hdl & Hle).
  destruct (waitLeaderStable_spec rl (WithTimeout ctx (10 * Second) w) 3 nodes pollFuel w dl Hdl) as (w' & r & Hr & Hok).
  - unfold rounds, pollFuel. assert ((dl - time_Now w) / pollInterval ≤ 500)%Z; [|lia].
    apply Z.div_le_upper_bound; [done|]. unfold pollInterval, Second, Millisecond in *. lia.
  - exists w', r. split; [exact Hr|]. intros l Hl. by destruct (Hok l Hl).
Qed.

Lemma release_loop_ends ctx nodes i tok fuel lead retries w :
  20 < fuel + retries → retries ≤ 20 →
  ∃ w' r, release_loop ctx nodes pollFuel fuel i tok lead retries w = (w', Some r) ∧
    ∀ l k, r = Ok (l, k) → k ≤ 20.
Proof.
  revert lead retries w; induction fuel as [|fuel IH]; intros lead retries w Hf Hr; [lia|]. simpl.
  destruct (node_Release lead w (lock_name i) tok) as [w1 [e|]].
  2:{ eexists _, _. split; [done|]. intros l k [= _ <-]. done. }
  destruct (alreadyReleased _). { eexists _, _. split; [done|]. intros l k [= _ <-]. done. }
  destruct (negb _); [by eexists _, _|]. case_bool_decide; [by eexists _, _|].
  destruct (leaderWithin_ends ctx nodes w1) as (w2 & [l|e2] & -> & _); [|by eexists _, _].
  apply IH; lia.
Qed.

Lemma locks_loop_ends ctx nodes total fuel i lead retries samples w :
  (total - i) * 22 + (21 - retries) ≤ fuel → retries ≤ 20 →
  length samples = i - warmup →
  ∃ w' r, locks_loop ctx nodes pollFuel 21 total fuel i lead retries samples w = (w', Some r) ∧
    ∀ l, r = Ok l → length l = Nat.max i total - warmup.
Proof.
  revert i lead retries samples w; induction fuel as [|fuel IH]; intros i lead retries samples w Hf Hr Hs;
    cbn [locks_loop]; cbv zeta.
  all: case_bool_decide as Hi; [eexists _, _; split; [done|]; intros l [= <-]; lia|].
  { lia. }
  destruct (ctx_Err ctx w); [by eexists _, _|].
  assert (∃ w' r, (if negb (node_IsLeader rl lead w) then leaderWithin ctx nodes pollFuel w else (w, Some (Ok lead))) =
    (w', Some r)) as (w1 & r1 & ->).
  { destruct (negb _); [|by eexists _, _]. destruct (leaderWithin_ends ctx nodes w) as (w1 & r1 & -> & _). by eexists _, _. }
  destruct r1 as [lead1|]; [|by eexists _, _].
  destruct (node_Acquire lead1 w1 (lock_name i)) as [w2 [[tok []]|e]]; [|by eexists _, _|].
  - destruct (release_loop_ends ctx nodes i tok 21 lead1 0 w2) as (w3 & [[lead2 k]|] & -> & Hk); [lia|lia| |by eexists _, _].
    specialize (Hk _ _ eq_refl). destruct (IH (S i) lead2 k (if bool_decide (warmup ≤ i)
      then samples ++ [(time_Now w2 - time_Now w1)%Z] else samples) w3) as (w' & r & Hrun & Hl).
    + lia.
    + done.
    + case_bool_decide; rewrite ?length_app; cbn [length]; unfold warmup in *; lia.
    + exists w', r. split; [done|]. intros l Hl'. rewrite (Hl l Hl'). lia.
  - destruct (transientLeadership _); [|by eexists _, _]. case_bool_decide; [by eexists _, _|].
    destruct (leaderWithin_ends ctx nodes w2) as (w3 & [l|e2] & -> & _); [|by eexists _, _].
    apply IH; [lia|lia|done].
Qed.

(** The lock scenario ends, and counts right: whatever the cluster answers, it
    makes at most [22 * (ops + 6)] acquires and 21 releases for each, every wait
    for a leader is given up after ten seconds, and when it reports a result, that
    is the verdict on exactly [ops] samples, the warm-up left out. *)
Lemma measureLocks_spec ctx nodes ops w :
  ∃ w' r, measureLocks ctx nodes pollFuel 21 (22 * (ops + 6)) ops w = (w', Some r) ∧
    ∀ res, r = Ok res → ∃ samples, length samples = ops ∧ res = summarize "locks" samples TargetLockAcquire.
Proof.
  unfold measureLocks. destruct (leaderWithin_ends ctx nodes w) as (w1 & [lead|e] & -> & _); [|by eexists _, _].
  destruct (locks_loop_ends ctx nodes (ops + warmup) (22 * (ops + 6)) 0 lead 0 [] w1) as (w2 & [l|e] & -> & Hl);
    [unfold warmup; lia|lia|done| |by eexists _, _].
  eexists _, _. split; [done|]. intros res [= <-]. exists l. split; [|done]. rewrite (Hl l eq_refl). lia.
Qed.
End measure.

(** ** Elections ([election.go], [cluster.go]) *)

Section election.
Context `{Unicode} `{Codec D Command} `{Clock W} `{Transports W}.
Context (rl : string → RaftLib W D).

Definition byID (nodes : list bnode) (id : string) : result error bnode :=
  match List.find (λ n, String.eqb (b_ID n) id) nodes with
  | Some n => Ok n
  | None => Fail (Errorf "unknown node %s" [AStr id])
  end.
Definition except (nodes : list bnode) (id : string) : list bnode := List.filter (λ n, negb (String.eqb (b_ID n) id)) nodes.

Definition Isolate (nodes : list bnode) (id : string) (w : W) : W * option error :=
  match byID nodes id with
  | Fail e => (w, Some e)
  | Ok cut => (foldl (λ w b, disconnect w (b_Addr cut) b) w (b_Addr <$> except nodes id), None)
  end.
Definition Heal (nodes : list bnode) (id : string) (w : W) : W * option error :=
  match byID nodes id with
  | Fail e => (w, Some e)
  | Ok cut => (foldl (λ w b, connect w (b_Addr cut) b) w (b_Addr <$> except nodes id), None)
  end.

(** One sample. *)
Definition elect_once (ctx : context) (nodes : list bnode) (poll i : nat) (w : W) : W * option (result error Duration) :=
  match ctx_Err ctx w with
  | Some e => (w, Some (Fail (ctx_text e)))
  | None =>
    match leaderWithin rl ctx nodes poll w with
    | (w, None) => (w, None)
    | (w, Some (Fail e)) => (w, Some (Fail (sample_error "election sample %d: stable leader: %w" i e)))
    | (w, Some (Ok lead)) =>
      let majority := except nodes (b_ID lead) in
      let start := time_Now w in
      match Isolate nodes (b_ID lead) w with
      | (w, Some e) => (w, Some (Fail e))
      | (w, None) =>
        match waitFirstLeader rl (WithTimeout ctx (10 * Second) w) majority poll w with
        | (w, None) => (w, None)
        | (w, Some r) =>
          let elapsed := (time_Now w - start)%Z in
          let (w, healErr) := Heal nodes (b_ID lead) w in
          match r, healErr with
          | Fail e, _ => (w, Some (Fail (sample_error "election sample %d: majority did not elect: %w" i e)))
          | Ok _, Some e => (w, Some (Fail e))
          | Ok _, None =>
            match leaderWithin rl ctx nodes poll w with
            | (w, None) => (w, None)
            | (w, Some (Fail e)) => (w, Some (Fail (sample_error "election sample %d: cluster did not heal: %w" i e)))
            | (w, Some (Ok _)) => (w, Some (Ok elapsed))
            end
          end
        end
      end
    end
  end.

(** [k] samples are still to come, the next is number [i]. *)
Fixpoint elections (ctx : context) (nodes : list bnode) (poll k i : nat) (samples : list Duration) (w : W)
    : W * option (result error (list Duration)) :=
  match k with
  | O => (w, Some (Ok samples))
  | S k =>
    match elect_once ctx nodes poll i w with
    | (w, None) => (w, None)
    | (w, Some (Fail e)) => (w, Some (Fail e))
    | (w, Some (Ok d)) => elections ctx nodes poll k (S i) (samples ++ [d]) w
    end
  end.
Definition measureElection (ctx : context) (nodes : list bnode) (poll ops : nat) (w : W)
    : W * option (result error Result_) :=
  match elections ctx nodes poll ops 0 [] w with
  | (w, None) => (w, None)
  | (w, Some (Fail e)) => (w, Some (Fail e))
  | (w, Some (Ok samples)) => (w, Some (Ok (summarize "election" samples TargetElection)))
  end.

(** *** The mesh *)

Definition mesh (nodes : list bnode) (w : W) : Prop :=
  ∀ x y, x ∈ b_Addr <$> nodes → y ∈ b_Addr <$> nodes → x ≠ y → linked w x y = true.

Lemma byID_Ok nodes id n : byID nodes id = Ok n → n ∈ nodes ∧ b_ID n = id.
Proof.
  unfold byID. destruct (List.find _ nodes) as [x|] eqn:Hf; [|done]. intros [= ->].
  apply List.find_some in Hf as [Hin Hid]. apply String.eqb_eq in Hid. split; [by apply list_elem_of_In|done].
Qed.
Lemma except_elem nodes id n : n ∈ except nodes id ↔ n ∈ nodes ∧ b_ID n ≠ id.
Proof. unfold except. by rewrite list_elem_of_In, List.filter_In, <-list_elem_of_In, negb_true_iff, String.eqb_neq. Qed.

(** After a cut and a mend the mesh is whole again, and in between the cut node
    is linked to nobody while the others keep their links. *)
Lemma isolate_heal nodes id w w1 :
  NoDup (b_ID <$> nodes) → NoDup (b_Addr <$> nodes) → mesh nodes w → Isolate nodes id w = (w1, None) →
  (∃ cut, byID nodes id = Ok cut ∧
    (∀ n, n ∈ nodes → b_ID n ≠ id → linked w1 (b_Addr cut) (b_Addr n) = false ∧ linked w1 (b_Addr n) (b_Addr cut) = false) ∧
    mesh (except nodes id) w1) ∧
  ∀ w2, (∀ x y, linked w2 x y = linked w1 x y) → (Heal nodes id w2).2 = None ∧ mesh nodes (Heal nodes id w2).1.
Proof.
  intros Hid Had Hm Hi. unfold Isolate in Hi. destruct (byID nodes id) as [cut|] eqn:Hc; [|done].
  injection Hi as <-. destruct (byID_Ok _ _ _ Hc) as [Hcut Hcid].
  assert (∀ n, n ∈ nodes → b_ID n ≠ id → b_Addr n ≠ b_Addr cut) as Hne.
  { intros n Hn Hni Heq. apply Hni. by rewrite (NoDup_key_inj b_Addr nodes n cut). }
  assert (∀ n, n ∈ nodes → b_ID n = id → n = cut) as Hsame.
  { intros n Hn Hni. apply (NoDup_key_inj b_ID nodes); congruence. }
  assert (∀ b, b ∈ b_Addr <$> except nodes id ↔ ∃ n, n ∈ nodes ∧ b_ID n ≠ id ∧ b = b_Addr n) as Hex.
  { intros b. rewrite list_elem_of_fmap. setoid_rewrite except_elem. naive_solver. }
  assert (∀ nx ny, nx ∈ nodes → ny ∈ nodes → b_ID nx ≠ id → b_ID ny ≠ id → ∀ b, b ∈ b_Addr <$> except nodes id →
    ¬ ends (b_Addr cut) b (b_Addr nx) (b_Addr ny)) as Hfar.
  { intros nx ny Hx Hy Hix Hiy b (nb & Hnb & Hib & ->)%Hex [[= ? ?]|[= ? ?]]; [by eapply (Hne nx)|by eapply (Hne ny)]. }
  split.
  - exists cut. split; [done|]. split.
    + intros n Hn Hni. split; apply not_true_iff_false; rewrite linked_disconnects; intros [Hall _];
        eapply (Hall (b_Addr n)); [by apply Hex; exists n|by left|by apply Hex; exists n|by right].
    + intros x y Hx Hy Hxy. apply linked_disconnects. apply Hex in Hx as (nx & Hnx & Hix & ->), Hy as (ny & Hny & Hiy & ->).
      split; [by apply Hfar|]. apply Hm; [by apply list_elem_of_fmap_2..|done].
  - intros w2 Hw2. unfold Heal. rewrite Hc. split; [done|]. intros x y Hx Hy Hxy. simpl.
    apply linked_connects. rewrite Hw2, linked_disconnects.
    apply list_elem_of_fmap in Hx as (nx & -> & Hnx), Hy as (ny & -> & Hny).
    destruct (decide (b_ID nx = id)) as [Hix|Hix]; [|destruct (decide (b_ID ny = id)) as [Hiy|Hiy]].
    + left. rewrite (Hsame nx Hnx Hix) in *. exists (b_Addr ny). split; [|by left].
      apply Hex. exists ny. split_and!; [done| |done]. intros Hiy. by rewrite (Hsame ny Hny Hiy) in Hxy.
    + left. rewrite (Hsame ny Hny Hiy) in *. exists (b_Addr nx). split; [by apply Hex; exists nx|by right].
    + right. split; [by apply Hfar|]. apply Hm; [by apply list_elem_of_fmap_2..|done].
Qed.

(** *** Every sample mends what it cut *)

(** Waiting does not touch the transports. *)
Definition waiting_keeps_links : Prop :=
  ∀ (w : W) c d x y, linked (select_after w c d).1 x y = linked w x y.

Lemma stable_loop_links c need nodes fuel stable w x y :
  waiting_keeps_links → linked (stable_loop rl c need nodes fuel stable w).1 x y = linked w x y.
Proof.
  intros Hk. revert stable w; induction fuel as [|fuel IH]; intros stable w; [done|]. simpl.
  destruct (ctx_Err c w); [done|].
  assert (∀ k, linked (match select_after w c pollInterval with
    | (w, Some e) => (w, Some (Fail (no_leader e)))
    | (w, None) => stable_loop rl c need nodes fuel k w end).1 x y = linked w x y) as Hsleep.
  { intros k. specialize (Hk w c pollInterval x y). destruct (select_after w c pollInterval) as [w1 [e|]]; [done|].
    by rewrite IH. }
  destruct (agreed rl nodes w); [|apply Hsleep]. case_bool_decide; [done|apply Hsleep].
Qed.
Lemma leaderWithin_mesh ctx nodes poll w : waiting_keeps_links → mesh nodes w → mesh nodes (leaderWithin rl ctx nodes poll w).1.
Proof. intros Hk Hm x y ???. unfold leaderWithin, waitLeaderOf, waitLeaderStable. rewrite stable_loop_links by done. by apply Hm. Qed.

Lemma waitFirst_links c nodes poll w x y :
  waiting_keeps_links → linked (waitFirstLeader rl c nodes poll w).1 x y = linked w x y.
Proof. apply stable_loop_links. Qed.

Lemma waitFirst_ends ctx nodes w :
  ∃ w' r, waitFirstLeader rl (WithTimeout ctx (10 * Second) w) nodes pollFuel w = (w', Some r).
Proof.
  destruct (WithTimeout_deadline ctx w (10 * Second)) as (dl & Hdl & Hle).
  destruct (waitLeaderStable_spec rl (WithTimeout ctx (10 * Second) w) 1 nodes pollFuel w dl Hdl) as (w' & r & Hr & _).
  - unfold rounds, pollFuel. assert ((dl - time_Now w) / pollInterval ≤ 500)%Z; [|lia].
    apply Z.div_le_upper_bound; [done|]. unfold pollInterval, Second, Millisecond in *. lia.
  - by exists w', r.
Qed.

Lemma elect_once_mesh ctx nodes i w :
  waiting_keeps_links → NoDup (b_ID <$> nodes) → NoDup (b_Addr <$> nodes) → mesh nodes w →
  ∃ w' r, elect_once ctx nodes pollFuel i w = (w', Some r) ∧ mesh nodes w'.
Proof.
  intros Hk Hid Had Hm. unfold elect_once. destruct (ctx_Err ctx w); [by eexists _, _|].
  pose proof (leaderWithin_mesh ctx nodes pollFuel w Hk Hm) as Hm1.
  destruct (leaderWithin_ends rl ctx nodes w) as (w1 & [lead|e] & Hl & _); rewrite Hl in Hm1 |- *; [|by eexists _, _].
  destruct (Isolate nodes (b_ID lead) w1) as [w2 [e|]] eqn:Hi.
  { eexists _, _. split; [done|]. unfold Isolate in Hi. by destruct (byID nodes (b_ID lead)); simplify_eq. }
  destruct (isolate_heal nodes (b_ID lead) w1 w2 Hid Had Hm1 Hi) as [_ Hheal].
  set (majority := except nodes (b_ID lead)). destruct (waitFirst_ends ctx majority w2) as (w3 & r & Hw).
  rewrite Hw. assert (∀ x y, linked w3 x y = linked w2 x y) as Hl3.
  { intros x y. pose proof (waitFirst_links (WithTimeout ctx (10 * Second) w2) majority pollFuel w2 x y Hk) as Hx.
    rewrite Hw in Hx. exact Hx. }
  destruct (Hheal w3 Hl3) as [Hnone Hm4]. destruct (Heal nodes (b_ID lead) w3) as [w4 e4]. simpl in Hnone, Hm4. subst e4.
  destruct r as [l|e]; [|by eexists _, _].
  pose proof (leaderWithin_mesh ctx nodes pollFuel w4 Hk Hm4) as Hm5.
  destruct (leaderWithin_ends rl ctx nodes w4) as (w5 & [l5|e5] & Hl5 & _); rewrite Hl5 in Hm5 |- *; by eexists _, _.
Qed.

Lemma elect_once_ends ctx nodes i w : ∃ w' r, elect_once ctx nodes pollFuel i w = (w', Some r).
Proof.
  unfold elect_once. destruct (ctx_Err ctx w); [by eexists _, _|].
  destruct (leaderWithin_ends rl ctx nodes w) as (w1 & [lead|e] & -> & _); [|by eexists _, _].
  destruct (Isolate nodes (b_ID lead) w1) as [w2 [e|]]; [by eexists _, _|].
  destruct (waitFirst_ends ctx (except nodes (b_ID lead)) w2) as (w3 & r & ->).
  destruct (Heal nodes (b_ID lead) w3) as [w4 e4]. destruct r as [l|e]; [|by eexists _, _]. destruct e4; [by eexists _, _|].
  destruct (leaderWithin_ends rl ctx nodes w4) as (w5 & [l5|e5] & -> & _); by eexists _, _.
Qed.
Lemma measureElection_ends ctx nodes ops w : ∃ w' r, measureElection ctx nodes pollFuel ops w = (w', Some r).
Proof.
  unfold measureElection. assert (∀ k i samples w, ∃ w' r, elections ctx nodes pollFuel k i samples w = (w', Some r)) as Hloop.
  { clear w. induction k as [|k IH]; intros i samples w; [by eexists _, _|].
    destruct (elect_once_ends ctx nodes i w) as (w1 & [d|e] & Hr); cbn [elections]; rewrite Hr; [apply IH|by eexists _, _]. }
  destruct (Hloop ops 0 [] w) as (w' & [l|e] & ->); by eexists _, _.
Qed.

(** The election scenario gives back the cluster it was given.  Whatever the
    outcome of a sample, an error included, the node that was cut off is linked
    again to all the others before the next; the scenario ends, every wait given up
    after ten seconds, and a result is the verdict on exactly [ops] samples. *)
Theorem bench_election_mends ctx nodes ops w :
  waiting_keeps_links → NoDup (b_ID <$> nodes) → NoDup (b_Addr <$> nodes) → mesh nodes w →
  ∃ w' r, measureElection ctx nodes pollFuel ops w = (w', Some r) ∧ mesh nodes w' ∧
    ∀ res, r = Ok res → ∃ samples, length samples = ops ∧ res = summarize "election" samples TargetElection.
Proof.
  intros Hk Hid Had Hm. unfold measureElection.
  assert (∀ k i samples w, mesh nodes w → ∃ w' r, elections ctx nodes pollFuel k i samples w = (w', Some r) ∧
    mesh nodes w' ∧ ∀ l, r = Ok l → length l = length samples + k) as Hloop.
  { clear w Hm. induction k as [|k IH]; intros i samples w Hm.
    { eexists _, (Ok samples). split_and!; [done|done|]. intros l [= <-]. lia. }
    destruct (elect_once_mesh ctx nodes i w Hk Hid Had Hm) as (w1 & [d|e] & Hr & Hm1); simpl; rewrite Hr.
    - destruct (IH (S i) (samples ++ [d]) w1 Hm1) as (w' & r & Hw & ? & Hlen). exists w', r. split_and!; [done..|].
      intros l Hl. rewrite (Hlen l Hl), length_app. simpl. lia.
    - by eexists _, (Fail e). }
  destruct (Hloop ops 0 [] w Hm) as (w' & [l|e] & -> & Hm' & Hlen); [|by eexists _, (Fail e)].
  eexists _, (Ok _). split_and!; [done|done|]. intros res [= <-]. exists l. split; [by apply Hlen|done].
Qed.
End election.

(** ** Events ([events.go]) *)

(** A mesh of daemons in one process: the sockets and gRPC of the runtime, and the
    bus of each peer, which the services of the peer publish to. *)
Class EventMesh (W : Type) := {
  em_Listen : W → W * result error string;
  em_NewClient : W → string → option error;
  em_Serve : W → nat → Bus → Engine → W;
  em_bus : W → nat → Bus;
  em_set_bus : W → nat → Bus → W;
  (** [PublishEvent] on the client of the first peer: topic and payload. *)
  em_PublishEvent : W → context → string → list Z → W * option error;
}.
(** The bytes of [strconv.Itoa]. *)
Definition Itoa (i : nat) : list Z := bytes_of (pretty i).

Record eventPeer := MkPeer { ep_id : string; ep_addr : string; ep_mem : Engine }.

Section events.
Context `{Unicode} `{Clock W} `{EM : !EventMesh W}.

Definition evt_id (i : nat) : string := "evt-" +:+ pretty i.

(** The peers [i], and so on, of [n] more.  The events of their member lists reach
    buses that nobody has subscribed to. *)
Fixpoint listen_peers (n i : nat) (w : W) : W * result error (list eventPeer) :=
  match n with
  | O => (w, Ok [])
  | S n =>
    match em_Listen w with
    | (w, Fail e) => (w, Fail (Errorf "listen: %w" [AErr e]))
    | (w, Ok addr) =>
      let mem := Membership.New (time_Now w) (evt_id i) addr in
      let mem := MkEngine (selfID mem) (leaderID mem) (members mem) (dropped mem) true in
      let w := em_Serve w i Bus.New mem in
      match em_NewClient w addr with
      | Some e => (w, Fail (Errorf "dial %s: %w" [AStr (evt_id i); AErr e]))
      | None =>
        match listen_peers n (S i) w with
        | (w, Fail e) => (w, Fail e)
        | (w, Ok l) => (w, Ok (MkPeer (evt_id i) addr mem :: l))
        end
      end
    end
  end.

(** [a.mem.Join(b.id, b.addr)] for the others [l], or the first error. *)
Fixpoint join_all (now : Time) (mem : Engine) (l : list (string * string)) : result error Engine :=
  match l with
  | [] => Ok mem
  | (id, addr) :: l =>
    match (Membership.Join now mem id addr).1 with
    | (_, Fail e) => Fail e
    | (mem, Ok _) => join_all now mem l
    end
  end.
Definition others (i : nat) (l : list eventPeer) : list (string * string) :=
  (λ p, (ep_id p, ep_addr p)) <$> (take i l ++ drop (S i) l).
Fixpoint join_peers (now : Time) (all l : list eventPeer) (i : nat) : result error (list eventPeer) :=
  match l with
  | [] => Ok []
  | a :: l =>
    match join_all now (ep_mem a) (others i all) with
    | Fail e => Fail e
    | Ok mem =>
      match join_peers now all l (S i) with
      | Fail e => Fail e
      | Ok rest => Ok (MkPeer (ep_id a) (ep_addr a) mem :: rest)
      end
    end
  end.
Definition startEventMesh (n : nat) (w : W) : W * result error (list eventPeer) :=
  match listen_peers n 0 w with
  | (w, Fail e) => (w, Fail e)
  | (w, Ok peers) => (w, join_peers (time_Now w) peers peers 0)
  end.

(** *** The wait *)

(** A subscription: the peer, its id on the peer's bus, and whether its event has
    come ([pending] in the code). *)
Record sub := MkWaiter { wa_peer : nat; wa_id : Z; wa_got : bool }.
Definition left (l : list sub) : nat := length (List.filter (λ s, negb (wa_got s)) l).
Definition wanted (typ : string) (payload : list Z) (e : Event) : bool :=
  String.eqb (ev_Type e) typ && match ev_Payload e with RawBytes b => bool_decide (b = payload) | _ => false end.

(** One look at every subscription that still misses the event. *)
Fixpoint sweep (typ : string) (payload : list Z) (l : list sub) (w : W) : W * list sub :=
  match l with
  | [] => (w, [])
  | s :: l =>
    let '(w, s) :=
      if wa_got s then (w, s) else
      match Recv (em_bus w (wa_peer s)) (wa_id s) with
      | (b, Some e) => (em_set_bus w (wa_peer s) b, MkWaiter (wa_peer s) (wa_id s) (wanted typ payload e))
      | (_, None) => (w, s)
      end in
    let (w, l) := sweep typ payload l w in (w, s :: l)
  end.

Fixpoint fanout_loop (c : context) (deadline : Time) (typ : string) (payload : list Z) (fuel : nat) (l : list sub) (w : W)
    : W * option (option error) :=
  match fuel with
  | O => (w, None)
  | S fuel =>
    if bool_decide (left l = 0) then (w, Some None) else
    if (deadline <? time_Now w)%Z
    then (w, Some (Some (Errorf "fanout: %d/%d peers still missing the event"
                           [ANum (Z.of_nat (left l)); ANum (Z.of_nat (length l))]))) else
    let (w, l) := sweep typ payload l w in
    if bool_decide (left l = 0) then (w, Some None) else
    match select_after w c Millisecond with
    | (w, Some e) => (w, Some (Some (Errorf "fanout: %w" [AErr (ctx_text e)])))
    | (w, None) => fanout_loop c deadline typ payload fuel l w
    end
  end.
Definition waitFanout (c : context) (subs : list (nat * Z)) (typ : string) (payload : list Z) (w : W)
    : W * option (option error) :=
  let l := (λ s, MkWaiter s.1 s.2 false) <$> subs in
  let c := match cx_deadline c with Some _ => c | None => WithTimeout c (5 * Second) w end in
  let deadline := default 0%Z (cx_deadline c) in
  fanout_loop c deadline typ payload (rounds deadline Millisecond w) l w.

Definition drain_subs (subs : list (nat * Z)) (w : W) : W :=
  foldl (λ w s, em_set_bus w s.1 (Drain (em_bus w s.1) s.2).1) w subs.
Fixpoint subscribe_all (n i : nat) (w : W) : W * list (nat * Z) :=
  match n with
  | O => (w, [])
  | S n =>
    let (b, id) := Subscribe (em_bus w i) 64 in
    let (w, l) := subscribe_all n (S i) (em_set_bus w i b) in (w, (i, id) :: l)
  end.

(** Samples [i], and so on, of [k] more. *)
Fixpoint event_samples (ctx : context) (subs : list (nat * Z)) (k i : nat) (samples : list Duration) (w : W)
    : W * option (result error (list Duration)) :=
  match k with
  | O => (w, Some (Ok samples))
  | S k =>
    match ctx_Err ctx w with
    | Some e => (w, Some (Fail (ctx_text e)))
    | None =>
      let w := drain_subs subs w in
      let payload := Itoa i in
      let start := time_Now w in
      match em_PublishEvent w (WithTimeout ctx (5 * Second) w) "bench" payload with
      | (w, Some e) => (w, Some (Fail (sample_error "event sample %d: publish: %w" i e)))
      | (w, None) =>
        match waitFanout ctx (drop 1 subs) (CustomType "bench") payload w with
        | (w, None) => (w, None)
        | (w, Some (Some e)) => (w, Some (Fail (sample_error "event sample %d: %w" i e)))
        | (w, Some None) => event_samples ctx subs k (S i) (samples ++ [(time_Now w - start)%Z]) w
        end
      end
    end
  end.
Definition measureEvents (ctx : context) (n ops : nat) (w : W) : W * option (result error Result_) :=
  match startEventMesh n w with
  | (w, Fail e) => (w, Some (Fail e))
  | (w, Ok peers) =>
    let (w, subs) := subscribe_all (length peers) 0 w in
    match event_samples ctx subs ops 0 [] w with
    | (w, None) => (w, None)
    | (w, Some (Fail e)) => (w, Some (Fail e))
    | (w, Some (Ok samples)) => (w, Some (Ok (summarize "events" samples TargetEventFanout)))
    end
  end.

(** *** The wait is exact *)

Context (Hclock : ∀ w i b, time_Now (em_set_bus w i b) = time_Now w).

(** Subscription [s] received the event in some world between the two times. *)
Definition received (typ : string) (payload : list Z) (t0 t1 : Time) (s : nat * Z) : Prop :=
  ∃ w e, (Recv (em_bus w s.1) s.2).2 = Some e ∧ wanted typ payload e = true ∧ (t0 ≤ time_Now w ≤ t1)%Z.
Definition key (s : sub) : nat * Z := (wa_peer s, wa_id s).

Lemma sweep_spec typ payload l w :
  time_Now (sweep typ payload l w).1 = time_Now w ∧ key <$> (sweep typ payload l w).2 = key <$> l ∧
  ∀ s, s ∈ (sweep typ payload l w).2 → wa_got s = true →
    (∃ s0, s0 ∈ l ∧ wa_got s0 = true ∧ key s0 = key s) ∨ received typ payload (time_Now w) (time_Now w) (key s).
Proof.
  revert w; induction l as [|s l IH]; intros w; [split_and!; [done..|intros s Hs; by apply not_elem_of_nil in Hs]|]. simpl.
  assert (∃ w1 s1, (if wa_got s then (w, s) else
      match Recv (em_bus w (wa_peer s)) (wa_id s) with
      | (b, Some e) => (em_set_bus w (wa_peer s) b, MkWaiter (wa_peer s) (wa_id s) (wanted typ payload e))
      | (_, None) => (w, s) end) = (w1, s1) ∧ time_Now w1 = time_Now w ∧ key s1 = key s ∧
      (wa_got s1 = true → wa_got s = true ∨ received typ payload (time_Now w) (time_Now w) (key s))) as (w1 & s1 & -> & Ht & Hk & Hg).
  { destruct (wa_got s) eqn:Hgot; [exists w, s; auto|].
    destruct (Recv (em_bus w (wa_peer s)) (wa_id s)) as [b [e|]] eqn:Hr; [|exists w, s; split_and!; [done..|congruence]].
    eexists _, _. split_and!; [done|by rewrite Hclock|done|]. intros Hw. right. exists w, e.
    split_and!; [by simpl; rewrite Hr|done|lia..]. }
  destruct (IH w1) as (Ht1 & Hk1 & Hs1). destruct (sweep typ payload l w1) as [w2 l2]. simpl in *.
  split_and!; [congruence|by f_equal|]. intros x Hx Hxg. apply elem_of_cons in Hx as [->|Hx].
  - rewrite Hk. destruct (Hg Hxg) as [?|?]; [left|by right]. exists s. split_and!; [by left|done..].
  - rewrite <-Ht. destruct (Hs1 x Hx Hxg) as [(s0 & ? & ? & ?)|?]; [left|by right]. exists s0. split_and!; [by right|done..].
Qed.

Lemma fanout_loop_spec c d typ payload fuel l w t0 :
  (t0 ≤ time_Now w)%Z → rounds d Millisecond w ≤ fuel →
  (∀ s, s ∈ l → wa_got s = true → received typ payload t0 d (key s)) →
  ∃ w' r, fanout_loop c d typ payload fuel l w = (w', Some r) ∧
    (r = None → ∀ s, s ∈ key <$> l → received typ payload t0 d s).
Proof.
  assert (∀ l, left l = 0 → (∀ s, s ∈ l → wa_got s = true → received typ payload t0 d (key s)) →
    ∀ s, s ∈ key <$> l → received typ payload t0 d s) as Hdone.
  { intros l0 Hz Hr s (x & -> & Hx)%list_elem_of_fmap. apply Hr; [done|].
    destruct (wa_got x) eqn:Hg; [done|]. exfalso. apply length_zero_iff_nil in Hz.
    assert (x ∈ List.filter (λ s, negb (wa_got s)) l0) as Hin.
    { apply list_elem_of_In, List.filter_In. by rewrite Hg; split; [apply list_elem_of_In|]. }
    rewrite Hz in Hin. by apply not_elem_of_nil in Hin. }
  revert l w; induction fuel as [|fuel IH]; intros l w Ht Hf Hr; [unfold rounds in Hf; lia|]. simpl.
  case_bool_decide as Hz; [eexists _, None; split; [done|]; by intros _; apply Hdone|].
  destruct (Z.ltb_spec d (time_Now w)) as [|Hle]; [by eexists _, (Some _)|].
  destruct (sweep_spec typ payload l w) as (Ht1 & Hk1 & Hs1). destruct (sweep typ payload l w) as [w1 l1]. simpl in *.
  assert (∀ s, s ∈ l1 → wa_got s = true → received typ payload t0 d (key s)) as Hr1.
  { intros s Hs Hg. destruct (Hs1 s Hs Hg) as [(s0 & ? & ? & <-)|(w0 & e & ? & ? & ?)]; [by apply Hr|].
    exists w0, e. split_and!; [done..|lia|lia]. }
  case_bool_decide as Hz'; [eexists _, None; split; [done|]; rewrite <-Hk1; by intros _; apply Hdone|].
  destruct (select_after w1 c Millisecond) as [w2 [e|]] eqn:Hsel; [by eexists _, (Some _)|].
  apply select_after_timer in Hsel. rewrite <-Hk1. apply IH; [unfold Millisecond in *; lia| |done].
  pose proof (rounds_step_le d Millisecond w w2 ltac:(done) ltac:(lia) Hle). lia.
Qed.

(** The fan-out measured by the benchmark is real.  The wait ends by its
    deadline, that of the context or five seconds from now; and it reports success
    only when every subscription of the other peers has received, since the wait
    began and before the deadline, an event with the published type and payload. *)
Lemma waitFanout_spec c subs typ payload w :
  let d := match cx_deadline c with Some d => d | None => Prelude.Add (time_Now w) (5 * Second) end in
  ∃ w' r, waitFanout c subs typ payload w = (w', Some r) ∧
    (r = None → ∀ s, s ∈ subs → received typ payload (time_Now w) d s).
Proof.
  intros d. unfold waitFanout. cbv zeta.
  replace (default 0%Z _) with d by (unfold d, WithTimeout; by destruct (cx_deadline c) eqn:Hd; rewrite ?Hd).
  destruct (fanout_loop_spec (match cx_deadline c with Some _ => c | None => WithTimeout c (5 * Second) w end)
    d typ payload (rounds d Millisecond w) ((λ s, MkWaiter s.1 s.2 false) <$> subs) w (time_Now w)) as (w' & r & Hr & Hok); [lia|done| |].
  - intros s (x & -> & _)%list_elem_of_fmap. done.
  - exists w', r. split; [done|]. intros Hn s Hs. apply (Hok Hn). rewrite <-list_fmap_compose.
    replace s with ((key ∘ (λ s, MkWaiter s.1 s.2 false)) s) by (by destruct s). by apply list_elem_of_fmap_2.
Qed.

Lemma measureEvents_ends ctx n ops w : ∃ w' r, measureEvents ctx n ops w = (w', Some r).
Proof.
  unfold measureEvents. destruct (startEventMesh n w) as [w1 [peers|e]]; [|by eexists _, _].
  destruct (subscribe_all (length peers) 0 w1) as [w2 subs].
  assert (∀ k i samples w, ∃ w' r, event_samples ctx subs k i samples w = (w', Some r)) as Hloop.
  { clear -Hclock. induction k as [|k IH]; intros i samples w; cbn [event_samples]; cbv zeta; [by eexists _, _|].
    destruct (ctx_Err ctx w) as [e|]; [by eexists _, _|].
    destruct (em_PublishEvent _ _ _ _) as [w1 [e|]]; [by eexists _, _|].
    destruct (waitFanout_spec ctx (drop 1 subs) (CustomType "bench") (Itoa i) w1) as (w2 & [e|] & -> & _);
      [by eexists _, _|apply IH]. }
  destruct (Hloop ops 0 [] w2) as (w3 & [l|e] & ->); by eexists _, _.
Qed.
End events.

(** ** Members ([members.go]) *)

(** The RPC [ListMembers] to a server of this process: when gRPC answers, the
    answer is that of the handler. *)
Class MembersRPC (W : Type) := {
  mr_setup : W → W * option error;  (* net.Listen and grpc.NewClient *)
  mr_ListMembers : W → context → Engine → W * result error (list ProtoMember);
  mr_answer w c e w' l : mr_ListMembers w c e = (w', Ok l) → l = ListMembers e;
}.

Section members.
Context `{Unicode} `{Clock W} `{MR : !MembersRPC W}.

(** [fmt.Sprintf("127.0.0.1:%d", 8000+i)] *)
Definition member_addr (i : nat) : string := "127.0.0.1:" +:+ pretty (8000 + i).
Fixpoint join_members (now : Time) (mem : Engine) (i k : nat) : result error Engine :=
  match k with
  | O => Ok mem
  | S k =>
    match (Membership.Join now mem (node_id i) (member_addr i)).1 with
    | (_, Fail e) => Fail e
    | (mem, Ok _) => join_members now mem (S i) k
    end
  end.

Fixpoint member_samples (ctx : context) (mem : Engine) (want k i : nat) (samples : list Duration) (w : W)
    : W * result error (list Duration) :=
  match k with
  | O => (w, Ok samples)
  | S k =>
    match ctx_Err ctx w with
    | Some e => (w, Fail (ctx_text e))
    | None =>
      let start := time_Now w in
      match mr_ListMembers w (WithTimeout ctx (5 * Second) w) mem with
      | (w, Fail e) => (w, Fail (sample_error "members sample %d: %w" i e))
      | (w, Ok l) =>
        let elapsed := (time_Now w - start)%Z in
        if negb (bool_decide (length l = want))
        then (w, Fail (Errorf "members sample %d: got %d want %d"
                         [ANum (Z.of_nat i); ANum (Z.of_nat (length l)); ANum (Z.of_nat want)]))
        else member_samples ctx mem want k (S i) (samples ++ [elapsed]) w
      end
    end
  end.

Definition measureMembers (ctx : context) (members ops : nat) (w : W) : W * result error Result_ :=
  match join_members (time_Now w) (Membership.New (time_Now w) "node-0" "127.0.0.1:1") 1 (members - 1) with
  | Fail e => (w, Fail e)
  | Ok mem =>
    match mr_setup w with
    | (w, Some e) => (w, Fail e)
    | (w, None) =>
      match member_samples ctx mem members ops 0 [] w with
      | (w, Fail e) => (w, Fail e)
      | (w, Ok samples) => (w, Ok (summarize "members" samples 0))
      end
    end
  end.

Lemma join_members_size now mem i k :
  (∀ j, i ≤ j → members mem !! node_id j = None) →
  ∃ mem', join_members now mem i k = Ok mem' ∧ size (members mem') = size (members mem) + k.
Proof.
  revert mem i; induction k as [|k IH]; intros mem i Hfree; [exists mem; split; [done|lia]|].
  cbn [join_members]. unfold Membership.Join, JoinAs.
  assert (str_empty (node_id i) = false) as -> by done. cbv zeta. rewrite Hfree by done.
  set (m := MkMember _ _ _ _ _ _). simpl.
  destruct (IH (set_members mem (<[node_id i := m]> (members mem)) (dropped mem ∖ {[ node_id i ]})) (S i)) as (mem' & -> & Hs).
  - intros j Hj. cbn [members set_members]. rewrite lookup_insert_ne; [apply Hfree; lia|].
    unfold node_id. intros Heq. apply (inj (String.append "node-")), (inj pretty) in Heq. lia.
  - exists mem'. split; [done|]. rewrite Hs. cbn [members set_members]. rewrite map_size_insert_None by by apply Hfree. lia.
Qed.

(** The member scenario never sees a wrong count.  The list it serves has the
    number of members asked for, so a sample only fails with the error of the RPC or
    of the context: while neither fails, the scenario reports a result, and it is
    the one of exactly [ops] samples. *)
Theorem bench_members_counted ctx n ops w :
  1 ≤ n →
  match measureMembers ctx n ops w with
  | (_, Ok res) => ∃ samples, length samples = ops ∧ res = summarize "members" samples 0
  | (w', Fail e) =>
    (∃ w0, mr_setup w0 = (w', Some e)) ∨ (∃ c, ctx_Err ctx w' = Some c ∧ e = ctx_text c) ∨
    ∃ i w0 c mem e', mr_ListMembers w0 c mem = (w', Fail e') ∧ e = sample_error "members sample %d: %w" i e'
  end.
Proof.
  intros Hn. unfold measureMembers.
  destruct (join_members_size (time_Now w) (Membership.New (time_Now w) "node-0" "127.0.0.1:1") 1 (n - 1)) as (mem & -> & Hs).
  { intros j Hj. cbn [members Membership.New]. apply lookup_singleton_ne. intros Heq.
    change "node-0" with (node_id 0) in Heq. apply (inj (String.append "node-")), (inj pretty) in Heq. lia. }
  assert (length (ListMembers mem) = n) as Hlen.
  { unfold ListMembers, Members. rewrite length_fmap, sort_by_perm. unfold values. rewrite length_fmap.
    rewrite length_map_to_list, Hs. cbn [members Membership.New]. rewrite map_size_singleton. lia. }
  destruct (mr_setup w) as [w1 [e|]] eqn:Hset; [left; by exists w|].
  assert (∀ k i samples w0, match member_samples ctx mem n k i samples w0 with
    | (_, Ok l) => length l = length samples + k
    | (w', Fail e) => (∃ c, ctx_Err ctx w' = Some c ∧ e = ctx_text c) ∨
        ∃ i w0 c mem e', mr_ListMembers w0 c mem = (w', Fail e') ∧ e = sample_error "members sample %d: %w" i e'
    end) as Hloop.
  { clear Hset. induction k as [|k IH]; intros i samples w0; cbn [member_samples]; [lia|].
    destruct (ctx_Err ctx w0) as [c|] eqn:Hc; [left; exists c; split; [exact Hc|reflexivity]|].
    set (c := WithTimeout ctx (5 * Second) w0). cbv zeta.
    destruct (mr_ListMembers w0 c mem) as [w2 [l|e]] eqn:Hr; [|right; exists i, w0, c, mem, e; split; [exact Hr|reflexivity]].
    rewrite (mr_answer _ _ _ _ _ Hr), Hlen, bool_decide_eq_true_2 by done. cbn [negb].
    specialize (IH (S i) (samples ++ [(time_Now w2 - time_Now w0)%Z]) w2).
    destruct (member_samples _ _ _ _ _ _ _) as [w3 [l3|]]; [|done]. rewrite IH, length_app. cbn [length]. lia. }
  specialize (Hloop ops 0 [] w1). destruct (member_samples _ _ _ _ _ _ _) as [w2 [l|e]];
    [exists l; split; [exact Hloop|reflexivity]|right; exact Hloop].
Qed.
End members.

(** ** The run ([run.go], [cmd/clusdr-bench]) *)

Definition lan_timeouts : timeouts := MkTimeouts (150 * Millisecond) (150 * Millisecond) (75 * Millisecond).

Section run.
Context `{Unicode} `{Codec D Command} `{Clock W} `{Transports W} `{RG : !Rigging W} `{EM : !EventMesh W} `{MR : !MembersRPC W}.
Context (rl : string → RaftLib W D) (dt : timeouts).

Definition StartCluster (n : nat) : prog (proc W) (list bnode) :=
  startCluster rl dt lan_timeouts n (λ _ _, mret tt).

Definition locks_scenario (ctx : context) (nodes : list bnode) (ops : nat) : prog (proc W) Result_ :=
  on_world (measureLocks rl ctx nodes pollFuel 21 (22 * (ops + 6)) ops).
Definition election_scenario (ctx : context) (nodes : list bnode) (ops : nat) : prog (proc W) Result_ :=
  on_world (measureElection rl ctx nodes pollFuel ops).
Definition events_scenario (ctx : context) (n ops : nat) : prog (proc W) Result_ := on_world (measureEvents ctx n ops).
Definition members_scenario (ctx : context) (n ops : nat) : prog (proc W) Result_ :=
  on_world (λ w, let (w, r) := measureMembers ctx n ops w in (w, Some r)).

(** [if cfg.wants(...) { ...; rep.Results = append(rep.Results, res) }] *)
Definition scenario {S} (wanted : bool) (m : prog S Result_) (acc : list Result_) : prog S (list Result_) :=
  if wanted then m ≫= λ r, mret (acc ++ [r]) else mret acc.
(** [defer func() { _ = cl.Close() }()] *)
Definition deferred {A} (nodes : list bnode) (m : prog (proc W) A) : prog (proc W) A := λ p,
  let (p, r) := m p in ((closeCluster rl nodes p).1, r).

Definition raftless (ctx : context) (cfg : Config) (acc : list Result_) : prog (proc W) Report :=
  scenario (wants cfg "events") (events_scenario ctx (Z.to_nat (c_EventNodes cfg)) (Z.to_nat (c_EventOps cfg))) acc ≫= λ acc,
  scenario (wants cfg "members") (members_scenario ctx (Z.to_nat (c_EventNodes cfg)) (Z.to_nat (c_MemberOps cfg))) acc ≫= λ acc,
  mret (MkReport acc (forallb r_Passed acc)).

(** [tmp] is the error of [os.MkdirTemp], when no directory is given. *)
Definition Run (ctx : context) (cfg : Config) (tmp : option error) : prog (proc W) Report :=
  match normalize cfg with
  | Fail e => fails e
  | Ok cfg =>
    match tmp with
    | Some e => fails (Errorf "temp dir: %w" [AErr e])
    | None =>
      if wants cfg "election" || wants cfg "locks" then
        StartCluster (Z.to_nat (c_Nodes cfg)) ≫= λ nodes,
        deferred nodes
          (scenario (wants cfg "locks") (locks_scenario ctx nodes (Z.to_nat (c_LockOps cfg))) [] ≫= λ acc,
           scenario (wants cfg "election") (election_scenario ctx nodes (Z.to_nat (c_ElectionOps cfg))) acc ≫= λ acc,
           raftless ctx cfg acc)
      else raftless ctx cfg []
    end
  end.
End run.

(** [strings.Split(s, sep)] for a separator of one byte. *)
Fixpoint split_on (sep : Ascii.ascii) (s : string) : list string :=
  match s with
  | EmptyString => [""]
  | String c s =>
    if Ascii.eqb c sep then "" :: split_on sep s else
    match split_on sep s with
    | [] => [String c ""]
    | x :: l => String c x :: l
    end
  end.
Definition splitCSV `{Unicode} (s : string) : list string :=
  if String.eqb s "" || String.eqb s "all" then [] else
  List.filter (λ p, negb (str_empty p)) (TrimSpaceS <$> split_on ","%char s).

(** The error of the command, and with it exit status 1. *)
Definition bench_RunE (r : result error Report) : option error :=
  match r with
  | Fail e => Some e
  | Ok rep => if rp_Passed rep then None else Some (Errorf "one or more scenarios missed their target" [])
  end.

(** *** What a report says *)

Section report.
Context `{Unicode} `{Codec D Command} `{Clock W} `{Transports W} `{RG : !Rigging W} `{EM : !EventMesh W} `{MR : !MembersRPC W}.
Context (rl : string → RaftLib W D) (dt : timeouts).

(** The programs whose results are named [name]. *)
Definition yields {S} (name : string) (m : prog S Result_) : Prop :=
  ∀ s s' r, m s = (s', Some (Ok r)) → r_Name r = name.
Lemma summarize_name name samples target : r_Name (summarize name samples target) = name.
Proof. by destruct samples. Qed.

Lemma scenario_names {S} wanted name (m : prog S Result_) acc s s' l :
  yields name m → scenario wanted m acc s = (s', Some (Ok l)) → r_Name <$> l = (r_Name <$> acc) ++ if wanted then [name] else [].
Proof.
  intros Hy. unfold scenario. destruct wanted; [|intros [= <- <-]; by rewrite app_nil_r].
  unfold mbind, prog_bind. destruct (m s) as [s1 [[r|e]|]] eqn:Hm; [|done..]. intros [= <- <-].
  rewrite fmap_app. by rewrite <-(Hy _ _ _ Hm).
Qed.

Definition scenarios : list string := ["locks"; "election"; "events"; "members"].

Lemma bind_Ok {S A B} (m : prog S A) (f : A → prog S B) s s' b :
  (m ≫= f) s = (s', Some (Ok b)) → ∃ s1 a, m s = (s1, Some (Ok a)) ∧ f a s1 = (s', Some (Ok b)).
Proof. unfold mbind, prog_bind. destruct (m s) as [s1 [[a|e]|]]; [|done..]. by exists s1, a. Qed.

Lemma yields_all ctx nodes n ops :
  yields "locks" (locks_scenario rl ctx nodes ops) ∧ yields "election" (election_scenario rl ctx nodes ops) ∧
  yields "events" (events_scenario ctx n ops) ∧ yields "members" (members_scenario ctx n ops).
Proof.
  unfold locks_scenario, election_scenario, events_scenario, members_scenario, on_world. split_and!; intros s s' r.
  - unfold measureLocks. generalize pollFuel. intros poll. destruct (leaderWithin _ _ _ _ _) as [w [[l|e]|]]; [|done..].
    generalize (22 * (ops + 6)). intros fuel. destruct (locks_loop _ _ _ _ _ _ _ _ _ _ _ _) as [w1 [[l1|e1]|]]; [|done..].
    intros [= _ <-]. apply summarize_name.
  - unfold measureElection. generalize pollFuel. intros poll.
    destruct (elections _ _ _ _ _ _ _ _) as [w1 [[l1|e1]|]]; [|done..]. intros [= _ <-]. apply summarize_name.
  - unfold measureEvents. destruct (startEventMesh _ _) as [w [l|e]]; [|done]. destruct (subscribe_all _ _ _) as [w1 subs].
    destruct (event_samples _ _ _ _ _ _) as [w2 [[l2|e2]|]]; [|done..]. intros [= _ <-]. apply summarize_name.
  - unfold measureMembers. destruct (join_members _ _ _ _) as [mem|e]; [|done]. destruct (mr_setup _) as [w [e|]]; [done|].
    destruct (member_samples _ _ _ _ _ _ _) as [w1 [l|e]]; [|done]. intros [= _ <-]. apply summarize_name.
Qed.

(** Scenarios on the world return and leave the handles alone. *)
Definition quiet (m : prog (proc W) Result_) : Prop := returns m ∧ keeps m.
Lemma on_world_quiet (f : W → W * option (result error Result_)) : (∀ w, ∃ w' r, f w = (w', Some r)) → quiet (on_world f).
Proof.
  intros Hf. split; [|apply keeps_on_world]. intros p. unfold ends_at, on_world.
  destruct (Hf (p_world p)) as (w' & r & ->). by eexists _, _.
Qed.
Lemma scenario_quiet b m acc : quiet m → returns (scenario b m acc) ∧ keeps (scenario b m acc).
Proof.
  intros [Hr Hk]. unfold scenario. destruct b; [|split; [apply returns_ret|apply keeps_ret]]. split.
  - apply returns_bind; [done|intros a; apply returns_ret].
  - apply keeps_bind; [done|intros a; apply keeps_ret].
Qed.

Context (Hclock : ∀ (w : W) i b, time_Now (em_set_bus w i b) = time_Now w).

Lemma scenarios_quiet ctx nodes n ops :
  quiet (locks_scenario rl ctx nodes ops) ∧ quiet (election_scenario rl ctx nodes ops) ∧
  quiet (events_scenario ctx n ops) ∧ quiet (members_scenario ctx n ops).
Proof.
  split_and!; apply on_world_quiet; intros w.
  - destruct (measureLocks_spec rl ctx nodes ops w) as (w' & r & Hr & _). by exists w', r.
  - apply measureElection_ends.
  - by apply measureEvents_ends.
  - destruct (measureMembers ctx n ops w) as [w' r]. by exists w', r.
Qed.

Lemma raftless_quiet ctx cfg acc : returns (raftless ctx cfg acc) ∧ keeps (raftless ctx cfg acc).
Proof.
  unfold raftless. destruct (scenarios_quiet ctx [] (Z.to_nat (c_EventNodes cfg)) (Z.to_nat (c_EventOps cfg))) as (_ & _ & He & _).
  destruct (scenarios_quiet ctx [] (Z.to_nat (c_EventNodes cfg)) (Z.to_nat (c_MemberOps cfg))) as (_ & _ & _ & Hm).
  split.
  - apply returns_bind; [by apply scenario_quiet|intros a]. apply returns_bind; [by apply scenario_quiet|intros b; apply returns_ret].
  - apply keeps_bind; [by apply scenario_quiet|intros a]. apply keeps_bind; [by apply scenario_quiet|intros b; apply keeps_ret].
Qed.

Lemma raftless_names ctx cfg acc p p' rep pre :
  r_Name <$> acc = pre → raftless ctx cfg acc p = (p', Some (Ok rep)) →
  r_Name <$> rp_Results rep = pre ++ List.filter (wants cfg) ["events"; "members"] ∧
  rp_Passed rep = forallb r_Passed (rp_Results rep).
Proof.
  intros Hpre Hr. unfold raftless in Hr. apply bind_Ok in Hr as (p1 & a1 & Hx1 & Hr). apply bind_Ok in Hr as (p2 & a2 & Hx2 & Hr).
  injection Hr as <- <-. split; [|done]. cbn [rp_Results].
  destruct (yields_all ctx [] (Z.to_nat (c_EventNodes cfg)) (Z.to_nat (c_EventOps cfg))) as (_ & _ & Hye & _).
  destruct (yields_all ctx [] (Z.to_nat (c_EventNodes cfg)) (Z.to_nat (c_MemberOps cfg))) as (_ & _ & _ & Hym).
  rewrite (scenario_names _ _ _ _ _ _ _ Hym Hx2), (scenario_names _ _ _ _ _ _ _ Hye Hx1), Hpre.
  cbn [List.filter]. rewrite <-app_assoc. f_equal. by destruct (wants cfg "events"), (wants cfg "members").
Qed.

Lemma deferred_ends {A} nodes (m : prog (proc W) A) p :
  orderly rl → owns p nodes → returns m → keeps m →
  ∃ p' r, deferred rl nodes m p = (p', Some r) ∧ p_open p' = [] ∧ ∀ a, r = Ok a → ∃ p1, m p = (p1, Some (Ok a)).
Proof.
  intros Ho Hp Hr Hk. unfold deferred. specialize (Hk p). destruct (Hr p) as (p1 & r & Hm). rewrite Hm in Hk |- *. simpl in Hk.
  eexists _, r. split; [done|]. split; [|intros a ->; by exists p1]. apply closeCluster_owns; [done|].
  unfold owns in *. by rewrite Hk.
Qed.

(** Names that are no scenario, ["lock"] say, pass with an empty report. *)
Lemma bench_unknown_scenarios_pass ctx cfg c p :
  normalize cfg = Ok c → List.filter (wants c) scenarios = [] →
  Run rl dt ctx cfg None p = (p, Some (Ok (MkReport [] true))) ∧ bench_RunE (Ok (MkReport [] true)) = None.
Proof.
  intros Hn Hw. split; [|done]. unfold Run. rewrite Hn. unfold scenarios in Hw. cbn [List.filter] in Hw.
  destruct (wants c "locks") eqn:Hl; [done|]. destruct (wants c "election") eqn:He; [done|].
  destruct (wants c "events") eqn:Hev; [done|]. destruct (wants c "members") eqn:Hm; [done|]. simpl orb. cbv iota.
  unfold raftless, scenario. by rewrite Hev, Hm.
Qed.

(** A benchmark run is complete.  When the Raft library shuts down in order and
    no call turns back the clock, it ends and leaves no Raft instance or store open,
    whatever fails on the way; a report has one row for each known scenario that
    was asked for, locks before election before events before members, and passes
    exactly when each of its rows passes.  So names that are no scenario are
    ignored: a run of only such names passes with an empty report. *)
Theorem bench_run_complete ctx cfg tmp p :
  orderly rl → steady rl → p_open p = [] →
  ∃ p' r, Run rl dt ctx cfg tmp p = (p', Some r) ∧ p_open p' = [] ∧ ∀ rep, r = Ok rep →
    ∃ cfg', normalize cfg = Ok cfg' ∧
      r_Name <$> rp_Results rep = List.filter (wants cfg') scenarios ∧
      (rp_Passed rep = true ↔ ∀ x, x ∈ rp_Results rep → r_Passed x = true).
Proof.
  intros Ho Hs Hp. unfold Run. destruct (normalize cfg) as [c|e] eqn:Hn; [|by eexists p, (Fail e)].
  destruct tmp as [e|]; [by eexists p, (Fail _)|].
  assert (∀ rep, rp_Passed rep = forallb r_Passed (rp_Results rep) →
    (rp_Passed rep = true ↔ ∀ x, x ∈ rp_Results rep → r_Passed x = true)) as Hpass.
  { intros rep ->. rewrite forallb_forall. by setoid_rewrite <-list_elem_of_In. }
  destruct (wants c "election" || wants c "locks") eqn:Hw.
  - unfold mbind, prog_bind at 1. destruct (startCluster_spec rl dt lan_timeouts (Z.to_nat (c_Nodes c)) (λ _ _, mret tt) p Ho Hs Hp)
      as (p1 & [nodes|e] & Hst & Hok); [intros ???; split; [apply returns_ret|apply keeps_ret]| |];
      unfold StartCluster; rewrite Hst; [|by eexists p1, (Fail e)].
    destruct Hok as (_ & _ & Hown).
    destruct (scenarios_quiet ctx nodes 0 (Z.to_nat (c_LockOps c))) as (Hql & _).
    destruct (scenarios_quiet ctx nodes 0 (Z.to_nat (c_ElectionOps c))) as (_ & Hqe & _).
    match goal with |- context [deferred rl nodes ?m p1] => set (body := m) end.
    assert (returns body ∧ keeps body) as [Hret Hkeep].
    { unfold body. split.
      - apply returns_bind; [by apply scenario_quiet|intros a]. apply returns_bind; [by apply scenario_quiet|intros b; apply raftless_quiet].
      - apply keeps_bind; [by apply scenario_quiet|intros a]. apply keeps_bind; [by apply scenario_quiet|intros b; apply raftless_quiet]. }
    destruct (deferred_ends nodes body p1 Ho Hown Hret Hkeep) as (p2 & r & -> & Hopen & Hm).
    eexists p2, r. split; [done|]. split; [done|]. intros rep Hrep. destruct (Hm rep Hrep) as (p3 & Hb).
    apply bind_Ok in Hb as (q1 & a1 & Hb1 & Hb). apply bind_Ok in Hb as (q2 & a2 & Hb2 & Hb).
    destruct (yields_all ctx nodes 0 (Z.to_nat (c_LockOps c))) as (Hyl & _).
    destruct (yields_all ctx nodes 0 (Z.to_nat (c_ElectionOps c))) as (_ & Hye & _).
    destruct (raftless_names ctx c a2 q2 p3 rep _ eq_refl Hb) as [Hnames Hpf].
    exists c. split; [done|]. split; [|by apply Hpass]. rewrite Hnames.
    rewrite (scenario_names _ _ _ _ _ _ _ Hye Hb2), (scenario_names _ _ _ _ _ _ _ Hyl Hb1).
    unfold scenarios. cbn [List.filter]. by destruct (wants c "locks"), (wants c "election").
  - apply orb_false_iff in Hw as [Hwe Hwl]. destruct (raftless_quiet ctx c []) as [Hret Hkeep].
    destruct (Hret p) as (p1 & r & Hr). specialize (Hkeep p). rewrite Hr in Hkeep |- *. simpl in Hkeep.
    eexists p1, r. split; [done|]. split; [congruence|]. intros rep ->.
    destruct (raftless_names ctx c [] p p1 rep [] eq_refl Hr) as [Hnames Hpf].
    exists c. split; [done|]. split; [|by apply Hpass]. rewrite Hnames. unfold scenarios. cbn [List.filter]. by rewrite Hwe, Hwl.
Qed.
End report.

(** ** Concrete runs *)
Module BenchExamples.
Export ToyRig.

#[export] Instance toy_mesh : EventMesh toy := {|
  em_Listen w := (MkToy (ty_now w) (ty_fsm w) (ty_links w) (S (ty_next w)) (ty_lossy w) (ty_buses w), Ok ("127.0.0.1:" +:+ pretty (ty_next w)));
  em_NewClient _ _ := None;
  em_Serve w i b _ := MkToy (ty_now w) (ty_fsm w) (ty_links w) (ty_next w) (ty_lossy w) (<[i := b]> (ty_buses w));
  em_bus w i := default Bus.New (ty_buses w !! i);
  em_set_bus w i b := MkToy (ty_now w) (ty_fsm w) (ty_links w) (ty_next w) (ty_lossy w) (<[i := b]> (ty_buses w));
  em_PublishEvent w _ topic payload := (MkToy (ty_now w + 5) (ty_fsm w) (ty_links w) (ty_next w) (ty_lossy w)
    ((λ b, Publish (ty_now w) b (new_event (CustomType topic) "evt-0" (RawBytes payload))) <$> ty_buses w), None);
|}.
#[export] Instance toy_members : MembersRPC toy.
Proof.
  refine {| mr_setup w := (w, None); mr_ListMembers w _ e := (w, Ok (ListMembers e)) |}.
  intros w c e w' l [= _ <-]. done.
Defined.

Definition ctx : context := MkContext None true.
Definition cfg : Config := MkConfig 0 4 2 2 3 2 [" Locks "; "events"; "MEMBERS"].
Definition rows (x : proc toy * option (result error Report)) : option (list (string * nat) * bool) :=
  match x.2 with Some (Ok r) => Some ((λ r, (r_Name r, r_N r)) <$> rp_Results r, rp_Passed r) | _ => None end.

Lemma toy_set_bus (w : toy) i b : time_Now (em_set_bus w i b) = time_Now w.
Proof. done. Qed.
Lemma bench_run_complete_witness :
  ∃ p' rep, Run toy_raft StartupExamples.raft_default ctx cfg None (MkProc toy0 []) = (p', Some (Ok rep)) ∧ p_open p' = [] ∧
    r_Name <$> rp_Results rep = ["locks"; "events"; "members"].
Proof.
  destruct (bench_run_complete toy_raft StartupExamples.raft_default toy_set_bus ctx cfg None (MkProc toy0 []))
    as (p' & r & Hr & Hp & Hok).
  - exact toy_orderly.
  - exact toy_steady.
  - reflexivity.
  - destruct r as [rep|e]; [|exfalso; clear Hok; revert Hr; vm_compute; discriminate].
    exists p', rep. split; [exact Hr|]. split; [exact Hp|]. destruct (Hok rep eq_refl) as (c & Hc & Hn & _). rewrite Hn.
    revert Hc. vm_compute. by intros [= <-].
Defined.

Lemma toy_keeps_links : waiting_keeps_links (W:=toy).
Proof. by intros w c d x y. Qed.
Definition meshed : toy := connect_all toy0 ["mem-0"; "mem-1"].

Lemma bench_election_mends_witness :
  ∃ w' r, measureElection toy_raft ctx nodes0 pollFuel 1 meshed = (w', Some r) ∧ mesh nodes0 w'.
Proof.
  destruct (bench_election_mends toy_raft ctx nodes0 1 meshed) as (w' & r & Hr & Hm & _).
  - exact toy_keeps_links.
  - by apply (bool_decide_unpack (NoDup _)).
  - by apply (bool_decide_unpack (NoDup _)).
  - intros x y Hx Hy Hxy. by apply linked_connect_all.
  - exists w', r. split; [exact Hr|exact Hm].
Defined.

Lemma bench_members_counted_witness :
  ∃ samples, length samples = 2 ∧ (measureMembers ctx 4 2 toy0).2 = Ok (summarize "members" samples 0).
Proof.
  pose proof (bench_members_counted ctx 4 2 toy0 ltac:(lia)) as Hm.
  assert (∃ w' res, measureMembers ctx 4 2 toy0 = (w', Ok res)) as (w' & res & Hr) by by (eexists _, _; vm_compute; reflexivity).
  rewrite Hr in Hm |- *. destruct Hm as (samples & Hs & Hres). exists samples. split; [exact Hs|]. simpl. by rewrite Hres.
Defined.
End BenchExamples.
