(* ===== verification/Soak.v ===== *)
(** * Soak: the stability run of [internal/soak] behind [clusdr-soak]

    [capture.go] counts the log records and judges them at the end; [cluster.go]
    joins and removes a transient voter on the cluster of [RigStart]; [run.go] ticks
    until the duration is over or the context is cancelled and writes the report.
    The expirers of [startExpirers] are goroutines ([Locks], [Leases]): what they do
    happens in the world while the run waits. *)
From S2P Require Import Prelude Events GrantSpec Locks Leases Membership FSM Node LockService LeaseService JoinService.
From S2P Require Import Config Store App Units Startup Rig Bench RigStart.
From stdpp Require Import pretty.

(** ** Log records ([capture.go]) *)

(** [slog.Level] *)
Definition LevelInfo : Z := 0.
Definition LevelWarn : Z := 4.
Definition LevelError : Z := 8.

Definition expectedInfo : gset string :=
  list_to_set ["raft bootstrap complete"; "raft voter added"; "raft server removed"; "raft leadership changed";
    "member.join"; "member.left"; "leader.changed"; "fsm snapshot restored"].
Definition expectedWarn : gset string := list_to_set ["lock expire apply"; "lease expire apply"].

Record logRecord := MkLogRecord { lr_Level : Z; lr_Msg : string }.
Record captureState := MkCapture { byMsg : gmap string Z; byLvl : gmap Z Z; warns : list logRecord }.
Definition newCapture : captureState := MkCapture ∅ ∅ [].

(** [next] is the handler behind, if there is one: its [Enabled]. *)
Definition Enabled (next : option (Z → bool)) (level : Z) : bool :=
  match next with Some en => en level | None => false end || (LevelInfo <=? level)%Z.

(** The flag is whether the record is handed to the handler behind. *)
Definition Handle (next : option (Z → bool)) (s : captureState) (r : logRecord) : captureState * bool :=
  (MkCapture (<[lr_Msg r := lookup0 (byMsg s) (lr_Msg r) + 1]> (byMsg s))%Z
     (<[lr_Level r := default 0 (byLvl s !! lr_Level r) + 1]> (byLvl s))%Z
     (if (LevelWarn <=? lr_Level r)%Z then warns s ++ [r] else warns s),
   match next with Some en => en (lr_Level r) | None => false end).

(** What [slog.Logger] does with a record. *)
Definition log_record (next : option (Z → bool)) (s : captureState) (r : logRecord) : captureState :=
  if Enabled next (lr_Level r) then (Handle next s r).1 else s.

Record LogSummary := MkLogSummary { sm_Info : Z; sm_Warn : Z; sm_Error : Z; sm_ByMsg : gmap string Z }.
Definition snapshot (s : captureState) : LogSummary :=
  let lvl l := default 0%Z (byLvl s !! l) in
  MkLogSummary (lvl LevelInfo) (lvl LevelWarn) (lvl LevelError) (byMsg s).

Fixpoint unique_from (seen : gset string) (l : list string) : list string :=
  match l with
  | [] => []
  | s :: l => if decide (s ∈ seen) then unique_from seen l else s :: unique_from ({[ s ]} ∪ seen) l
  end.
Definition unique (l : list string) : list string := if bool_decide (length l < 2) then l else unique_from ∅ l.

(** The failures of one retained record, and of one message with its count. *)
Definition audit_warn (w : logRecord) : list string :=
  if (LevelError <=? lr_Level w)%Z then ["error: " +:+ lr_Msg w] else
  if decide (lr_Msg w ∈ expectedWarn) then [] else ["unexpected warn: " +:+ lr_Msg w].
Definition audit_msg (ticks : Z) (x : string * Z) : list string :=
  let (msg, n) := x in
  if String.eqb msg "member.dead" then ["member.dead during soak: " +:+ pretty n] else
  if decide (msg ∈ expectedInfo) then [] else
  if decide (msg ∈ expectedWarn) then [] else
  if ((ticks + 1) `quot` 2 <? n)%Z then ["noisy message " +:+ msg +:+ ": " +:+ pretty n +:+ " in " +:+ pretty ticks +:+ " ticks"]
  else [].

Definition maxWarn (dur : Duration) : Z := (2 + dur `quot` Minute)%Z.
(** [order] is the order in which [range sum.ByMsg] yields the entries. *)
Definition audit (s : captureState) (order : list (string * Z)) (dur : Duration) (ticks : Z) : list string :=
  let sum := snapshot s in
  let fails := if (0 <? sm_Error sum)%Z then ["error-level log records: " +:+ pretty (sm_Error sum)] else [] in
  let fails := fails ++ (if (maxWarn dur <? sm_Warn sum)%Z
    then ["warn-level records " +:+ pretty (sm_Warn sum) +:+ " exceed " +:+ pretty (maxWarn dur)] else []) in
  let fails := fails ++ flat_map audit_warn (warns s) in
  let ticks := if (ticks <? 1)%Z then 1%Z else ticks in
  unique (fails ++ flat_map (audit_msg ticks) order).

(** *** What the audit accepts *)

Definition count_msg (msg : string) (rs : list logRecord) : Z := Z.of_nat (length (List.filter (λ r, String.eqb (lr_Msg r) msg) rs)).
Definition count_level (l : Z) (rs : list logRecord) : Z := Z.of_nat (length (List.filter (λ r, lr_Level r =? l)%Z rs)).

Definition accepted (rs : list logRecord) (dur : Duration) (ticks : Z) : Prop :=
  (∀ r, r ∈ rs → (LevelWarn ≤ lr_Level r)%Z → (lr_Level r < LevelError)%Z ∧ lr_Msg r ∈ expectedWarn) ∧
  (count_level LevelWarn rs ≤ 2 + dur `quot` Minute)%Z ∧
  ∀ r, r ∈ rs → lr_Msg r ≠ "member.dead" ∧
    (lr_Msg r ∈ expectedInfo ∨ lr_Msg r ∈ expectedWarn ∨ (count_msg (lr_Msg r) rs ≤ (Z.max 1 ticks + 1) `quot` 2)%Z).

Lemma unique_from_elem seen l x : x ∈ unique_from seen l ↔ x ∈ l ∧ x ∉ seen.
Proof.
  revert seen; induction l as [|y l IH]; intros seen; simpl; [set_solver|].
  destruct (decide (y ∈ seen)); [rewrite IH; set_solver|]. rewrite elem_of_cons, IH. destruct (decide (x = y)); set_solver.
Qed.
Lemma unique_elem l x : x ∈ unique l ↔ x ∈ l.
Proof. unfold unique. case_bool_decide; [done|]. rewrite unique_from_elem. set_solver. Qed.
Lemma unique_NoDup l : NoDup (unique l).
Proof.
  unfold unique. case_bool_decide as Hl.
  - destruct l as [|x [|]]; [constructor|apply NoDup_singleton|simpl in Hl; lia].
  - generalize (∅ : gset string). clear Hl. induction l as [|y l IH]; intros seen; simpl; [constructor|].
    destruct (decide _); [apply IH|]. constructor; [|apply IH]. rewrite unique_from_elem. set_solver.
Qed.
Lemma unique_nil l : unique l = [] ↔ l = [].
Proof.
  split; [|by intros ->]. intros Hu. apply list_nil_subseteq. intros x Hx. apply unique_elem in Hx. by rewrite Hu in Hx.
Qed.

(** The counters after some records. *)
Lemma captured rs :
  let s := foldl (λ s r, (Handle None s r).1) newCapture rs in
  (∀ msg, byMsg s !! msg = if decide (msg ∈ lr_Msg <$> rs) then Some (count_msg msg rs) else None) ∧
  (∀ l, default 0%Z (byLvl s !! l) = count_level l rs) ∧
  warns s = List.filter (λ r, LevelWarn <=? lr_Level r)%Z rs.
Proof.
  induction rs as [|r rs IH] using rev_ind; [done|]. rewrite foldl_snoc. destruct IH as (Hm & Hl & Hw).
  set (s := foldl _ _ rs) in *. cbn zeta. split_and!.
  - intros msg. cbn [Handle fst byMsg]. unfold count_msg. rewrite fmap_app, List.filter_app, length_app. simpl.
    destruct (String.eqb_spec (lr_Msg r) msg) as [<-|Hne].
    + rewrite lookup_insert_eq, decide_True by set_solver. f_equal. unfold lookup0. rewrite Hm. simpl.
      destruct (decide _) as [|Hn]; simpl; unfold count_msg; [lia|].
      enough (List.filter (λ r0, String.eqb (lr_Msg r0) (lr_Msg r)) rs = []) as -> by (simpl; lia).
      apply list_nil_subseteq. intros x [Hx He]%list_elem_of_In%List.filter_In.
      destruct Hn. apply String.eqb_eq in He as <-. apply list_elem_of_fmap_2. by apply list_elem_of_In.
    + rewrite lookup_insert_ne, Hm by done. simpl. rewrite Nat.add_0_r. unfold count_msg.
      destruct (decide (msg ∈ lr_Msg <$> rs)); [by rewrite decide_True by set_solver|by rewrite decide_False by set_solver].
  - intros l. cbn [Handle fst byLvl]. unfold count_level. rewrite List.filter_app, length_app. simpl.
    destruct (Z.eqb_spec (lr_Level r) l) as [<-|Hne].
    + rewrite lookup_insert_eq. simpl. rewrite Hl. unfold count_level. lia.
    + rewrite lookup_insert_ne, Hl by done. unfold count_level. simpl. lia.
  - cbn [Handle fst warns]. rewrite List.filter_app, <-Hw. simpl. destruct (_ <=? _)%Z; [done|by rewrite app_nil_r].
Qed.

Lemma log_records next rs s :
  foldl (log_record next) s rs =
  foldl (λ s r, (Handle None s r).1) s (List.filter (λ r, Enabled next (lr_Level r)) rs).
Proof.
  revert s; induction rs as [|r rs IH]; intros s; [done|]. simpl. rewrite IH. unfold log_record at 1.
  by destruct (Enabled next (lr_Level r)).
Qed.

Lemma flat_map_nil {A B} (f : A → list B) l : flat_map f l = [] ↔ ∀ x, x ∈ l → f x = [].
Proof.
  induction l as [|x l IH]; simpl; [set_solver|]. rewrite app_nil, IH. set_solver.
Qed.

Lemma audit_warn_nil w :
  (LevelWarn ≤ lr_Level w)%Z → audit_warn w = [] ↔ (lr_Level w < LevelError)%Z ∧ lr_Msg w ∈ expectedWarn.
Proof.
  intros Hw. unfold audit_warn. destruct (Z.leb_spec LevelError (lr_Level w)); [by split; [|lia]|].
  destruct (decide _); naive_solver.
Qed.
Lemma audit_msg_nil t msg n :
  audit_msg t (msg, n) = [] ↔ msg ≠ "member.dead" ∧ (msg ∈ expectedInfo ∨ msg ∈ expectedWarn ∨ (n ≤ (t + 1) `quot` 2)%Z).
Proof.
  unfold audit_msg. destruct (String.eqb_spec msg "member.dead") as [Hd|Hd]; [naive_solver|].
  destruct (decide (msg ∈ expectedInfo)); [naive_solver|]. destruct (decide (msg ∈ expectedWarn)); [naive_solver|].
  destruct (Z.ltb_spec ((t + 1) `quot` 2) n); [split; [done|intros (_ & [?|[?|?]]); done || lia]|naive_solver].
Qed.

(** The audit of the soak run accepts exactly the quiet logs, in whatever order
    the map of messages is walked: no record at warning level or above but the two
    expected warnings, at most two of them and one more per minute, no member
    declared dead, and no unexpected message more often than every second tick.
    A failure is reported once. *)
Theorem soak_audit_exact next rs order dur ticks :
  let s := foldl (log_record next) newCapture rs in
  order ≡ₚ map_to_list (byMsg s) →
  (audit s order dur ticks = [] ↔ accepted (List.filter (λ r, Enabled next (lr_Level r)) rs) dur ticks) ∧
  NoDup (audit s order dur ticks).
Proof.
  intros s Ho. split; [|apply unique_NoDup]. subst s. rewrite log_records in *.
  set (seen := List.filter _ rs) in *. destruct (captured seen) as (Hm & Hl & Hw). set (s := foldl _ _ _) in *.
  unfold audit, snapshot. cbn [sm_Error sm_Warn sm_ByMsg]. rewrite unique_nil, !app_nil, !flat_map_nil, !Hl, Hw.
  replace (if (ticks <? 1)%Z then 1%Z else ticks) with (Z.max 1 ticks) by (destruct (Z.ltb_spec ticks 1); lia).
  assert (∀ msg n, (msg, n) ∈ order ↔ msg ∈ lr_Msg <$> seen ∧ n = count_msg msg seen) as Hord.
  { intros msg n. rewrite Ho, elem_of_map_to_list, Hm. destruct (decide _); naive_solver. }
  assert (∀ r, r ∈ seen → (LevelWarn ≤ lr_Level r)%Z → r ∈ List.filter (λ r, LevelWarn <=? lr_Level r)%Z seen) as Hkept.
  { intros r Hr Hle. by apply list_elem_of_In, List.filter_In; split; [apply list_elem_of_In|apply Z.leb_le]. }
  unfold accepted, maxWarn. split.
  - intros [[[He Hn] Hws] Hms]. split_and!.
    + intros r Hr Hle. apply audit_warn_nil; auto.
    + by destruct (Z.ltb_spec (2 + dur `quot` Minute) (count_level LevelWarn seen)).
    + intros r Hr. apply audit_msg_nil. apply (Hms (lr_Msg r, _)), Hord. by split; [apply list_elem_of_fmap_2|].
  - intros (Hws & Hn & Hms). split_and!.
    + destruct (Z.ltb_spec 0 (count_level LevelError seen)) as [Hpos|]; [exfalso|done]. unfold count_level in Hpos.
      destruct (List.filter (λ r, lr_Level r =? LevelError)%Z seen) as [|r l] eqn:Hf; [simpl in Hpos; lia|].
      assert (r ∈ seen ∧ lr_Level r = LevelError) as [Hr Hlv].
      { rewrite <-Z.eqb_eq, list_elem_of_In, <-(List.filter_In (λ r, lr_Level r =? LevelError)%Z), Hf. by left. }
      destruct (Hws r Hr) as [Hlt _]; rewrite Hlv in *; done.
    + destruct (Z.ltb_spec (2 + dur `quot` Minute) (count_level LevelWarn seen)); [lia|done].
    + intros r [Hr Hle]%list_elem_of_In%List.filter_In. apply Z.leb_le in Hle. apply audit_warn_nil; [done|].
      apply Hws; [by apply list_elem_of_In|done].
    + intros [msg n] [Hin ->]%Hord. apply list_elem_of_fmap in Hin as (r & -> & Hr). apply audit_msg_nil. by apply Hms.
Qed.

(** ** The report ([report.go]) *)

Definition MaxHeapGrowth : Z := Z.shiftl 128 20.
Definition MaxGoroutineGrowth : Z := 48.

Record Report := MkReport {
  rp_Duration : Duration; rp_Ticks : nat; rp_Joins : nat; rp_Leaves : nat;
  rp_Locks : nat; rp_LockExpires : nat; rp_Leases : nat; rp_LeaseExpires : nat;
  rp_HeapStart : Z; rp_HeapEnd : Z; rp_HeapGrowth : Z; rp_GoStart : Z; rp_GoEnd : Z;
  rp_Logs : LogSummary; rp_Passed : bool; rp_Failures : list string;
}.
Definition no_logs : LogSummary := MkLogSummary 0 0 0 ∅.
Definition empty_report : Report := MkReport 0 0 0 0 0 0 0 0 0 0 0 0 0 no_logs true [].

(** [rep.Joins++] and its likes. *)
Inductive counter : Type := Joins | Leaves | LockCount | LockExpires | LeaseCount | LeaseExpires | Ticks.
#[export] Instance counter_eq_dec : EqDecision counter.
Proof. solve_decision. Defined.
Definition bump (c : counter) (r : Report) : Report :=
  let up x := if bool_decide (c = x) then 1 else 0 in
  MkReport (rp_Duration r) (rp_Ticks r + up Ticks) (rp_Joins r + up Joins) (rp_Leaves r + up Leaves)
    (rp_Locks r + up LockCount) (rp_LockExpires r + up LockExpires) (rp_Leases r + up LeaseCount)
    (rp_LeaseExpires r + up LeaseExpires) (rp_HeapStart r) (rp_HeapEnd r) (rp_HeapGrowth r) (rp_GoStart r) (rp_GoEnd r)
    (rp_Logs r) (rp_Passed r) (rp_Failures r).

(** ** A transient member ([cluster.go]) *)

Definition soak_timeouts : timeouts := MkTimeouts (300 * Millisecond) (300 * Millisecond) (150 * Millisecond).

(** [%v] of a slice of strings. *)
Fixpoint words (l : list string) : string :=
  match l with [] => "" | [s] => s | s :: l => s +:+ " " +:+ words l end.
Definition sprint_list (l : list string) : string := "[" +:+ words l +:+ "]".

Section cluster.
Context `{Unicode} `{Codec D Command} `{Clock W} `{Transports W} `{RG : !Rigging W}.
Context (rl : string → RaftLib W D) (dt : timeouts).

Definition node_fsm_of (n : bnode) (w : W) : node_fsm := @raft_fsm _ W D _ (rl (b_ID n)) w.
Definition node_mem (n : bnode) (w : W) : Engine := applier (node_fsm_of n w).
Definition node_lock (n : bnode) (w : W) (name : string) : option LockRecord :=
  fsm_locks (node_fsm_of n w) ≫= λ t, Locks.Get t name.
Definition node_lease (n : bnode) (w : W) (name : string) : option LeaseRecord :=
  fsm_leases (node_fsm_of n w) ≫= λ t, Leases.Get t name.

Definition aliveIDs (e : Engine) : list string :=
  sort_by (λ s, s) (m_ID <$> List.filter (λ m, String.eqb (m_Status m) StatusAlive) (Members e)).
Definition hasAlive (e : Engine) (id : string) : bool :=
  existsb (λ m, String.eqb (m_ID m) id && String.eqb (m_Status m) StatusAlive) (Members e).

Definition waitAlive (c : context) (core : list bnode) (ids : list string) : prog (proc W) unit :=
  let want := sort_by (λ s, s) ids in
  polling c (λ e, Errorf "wait alive %v: %w" [AStr (sprint_list want); AErr e])
    (λ w, forallb (λ n, bool_decide (aliveIDs (node_mem n w) = want)) core).
Definition waitHasMember (c : context) (core : list bnode) (id : string) : prog (proc W) unit :=
  polling c (λ e, Errorf "wait member %s: %w" [AStr id; AErr e]) (λ w, forallb (λ n, hasAlive (node_mem n w) id) core).
Definition waitGone (c : context) (core : list bnode) (id : string) : prog (proc W) unit :=
  polling c (λ e, Errorf "wait gone %s: %w" [AStr id; AErr e])
    (λ w, forallb (λ n, negb (existsb (λ m, String.eqb (m_ID m) id) (Members (node_mem n w)))) core).
Definition waitLockGone (c : context) (core : list bnode) (name : string) : prog (proc W) unit :=
  polling c (λ e, Errorf "wait lock gone %s: %w" [AStr name; AErr e])
    (λ w, forallb (λ n, match node_lock n w name with Some _ => false | None => true end) core).
Definition waitLeaseGone (c : context) (core : list bnode) (name : string) : prog (proc W) unit :=
  polling c (λ e, Errorf "wait lease gone %s: %w" [AStr name; AErr e])
    (λ w, forallb (λ n, match node_lease n w name with Some _ => false | None => true end) core).

Definition startCluster (n : nat) : prog (proc W) (list bnode) :=
  RigStart.startCluster rl dt soak_timeouts n (λ c nodes, waitAlive c nodes (b_ID <$> nodes)).

(** [or_close [extra]] is [extra.raft.Shutdown()] on an error. *)
Definition joinExtra (c : context) (core : list bnode) (id : string) : prog (proc W) bnode := λ p,
  let (w, tr) := rig_NewInmemTransport (p_world p) in
  let w := foldl (λ w n, connect w tr (b_Addr n)) w core in
  (startNode dt soak_timeouts id false tr ≫= λ extra,
   or_close rl [extra]
     (annotate (λ e, Errorf "add voter %s: %w" [AStr id; AErr e])
        (onLeader rl c core (λ lead w, node_AddVoter rl lead w id tr)) ≫= λ _,
      annotate (λ e, Errorf "add member %s: %w" [AStr id; AErr e])
        (onLeader rl c core (λ lead w, node_ApplyAddMember rl lead w id tr)) ≫= λ _,
      waitHasMember c core id) ≫= λ _,
   mret extra) (MkProc w (p_open p)).

Definition node_ApplyDropMember (n : bnode) (w : W) (id : string) : W * option error :=
  @ApplyDropMember _ W D _ (rl (b_ID n)) w id.
Definition node_RemoveVoter (n : bnode) (w : W) (id : string) : W * option error :=
  @RemoveVoter _ W D _ (rl (b_ID n)) w id.

(** The extra node is shut down and cut off. *)
Definition drop_extra (core : list bnode) (extra : bnode) : prog (proc W) unit := λ p,
  let (p, _) := node_Shutdown rl extra p in
  (MkProc (foldl (λ w n, disconnect w (b_Addr extra) (b_Addr n)) (p_world p) core) (p_open p), Some (Ok tt)).

Definition leaveExtra (c : context) (core : list bnode) (extra : bnode) : prog (proc W) unit :=
  let id := b_ID extra in
  annotate (λ e, Errorf "drop member %s: %w" [AStr id; AErr e])
    (onLeader rl c core (λ lead w, node_ApplyDropMember lead w id)) ≫= λ _,
  annotate (λ e, Errorf "remove voter %s: %w" [AStr id; AErr e])
    (onLeader rl c core (λ lead w, node_RemoveVoter lead w id)) ≫= λ _,
  drop_extra core extra ≫= λ _,
  waitGone c core id ≫= λ _,
  waitAlive c core (b_ID <$> core).
End cluster.

(** ** The run ([run.go]) *)

Record Config := MkConfig { c_Duration : Duration; c_Nodes : Z; c_Tick : Duration; c_Dir : string }.

Definition normalize (c : Config) : result error Config :=
  let duration := orDefault (c_Duration c) (24 * Hour) in
  let nodes := orDefault (c_Nodes c) 3 in
  if (nodes <? 3)%Z then Fail (Errorf "nodes must be >= 3, got %d" [ANum nodes]) else
  Ok (MkConfig duration nodes (orDefault (c_Tick c) (2 * Second)) (c_Dir c)).

(** [runtime.ReadMemStats] after two collections: the heap and the goroutines. *)
Record memSnap := MkMemSnap { Heap : Z; Goroutines : Z }.

(** The Go runtime and the log: memory, the temporary directory, and what the log
    handler has captured with the order in which its map is walked. *)
Class Runtime (W : Type) := {
  snapshotMem : W → W * memSnap;
  MkdirTemp : W → W * option error;
  rt_captured : W → captureState;
  rt_order : W → list (string * Z);
}.

Record soak (W : Type) := MkSoak { k_proc : proc W; k_rep : Report }.
Arguments MkSoak {W}.
Arguments k_proc {W}.
Arguments k_rep {W}.

Definition on_proc {W A} (m : prog (proc W) A) : prog (soak W) A := λ s,
  let (p, r) := m (k_proc s) in (MkSoak p (k_rep s), r).
Definition count {W} (c : counter) : prog (soak W) unit := λ s, (MkSoak (k_proc s) (bump c (k_rep s)), Some (Ok tt)).

Section run.
Context `{Unicode} `{Codec D Command} `{Clock W} `{Transports W} `{RG : !Rigging W} `{RT : !Runtime W}.
Context (rl : string → RaftLib W D) (dt : timeouts).

Definition node_LockAcquire (n : bnode) (w : W) (name : string) (ttl : Duration) : W * result error (Z * bool) :=
  @ApplyLockAcquire _ W D _ (rl (b_ID n)) (time_Now w) w name "soak" ttl.
Definition node_LeaseGrant (n : bnode) (w : W) (name : string) (ttl : Duration) : W * result error (Z * bool) :=
  @ApplyLeaseGrant _ W D _ (rl (b_ID n)) (time_Now w) w name "soak" ttl.
Definition node_LockRelease (n : bnode) (w : W) (name : string) (tok : Z) : W * option error :=
  @ApplyLockRelease _ W D _ (rl (b_ID n)) w name "soak" tok.
Definition node_LeaseRevoke (n : bnode) (w : W) (name : string) (tok : Z) : W * option error :=
  @ApplyLeaseRevoke _ W D _ (rl (b_ID n)) w name "soak" tok.

(** [if !ok { return fmt.Errorf(...) }] and [tok = got]. *)
Definition taken (what : error) (x : W * result error (Z * bool)) : W * result error Z :=
  match x with
  | (w, Fail e) => (w, Fail e)
  | (w, Ok (_, false)) => (w, Fail what)
  | (w, Ok (tok, true)) => (w, Ok tok)
  end.

Definition expires (i : nat) : bool := bool_decide (i mod 3 = 2).
Definition churn_ttl (i : nat) : Duration := if expires i then (150 * Millisecond)%Z else Hour.

Definition churnLock (c : context) (core : list bnode) (i : nat) : prog (soak W) unit :=
  let name := "soak-lock-" +:+ pretty i in
  on_proc (fromLeader rl c core (λ lead w,
    taken (Errorf "lock %s not acquired" [AStr name]) (node_LockAcquire lead w name (churn_ttl i)))) ≫= λ tok,
  count LockCount ≫= λ _,
  if expires i then on_proc (waitLockGone rl c core name) ≫= λ _, count LockExpires
  else on_proc (onLeader rl c core (λ lead w, node_LockRelease lead w name tok)).
Definition churnLease (c : context) (core : list bnode) (i : nat) : prog (soak W) unit :=
  let name := "soak-lease-" +:+ pretty i in
  on_proc (fromLeader rl c core (λ lead w,
    taken (Errorf "lease %s not granted" [AStr name]) (node_LeaseGrant lead w name (churn_ttl i)))) ≫= λ tok,
  count LeaseCount ≫= λ _,
  if expires i then on_proc (waitLeaseGone rl c core name) ≫= λ _, count LeaseExpires
  else on_proc (onLeader rl c core (λ lead w, node_LeaseRevoke lead w name tok)).

Definition extra_id (i : nat) : string := "extra-" +:+ pretty i.
Definition tick_error (format : string) (i : nat) (e : error) : error := Errorf format [ANum (Z.of_nat i); AErr e].

Definition tick_under (c : context) (core : list bnode) (i : nat) : prog (soak W) unit :=
  annotate (tick_error "tick %d join: %w" i) (on_proc (joinExtra rl dt c core (extra_id i))) ≫= λ extra,
  count Joins ≫= λ _,
  annotate (tick_error "tick %d leave: %w" i) (on_proc (leaveExtra rl c core extra)) ≫= λ _,
  count Leaves ≫= λ _,
  annotate (tick_error "tick %d lock: %w" i) (churnLock c core i) ≫= λ _,
  annotate (tick_error "tick %d lease: %w" i) (churnLease c core i) ≫= λ _,
  count Ticks.
Definition runTick (ctx : context) (core : list bnode) (i : nat) : prog (soak W) unit := λ s,
  tick_under (WithTimeout ctx (20 * Second) (p_world (k_proc s))) core i s.

Definition soak_now (s : soak W) : Time := time_Now (p_world (k_proc s)).
Definition soak_Err (ctx : context) (s : soak W) : option ctx_error := ctx_Err ctx (p_world (k_proc s)).

(** The loop of [Run] from tick [i]. *)
Fixpoint ticks_loop (ctx : context) (core : list bnode) (deadline : Time) (tick : Duration) (fuel i : nat)
    : prog (soak W) unit := λ s,
  match fuel with
  | O => (s, None)
  | S fuel =>
    if negb (soak_now s <? deadline)%Z then (s, Some (Ok tt)) else
    match soak_Err ctx s with
    | Some _ => (s, Some (Ok tt))
    | None =>
      let tickStart := soak_now s in
      match runTick ctx core i s with
      | (s, None) => (s, None)
      | (s, Some (Fail e)) =>
        match soak_Err ctx s with
        | Some _ => if bool_decide (0 < i) then (s, Some (Ok tt)) else (s, Some (Fail e))
        | None => (s, Some (Fail e))
        end
      | (s, Some (Ok _)) =>
        let sleep := (tick - (soak_now s - tickStart))%Z in
        if (sleep <=? 0)%Z then ticks_loop ctx core deadline tick fuel (S i) s else
        let w := (select_after (p_world (k_proc s)) ctx sleep).1 in
        let s := MkSoak (MkProc w (p_open (k_proc s))) (k_rep s) in
        match soak_Err ctx s with
        | Some _ => (s, Some (Ok tt))
        | None => ticks_loop ctx core deadline tick fuel (S i) s
        end
      end
    end
  end.

Definition growth (base end_ : memSnap) : Z := if (Heap base <? Heap end_)%Z then (Heap end_ - Heap base)%Z else 0%Z.

(** The verdict on the counters [r] of a run. *)
Definition conclude (r : Report) (base end_ : memSnap) (dur : Duration) (cap : captureState) (order : list (string * Z))
    : result error Report :=
  if bool_decide (rp_Ticks r < 1) then Fail (Errorf "no ticks completed" []) else
  let grown := growth base end_ in
  let delta := (Goroutines end_ - Goroutines base)%Z in
  let failures :=
    (if (MaxHeapGrowth <? grown)%Z then ["heap grew " +:+ pretty grown +:+ " bytes (cap " +:+ pretty MaxHeapGrowth +:+ ")"] else []) ++
    (if (MaxGoroutineGrowth <? delta)%Z then ["goroutines grew by " +:+ pretty delta +:+ " (cap " +:+ pretty MaxGoroutineGrowth +:+ ")"] else []) ++
    audit cap order dur (Z.of_nat (rp_Ticks r)) in
  Ok (MkReport dur (rp_Ticks r) (rp_Joins r) (rp_Leaves r) (rp_Locks r) (rp_LockExpires r) (rp_Leases r) (rp_LeaseExpires r)
    (Heap base) (Heap end_) grown (Goroutines base) (Goroutines end_) (snapshot cap)
    (match failures with [] => rp_Passed r | _ => false end) failures).

Definition churn (ctx : context) (cfg : Config) (core : list bnode) : prog (proc W) Report := λ p,
  let started := time_Now (p_world p) in
  let deadline := Prelude.Add started (c_Duration cfg) in
  match runTick ctx core 0 (MkSoak p empty_report) with
  | (s, None) => (k_proc s, None)
  | (s, Some (Fail e)) => (k_proc s, Some (Fail e))
  | (s, Some (Ok _)) =>
    let (w, base) := snapshotMem (p_world (k_proc s)) in
    let s := MkSoak (MkProc w (p_open (k_proc s))) (k_rep s) in
    match ticks_loop ctx core deadline (c_Tick cfg) (rounds deadline (c_Tick cfg) w) 1 s with
    | (s, None) => (k_proc s, None)
    | (s, Some (Fail e)) => (k_proc s, Some (Fail e))
    | (s, Some (Ok _)) =>
      let (w, end_) := snapshotMem (p_world (k_proc s)) in
      (MkProc w (p_open (k_proc s)),
       Some (conclude (k_rep s) base end_ (time_Now w - started) (rt_captured w) (rt_order w)))
    end
  end.

Definition Run (ctx : context) (cfg : Config) : prog (proc W) Report := λ p,
  match normalize cfg with
  | Fail e => (p, Some (Fail e))
  | Ok cfg =>
    let (w, tmp) := if String.eqb (c_Dir cfg) "" then MkdirTemp (p_world p) else (p_world p, None) in
    match tmp with
    | Some e => (MkProc w (p_open p), Some (Fail (Errorf "temp dir: %w" [AErr e])))
    | None =>
      match startCluster rl dt (Z.to_nat (c_Nodes cfg)) (MkProc w (p_open p)) with
      | (p, None) => (p, None)
      | (p, Some (Fail e)) => (p, Some (Fail e))
      | (p, Some (Ok core)) => let (p, r) := churn ctx cfg core p in ((closeCluster rl core p).1, r)
      end
    end
  end.
End run.

(** ** What the report says *)

(** When [m] starts in [P] it returns with [Q], or an error with [E]. *)
Definition hoare {S A} (P : S → Prop) (m : prog S A) (Q : A → S → Prop) (E : S → Prop) : Prop :=
  ∀ s, P s → ∃ s' r, m s = (s', Some r) ∧ match r with Ok a => Q a s' | Fail _ => E s' end.

Section hoare.
Context {S : Type}.
Lemma hoare_bind {A B} P (m : prog S A) R (f : A → prog S B) Q E :
  hoare P m R E → (∀ a, hoare (R a) (f a) Q E) → hoare P (m ≫= f) Q E.
Proof.
  intros Hm Hf s Hs. destruct (Hm s Hs) as (s1 & [a|e] & Hr & Ha); unfold mbind, prog_bind; rewrite Hr.
  - by apply Hf.
  - by eexists s1, (Fail e).
Qed.
Lemma hoare_ret {A} (P : S → Prop) (a : A) (Q : A → S → Prop) E : (∀ s, P s → Q a s) → hoare P (mret a) Q E.
Proof. intros HP s Hs. eexists s, (Ok a). by split; [|apply HP]. Qed.
Lemma hoare_annotate {A} P g (m : prog S A) Q E : hoare P m Q E → hoare P (annotate g m) Q E.
Proof.
  intros Hm s Hs. destruct (Hm s Hs) as (s1 & [a|e] & Hr & Ha); unfold annotate; rewrite Hr;
    [by eexists s1, (Ok a)|by eexists s1, (Fail _)].
Qed.
Lemma hoare_weaken {A} (P P' : S → Prop) (m : prog S A) (Q Q' : A → S → Prop) (E E' : S → Prop) :
  hoare P m Q E → (∀ s, P' s → P s) → (∀ a s, Q a s → Q' a s) → (∀ s, E s → E' s) → hoare P' m Q' E'.
Proof.
  intros Hm HP HQ HE s Hs. destruct (Hm s (HP s Hs)) as (s1 & [a|e] & Hr & Ha);
    [eexists s1, (Ok a)|eexists s1, (Fail e)]; eauto.
Qed.
End hoare.

Lemma hoare_on_proc {W A} (P : proc W → Prop) (m : prog (proc W) A) (Q : A → proc W → Prop) (E : proc W → Prop) r :
  hoare P m Q E →
  hoare (λ s, P (k_proc s) ∧ k_rep s = r) (on_proc m) (λ a s, Q a (k_proc s) ∧ k_rep s = r)
    (λ s, E (k_proc s) ∧ k_rep s = r).
Proof.
  intros Hm s [Hs Hk]. destruct (Hm _ Hs) as (p1 & x & Hr & Ha). unfold on_proc. rewrite Hr.
  eexists _, x. split; [done|]. by destruct x.
Qed.
Lemma hoare_count {W} (P : proc W → Prop) c r E :
  hoare (λ s, P (k_proc s) ∧ k_rep s = r) (count c) (λ _ s, P (k_proc s) ∧ k_rep s = bump c r) E.
Proof. intros s [Hs Hk]. eexists _, (Ok tt). split; [done|]. by rewrite <-Hk. Qed.

(** A program that leaves the handles alone keeps their owners. *)
Lemma hoare_keeps `{Unicode} {W A} (m : prog (proc W) A) nodes :
  returns m → keeps m → hoare (λ p, owns p nodes) m (λ _ p, owns p nodes) (λ p, owns p nodes).
Proof.
  intros Hr Hk p Hp. destruct (Hr p) as (p1 & r & Hm). specialize (Hk p). rewrite Hm in Hk. simpl in Hk.
  eexists p1, r. split; [done|]. unfold owns in *. rewrite Hk. by destruct r.
Qed.

(** *** The transient member *)

Section owners.
Context `{Unicode} `{Codec D Command} `{Clock W} `{Transports W} `{RG : !Rigging W}.
Context (rl : string → RaftLib W D) (dt : timeouts).
Context (Ho : orderly rl) (Hs : steady rl).
Context (c : context) (core : list bnode) (Hc : is_Some (cx_deadline c)).

Lemma Shutdown_owns extra p :
  extra ∉ core → b_ID extra ∉ b_ID <$> core → owns p (core ++ [extra]) → owns (node_Shutdown rl extra p).1 core.
Proof.
  intros _ Hid Hp x. rewrite (node_Shutdown_frees rl extra p Ho). rewrite (Hp x). setoid_rewrite elem_of_app.
  setoid_rewrite list_elem_of_singleton. split.
  - intros [(n & [Hn| ->] & Hx) Hout]; [by exists n|done].
  - intros (n & Hn & Hx). split; [by exists n; auto|]. intros Hx'. apply Hid.
    assert (b_ID extra = b_ID n) as ->; [|by apply list_elem_of_fmap_2].
    unfold handles_of in *. set_unfold in Hx. set_unfold in Hx'. naive_solver.
Qed.

Lemma joinExtra_owns id :
  id ∉ b_ID <$> core →
  hoare (λ p, owns p core) (joinExtra rl dt c core id) (λ n p, owns p (core ++ [n]) ∧ b_ID n = id) (λ p, owns p core).
Proof.
  intros Hid p Hp. unfold joinExtra. destruct (rig_NewInmemTransport (p_world p)) as [w tr].
  set (w0 := foldl _ w core). unfold mbind at 1, prog_bind at 1.
  destruct (startNode_opens rl dt soak_timeouts id false tr (MkProc w0 (p_open p)) Ho) as (w1 & [n|e] & -> & Hn).
  2:{ by eexists _, (Fail e). }
  specialize (Hn n eq_refl) as ->. set (extra := MkNode id tr) in *. cbn [p_open].
  assert (owns (MkProc w1 (handles_of extra ++ p_open p)) (core ++ [extra])) as Hown.
  { intros x. cbn [p_open]. rewrite elem_of_app, (Hp x). setoid_rewrite elem_of_app.
    setoid_rewrite list_elem_of_singleton. naive_solver. }
  assert (extra ∉ core) as Hex by (intros Hin; by apply Hid, (list_elem_of_fmap_2 b_ID core extra)).
  unfold mbind at 1, prog_bind at 1, or_close at 1.
  match goal with |- context [match match ?m _ with _ => _ end with _ => _ end] => set (stages := m) end.
  assert (returns stages ∧ keeps stages) as [Hret Hkeep].
  { split; [|unfold stages; eauto 20 with clusdr]. unfold stages.
    apply returns_bind; [apply returns_annotate, onLeader_returns; [done|by apply steady_AddVoter]|intros _].
    apply returns_bind; [apply returns_annotate, onLeader_returns; [done|intros l w2; by apply steady_member]|intros _].
    by apply polling_returns. }
  destruct (hoare_keeps stages (core ++ [extra]) Hret Hkeep _ Hown) as (p2 & [a|e] & Hr & Hp2); rewrite Hr.
  - eexists p2, (Ok extra). by split.
  - eexists _, (Fail e). split; [done|]. simpl. pose proof (Shutdown_owns extra p2 Hex Hid Hp2) as Hd.
    by destruct (node_Shutdown rl extra p2).
Qed.

(** An error of [leaveExtra] before the shutdown leaves the extra node running. *)
Lemma leaveExtra_owns extra :
  b_ID extra ∉ b_ID <$> core →
  hoare (λ p, owns p (core ++ [extra])) (leaveExtra rl c core extra) (λ _ p, owns p core)
    (λ p, owns p core ∨ owns p (core ++ [extra])).
Proof.
  intros Hid. assert (extra ∉ core) as Hex by (intros Hin; by apply Hid, (list_elem_of_fmap_2 b_ID core extra)).
  assert (∀ m : prog (proc W) unit, returns m → keeps m → hoare (λ p, owns p (core ++ [extra])) m
    (λ _ p, owns p (core ++ [extra])) (λ p, owns p core ∨ owns p (core ++ [extra]))) as Hbefore.
  { intros m Hr Hk. apply (hoare_weaken _ _ _ _ _ _ _ (hoare_keeps m (core ++ [extra]) Hr Hk)); auto. }
  assert (∀ m : prog (proc W) unit, returns m → keeps m → hoare (λ p, owns p core) m
    (λ _ p, owns p core) (λ p, owns p core ∨ owns p (core ++ [extra]))) as Hafter.
  { intros m Hr Hk. apply (hoare_weaken _ _ _ _ _ _ _ (hoare_keeps m core Hr Hk)); auto. }
  unfold leaveExtra. apply hoare_bind with (R := λ _ p, owns p (core ++ [extra])).
  { apply Hbefore; [|eauto with clusdr]. apply returns_annotate, onLeader_returns; [done|]. intros l w. by apply steady_member. }
  intros _. apply hoare_bind with (R := λ _ p, owns p (core ++ [extra])).
  { apply Hbefore; [|eauto with clusdr]. apply returns_annotate, onLeader_returns; [done|]. intros l w.
    unfold node_RemoveVoter, RemoveVoter. pose proof (sd_RemoveServer rl Hs (b_ID l) w (b_ID extra)).
    by destruct (raft_RemoveServer w (b_ID extra)) as [w' [e|]]. }
  intros _. apply hoare_bind with (R := λ _ p, owns p core).
  { intros p Hp. unfold drop_extra. pose proof (Shutdown_owns extra p Hex Hid Hp) as Hd.
    destruct (node_Shutdown rl extra p) as [p1 e]. by eexists _, (Ok tt). }
  intros _. apply hoare_bind with (R := λ _ p, owns p core); [|intros _]; apply Hafter;
    try by apply polling_returns. all: unfold waitGone, waitAlive, polling; eauto with clusdr.
Qed.
End owners.

(** *** The counters *)

(** The counters a tick raises, in order. *)
Definition tick_counts (i : nat) : list counter :=
  [Joins; Leaves; LockCount] ++ (if expires i then [LockExpires] else []) ++
  [LeaseCount] ++ (if expires i then [LeaseExpires] else []) ++ [Ticks].
Definition bumps (r : Report) (cs : list counter) : Report := foldl (λ r c, bump c r) r cs.

Section ticks.
Context `{Unicode} `{Codec D Command} `{Clock W} `{Transports W} `{RG : !Rigging W} `{RT : !Runtime W}.
Context (rl : string → RaftLib W D) (dt : timeouts).
Context (Ho : orderly rl) (Hs : steady rl).
Context (core : list bnode) (Hids : ∀ i, extra_id i ∉ b_ID <$> core).

(** Only the core nodes are open, and the report is [r]. *)
Definition at_rest (r : Report) (s : soak W) : Prop := owns (k_proc s) core ∧ k_rep s = r.
(** Tick [i] broke off: some of its counters are up; a node may be left running
    only when the transient one had joined and not left. *)
Definition broken_off (r : Report) (i : nat) (s : soak W) : Prop :=
  ∃ cs rest, tick_counts i = cs ++ rest ∧ rest ≠ [] ∧ k_rep s = bumps r cs ∧ (cs = [Joins] ∨ owns (k_proc s) core).

Lemma stage {A} (m : prog (proc W) A) r i cs rest :
  tick_counts i = cs ++ rest → rest ≠ [] → returns m → keeps m →
  hoare (at_rest (bumps r cs)) (on_proc m) (λ _, at_rest (bumps r cs)) (broken_off r i).
Proof.
  intros Hcs Hne Hr Hk. eapply hoare_weaken; [apply (hoare_on_proc _ _ _ _ (bumps r cs) (hoare_keeps m core Hr Hk))|done..|].
  intros s [Hp Hrep]. exists cs, rest. auto.
Qed.
Lemma stage_count r cs c E : hoare (at_rest (bumps r cs)) (count c) (λ _, at_rest (bumps r (cs ++ [c]))) E.
Proof.
  unfold bumps at 2. rewrite foldl_snoc. intros s [Hp Hk]. eexists _, (Ok tt). split; [done|]. split; [done|]. simpl. by rewrite Hk.
Qed.

Lemma taken_steady what (x : W * result error (Z * bool)) : (taken what x).1 = x.1.
Proof. by destruct x as [w [[t []]|e]]. Qed.
Lemma steady_result {A} n w cmd op (f : lockResult → A) :
  (time_Now w ≤ time_Now (match @commit _ W D _ (rl n) w cmd op with (w, Fail e) => (w, Fail e) | (w, Ok r) => (w, Ok (f r)) end).1)%Z.
Proof. pose proof (steady_commit rl n w cmd op Hs). by destruct (commit w cmd op) as [w' [r|e]]. Qed.
Lemma steady_unit n w cmd op :
  (time_Now w ≤ time_Now (match @commit _ W D _ (rl n) w cmd op with (w, Fail e) => (w, Some e) | (w, Ok r) => (w, None) end).1)%Z.
Proof. pose proof (steady_commit rl n w cmd op Hs). by destruct (commit w cmd op) as [w' [r|e]]. Qed.

(** Taking, then waiting for the expiry or giving back; [churnLock] and [churnLease]. *)
Lemma churn_hoare {A} (take : prog (proc W) A) (wait : prog (proc W) unit) (give : A → prog (proc W) unit) c1 c2 r i cs rest :
  tick_counts i = cs ++ c1 :: (if expires i then [c2] else []) ++ rest → rest ≠ [] →
  returns take → keeps take → returns wait → keeps wait → (∀ a, returns (give a) ∧ keeps (give a)) →
  hoare (at_rest (bumps r cs))
    (on_proc take ≫= λ tok, count c1 ≫= λ _, if expires i then on_proc wait ≫= λ _, count c2 else on_proc (give tok))
    (λ _, at_rest (bumps r (cs ++ c1 :: if expires i then [c2] else []))) (broken_off r i).
Proof.
  intros Hcs Hne Ht1 Ht2 Hw1 Hw2 Hg. apply hoare_bind with (R := λ _, at_rest (bumps r cs)); [by eapply stage|intros a].
  apply hoare_bind with (R := λ _, at_rest (bumps r (cs ++ [c1]))); [apply stage_count|intros _].
  destruct (expires i); simpl in Hcs.
  - apply hoare_bind with (R := λ _, at_rest (bumps r (cs ++ [c1]))).
    + by apply (stage _ r i (cs ++ [c1]) (c2 :: rest)); [rewrite Hcs, <-app_assoc| | |].
    + intros _. replace (cs ++ [c1; c2]) with ((cs ++ [c1]) ++ [c2]) by by rewrite <-app_assoc. apply stage_count.
  - destruct (Hg a). by apply (stage _ r i (cs ++ [c1]) rest); [rewrite Hcs, <-app_assoc| | |].
Qed.

Lemma churnLock_hoare c r i :
  is_Some (cx_deadline c) →
  hoare (at_rest (bumps r [Joins; Leaves])) (churnLock rl c core i)
    (λ _, at_rest (bumps r ([Joins; Leaves; LockCount] ++ if expires i then [LockExpires] else []))) (broken_off r i).
Proof.
  intros Hc. eapply (churn_hoare _ _ _ LockCount LockExpires r i [Joins; Leaves]
    (LeaseCount :: (if expires i then [LeaseExpires] else []) ++ [Ticks])); [done..| | | | |].
  - apply fromLeader_returns; [done|]. intros l w. rewrite taken_steady. apply steady_result.
  - apply keeps_on_world.
  - by apply polling_returns.
  - apply keeps_checked.
  - intros tok. split; [apply onLeader_returns; [done|]; intros l w; apply steady_unit|].
    apply keeps_on_world.
Qed.
Lemma churnLease_hoare c r i :
  is_Some (cx_deadline c) →
  let before := [Joins; Leaves; LockCount] ++ (if expires i then [LockExpires] else []) in
  hoare (at_rest (bumps r before)) (churnLease rl c core i)
    (λ _, at_rest (bumps r (before ++ LeaseCount :: if expires i then [LeaseExpires] else []))) (broken_off r i).
Proof.
  intros Hc before. eapply (churn_hoare _ _ _ LeaseCount LeaseExpires r i before [Ticks]);
    [unfold before, tick_counts; by rewrite <-!app_assoc|done|..].
  - apply fromLeader_returns; [done|]. intros l w. rewrite taken_steady. apply steady_result.
  - apply keeps_on_world.
  - by apply polling_returns.
  - apply keeps_checked.
  - intros tok. split; [apply onLeader_returns; [done|]; intros l w; apply steady_unit|].
    apply keeps_on_world.
Qed.

(** A tick that returns nil raises all its counters. *)
Lemma runTick_hoare ctx r i :
  hoare (at_rest r) (runTick rl dt ctx core i) (λ _, at_rest (bumps r (tick_counts i))) (broken_off r i).
Proof.
  intros s Hrest. unfold runTick. set (c := WithTimeout ctx _ _).
  assert (is_Some (cx_deadline c)) as Hc by by eexists. clearbody c.
  enough (hoare (at_rest r) (tick_under rl dt c core i) (λ _, at_rest (bumps r (tick_counts i))) (broken_off r i)) as Hh
    by apply (Hh s Hrest).
  clear s Hrest. unfold tick_under.
  apply hoare_bind with (R := λ n s, (owns (k_proc s) (core ++ [n]) ∧ b_ID n = extra_id i) ∧ k_rep s = r).
  { apply hoare_annotate. eapply hoare_weaken; [apply (hoare_on_proc _ _ _ _ r (joinExtra_owns rl dt Ho Hs c core Hc (extra_id i) (Hids i)))|done..|].
    intros s [Hp Hk]. exists [], (tick_counts i). auto. }
  intros n. apply hoare_bind with (R := λ _ s, (owns (k_proc s) (core ++ [n]) ∧ b_ID n = extra_id i) ∧ k_rep s = bump Joins r).
  { intros s [Hp Hk]. eexists _, (Ok tt). split; [done|]. split; [done|]. simpl. by rewrite Hk. }
  intros _. apply hoare_bind with (R := λ _, at_rest (bumps r [Joins])).
  { apply hoare_annotate. intros s [[Hp Hn] Hk].
    assert (b_ID n ∉ b_ID <$> core) as Hnid by (rewrite Hn; apply Hids).
    destruct (hoare_on_proc _ _ _ _ (bump Joins r) (leaveExtra_owns rl Ho Hs c core Hc n Hnid) s (conj Hp Hk)) as (s' & x & Hr & Hx).
    exists s', x. split; [done|]. destruct x; [done|]. destruct Hx as [_ Hk']. exists [Joins], (drop 1 (tick_counts i)). auto. }
  intros _. apply hoare_bind with (R := λ _, at_rest (bumps r [Joins; Leaves])); [apply (stage_count r [Joins] Leaves)|intros _].
  eapply hoare_bind; [by apply hoare_annotate, churnLock_hoare|intros ?].
  eapply hoare_bind; [by apply hoare_annotate, churnLease_hoare|intros ?].
  eapply hoare_weaken; [apply (stage_count r (([Joins; Leaves; LockCount] ++ if expires i then [LockExpires] else []) ++
    LeaseCount :: if expires i then [LeaseExpires] else []) Ticks)|done| |done].
  intros ? s. unfold tick_counts. by rewrite <-!app_assoc.
Qed.
End ticks.

(** *** Adding up *)

Definition tally (r : Report) (c : counter) : nat :=
  match c with
  | Joins => rp_Joins r | Leaves => rp_Leaves r | LockCount => rp_Locks r | LockExpires => rp_LockExpires r
  | LeaseCount => rp_Leases r | LeaseExpires => rp_LeaseExpires r | Ticks => rp_Ticks r
  end.
Definition occ (c : counter) (cs : list counter) : nat := length (List.filter (λ x, bool_decide (x = c)) cs).
Definition all_counts (n : nat) : list counter := flat_map tick_counts (seq 0 n).

Lemma tally_bumps r cs c : tally (bumps r cs) c = tally r c + occ c cs.
Proof.
  revert r; induction cs as [|x cs IH]; intros r; [unfold occ; simpl; lia|]. unfold bumps in *. simpl. rewrite IH.
  unfold occ. simpl. by destruct x, c; simpl; lia.
Qed.
Lemma occ_app c l1 l2 : occ c (l1 ++ l2) = occ c l1 + occ c l2.
Proof. unfold occ. by rewrite List.filter_app, length_app. Qed.
Lemma bumps_app r l1 l2 : bumps r (l1 ++ l2) = bumps (bumps r l1) l2.
Proof. apply foldl_app. Qed.
Lemma all_counts_S n : all_counts (S n) = all_counts n ++ tick_counts n.
Proof. unfold all_counts. by rewrite seq_S, flat_map_app; simpl; rewrite app_nil_r. Qed.

Lemma third_S n : S n / 3 = n / 3 + if expires n then 1 else 0.
Proof.
  unfold expires. pose proof (Nat.div_mod n 3 ltac:(done)). pose proof (Nat.div_mod (S n) 3 ltac:(done)).
  pose proof (Nat.mod_upper_bound n 3 ltac:(done)). pose proof (Nat.mod_upper_bound (S n) 3 ltac:(done)).
  case_bool_decide; lia.
Qed.

Lemma occ_all n c :
  occ c (all_counts n) = match c with LockExpires | LeaseExpires => n / 3 | _ => n end.
Proof.
  induction n as [|n IH]; [by destruct c|]. rewrite all_counts_S, occ_app, IH.
  destruct c; try rewrite third_S; unfold tick_counts; destruct (expires n); unfold occ; simpl; lia.
Qed.


(** The counters of [n] ticks and the beginning of another. *)
Definition adds_up (n : nat) (r : Report) : Prop :=
  rp_Ticks r = n ∧ (n ≤ rp_Leases r ≤ rp_Locks r ∧ rp_Locks r ≤ rp_Leaves r ≤ rp_Joins r ∧ rp_Joins r ≤ S n)%nat ∧
  (n / 3 ≤ rp_LeaseExpires r ≤ rp_LockExpires r ∧ rp_LockExpires r ≤ S n / 3)%nat.

Lemma counters_prefix n cs rest :
  tick_counts n = cs ++ rest → rest ≠ [] → adds_up n (bumps (bumps empty_report (all_counts n)) cs).
Proof.
  intros Hcs Hne. rewrite <-bumps_app. set (r := bumps _ _).
  assert (∀ c, tally r c = occ c (all_counts n) + occ c cs) as Ht.
  { intros x. unfold r. rewrite tally_bumps, occ_app. by destruct x. }
  setoid_rewrite occ_all in Ht. unfold adds_up. rewrite third_S.
  pose proof (Ht Ticks) as H1. pose proof (Ht Joins) as H2. pose proof (Ht Leaves) as H3. pose proof (Ht LockCount) as H4.
  pose proof (Ht LeaseCount) as H5. pose proof (Ht LockExpires) as H6. pose proof (Ht LeaseExpires) as H7.
  clearbody r. clear Ht. simpl in *. rewrite H1, H2, H3, H4, H5, H6, H7. clear H1 H2 H3 H4 H5 H6 H7 r.
  unfold tick_counts in Hcs. destruct (expires n); simpl in Hcs;
    repeat (destruct cs as [|? cs]; simpl in Hcs; [unfold occ; simpl; lia|injection Hcs as <- Hcs]).
  all: destruct cs; simpl in Hcs; by subst.
Qed.
Lemma counters_whole n : adds_up n (bumps empty_report (all_counts n)).
Proof. by apply (counters_prefix n [] (tick_counts n)). Qed.

Section report.
Context `{Unicode} `{Codec D Command} `{Clock W} `{Transports W} `{RG : !Rigging W} `{RT : !Runtime W}.
Context (rl : string → RaftLib W D) (dt : timeouts).
Context (Ho : orderly rl) (Hs : steady rl).

(** A node that is left running had joined and not left. *)
Lemma broken_left core i (s : soak W) :
  broken_off core (bumps empty_report (all_counts i)) i s →
  owns (k_proc s) core ∨ rp_Joins (k_rep s) = S i ∧ rp_Leaves (k_rep s) = i.
Proof.
  intros (cs & rest & Hcs & Hne & Hk & [->|Hown]); [right|by left]. rewrite Hk, <-bumps_app.
  pose proof (tally_bumps empty_report (all_counts i ++ [Joins])) as Ht. setoid_rewrite occ_app in Ht.
  setoid_rewrite occ_all in Ht. pose proof (Ht Joins) as Hj. pose proof (Ht Leaves) as Hl. simpl in Hj, Hl.
  rewrite Hj, Hl. unfold occ; simpl. lia.
Qed.

Lemma ticks_loop_ends ctx core deadline tick fuel i s :
  (∀ i, extra_id i ∉ b_ID <$> core) → (0 < tick)%Z → 0 < i →
  rounds deadline tick (p_world (k_proc s)) ≤ fuel → at_rest core (bumps empty_report (all_counts i)) s →
  ∃ s' r, ticks_loop rl dt ctx core deadline tick fuel i s = (s', Some r) ∧
    (r = Ok tt → ∃ n, i ≤ n ∧ (at_rest core (bumps empty_report (all_counts n)) s' ∨
       broken_off core (bumps empty_report (all_counts n)) n s')) ∧
    (∀ e, r = Fail e → owns (k_proc s') core ∨ ∃ n, rp_Joins (k_rep s') = S n ∧ rp_Leaves (k_rep s') = n).
Proof.
  intros Hids Ht. revert i s; induction fuel as [|fuel IH]; intros i s Hi Hf Hrest; [unfold rounds in Hf; lia|].
  cbn [ticks_loop]. destruct (Z.ltb_spec (soak_now s) deadline) as [Hlt|]; simpl negb; cbv iota.
  2:{ eexists s, (Ok tt). split_and!; [done|intros _; exists i; auto|done]. }
  destruct (soak_Err ctx s). { eexists s, (Ok tt). split_and!; [done|intros _; exists i; auto|done]. }
  destruct (runTick_hoare rl dt Ho Hs core Hids ctx _ i s Hrest) as (s1 & x & Hr & Hx). rewrite Hr. cbv zeta.
  assert (∀ s2, at_rest core (bumps empty_report (all_counts (S i))) s2 → (soak_now s + tick ≤ soak_now s2)%Z →
    rounds deadline tick (p_world (k_proc s2)) ≤ fuel) as Hfuel.
  { intros s2 _ Hle. pose proof (rounds_step deadline tick _ _ Ht Hle Hlt). lia. }
  destruct x as [[]|e].
  - rewrite <-bumps_app, <-all_counts_S in Hx. destruct (Z.leb_spec (tick - (soak_now s1 - soak_now s)) 0) as [Hle|Hgt].
    + destruct (IH (S i) s1) as (s' & r & Hl & Hok & Hfail); [lia|apply Hfuel; [done|lia]|done|].
      exists s', r. split_and!; [done| |done]. intros Hr'. destruct (Hok Hr') as (n & ? & ?). exists n. split; [lia|done].
    + destruct (select_after (p_world (k_proc s1)) ctx _) as [w o] eqn:Hsel. simpl fst.
      set (s2 := MkSoak (MkProc w _) (k_rep s1)). assert (at_rest core (bumps empty_report (all_counts (S i))) s2) as Hx2 by apply Hx.
      destruct (soak_Err ctx s2) eqn:Herr. { eexists s2, (Ok tt). split_and!; [done|intros _; exists (S i); auto|done]. }
      destruct o as [c|].
      { exfalso. by eapply (ctx_Err_after ctx). }
      apply select_after_timer in Hsel. destruct (IH (S i) s2) as (s' & r & Hl & Hok & Hfail);
        [lia|apply Hfuel; [done|unfold soak_now in *; simpl; lia]|done|].
      exists s', r. split_and!; [done| |done]. intros Hr'. destruct (Hok Hr') as (n & ? & ?). exists n. split; [lia|done].
  - assert (∃ n, i ≤ n ∧ (at_rest core (bumps empty_report (all_counts n)) s1 ∨
       broken_off core (bumps empty_report (all_counts n)) n s1)) as Hbroken by (exists i; auto).
    pose proof (broken_left core i s1 Hx) as Hleft.
    destruct (soak_Err ctx s1); [|by eexists s1, (Fail e); split_and!; [| |intros e' _; destruct Hleft; eauto]].
    rewrite bool_decide_eq_true_2 by done. by eexists s1, (Ok tt).
Qed.

Lemma conclude_Ok r base end_ dur cap order :
  1 ≤ rp_Ticks r → rp_Passed r = true → ∃ rep, conclude r base end_ dur cap order = Ok rep ∧
    (∀ n, adds_up n r → adds_up n rep) ∧ rp_Joins rep = rp_Joins r ∧ rp_Leaves rep = rp_Leaves r ∧ rp_Ticks rep = rp_Ticks r ∧
    (rp_Passed rep = true ↔ rp_Failures rep = []) ∧ rp_Logs rep = snapshot cap ∧
    (rp_Failures rep = [] ↔ (rp_HeapEnd rep - rp_HeapStart rep ≤ MaxHeapGrowth)%Z ∧
      (rp_GoEnd rep - rp_GoStart rep ≤ MaxGoroutineGrowth)%Z ∧
      audit cap order (rp_Duration rep) (Z.of_nat (rp_Ticks rep)) = []).
Proof.
  intros Ht Hp. unfold conclude. rewrite bool_decide_eq_false_2 by lia. eexists. split; [done|].
  split_and!; try done; cbn [rp_Passed rp_Failures rp_HeapEnd rp_HeapStart rp_GoEnd rp_GoStart rp_Duration rp_Ticks].
  - rewrite Hp. by destruct (_ ++ _).
  - rewrite !app_nil. unfold growth. destruct (Z.ltb_spec (Heap base) (Heap end_)) as [Hh|Hh].
    all: destruct (Z.ltb_spec MaxGoroutineGrowth (Goroutines end_ - Goroutines base)) as [Hg|Hg].
    all: match goal with |- context [(MaxHeapGrowth <? ?x)%Z] => destruct (Z.ltb_spec MaxHeapGrowth x) as [Hm|Hm] end.
    all: split; [intros (Ha & Hb & Hc)|intros (Ha & Hb & Hc)]; split_and!; try done; try lia.
    all: assert (0 ≤ MaxHeapGrowth)%Z by done; lia.
Qed.

(** The churn between the start and the close of the cluster. *)
Lemma churn_ends ctx cfg core p :
  (∀ i, extra_id i ∉ b_ID <$> core) → (0 < c_Tick cfg)%Z → owns p core →
  ∃ p' r, churn rl dt ctx cfg core p = (p', Some r) ∧ ∀ rep, r = Ok rep →
    1 ≤ rp_Ticks rep ∧ adds_up (rp_Ticks rep) rep ∧ (rp_Joins rep = rp_Leaves rep → owns p' core) ∧
    (rp_Passed rep = true ↔ rp_Failures rep = []) ∧
    ∃ cap order, rp_Logs rep = snapshot cap ∧
      (rp_Failures rep = [] ↔ (rp_HeapEnd rep - rp_HeapStart rep ≤ MaxHeapGrowth)%Z ∧
        (rp_GoEnd rep - rp_GoStart rep ≤ MaxGoroutineGrowth)%Z ∧
        audit cap order (rp_Duration rep) (Z.of_nat (rp_Ticks rep)) = []).
Proof.
  intros Hids Ht Hp. unfold churn.
  destruct (runTick_hoare rl dt Ho Hs core Hids ctx empty_report 0 (MkSoak p empty_report)) as (s1 & [[]|e] & -> & Hx);
    [done| |by eexists _, (Fail e)].
  destruct (snapshotMem (p_world (k_proc s1))) as [w base]. set (s2 := MkSoak (MkProc w _) (k_rep s1)).
  destruct (ticks_loop_ends ctx core (Prelude.Add (time_Now (p_world p)) (c_Duration cfg)) (c_Tick cfg) (rounds _ _ w) 1 s2 Hids Ht ltac:(lia) (le_n _) Hx)
    as (s3 & [[]|e] & -> & Hok & _); [|by eexists _, (Fail e)].
  destruct (Hok eq_refl) as (n & Hn & Hend). destruct (snapshotMem (p_world (k_proc s3))) as [w3 end_].
  assert (adds_up n (k_rep s3) ∧ rp_Passed (k_rep s3) = true ∧
    (rp_Joins (k_rep s3) = rp_Leaves (k_rep s3) → owns (k_proc s3) core)) as (Hadd & Hpass & Hown).
  { assert (∀ r cs, rp_Passed (bumps r cs) = rp_Passed r) as Hb.
    { clear. intros r cs. revert r; induction cs as [|c cs IH]; intros r; [done|]. unfold bumps in *. simpl. by rewrite IH. }
    destruct Hend as [[Hpr Hk]|Hbr].
    - rewrite Hk. split_and!; [apply counters_whole|by rewrite Hb|done].
    - pose proof (broken_left core n s3 Hbr) as Hleft. destruct Hbr as (cs & rest & Hcs & Hne & Hk & _).
      split_and!; [rewrite Hk; by eapply counters_prefix|by rewrite Hk, !Hb|].
      destruct Hleft as [|[-> ->]]; [done|lia]. }
  destruct (conclude_Ok (k_rep s3) base end_ (time_Now w3 - time_Now (p_world p)) (rt_captured w3) (rt_order w3))
    as (rep & -> & Hc & Hj & Hl & Htk & Hpf & Hlogs & Hf); [destruct Hadd as [-> _]; lia|done|].
  eexists _, (Ok rep). split; [done|]. intros rep' [= <-]. destruct (Hadd) as [Hticks _]. rewrite Htk, Hticks in *.
  split_and!; [lia|by apply Hc|rewrite Hj, Hl; apply Hown|done|]. by exists (rt_captured w3), (rt_order w3).
Qed.

End report.

Section adds_up.
Context `{Unicode} `{Codec D Command} `{Clock W} `{Transports W} `{RG : !Rigging W} `{RT : !Runtime W}.
Context (rl : string → RaftLib W D) (dt : timeouts).

End adds_up.

(** ** A release whose answer is lost *)

Lemma Contains_cons c s sub : Contains s sub = true → Contains (String c s) sub = true.
Proof. intros Hs. cbn [Contains]. by rewrite Hs, orb_true_r. Qed.
Lemma Contains_app pre s sub : Contains s sub = true → Contains (pre +:+ s) sub = true.
Proof. intros Hs. induction pre as [|c pre IH]; [done|]. simpl String.append. by apply Contains_cons. Qed.

Lemma append_empty_r s : s +:+ "" = s.
Proof. induction s as [|c s IH]; [done|]. exact (f_equal (String c) IH). Qed.

Section lost.
Context `{Unicode} `{Codec D Command} `{Clock W}.
Context (rl : string → RaftLib W D).

Definition release_cmd (name : string) (tok : Z) : Command := MkCommand CmdLockRelease "soak" "" "" name tok 0 0.

(** Releasing a lock that is not there is an error that is neither one of
    leadership nor unknown to the benchmark. *)
Lemma release_absent n w d name tok (f0 : node_fsm) t now w' :
  encodeCommand (release_cmd name tok) = Ok d → Locks.ValidName name = None → fsm_locks f0 = Some t → Locks.locks t !! name = None →
  @raft_Apply _ W D _ (rl n) w d = (w', Ok (applyCommand now f0 (release_cmd name tok)).1.2) →
  ∃ e, @ApplyLockRelease _ W D _ (rl n) w name "soak" tok = (w', Some e) ∧
    transientLeadership (Some e) = false ∧ alreadyReleased (Some e) = true.
Proof.
  intros Hd Hv Ht Hn Ha. unfold ApplyLockRelease, commit. fold (release_cmd name tok). rewrite Hd. unfold applyLock. rewrite Ha.
  assert ((applyCommand now f0 (release_cmd name tok)).1.2 = RespLock (errResult (Locks.not_held name))) as ->.
  { unfold applyCommand. cbn [release_cmd Kind]. rewrite Ht. simpl. unfold Release. by rewrite Hv, Hn. }
  eexists. split; [done|]. split; [done|]. unfold alreadyReleased. apply orb_true_iff. left.
  cbn [Name release_cmd Err errResult]. unfold Locks.not_held. cbn [render]. simpl Units.fill.
  rewrite append_empty_r. repeat first [reflexivity|apply Contains_app|apply Contains_cons].
Qed.

(** A release whose acknowledgement is lost fails the soak run.  When the
    release was committed but its answer is a loss of leadership, [withLeader]
    releases again; the lock is gone by then, and [lock_release: lock is not held]
    ends the tick, though the lock was released as asked.  The benchmark takes the
    same answer for a release ([alreadyReleased]). *)
Theorem soak_release_lost_ack c nodes name tok poll fuel w w1 l1 w2 e w3 w4 l2 d (f0 : node_fsm) t now w5 :
  ctx_Err c w = None → waitLeaderOf rl c nodes poll w = (w1, Some (Ok l1)) →
  node_LockRelease rl l1 w1 name tok = (w2, Some e) → transientLeadership (Some e) = true →
  select_after w2 c retryInterval = (w3, None) →
  ctx_Err c w3 = None → waitLeaderOf rl c nodes poll w3 = (w4, Some (Ok l2)) →
  encodeCommand (release_cmd name tok) = Ok d → Locks.ValidName name = None →
  fsm_locks f0 = Some t → Locks.locks t !! name = None →
  @raft_Apply _ W D _ (rl (b_ID l2)) w4 d = (w5, Ok (applyCommand now f0 (release_cmd name tok)).1.2) →
  ∃ err, withLeader rl c nodes (λ lead w, as_result (node_LockRelease rl lead w name tok)) poll (S (S fuel)) None w =
      (w5, Some (Fail err)) ∧
    transientLeadership (Some err) = false ∧ alreadyReleased (Some err) = true.
Proof.
  intros He1 Hl1 Hr1 Ht1 Hs He2 Hl2 Hd Hv Ht Hn Ha.
  destruct (release_absent (b_ID l2) w4 d name tok f0 t now w5 Hd Hv Ht Hn Ha) as (err & Herr & Htr & Hal).
  exists err. split; [|done]. cbn [withLeader]. rewrite He1, Hl1. unfold as_result at 1. rewrite Hr1. cbn [fst snd].
  rewrite Ht1. cbn [negb]. rewrite Hs, He2, Hl2. unfold as_result. unfold node_LockRelease. rewrite Herr. cbn [fst snd].
  by rewrite Htr.
Qed.
End lost.

(** ** Concrete runs *)
Module SoakExamples.
Export ToyRig.

#[export] Instance toy_runtime : Runtime toy := {|
  snapshotMem w := (w, MkMemSnap 4096 12); MkdirTemp w := (w, None); rt_captured _ := newCapture; rt_order _ := [];
|}.

Definition background_ctx : context := MkContext None true.
Definition short_run : Config := MkConfig (2 * Second) 3 (400 * Millisecond) "/tmp/soak".
Definition summary (x : proc toy * option (result error Report)) : option (list nat * bool) :=
  match x.2 with Some (Ok r) => Some (tally r <$> [Ticks; Joins; Leaves; LockCount; LockExpires; LeaseCount; LeaseExpires], rp_Passed r) | _ => None end.

(** A warning at every expiry is expected; a dead member is not. *)
Definition log1 : list logRecord :=
  [MkLogRecord LevelInfo "member.join"; MkLogRecord LevelWarn "lock expire apply"; MkLogRecord LevelInfo "member.dead"].
Lemma soak_audit_exact_witness :
  let s := foldl (log_record None) newCapture log1 in NoDup (audit s (map_to_list (byMsg s)) Minute 4).
Proof. apply (soak_audit_exact None log1). reflexivity. Defined.


(** The lock of the first tick, taken; its release loses the answer. *)
Definition locked : toy := with_fsm toy0 (Apply 1000 (ty_fsm toy0) (MkLog 1 LogCommand
  (MkCommand CmdLockAcquire "soak" "" "" "soak-lock-0" 0 3600000 3601000))).1.1 true.
Definition waited (w : toy) : toy := (waitLeaderOf toy_raft ctx0 nodes0 9 w).1.
Definition lost1 : toy := (node_LockRelease toy_raft (MkNode "node-0" "mem-0") (waited locked) "soak-lock-0" 1).1.
Definition lost2 : toy := (select_after lost1 ctx0 retryInterval).1.

Lemma soak_release_lost_ack_witness :
  ∃ w5 err, withLeader toy_raft ctx0 nodes0 (λ lead w, as_result (node_LockRelease toy_raft lead w "soak-lock-0" 1)) 9 2 None locked =
      (w5, Some (Fail err)) ∧ transientLeadership (Some err) = false.
Proof.
  destruct (soak_release_lost_ack toy_raft ctx0 nodes0 "soak-lock-0" 1 9 0 locked (waited locked) (MkNode "node-0" "mem-0") lost1
    (Errorf "raft apply %s %s: %w" [AStr "lock_release"; AStr "soak-lock-0"; AErr (Errorf ErrLeadershipLost [])])
    lost2 (waited lost2) (MkNode "node-0" "mem-0") (release_cmd "soak-lock-0" 1) (ty_fsm (waited lost2))
    (default Locks.New (fsm_locks (ty_fsm (waited lost2)))) (ty_now (waited lost2))
    (toy_apply (waited lost2) (release_cmd "soak-lock-0" 1)).1) as (err & Herr & Ht & _).
  1-12: vm_compute; reflexivity.
  exists (toy_apply (waited lost2) (release_cmd "soak-lock-0" 1)).1, err. split; [exact Herr|exact Ht].
Defined.
End SoakExamples.
