(* ===== verification/Cli.v ===== *)
(** * Cli: the commands of [cmd/clusdr] besides [init]

    A command loads the configuration, dials the daemon of this host and makes one
    RPC; what it prints is a list of texts, each the format and the arguments of one
    [Fprintf].  [RuntimeAPI] is gRPC to a daemon: its handlers are modelled with
    their services, and the one thing the commands depend on here is that a TLS
    client and a plaintext server do not understand each other.  [certs show] reads
    the files of the data directory and the store. *)
From S2P Require Import Prelude Events Membership EventService LockService LeaseService JoinService Heartbeat Watch.
From S2P Require Import Config Store Units Server Pki Rig.
From stdpp Require Import pretty.

(** What a command prints, and how the process ends. *)
Definition text := error.
Definition line (format : string) (args : list arg) : text := Errorf format args.
Inductive exit : Type := Exit0 | ExitErr (e : error) | ExitNow (status : Z).
Definition printed : Type := list text * exit.

(** ** Flags and configuration ([root.go], [start.go]) *)

Record rootFlags := MkFlags { rf_configPath : string; rf_logLevel : string; rf_logFormat : string }.

Definition set_log (c : Config.Config) (l : LogConfig) : Config.Config :=
  MkCfg (Node c) (Cluster_ID c) (Data_Dir c) l (GRPC c) (ShutdownTimeout c) (Heartbeat c) (Raft c) (TLS_Mode c) (Lock c) (Lease c).

Section config.
Context `{Unicode}.
Context (ParseDuration : string → result error Duration) (getenv : string → string) (home : result error string).
Context (read : string → file) (Unmarshal : list Z → Config.Config → result error Config.Config).

Definition loadConfig (f : rootFlags) : result error Config.Config :=
  match LoadFrom ParseDuration getenv home read Unmarshal (rf_configPath f) with
  | Fail e => Fail e
  | Ok c =>
    let c := if str_empty (rf_logLevel f) then c else set_log c (MkLogConfig (rf_logLevel f) (cl_Format (Log c))) in
    Ok (if str_empty (rf_logFormat f) then c else set_log c (MkLogConfig (cl_Level (Log c)) (rf_logFormat f)))
  end.

(** The environment [start] hands to the daemon. *)
Definition start_getenv (bootstrap : bool) (key : string) : string :=
  if bootstrap && String.eqb key "CLUSDR_RAFT_BOOTSTRAP" then "true" else getenv key.
(** The configuration of the daemon: the unit [config] of [InitApp] with the
    [Options] of [start]. *)
Definition start_config (bootstrap : bool) (f : rootFlags) : result error Config.Config :=
  LoadFrom ParseDuration (start_getenv bootstrap) home read Unmarshal (rf_configPath f).
End config.

Definition strOrEmpty (s fallback : string) : string := if str_empty s then fallback else s.
Definition show_bool (b : bool) : string := if b then "true" else "false".

(** [clusdr config validate] *)
Definition config_lines (c : Config.Config) : list text :=
  let s f v := line f [AStr v] in
  let d f v := line f [ANum v] in
  [line "# resolved configuration" []; line "" [];
   line "node:" []; s "  id\t%s\n" (strOrEmpty (cn_ID (Node c)) "(not set — generated on init)"); s "  addr\t%s\n" (cn_Addr (Node c));
   line "cluster:" []; s "  id\t%s\n" (strOrEmpty (Cluster_ID c) "(not set — generated on init)");
   line "data:" []; s "  dir\t%s\n" (Data_Dir c);
   line "log:" []; s "  level\t%s\n" (cl_Level (Log c)); s "  format\t%s\n" (cl_Format (Log c));
   line "grpc:" []; s "  addr\t%s\n" (cg_Addr (GRPC c)); s "  control_socket\t%s\n" (cg_ControlSocket (GRPC c));
   d "  dial_timeout\t%s\n" (cg_DialTimeout (GRPC c)); d "  request_timeout\t%s\n" (cg_RequestTimeout (GRPC c));
   line "raft:" []; s "  addr\t%s\n" (cr_Addr (Raft c)); s "  bootstrap\t%v\n" (show_bool (cr_Bootstrap (Raft c)));
   d "  heartbeat_timeout\t%s\n" (cr_HeartbeatTimeout (Raft c)); d "  election_timeout\t%s\n" (cr_ElectionTimeout (Raft c));
   d "  leader_lease_timeout\t%s\n" (cr_LeaderLeaseTimeout (Raft c));
   line "tls:" []; s "  mode\t%s\n" (TLS_Mode c);
   line "lock:" []; d "  ttl\t%s\n" (ck_TTL (Lock c)); d "  expire_interval\t%s\n" (ck_ExpireInterval (Lock c));
   line "lease:" []; d "  ttl\t%s\n" (ce_TTL (Lease c)); d "  expire_interval\t%s\n" (ce_ExpireInterval (Lease c));
   s "  presence\t%v\n" (show_bool (ce_Presence (Lease c))); d "  presence_ttl\t%s\n" (ce_PresenceTTL (Lease c))].

(** ** The daemon *)

Record JoinReply := MkJoinReply { jy_Joined : bool; jy_Message : string; jy_Members : list ProtoMember; jy_CertIssued : bool }.
Record DoneReply := MkDoneReply { dy_Done : bool; dy_Message : string; dy_Members : list ProtoMember }.
Record HealthReply := MkHealthReply { hy_Healthy : bool; hy_NodeId : string; hy_ClusterId : string; hy_Role : string }.

Inductive request : Type :=
  | RListMembers | RGetLeader | RHealth | RListLocks | RListLeases
  | RRequestJoin (addr token : string) (observer : bool)
  | RRequestLeave (id : string) | RRequestPromote (id : string)
  | RPublishEvent (topic : string) (payload : list Z).
Definition reply (r : request) : Type :=
  match r with
  | RListMembers => list ProtoMember
  | RGetLeader => string * string
  | RHealth => HealthReply
  | RListLocks => list LockInfo
  | RListLeases => list LeaseInfo
  | RRequestJoin _ _ _ => JoinReply
  | RRequestLeave _ | RRequestPromote _ => DoneReply
  | RPublishEvent _ _ => PublishEventResponse
  end.

(** One [Recv] of a stream: a message, [io.EOF], or another status. *)
Inductive recv : Type := RecvMsg (m : WatchResponse) | RecvEOF | RecvErr (canceled : bool) (e : error).

(** gRPC: a connection has credentials, or none, and an address.  [ra_plain] is
    whether the server at an address has no TLS. *)
Class RuntimeAPI (W K : Type) := {
  ra_NewClient : option K → string → option error;
  ra_call (w : W) (creds : option K) (addr : string) (timeout : Duration) (r : request) : W * result error (reply r);
  ra_Watch : W → option K → string → list string → Z → list string → W * result error (list recv);
  ra_plain : W → string → bool;
  ra_handshake w creds addr t r : ra_plain w addr = bool_decide (creds ≠ None) → ∃ w' e, ra_call w creds addr t r = (w', Fail e);
}.

Section client.
Context `{Unicode} `{RA : !RuntimeAPI W K}.
Context (BootstrapTLS : K) (ClientTLS : list Z → list Z → list Z → result error K).
Context (read : W → string → result error (list Z)) (join_path : string → string → string).

Definition ClientFromDir (w : W) (dir : string) : result error K :=
  m ← LoadFiles join_path read w dir;
  ClientTLS m.1.1 m.1.2 m.2.
Definition daemonCreds (w : W) (c : Config.Config) : option K :=
  if negb (TLSEnabled c) then None else
  match ClientFromDir w (Data_Dir c) with
  | Fail _ => Some BootstrapTLS
  | Ok creds => Some creds
  end.

(** [mtls.Dial] resolves nothing and connects to nobody yet. *)
Definition dialDaemon (w : W) (c : Config.Config) : result error (option K * string) :=
  let creds := daemonCreds w c in
  let addr := cg_Addr (GRPC c) in
  match ra_NewClient creds addr with
  | Some e => Fail (Errorf "dial daemon at %s: %w" [AStr addr; AErr e])
  | None => Ok (creds, addr)
  end.

(** The body of a command that makes one request: [load] is what [loadConfig] gave. *)
Definition ask (load : result error Config.Config) (what : string) (r : request) (k : reply r → printed) (w : W) : W * printed :=
  match load with
  | Fail e => (w, ([], ExitErr e))
  | Ok c =>
    match dialDaemon w c with
    | Fail e => (w, ([], ExitErr e))
    | Ok (creds, addr) =>
      match ra_call w creds addr (cg_RequestTimeout (GRPC c)) r with
      | (w, Fail e) => (w, ([], ExitErr (Errorf (what +:+ ": %w") [AErr e])))
      | (w, Ok a) => (w, k a)
      end
    end
  end.

(** ** Commands *)

Definition displayMemberRole (m : ProtoMember) : string :=
  if pm_Leader m then "leader" else if String.eqb (pm_Role m) "observer" then "observer" else "voter".
Definition member_table (l : list ProtoMember) : list text :=
  line "ID\tADDRESS\tSTATUS\tROLE" [] ::
  ((λ m, line "%s\t%s\t%s\t%s\n" [AStr (pm_Id m); AStr (pm_Address m); AStr (pm_Status m); AStr (displayMemberRole m)]) <$> l).

Definition members (load : result error Config.Config) : W → W * printed :=
  ask load "list members" RListMembers (λ l : list ProtoMember,
    (match l with [] => [line "no members" []] | _ => member_table l end, Exit0)).
Definition leader (load : result error Config.Config) : W → W * printed :=
  ask load "get leader" RGetLeader (λ l : string * string,
    ([line "leader id : %s\n" [AStr l.1]; line "address   : %s\n" [AStr l.2]], Exit0)).
Definition health (load : result error Config.Config) : W → W * printed :=
  ask load "health" RHealth (λ h : HealthReply,
    if negb (hy_Healthy h) then ([], ExitErr (Errorf "health: not healthy" [])) else
    ([line "healthy    : %v\n" [AStr (show_bool (hy_Healthy h))]; line "node id    : %s\n" [AStr (hy_NodeId h)];
      line "cluster id : %s\n" [AStr (hy_ClusterId h)]; line "role       : %s\n" [AStr (hy_Role h)]], Exit0)).

(** [time.UnixMilli(ms).UTC().Format(time.RFC3339)] *)
Context (RFC3339 : Z → string).
Definition show_time (ms : Z) : string := if (0 <? ms)%Z then RFC3339 ms else "".
Definition locks (load : result error Config.Config) : W → W * printed :=
  ask load "list locks" RListLocks (λ l : list LockInfo,
    (match l with
     | [] => [line "no locks" []]
     | _ => line "NAME\tHOLDER\tTOKEN\tACQUIRED\tDEADLINE" [] ::
        ((λ x, line "%s\t%s\t%d\t%s\t%s\n" [AStr (li_Name x); AStr (li_Holder x); ANum (li_FencingToken x);
            AStr (show_time (li_AcquiredUnixMs x)); AStr (show_time (li_DeadlineUnixMs x))]) <$> l)
     end, Exit0)).
Definition leases (load : result error Config.Config) : W → W * printed :=
  ask load "list leases" RListLeases (λ l : list LeaseInfo,
    (match l with
     | [] => [line "no leases" []]
     | _ => line "NAME\tOWNER\tTOKEN\tGRANTED\tDEADLINE" [] ::
        ((λ x, line "%s\t%s\t%d\t%s\t%s\n" [AStr (le_Name x); AStr (le_Owner x); ANum (le_FencingToken x);
            AStr (show_time (le_GrantedUnixMs x)); AStr (show_time (le_DeadlineUnixMs x))]) <$> l)
     end, Exit0)).

Definition join (load : result error Config.Config) (addr token : string) (observer : bool) : W → W * printed :=
  ask load "join" (RRequestJoin addr token observer) (λ r : JoinReply,
    if negb (jy_Joined r) then ([], ExitErr (Errorf "join rejected: %s" [AStr (jy_Message r)])) else
    (line "joined cluster" [] :: (if jy_CertIssued r then [line "node certificate issued" []] else []) ++
     line "" [] :: member_table (jy_Members r), Exit0)).
(** [leave] and [promote], with the text of success; without an argument the id is empty. *)
Definition done_command (load : result error Config.Config) (what told : string) (r : request) (get : reply r → DoneReply) : W → W * printed :=
  ask load what r (λ a, let d := get a in
    if negb (dy_Done d) then ([], ExitErr (Errorf (what +:+ " rejected: %s") [AStr (dy_Message d)])) else
    (line told [] :: line "" [] :: member_table (dy_Members d), Exit0)).
Definition leave (load : result error Config.Config) (args : list string) : W → W * printed :=
  done_command load "leave" "left cluster" (RRequestLeave (default "" (head args))) (λ d, d).
Definition promote (load : result error Config.Config) (args : list string) : W → W * printed :=
  done_command load "promote" "promoted to voter" (RRequestPromote (default "" (head args))) (λ d, d).
Definition publish (load : result error Config.Config) (topic : string) (payload : option string) : W → W * printed :=
  ask load "publish" (RPublishEvent topic (from_option bytes_of [] payload)) (λ r : PublishEventResponse,
    if negb (pr_Accepted r) then ([], ExitErr (Errorf "publish rejected: %s" [AStr (pr_Message r)])) else
    ([line "published  type=%s  event_id=%s\n" [AStr (pr_Type r); AStr (pr_EventId r)]], Exit0)).

(** *** [status] and [watch] *)

(** [os.Stat]: there, not there, or another error. *)
Inductive stat_result : Type := Exists | NotExist | StatError (e : error).
Definition status_cmd (load : result error Config.Config) (stat : string → stat_result) : printed :=
  match load with
  | Fail e => ([], ExitErr e)
  | Ok c =>
    let socket := cg_ControlSocket (GRPC c) in
    match stat socket with
    | NotExist => ([line "daemon not running (socket not found: %s)\n" [AStr socket]], ExitNow 1)
    | StatError e => ([], ExitErr (Errorf "stat %q: %w" [AStr socket; AErr e]))
    | Exists => ([line "daemon running (socket: %s)\n" [AStr socket]], Exit0)
    end
  end.

(** The bytes of a payload, JSON for the events of the engines. *)
Context (payload_text : payload → string).

(** The receive loop; [interrupted]: the context is done when an error comes. *)
Fixpoint watch_loop (interrupted : bool) (l : list recv) : printed :=
  match l with
  | RecvMsg m :: l =>
    let (out, e) := watch_loop interrupted l in
    (line "%d\t%s\t%s\t%s\n" [ANum (w_Seq m); AStr (w_Type m); AStr (w_Source m);
       AStr (payload_text (w_Payload m))] :: out, e)
  | RecvErr canceled e :: _ => ([], if canceled || interrupted then Exit0 else ExitErr (Errorf "watch recv: %w" [AErr e]))
  | RecvEOF :: _ | [] => ([], Exit0)
  end.
Definition watch (load : result error Config.Config) (types topics : list string) (lastSeq : Z) (interrupted : bool) (w : W) : W * printed :=
  match load with
  | Fail e => (w, ([], ExitErr e))
  | Ok c =>
    match dialDaemon w c with
    | Fail e => (w, ([], ExitErr e))
    | Ok (creds, addr) =>
      match ra_Watch w creds addr types lastSeq topics with
      | (w, Fail e) => (w, ([], ExitErr (Errorf "watch: %w" [AErr e])))
      | (w, Ok l) => let (out, e) := watch_loop interrupted l in (w, (line "SEQ\tTYPE\tSOURCE\tPAYLOAD" [] :: out, e))
      end
    end
  end.
End client.

(** [main]: the status of the process. *)
Definition exit_status (e : exit) : Z := match e with Exit0 => 0 | ExitErr _ => 1 | ExitNow n => n end.

(** ** Certificates ([certs.go]) *)

Section certs.
Context `{X509 Key Pub Cert} `{Bolt DB}.
Context (RFC3339 : Z → string) (path_Join : string → string → string).
Context (read : string → file) (OpenBrief : string → tx DB).

Definition os_error (path : string) (f : file) : result error (list Z) :=
  match f with
  | FileData b => Ok b
  | FileMissing => Fail (Errorf "open %s: no such file or directory" [AStr path])
  | FileError e => Fail e
  end.

Definition no_token : text := line "join token     : not set" [].
(** [fmt.Fprintf] of "unavailable" with [%v] of an error. *)
Definition token_unavailable (e : error) : text := line "join token     : unavailable (%v)\n" [AErr e].

Definition printJoinToken (dir : string) : tx (list text) :=
  match OpenBrief dir with
  | TxPanic => TxPanic
  | TxErr e => TxOk [if Is e "timeout" then line "join token     : (store locked)" [] else token_unavailable e]
  | TxOk db =>
    match Certs db with
    | TxPanic => TxPanic
    | TxErr e => TxOk [if Is e "node not initialized: run 'clusdr init'" then no_token else token_unavailable e]
    | TxOk c =>
      if bool_decide (length (JoinTokenHash c) = 0) then TxOk [no_token] else
      let prefix := hex (JoinTokenHash c) in
      let prefix := if bool_decide (12 < String.length prefix) then String.substring 0 12 prefix else prefix in
      TxOk [line "join token     : configured (sha256:%s…)\n" [AStr prefix];
            line "                plaintext is shown only at 'clusdr init'" []]
    end
  end.

Definition cert_lines (c : Cert) : list text :=
  [line "  not before   : %s\n" [AStr (RFC3339 (UnixMilli (x_NotBefore (cert_of c))))];
   line "  not after    : %s\n" [AStr (RFC3339 (UnixMilli (x_NotAfter (cert_of c))))]].
Definition subject_line (c : Cert) : text := line "  subject      : %s\n" [AStr (x_CommonName (cert_of c))].

(** The lines printed before an error come first. *)
Definition showCerts (dir : string) : tx printed :=
  let ca_path := path_Join dir CAFile in
  match os_error ca_path (read ca_path) with
  | Fail e => TxOk ([], ExitErr (Errorf "read %s: %w" [AStr CAFile; AErr e]))
  | Ok caPEM =>
    match ParseCertificate caPEM with
    | Fail e => TxOk ([], ExitErr (Errorf "parse CA: %w" [AErr e]))
    | Ok ca =>
      match Fingerprint caPEM with
      | Fail e => TxOk ([], ExitErr (Errorf "fingerprint: %w" [AErr e]))
      | Ok fp =>
        let head := [line "cluster CA" []; subject_line ca; line "  fingerprint  : %s\n" [AStr fp]] ++ cert_lines ca ++
          [line "  ca.crt       : %s\n" [AStr ca_path]] in
        let tail out :=
          match printJoinToken dir with
          | TxOk l => TxOk (out ++ line "" [] :: l, Exit0)
          | TxErr e => TxErr e
          | TxPanic => TxPanic
          end in
        match read (path_Join dir CertFile) with
        | FileError e => TxOk (head, ExitErr (Errorf "read %s: %w" [AStr CertFile; AErr e]))
        | FileMissing | FileData [] => tail head
        | FileData nodePEM =>
          match ParseCertificate nodePEM with
          | Fail e => TxOk (head, ExitErr (Errorf "parse node cert: %w" [AErr e]))
          | Ok nd => tail (head ++ [line "" []; line "node certificate" []; subject_line nd] ++ cert_lines nd)
          end
        end
      end
    end
  end.
Definition certs_show (load : result error Config.Config) : tx printed :=
  match load with
  | Fail e => TxOk ([], ExitErr e)
  | Ok c => showCerts (Data_Dir c)
  end.
End certs.

(** ** Flags of [start] *)

Section flags.
Context `{Unicode}.
Context (ParseDuration : string → result error Duration) (getenv : string → string) (home : result error string).
Context (read : string → file) (Unmarshal : list Z → Config.Config → result error Config.Config).

(** The log flags reach every command but the daemon.  A command that runs with
    [--log-level] has that level, whatever the file and the environment say; the
    daemon that [start] runs has the configuration of the file and the environment
    alone, the same for all values of the two flags.  [start --bootstrap] does reach
    it: its configuration bootstraps, and otherwise the environment decides. *)
Theorem cli_start_ignores_log_flags f c :
  loadConfig ParseDuration getenv home read Unmarshal f = Ok c →
  (rf_logLevel f ≠ "" → cl_Level (Log c) = rf_logLevel f) ∧ (rf_logFormat f ≠ "" → cl_Format (Log c) = rf_logFormat f) ∧
  start_config ParseDuration getenv home read Unmarshal false f =
    loadConfig ParseDuration getenv home read Unmarshal (MkFlags (rf_configPath f) "" "") ∧
  (∀ b f', rf_configPath f' = rf_configPath f →
    start_config ParseDuration getenv home read Unmarshal b f' = start_config ParseDuration getenv home read Unmarshal b f) ∧
  ∀ d, start_config ParseDuration getenv home read Unmarshal true f = Ok d → cr_Bootstrap (Raft d) = true.
Proof.
  intros Hl. unfold loadConfig in Hl. destruct (LoadFrom _ _ _ _ _ _) as [c0|e] eqn:Hload; [|done]. injection Hl as <-.
  assert (∀ s, str_empty s = true ↔ s = "") as He by (intros s; apply String.eqb_eq).
  split_and!.
  - intros Hn. destruct (str_empty (rf_logLevel f)) eqn:Hs; [by apply He in Hs|]. by destruct (str_empty (rf_logFormat f)).
  - intros Hn. by destruct (str_empty (rf_logFormat f)) eqn:Hs; [apply He in Hs|].
  - unfold loadConfig. cbn [rf_configPath rf_logLevel rf_logFormat]. rewrite Hload. unfold start_config. exact Hload.
  - intros b f' Hp. unfold start_config. by rewrite Hp.
  - intros d Hd. unfold start_config, LoadFrom in Hd.
    destruct (if str_empty (rf_configPath f) then _ else _) as [c1|e]; [|done]. unfold finishLoad in Hd.
    destruct (Validate _); [done|]. injection Hd as <-. unfold clampRaft.
    by destruct (_ && _).
Qed.
End flags.

(** ** The daemon of a fresh node *)

Section fresh.
Context `{Unicode} `{Bolt DB} `{RA : !RuntimeAPI W K} {T : Type}.
Context (BootstrapTLS : K) (ClientTLS : list Z → list Z → list Z → result error K).
Context (read : W → string → result error (list Z)) (join_path : string → string → string).
Context (reload : list Z * list Z * list Z → result error T).

Lemma ask_mismatch c what r k w :
  ra_plain w (cg_Addr (GRPC c)) = bool_decide (daemonCreds BootstrapTLS ClientTLS read join_path w c ≠ None) →
  ∃ w' e, ask BootstrapTLS ClientTLS read join_path (Ok c) what r k w = (w', ([], ExitErr e)).
Proof.
  intros Hp. unfold ask, dialDaemon. destruct (ra_NewClient _ _) as [e|]; [by eexists _, _|].
  destruct (ra_handshake w _ (cg_Addr (GRPC c)) (cg_RequestTimeout (GRPC c)) r Hp) as (w' & e & ->). by eexists _, _.
Qed.

(** C39: The commands and the daemon of one host speak the same language only if TLS
    is off or the daemon started with certificates in its store.  For a daemon that
    [InitGRPC] started: with TLS off both are in plaintext; with certificates both
    use TLS; and with TLS on and none in the store, the state of every new node,
    the daemon serves plaintext, while the commands use TLS, so that every request,
    the [RequestJoin] that would bring the certificates included, fails. *)
Theorem cli_cannot_reach_fresh_daemon c store tls w :
  init_tls reload c (Some store) = Ok tls →
  ra_plain w (cg_Addr (GRPC c)) = match tls with None => true | Some _ => false end →
  (ra_plain w (cg_Addr (GRPC c)) = bool_decide (daemonCreds BootstrapTLS ClientTLS read join_path w c = None) ↔
    TLSEnabled c = false ∨ ∃ m, loadTLSMaterial (Some store) = TxOk m) ∧
  (TLSEnabled c = true → (∀ m, loadTLSMaterial (Some store) ≠ TxOk m) →
    ∀ what r k, ∃ w' e, ask BootstrapTLS ClientTLS read join_path (Ok c) what r k w = (w', ([], ExitErr e))).
Proof.
  intros Hi Hp. unfold init_tls in Hi.
  assert (daemonCreds BootstrapTLS ClientTLS read join_path w c = None ↔ TLSEnabled c = false) as Hcreds.
  { unfold daemonCreds. destruct (TLSEnabled c); simpl; [|done]. by destruct (ClientFromDir _ _ _ _ _). }
  destruct (TLSEnabled c) eqn:Ht.
  - rewrite bool_decide_eq_false_2 by (rewrite Hcreds; done). split.
    + rewrite Hp. destruct (loadTLSMaterial (Some store)) as [m|e|]; [|injection Hi as <-..].
      * destruct (reload m); [|done]. injection Hi as <-. split; [intros _; right; by exists m|done].
      * split; [done|]. intros [?|[m ?]]; done.
      * split; [done|]. intros [?|[m ?]]; done.
    + intros _ Hno what r k. apply ask_mismatch. rewrite Hp, bool_decide_eq_true_2 by (rewrite Hcreds; done).
      destruct (loadTLSMaterial (Some store)) as [m|e|]; [by destruct (Hno m)|by injection Hi as <-..].
  - injection Hi as <-. rewrite Hp, bool_decide_eq_true_2 by (by apply Hcreds). split; [|done]. split; [by left|done].
Qed.
End fresh.

(** ** What [certs show] gives away *)

Lemma hex_length l : String.length (hex l) = 2 * length l.
Proof. induction l as [|b l IH]; [done|]. simpl. rewrite IH. lia. Qed.
Lemma hex_prefix k l : String.substring 0 (2 * k) (hex l) = hex (take k l).
Proof.
  revert l; induction k as [|k IH]; intros l; [by destruct (hex l)|]. destruct l as [|b l]; [done|].
  replace (2 * S k) with (S (S (2 * k))) by lia. cbn [hex String.substring take]. by rewrite IH.
Qed.

Section disclosure.
Context `{X509 Key Pub Cert} `{Bolt DB}.
Context (RFC3339 : Z → string) (path_Join : string → string → string).

(** [certs show] gives away no secret.  What it prints depends on the files
    [ca.crt] and [node.crt] and, of the store, on the first six bytes of the hash of
    the join token alone: two hosts that agree on these print the same, whatever
    their keys, the key of the CA included, and the rest of the hash are. *)
Theorem certs_show_discloses_prefix dir (read1 read2 : string → file) (open1 open2 : string → tx DB) db1 db2 c1 c2 :
  read1 (path_Join dir CAFile) = read2 (path_Join dir CAFile) →
  read1 (path_Join dir CertFile) = read2 (path_Join dir CertFile) →
  open1 dir = TxOk db1 → open2 dir = TxOk db2 → Certs db1 = TxOk c1 → Certs db2 = TxOk c2 →
  6 < length (JoinTokenHash c1) → 6 < length (JoinTokenHash c2) →
  take 6 (JoinTokenHash c1) = take 6 (JoinTokenHash c2) →
  showCerts RFC3339 path_Join read1 open1 dir = showCerts RFC3339 path_Join read2 open2 dir.
Proof.
  intros Hca Hcert Ho1 Ho2 Hc1 Hc2 Hl1 Hl2 Hpre.
  assert (∀ (op : string → tx DB) db c, op dir = TxOk db → Certs db = TxOk c → 6 < length (JoinTokenHash c) →
    printJoinToken op dir = TxOk [line "join token     : configured (sha256:%s…)\n" [AStr (hex (take 6 (JoinTokenHash c)))];
            line "                plaintext is shown only at 'clusdr init'" []]) as Htok.
  { intros op db c Hop Hc Hl. unfold printJoinToken. rewrite Hop, Hc, bool_decide_eq_false_2 by lia. cbv zeta.
    rewrite bool_decide_eq_true_2 by (rewrite hex_length; lia). by rewrite (hex_prefix 6). }
  unfold showCerts. cbv zeta. by rewrite Hca, Hcert, (Htok open1 db1 c1), (Htok open2 db2 c2), Hpre.
Qed.
End disclosure.

(** ** Concrete hosts *)
Module CliExamples.
Import ConfigExamples StoreExamples PkiExamples.
#[export] Existing Instance latin1.

Definition debug : rootFlags := MkFlags "clusdr.yaml" "debug" "json".
Definition no_file (_ : string) : file := FileMissing.
Definition no_env (_ : string) : string := "".
Definition no_yaml (_ : list Z) (c : Config.Config) : result error Config.Config := Ok c.
Definition debugged : Config.Config := match loadConfig ConfigExamples.parse no_env (Ok "/root") no_file no_yaml debug with Ok c => c | Fail _ => loaded end.
Definition level_of (r : result error Config.Config) : string := match r with Ok c => cl_Level (Log c) | Fail _ => "" end.

Lemma cli_start_ignores_log_flags_witness :
  cl_Level (Log debugged) = "debug" ∧ level_of (start_config ConfigExamples.parse no_env (Ok "/root") no_file no_yaml true debug) = "info".
Proof.
  destruct (cli_start_ignores_log_flags ConfigExamples.parse no_env (Ok "/root") no_file no_yaml debug debugged) as (Hl & _).
  - vm_compute. reflexivity.
  - split; [apply Hl; discriminate|vm_compute; reflexivity].
Defined.

Definition answer (r : request) : reply r :=
  match r with
  | RListMembers => [] | RGetLeader => ("", "") | RHealth => MkHealthReply true "n1" "c1" "standalone"
  | RListLocks => [] | RListLeases => [] | RRequestJoin _ _ _ => MkJoinReply true "" [] true
  | RRequestLeave _ | RRequestPromote _ => MkDoneReply true "" []
  | RPublishEvent _ _ => MkPublished true "" "" ""
  end.
(** A daemon that serves plaintext. *)
#[export] Instance plain_daemon : RuntimeAPI unit unit.
Proof.
  refine {| ra_NewClient _ _ := None;
    ra_call w creds _ _ r := (w, match creds with None => Ok (answer r) | Some _ => Fail (Errorf "tls: first record does not look like a TLS handshake" []) end);
    ra_Watch w _ _ _ _ _ := (w, Ok []); ra_plain _ _ := true |}.
  intros w [[]|] addr t r Hm; [by eexists _, _|done].
Defined.

Lemma cli_cannot_reach_fresh_daemon_witness :
  ∃ e, join tt (λ _ _ _, Ok tt) (λ _ _, Fail (Errorf "no such file" [])) StoreExamples.join_path (Ok loaded) "127.0.0.1:7947" "token" false tt =
    (tt, ([], ExitErr e)).
Proof.
  destruct (cli_cannot_reach_fresh_daemon tt (λ _ _ _, Ok tt) (λ (_ : unit) _, Fail (Errorf "no such file" [])) StoreExamples.join_path
    (λ _, Ok tt) loaded fresh None tt) as [_ Hno].
  - vm_compute. reflexivity.
  - reflexivity.
  - destruct (Hno eq_refl ltac:(by vm_compute) "join" (RRequestJoin "127.0.0.1:7947" "token" false) (λ r : JoinReply,
      if negb (jy_Joined r) then ([], ExitErr (Errorf "join rejected: %s" [AStr (jy_Message r)])) else
      (line "joined cluster" [] :: (if jy_CertIssued r then [line "node certificate issued" []] else []) ++
       line "" [] :: member_table (jy_Members r), Exit0))) as ([] & e & Hr).
    exists e. exact Hr.
Defined.

(** Two hosts of one cluster; only the first holds the key of the CA. *)
Definition hash1 : list Z := [1; 2; 3; 4; 5; 6; 7; 8]%Z.
Definition hash2 : list Z := [1; 2; 3; 4; 5; 6; 9; 9; 9]%Z.
Definition host1 : buckets := (SaveCerts fresh (MkCertsRec (bd_CACert made.1) (bd_CAKey made.1) (bd_NodeCert made.1) [4%Z] hash1)).1.
Definition host2 : buckets := (SaveJoinCerts fresh (bd_CACert made.1) (bd_NodeCert made.1) [5%Z] hash2).1.
Definition pems (path : string) : file :=
  if String.eqb path "/d/ca.crt" then FileData (bd_CACert made.1) else
  if String.eqb path "/d/node.crt" then FileData (bd_NodeCert made.1) else FileMissing.
Definition show (db : buckets) : tx printed := showCerts pretty StoreExamples.join_path pems (λ _, TxOk db) "/d".
Definition certs_of (db : buckets) : Certs_ := match Certs db with TxOk c => c | _ => MkCertsRec [] [] [] [] [] end.

Lemma certs_show_discloses_prefix_witness : show host1 = show host2.
Proof.
  apply (certs_show_discloses_prefix pretty StoreExamples.join_path "/d" pems pems (λ _, TxOk host1) (λ _, TxOk host2) host1 host2
    (certs_of host1) (certs_of host2)); try reflexivity.
  - apply Nat.ltb_lt. vm_compute. reflexivity.
  - apply Nat.ltb_lt. vm_compute. reflexivity.
Defined.
End CliExamples.
