(* ===== verification/Reports.v ===== *)
(** * Reports: what the benchmark and the soak print

    The text and JSON forms of the two reports ([bench/report.go],
    [soak/report.go]) and the commands that write them ([cmd/clusdr-bench],
    [cmd/clusdr-soak]).  [Duration.String] and the floating point of the JSON
    milliseconds are parameters; a printed line is its format and arguments, and a
    JSON object its fields in the order [encoding/json] writes a struct. *)
From S2P Require Import Prelude Events Rig RigStart Bench Soak.

Definition line (format : string) (args : list arg) : error := Errorf format args.

Inductive json (F : Type) : Type :=
  | JInt (z : Z) | JFloat (x : F) | JText (s : string) | JFlag (b : bool)
  | JList (l : list (json F)) | JObject (l : list (string * json F)).
Arguments JInt {F}.
Arguments JFloat {F}.
Arguments JText {F}.
Arguments JFlag {F}.
Arguments JList {F}.
Arguments JObject {F}.

(** A field with [omitempty]: absent when [empty]. *)
Definition omitempty {F} (empty : bool) (k : string) (v : json F) : list (string * json F) :=
  if empty then [] else [(k, v)].

Section reports.
Context {F : Type} (float64 : Z → F) (fdiv : F → F → F) (is_zero : F → bool).
Context (Duration_String : Duration → string) (Error_String : error → string).

(** ** [internal/bench/report.go] *)

Definition ms (d : Duration) : F := fdiv (float64 d) (float64 Millisecond).
Definition detail_text (r : Result_) : string := from_option Error_String "" (r_Detail r).

Definition Result_MarshalJSON (r : Result_) : json F :=
  JObject ([("name", JText (r_Name r)); ("n", JInt (Z.of_nat (r_N r)));
            ("p50_ms", JFloat (ms (r_P50 r))); ("p95_ms", JFloat (ms (r_P95 r)));
            ("p99_ms", JFloat (ms (r_P99 r))); ("max_ms", JFloat (ms (r_Max r)))] ++
           omitempty (is_zero (ms (r_Target r))) "target_ms" (JFloat (ms (r_Target r))) ++
           [("passed", JFlag (r_Passed r))] ++
           omitempty (str_empty (detail_text r)) "detail" (JText (detail_text r))).
Definition bench_json (r : Bench.Report) : json F :=
  JObject [("results", JList (Result_MarshalJSON <$> Bench.rp_Results r)); ("passed", JFlag (Bench.rp_Passed r))].

Definition bench_row (r : Result_) : list error :=
  let target := if (0 <? r_Target r)%Z then Duration_String (r_Target r) else "—" in
  line "%-12s %5d %10s %10s %10s %10s %10s %6s\n"
    [AStr (r_Name r); ANum (Z.of_nat (r_N r)); AStr (Duration_String (r_P50 r)); AStr (Duration_String (r_P95 r));
     AStr (Duration_String (r_P99 r)); AStr (Duration_String (r_Max r)); AStr target; AStr (row_status r)] ::
  from_option (λ e, [line "  %s\n" [AErr e]]) [] (row_detail r).
Definition bench_WriteText (r : Bench.Report) : list error :=
  line "%-12s %5s %10s %10s %10s %10s %10s %6s\n"
    (AStr <$> ["scenario"; "n"; "p50"; "p95"; "p99"; "max"; "target"; "result"]) ::
  flat_map bench_row (Bench.rp_Results r).

(** ** [internal/soak/report.go] *)

Definition LogSummary_json (l : LogSummary) : json F :=
  JObject ([("info", JInt (sm_Info l)); ("warn", JInt (sm_Warn l)); ("error", JInt (sm_Error l))] ++
    omitempty (bool_decide (sm_ByMsg l = ∅)) "by_msg"
      (JObject ((λ x, (x.1, JInt x.2)) <$> sort_by fst (map_to_list (sm_ByMsg l))))).

Definition soak_MarshalJSON (r : Soak.Report) : json F :=
  let n x := JInt (Z.of_nat x) in
  JObject ([("duration", JText (Duration_String (rp_Duration r))); ("ticks", n (rp_Ticks r));
            ("joins", n (rp_Joins r)); ("leaves", n (rp_Leaves r)); ("locks", n (rp_Locks r));
            ("lock_expires", n (rp_LockExpires r)); ("leases", n (rp_Leases r)); ("lease_expires", n (rp_LeaseExpires r));
            ("heap_start_bytes", JInt (rp_HeapStart r)); ("heap_end_bytes", JInt (rp_HeapEnd r));
            ("heap_growth_bytes", JInt (rp_HeapGrowth r)); ("goroutines_start", JInt (rp_GoStart r));
            ("goroutines_end", JInt (rp_GoEnd r)); ("logs", LogSummary_json (rp_Logs r));
            ("passed", JFlag (rp_Passed r))] ++
           omitempty (bool_decide (rp_Failures r = [])) "failures" (JList (JText <$> rp_Failures r))).

Definition soak_WriteText (r : Soak.Report) : list error :=
  let n x := ANum (Z.of_nat x) in
  let status := if rp_Passed r then "PASS" else "FAIL" in
  [line "soak %s  ticks=%d  join/leave=%d/%d  locks=%d (expire %d)  leases=%d (expire %d)\n"
     [AStr status; n (rp_Ticks r); n (rp_Joins r); n (rp_Leaves r); n (rp_Locks r); n (rp_LockExpires r);
      n (rp_Leases r); n (rp_LeaseExpires r)];
   line "  duration %s\n" [AStr (Duration_String (rp_Duration r))];
   line "  heap %d -> %d (growth %d, cap %d)\n"
     [ANum (rp_HeapStart r); ANum (rp_HeapEnd r); ANum (rp_HeapGrowth r); ANum MaxHeapGrowth];
   line "  goroutines %d -> %d (cap +%d)\n" [ANum (rp_GoStart r); ANum (rp_GoEnd r); ANum MaxGoroutineGrowth];
   line "  logs info=%d warn=%d error=%d\n" [ANum (sm_Info (rp_Logs r)); ANum (sm_Warn (rp_Logs r)); ANum (sm_Error (rp_Logs r))]] ++
  ((λ f, line "  fail: %s\n" [AStr f]) <$> rp_Failures r).

(** ** The commands

    What is written to the output, and the error that [main] turns into exit
    status 1.  [written] is what writing the output gives. *)
Inductive written_as : Type := AsText (l : list error) | AsJSON (j : json F).

Definition finish (asJSON : bool) (text : list error) (j : json F) (written : option error) (passed : bool) (missed : error)
    : option written_as * option error :=
  let out := if asJSON then AsJSON j else AsText text in
  match (if asJSON then written else None) with
  | Some err => (Some out, Some err)
  | None => (Some out, if passed then None else Some missed)
  end.
Definition bench_cmd (asJSON : bool) (written : option error) (r : result error Bench.Report) : option written_as * option error :=
  match r with
  | Fail err => (None, Some err)
  | Ok rep => finish asJSON (bench_WriteText rep) (bench_json rep) written (Bench.rp_Passed rep)
                (Errorf "one or more scenarios missed their target" [])
  end.
Definition soak_cmd (asJSON : bool) (written : option error) (r : result error Soak.Report) : option written_as * option error :=
  match r with
  | Fail err => (None, Some err)
  | Ok rep => finish asJSON (soak_WriteText rep) (soak_MarshalJSON rep) written (rp_Passed rep) (Errorf "soak checks missed" [])
  end.
Definition main_status (err : option error) : Z := match err with Some _ => 1 | None => 0 end.

(** ** The verdict that is printed is the verdict of the exit status *)

Definition says_pass (o : written_as) : Prop :=
  match o with
  | AsText l => ∃ args rest, l = line "soak %s  ticks=%d  join/leave=%d/%d  locks=%d (expire %d)  leases=%d (expire %d)\n"
      (AStr "PASS" :: args) :: rest
  | AsJSON (JObject fields) => ("passed", JFlag true) ∈ fields
  | AsJSON _ => False
  end.

(** The exit status of a soak whose output could be written is 0 exactly when the
    output says so, as text or as JSON; the failures are in the text one by one,
    in order, after everything else. *)
Lemma soak_verdict asJSON rep :
  ∃ o, (soak_cmd asJSON None (Ok rep)).1 = Some o ∧
    (main_status (soak_cmd asJSON None (Ok rep)).2 = 0%Z ↔ says_pass o) ∧
    ∃ pre, soak_WriteText rep = pre ++ ((λ f, line "  fail: %s\n" [AStr f]) <$> rp_Failures rep) ∧ length pre = 5.
Proof.
  exists (if asJSON then AsJSON (soak_MarshalJSON rep) else AsText (soak_WriteText rep)).
  split; [by destruct asJSON|]. split; [|by exists (take 5 (soak_WriteText rep))].
  destruct asJSON; unfold soak_cmd, finish; cbn [snd fst].
  - unfold says_pass, soak_MarshalJSON. destruct (rp_Passed rep); cbn -[LogSummary_json].
    + split; [|done]. intros _. do 14 (apply elem_of_cons; right). apply elem_of_cons. by left.
    + split; [done|]. intros Hin. do 15 (apply elem_of_cons in Hin as [[=]|Hin]).
      unfold omitempty in Hin. case_bool_decide; [by apply elem_of_nil in Hin|].
      apply elem_of_cons in Hin as [[=]|Hin]. by apply elem_of_nil in Hin.
  - unfold says_pass, soak_WriteText. destruct (rp_Passed rep); cbn.
    + split; [|done]. intros _. by eexists _, _.
    + split; [done|]. intros (args & rest & [=]).
Qed.

(** A scenario without samples is shown as skipped, whatever its verdict: one that
    has a target counts as failed, so the command fails with no row that says so. *)
Lemma bench_skip_fails target :
  (0 < target)%Z →
  let r := summarize "locks" [] target in
  let rep := Bench.MkReport [r] (r_Passed r) in
  row_status r = "SKIP" ∧ main_status (bench_cmd false None (Ok rep)).2 = 1%Z.
Proof.
  intros Ht. unfold summarize. destruct (Z.eqb_spec target 0); [lia|]. by cbn.
Qed.
End reports.
